(* ===== verification/_CoqProject ===== *)
-Q . S2P
Prelude.v
Counts.v
PrefixTree.v
Coverage.v
Async.v
Machine.v
Session.v
Retry.v
Details.v
Bars.v
Display.v
Fetch.v
Sysroot.v
SysrootJs.v
Install.v
