(* ===== verification/Prelude.v ===== *)
(** * Verification of the test-coverage model and its build tooling

    The repository excerpt holds three source files:

    - [src/unnamed/part_000] : two TypeScript modules,
        lines 1-188   the coverage bars widget ([AbstractTestCoverageBars],
                      [percent], [calculateDisplayedStat], [displayPercent],
                      [renderBar]),
        lines 189-353 the coverage model ([TestCoverage], [AbstractFileCoverage],
                      [ComputedFileCoverage], [FileCoverage]);
    - [src/build/lib/fetch.js] : the download helpers (lines 1-137: [fetchUrls],
        [fetchUrl], [fetchGithub]) followed by the sysroot installer in its
        TypeScript form (lines 139-299: [getSha], [getVSCodeSysrootChecksum],
        [getVSCodeSysroot], [getChromiumSysroot]) and in its compiled form
        (lines 300-451);
    - [src/build/azure-pipelines/linux/install.sh] : the pipeline script.

    The provider hands a flat list of file coverages to [TestCoverage], which
    inserts them into a prefix tree keyed by the segments of their URIs and
    fills the positions above them with sums ([createFileCoverage]); the tree
    is built once and cached as a promise ([getAllFiles], [getUri]); a leaf
    resolves its details on demand ([FileCoverage.details]); the widget
    renders the percentages of a node.  The build tooling is independent of
    the coverage model: the pipeline script loads the compiled installer
    and calls [getVSCodeSysroot], which calls [fetchGithub], which calls
    [fetchUrls] and [fetchUrl].

    ** Files of the development

    - [Prelude]    (this file) notation, tactics, the hint database [cov], and
                   the model of the JavaScript runtime the sources rely on:
                   [String.prototype.split], [Array.prototype.join], the
                   insertion-ordered [Map], nullish assignment, exceptions as
                   [result], and facts on quotients of integers.
    - [Counts]     [ICoveredCount], [emptyCounts], [sumCounts] (imported by the
                   sources from testTypes, modelled from the specification),
                   and the monoid of counts.
    - [PrefixTree] [WellDefinedPrefixTree] (imported from prefixTree, modelled
                   from the specification): [insert], [find], the traversal
                   of [nodes], and the summary of a tree in a commutative
                   monoid.
    - [Coverage]   testCoverage.ts, synchronous part: the constructors of
                   [AbstractFileCoverage] and [FileCoverage], [tpc],
                   [treePathForUri], [treePathToUri], [calculateComputed], the
                   two loops of [createFileCoverage] ([buildTree]) and the
                   lookup of [getUri].
    - [Async]      promises, reactions and the job queue of the language,
                   with the invariant [loopInv] of what a loop holds, who
                   wakes a pending promise ([waking]), the work a loop
                   holds ([weight]) and the reactions it holds up to their
                   order ([held], [linear]).
    - [Machine]    the interface of an object with asynchronous methods (the
                   class [Machine]) and, for every such object, the
                   executions of the event loop: tasks of the environment
                   and jobs ([exec]), and the jobs run to the end ([drain]).
    - [Session]    testCoverage.ts, asynchronous part: [getAllFiles],
                   [getUri] and [createFileCoverage], each split at its
                   [await], as a [Machine] over [Async.Loop] with an
                   environment that calls, answers and schedules.
    - [Retry]      the bound on the calls of the provider in every
                   execution of a session, by the failures its callers saw.
    - [Details]    [FileCoverage.details] and the field [_details], a second
                   [Machine].
    - [Bars]       testCoverageBars.ts: [percent], [calculateDisplayedStat],
                   [displayPercent] with [toFixed], [renderBar], the hover
                   texts with the formatting of [localize], and the widget
                   with [setCoverageInfo].
    - [Display]    the three modules above composed: the invariant of
                   well-formed counts from the answers of the provider,
                   through the session and the tree, to the statistic the
                   widget displays.
    - [Fetch]      build/lib/fetch.js: [fetchUrls], [fetchUrl], [fetchGithub].
    - [Sysroot]    install-sysroot.ts: [getSha], [getVSCodeSysrootChecksum],
                   [getVSCodeSysroot], [getChromiumSysroot].
    - [SysrootJs]  install-sysroot.js, the compiled module (fetch.js lines
                   300-451): the same functions without their types, on
                   any string for the architecture.
    - [Install]    install.sh: the script under [set -e], with the command
                   substitution around [node] that runs the compiled
                   [getVSCodeSysroot], the toolchain variables and the loop
                   around yarn.

    ** Modelling conventions

    - Numbers.  Counts are JavaScript numbers holding integers; they are
      modelled as [Z], and the well-formedness predicate [Counts.wf]
      ([0 <= covered <= total]) is stated separately so that the theorems say
      where it is needed.  Quotients ([percent], [tpc]) are exact rationals
      [Q]; the rounding of floating-point division is not modelled (see
      Assumptions).
    - Objects.  A JavaScript [Map] is an association list in insertion order
      ([JsMap]); [undefined] is [None]; an object mutated in place becomes a
      value that the operation returns.  The prefix tree is a tree of such
      maps; a node object is addressed by its path from the root.
    - Promises.  A promise is an entry of a store, pending with its reactions
      or settled; a method is split at its [await] into the call and a
      reaction; jobs run in the order in which they were queued.
    - Errors.  A thrown exception is the [Err] constructor of [result], or
      the rejection of a promise.
    - Effects of the build tooling.  The requests sent, the lines logged and
      the delays waited are fields of [Fetch.World]; the file system is a
      map from paths to entries ([Sysroot.FS]); the network, the hash
      functions and the child processes are parameters of the sections.
    - Loops and fuel.  The loops over lists and trees are structural.  Three
      loops are written with fuel, and the functions that call them supply
      enough of it: [Fetch.fetchUrl] supplies [S (Z.to_nat retries)] for a
      loop that recurses while [retries > 0] with [retries - 1]
      ([Fetch.fetchUrl_terminates]); [Sysroot.getSha] supplies one more than
      the length of the file for a loop that advances by the length of the
      buffer ([Sysroot.getSha_with_correct]); [Sysroot.getChromiumSysroot]
      supplies 4 for a loop that ends when its counter reaches 3
      ([Sysroot.download_loop_spec]).  The jobs of an event loop are run by
      [Machine.drain] with fuel; [Session.work] and [Details.workDetails],
      the number of reactions and actions that a state holds, are enough,
      since every job lowers them ([Session.drain_terminates]).

    ** Assumptions

    What the model takes from outside the sources, and the theorems that
    rest on it.

    - The enumeration [tree.nodes].  prefixTree is not among the sources.
      The specification (4.1) has [nodes] produce every position of the
      tree with its path; the loop of [createFileCoverage] takes each
      element as a node and passes the empty path with it.
      [PrefixTree.nodes] is the positions below the root, in pre-order, and
      [Coverage.computeNodes] the loop over them.  The loop over the nodes
      at the top of the tree only leaves the same value at every position
      that is not below a file ([Coverage.buildTree_top_nodes]), and the
      positions below a file as the insertion left them
      ([Coverage.computeTopNodes_kept]), where [computeNodes] computes them
      with the empty path.  The loop over every
      position with the root first leaves the same counts
      ([Coverage.computeAllNodes_counts]) and other URIs: its first call,
      at the root, passes every position its own path
      ([Coverage.computeAllNodes_uri]).  So the counts that
      [buildTree_aggregates] gives are those of all three enumerations,
      and [buildTree_computed_uri] holds of the two that do not start at
      the root.
    - URIs.  [URI.from] and [URI.revive] are outside the sources: a node
      records the components that [treePathToUri] passes to [URI.from],
      and the theorems on URIs are about these components.  [URI.from]
      validates and normalises what it is given and can throw; the model
      takes it to accept every list of components, so [createFileCoverage]
      never fails in it, and the theorems on what a session hands to its
      callers ([Session.getAllFiles_outcome], [Session.getUri_outcome])
      are theorems of the program as long as [URI.from] does.  By
      [buildTree_computed_uri] one of the components it is given is the
      authority of a file in the place of the scheme.
    - Floating point.  [percent], [tpc] and [displayPercent] compute with
      exact rationals, where the program divides doubles; the rounding of
      the division is not modelled, and the theorems on [displayPercent]
      and on the range [0, 1] are theorems of the exact arithmetic.
    - The display method is one of the three values of its enumeration;
      the default case of [calculateDisplayedStat], [assertNever], has no
      counterpart.
    - [localize] is imported from vs/nls, which is neither among the
      sources nor in the specification: [Bars.format] replaces the
      placeholders [{n}], with [n] a decimal index, as that library does,
      and [Bars.hover_texts_lack_percent] rests on it.
    - Reads.  [Sysroot.readSync] delivers as many bytes as are asked while
      the file has them, as the system does for a regular file, and
      [getSha_with_correct] is proved of it.  [Sysroot.getSha_short] is
      [getSha] without the assumption: it is [getSha_with] when no read is
      short ([getSha_short_full]), and the digest of a prefix of the file
      when one is ([getSha_short_prefix]).
    - Child processes.  The status that [spawnSync] returns is a number or
      [null] ([Sysroot.Status]) and is tested as the code tests it: [!== 0]
      for [curl], truthiness for [tar].  [fs.readFileSync] throws for a
      path that is no file; inside the executor of the promise of
      [getVSCodeSysroot] that rejects the promise.
    - [fetchUrls] starts the fetches of its urls together; the model runs
      them one url after the other.  The outcome of a request depends on
      its url and on the number of earlier requests for that url, so the
      files and the errors are the same, and [World] holds one of the
      orders in which the requests can be sent.  [fetchGithub] passes one
      url.
    - The exit status of [node].  [Install.nodeStatus] is 0 when the
      promise of [getVSCodeSysroot] resolved; the status after a rejection
      that nobody handles and the status after an error of a stream
      without listener are parameters ([unhandledRejection],
      [streamError]): the versions of node and of the stream library
      decide them.

    ** What the theorems show

    - [Coverage]: [createFileCoverage] computes, at every position above the
      files, the sums of the counts of the files below it
      ([buildTree_aggregates], through the summary of [PrefixTree]); one call
      of [calculateComputed] sums its children and stores the result
      ([calculateComputed_sums]), and is idempotent afterwards
      ([calculateComputed_memo]); the loop over [tree.nodes] is the recursive
      filling [fillTree] ([computeNodes_fillTree]); files are never
      overwritten and every position holds a value afterwards; every value
      of the tree built from well-formed files is well formed, the sums
      included ([buildTree_wf]); [tpc] lies in [0,1] on well-formed nodes
      and is 1 when nothing is measurable; the tree path of a URI
      round-trips.  The theorems also establish where the
      code departs from its specification: the constructor copies [branch]
      into [function], every file is created with index 0, [getUri] looks a
      file up without scheme and authority, and computed nodes get the URI
      of a path that lacks its first segment.
    - [Machine]: an invariant of the actions and of the jobs holds after
      every execution ([exec_invariant]), and [drain] empties the queue when
      every job lowers a measure ([drain_spec]).  [Session] and [Details]
      prove their theorems through these two.
    - [Session]: in every execution a settled promise of [getAllFiles] or
      [getUri] holds what the code makes of the outcome of one call of the
      provider, the tree or the lookup in it, or the error
      ([getAllFiles_outcome], [getUri_outcome]; the invariant [attached]
      gives every promise a kind and the call of the provider it depends
      on); every job runs with an outcome of the type its continuation
      awaited ([jobs_well_typed]); the jobs run out ([drain_terminates], by
      the measure [work]), and when the provider has answered every caller
      is resumed ([callers_settled], by the invariant [live]).  Without
      failure the provider is called once ([provider_called_once]) and all
      callers receive the tree of its one answer
      ([getAllFiles_shares_tree]).  A failure clears the cache and the next
      call retries ([failure_then_retry]); a late continuation can clear a
      construction that is not the one that failed, so that two are in
      flight ([two_constructions_in_flight]).
    - [Retry]: in every execution the provider is called at most once more
      than there are promises of [getAllFiles] that were rejected
      ([provider_calls_bounded]); every promise of a method is settled by
      one continuation, which finds it pending
      ([continuation_settles_once], by the invariant [exact] with
      [Async.linear]).
    - [Details]: the same for the details of a file: in every execution a
      caller receives the details of the file or the outcome of a call of
      the resolver ([details_outcome], by the invariant [tracedDetails]);
      one call of the resolver without failure ([details_resolved_once]),
      one result for all callers ([details_shares_result]), every caller
      resumed
      ([details_callers_settled]), the jobs run out
      ([details_drain_terminates]), retry after a failure
      ([details_failure_then_retry]) and two resolutions in flight
      ([two_resolutions_in_flight]).
    - [Bars]: the statistic displayed for any position of the tree of
      [Coverage] lies in [0,1] ([buildTree_displayed_range], the
      composition of the two modules), the minimum of the selector, the
      colour thresholds, the formatting of percentages with the guard of
      [displayPercent] that never applies, what [render] writes to the bars,
      the hover texts, which never show the percentage
      ([hover_texts_lack_percent]), and the invariant of the widget under
      [setCoverageInfo], configuration changes and mouse events.
    - [Display]: when the provider hands over well-formed counts, every
      file, tree and node that the promises and the jobs of a session carry
      is well formed ([wfSession_exec]), so every node a caller receives is
      displayed with a statistic in [0,1] ([session_displayed_range]).
    - [Fetch]: [fetchUrl] terminates, returns the first success or the last
      error within [retries + 1] requests, verifies the checksum it is
      given, and ignores the environment variables for its verbosity.
    - [Sysroot]: [getSha] is the hash of the whole file when no read is
      short; the checksum file is parsed as [sha256sum] prints it;
      [getVSCodeSysroot] returns only verified and stamped sysroots, and a
      different path when the sysroot is cached; [getChromiumSysroot]
      returns only stamped sysroots whose tarball had the SHA-1 of its
      entry, after a [tar] whose status is 0 or [null]
      ([getChromiumSysroot_ok]): a [tar] that a signal ended passes for
      one that succeeded ([getChromiumSysroot_tar_null]).
    - [SysrootJs]: the compiled module is its source on the architectures
      of the source ([js_installer_typed]); for every other string
      [getVSCodeSysroot] returns ([js_getVSCodeSysroot_terminates]) and
      never resolves ([js_getVSCodeSysroot_unhandled]).
    - [Install]: the script ends ([install_terminates]) and composes with
      the installer as it is written:
      [VSCODE_SYSROOT_DIR] holds what the installer logs and never the path
      it resolves ([sysrootCommand_never_path]); the architectures [x64]
      and [arm] of the pipeline are none of the installer, and the script
      stops there, whether the checksum file is there or not
      ([install_unhandled_arch]); the loop around yarn gives up at the third
      failure ([yarn_loop_gives_up]).

    ** Not modelled

    The DOM, the hover and configuration services, cancellation tokens,
    the disposal of the widget, which it inherits, the streams
    of the build tooling beyond the values they carry, and the timer of the
    30 second abort are outside the model; where the code depends on them
    they are parameters or outcomes of the environment.  Of the compiled
    installer, [getSha] and the download loop are the text of the source
    and are modelled once, in [Sysroot].  Of the pipeline script, the
    programs it runs (yarn, curl, python, the libcxx fetcher) are their exit
    status, and what [node] writes to its standard error is left out. *)

From Stdlib Require Export ZArith QArith Lqa Lia.
From Stdlib Require Export Ascii String.
From stdpp Require Export base tactics option list strings.

#[global] Open Scope string_scope.
#[global] Open Scope list_scope.
#[global] Open Scope Z_scope.

(** ** The hint database and the tactics of the development *)

Create HintDb cov discriminated.
Create Rewrite HintDb cov.

(** [invert H]: inversion that cleans up after itself. *)
Ltac invert H := inversion H; subst; clear H.

(** [break_let]: name the components of a destructuring [let]. *)
Ltac break_let :=
  repeat match goal with
    | |- context [let '(_, _) := ?e in _] => destruct e eqn:?
    | H : context [let '(_, _) := ?e in _] |- _ => destruct e eqn:?
    end.

(** [break_if]: case analysis on the test of an [if] or the scrutinee of a
    [match], keeping the equation. *)
Ltac break_if :=
  match goal with
  | |- context [if ?b then _ else _] => destruct b eqn:?
  | H : context [if ?b then _ else _] |- _ => destruct b eqn:?
  end.

(** ** Errors as values *)

Inductive result (E A : Type) : Type :=
| Ok (a : A)
| Err (e : E).
Arguments Ok {E A} a.
Arguments Err {E A} e.

Definition result_bind {E A B} (r : result E A) (k : A -> result E B) : result E B :=
  match r with
  | Ok a => k a
  | Err e => Err e
  end.

Definition is_ok {E A} (r : result E A) : bool :=
  match r with Ok _ => true | Err _ => false end.

Declare Scope js_scope.
Delimit Scope js_scope with js.
Notation "x <-? r ; k" := (result_bind r (fun x => k))
  (at level 100, r at next level, right associativity) : js_scope.

#[export] Instance result_eq_dec {E A} `{EqDecision E, EqDecision A} :
  EqDecision (result E A).
Proof. solve_decision. Defined.

Lemma result_bind_ok {E A B} (a : A) (k : A -> result E B) :
  result_bind (Ok a) k = k a.
Proof. reflexivity. Qed.

Lemma result_bind_err {E A B} (e : E) (k : A -> result E B) :
  result_bind (Err e) k = Err e.
Proof. reflexivity. Qed.

Lemma result_bind_inv {E A B} (r : result E A) (k : A -> result E B) b :
  result_bind r k = Ok b -> exists a, r = Ok a /\ k a = Ok b.
Proof. destruct r; simpl; [eauto | discriminate]. Qed.

#[export] Hint Rewrite @result_bind_ok @result_bind_err : cov.

(** ** Nullish assignment

    [x ??= e] leaves a defined [x] alone and stores [e] otherwise; the
    expression evaluates to the stored value. *)

Definition nullish_assign {A} (x : option A) (e : A) : A := default e x.

Notation "x ??= e" := (nullish_assign x e) (at level 70, no associativity) : js_scope.

Lemma nullish_assign_some {A} (a e : A) : nullish_assign (Some a) e = a.
Proof. reflexivity. Qed.

Lemma nullish_assign_none {A} (e : A) : nullish_assign None e = e.
Proof. reflexivity. Qed.

#[export] Hint Rewrite @nullish_assign_some @nullish_assign_none : cov.

(** ** Lists *)

(** Two maps over a list agree when the functions agree on the elements that
    satisfy two properties known of all of them. *)
Lemma map_ext_Forall_2 {A B} (P R : A -> Prop) (f g : A -> B) (l : list A) :
  Forall P l -> Forall R l -> (forall x, P x -> R x -> f x = g x) -> map f l = map g l.
Proof.
  intros HP HR Hfg. induction HP as [|x l Hx _ IH]; [reflexivity|].
  invert HR. simpl. f_equal; auto.
Qed.

Lemma Forall_impl_2 {A} (P R S : A -> Prop) (l : list A) :
  Forall P l -> Forall R l -> (forall x, P x -> R x -> S x) -> Forall S l.
Proof.
  intros HP HR Himp. induction HP as [|x l Hx _ IH]; [constructor|].
  invert HR. constructor; auto.
Qed.

(** ** Strings: [String.prototype.split] and [Array.prototype.join]

    [split sep s] cuts [s] at every occurrence of the character [sep]; like
    the JavaScript method it never returns the empty array: the empty string
    splits into one empty segment. *)

Fixpoint split (sep : ascii) (s : string) : list string :=
  match s with
  | EmptyString => [EmptyString]
  | String c s' =>
      if Ascii.eqb c sep then EmptyString :: split sep s'
      else match split sep s' with
           | [] => [String c EmptyString]
           | h :: t => String c h :: t
           end
  end.

Definition join (sep : ascii) (l : list string) : string :=
  String.concat (String sep EmptyString) l.

(** [no_sep sep s]: the character does not occur in [s]. *)
Fixpoint no_sep (sep : ascii) (s : string) : bool :=
  match s with
  | EmptyString => true
  | String c s' => negb (Ascii.eqb c sep) && no_sep sep s'
  end.

Lemma split_not_nil sep s : split sep s <> [].
Proof.
  destruct s as [|c s]; simpl; [discriminate|].
  destruct (Ascii.eqb c sep); [discriminate|].
  destruct (split sep s); discriminate.
Qed.

Lemma split_cons sep s : exists h t, split sep s = h :: t.
Proof.
  destruct (split sep s) as [|h t] eqn:E; [|eauto].
  exfalso; eapply split_not_nil; eauto.
Qed.

Lemma join_cons sep x y l :
  join sep (x :: y :: l) = (x ++ String sep (join sep (y :: l)))%string.
Proof. reflexivity. Qed.

Lemma join_singleton sep x : join sep [x] = x.
Proof. reflexivity. Qed.

Lemma join_cons_char sep c h t :
  join sep (String c h :: t) = String c (join sep (h :: t)).
Proof. destruct t; reflexivity. Qed.

(** Joining the segments of a string with the separator it was cut at gives
    the string back. *)
Lemma join_split sep s : join sep (split sep s) = s.
Proof.
  induction s as [|c s IH]; simpl; [reflexivity|].
  destruct (split_cons sep s) as (h & t & E). rewrite E in *.
  destruct (Ascii.eqb_spec c sep) as [->|_].
  - rewrite join_cons. simpl. now rewrite IH.
  - rewrite join_cons_char. now rewrite IH.
Qed.

Lemma split_no_sep sep s : no_sep sep s = true -> split sep s = [s].
Proof.
  induction s as [|c s IH]; simpl; [reflexivity|].
  intros [Hc Hs]%andb_prop. rewrite (IH Hs).
  now destruct (Ascii.eqb c sep).
Qed.

Lemma split_app_sep sep a s :
  no_sep sep a = true ->
  split sep (a ++ String sep s) = a :: split sep s.
Proof.
  induction a as [|c a IH]; simpl.
  - now rewrite Ascii.eqb_refl.
  - intros [Hc Ha]%andb_prop. rewrite (IH Ha).
    now destruct (Ascii.eqb c sep).
Qed.

(** Cutting a joined list gives the list back when no segment holds the
    separator and the list is not empty (the empty list joins to the empty
    string, which splits into one empty segment). *)
Lemma split_join sep l :
  l <> [] -> forallb (no_sep sep) l = true -> split sep (join sep l) = l.
Proof.
  induction l as [|x l IH]; [congruence|]. intros _. simpl.
  intros [Hx Hl]%andb_prop. destruct l as [|y l].
  - rewrite join_singleton. now apply split_no_sep.
  - rewrite join_cons, split_app_sep by assumption.
    f_equal. apply IH; [discriminate | assumption].
Qed.

Lemma split_segments_no_sep sep s : forallb (no_sep sep) (split sep s) = true.
Proof.
  induction s as [|c s IH]; simpl; [reflexivity|].
  destruct (split_cons sep s) as (h & t & E). rewrite E in *.
  destruct (Ascii.eqb c sep) eqn:Ec; simpl in *; [assumption|].
  now rewrite Ec.
Qed.

#[export] Hint Rewrite join_split : cov.
#[export] Hint Resolve split_not_nil split_segments_no_sep : cov.

Lemma length_append (s t : string) :
  String.length (s +:+ t) = (String.length s + String.length t)%nat.
Proof. induction s as [|c s IH]; simpl; [reflexivity|]. now rewrite IH. Qed.

(** ** Counting with [filter] *)

(** More elements pass a test that is implied. *)
Lemma length_filter_mono {A} (P Q : A -> bool) (xs : list A) :
  (forall x, x ∈ xs -> P x = true -> Q x = true) ->
  (length (List.filter P xs) <= length (List.filter Q xs))%nat.
Proof.
  induction xs as [|x xs IH]; intros H; cbn; [lia|].
  assert (IH' := IH (fun y Hy => H y (list_elem_of_further _ _ _ Hy))).
  pose proof (H x (list_elem_of_here _ _)) as Hx.
  destruct (P x), (Q x); cbn; first [lia | discriminate (Hx eq_refl)].
Qed.

(** Strictly more when an element passes the second test only. *)
Lemma length_filter_strict {A} (P Q : A -> bool) (xs : list A) x :
  (forall y, y ∈ xs -> P y = true -> Q y = true) ->
  x ∈ xs -> P x = false -> Q x = true ->
  (length (List.filter P xs) < length (List.filter Q xs))%nat.
Proof.
  intros H Hx HP HQ. induction Hx as [x xs|x y xs Hx IH]; cbn.
  - pose proof (length_filter_mono P Q xs (fun y Hy => H y (list_elem_of_further _ _ _ Hy))).
    rewrite HP, HQ. cbn. lia.
  - specialize (IH (fun z Hz => H z (list_elem_of_further _ _ _ Hz)) HP HQ).
    pose proof (H y (list_elem_of_here _ _)) as Hy.
    destruct (P y), (Q y); cbn; first [lia | discriminate (Hy eq_refl)].
Qed.

(** ** The insertion-ordered [Map]

    A JavaScript [Map] iterates in insertion order and [set] on a present key
    keeps the key's position: an association list whose keys are distinct. *)

Section JsMap.
Context {K V : Type} `{EqDecision K}.

Fixpoint map_get (k : K) (m : list (K * V)) : option V :=
  match m with
  | [] => None
  | (k', v) :: m' => if decide (k = k') then Some v else map_get k m'
  end.

Fixpoint map_set (k : K) (v : V) (m : list (K * V)) : list (K * V) :=
  match m with
  | [] => [(k, v)]
  | (k', v') :: m' =>
      if decide (k = k') then (k, v) :: m' else (k', v') :: map_set k v m'
  end.

Definition map_has (k : K) (m : list (K * V)) : bool :=
  bool_decide (is_Some (map_get k m)).

Definition map_keys (m : list (K * V)) : list K := m.*1.

Definition map_values (m : list (K * V)) : list V := m.*2.

Lemma map_get_set_eq k v m : map_get k (map_set k v m) = Some v.
Proof.
  induction m as [|[k' v'] m IH]; simpl; repeat case_decide; simpl;
    repeat case_decide; congruence.
Qed.

Lemma map_get_set_ne k k' v m :
  k <> k' -> map_get k' (map_set k v m) = map_get k' m.
Proof.
  intros Hne. induction m as [|[k0 v0] m IH]; simpl; repeat case_decide; simpl;
    repeat case_decide; congruence.
Qed.

Lemma map_get_set k k' v m :
  map_get k' (map_set k v m) = if decide (k = k') then Some v else map_get k' m.
Proof.
  case_decide; [subst; apply map_get_set_eq | now apply map_get_set_ne].
Qed.

Lemma map_get_None k m : map_get k m = None <-> k ∉ map_keys m.
Proof.
  unfold map_keys. induction m as [|[k' v'] m IH]; simpl.
  - split; [intros _; apply not_elem_of_nil | reflexivity].
  - rewrite not_elem_of_cons. case_decide; [split; [discriminate | tauto] | tauto].
Qed.

Lemma map_get_Some_elem k v m : map_get k m = Some v -> (k, v) ∈ m.
Proof.
  induction m as [|[k' v'] m IH]; simpl; [discriminate|].
  case_decide; [intros [= ->]; subst; left | right; auto].
Qed.

Lemma map_get_elem k v m : NoDup (map_keys m) -> (k, v) ∈ m -> map_get k m = Some v.
Proof.
  unfold map_keys. induction m as [|[k' v'] m IH]; simpl.
  - intros _ H0; invert H0.
  - intros [Hk Hm]%NoDup_cons [[= -> ->]|Hin]%elem_of_cons.
    + now rewrite decide_True.
    + rewrite decide_False; [auto|]. intros ->. apply Hk.
      apply list_elem_of_fmap. now exists (k', v).
Qed.

(** [set] on a present key leaves the keys and their order alone; on an absent
    key it appends the key. *)
Lemma map_keys_set k v m :
  map_keys (map_set k v m) =
  if map_has k m then map_keys m else map_keys m ++ [k].
Proof.
  unfold map_has, map_keys. induction m as [|[k' v'] m IH]; csimpl; [reflexivity|].
  destruct (decide (k = k')) as [->|Hne]; csimpl.
  - reflexivity.
  - rewrite IH. now destruct (bool_decide (is_Some (map_get k m))).
Qed.

Lemma map_set_NoDup k v m : NoDup (map_keys m) -> NoDup (map_keys (map_set k v m)).
Proof.
  intros Hm. rewrite map_keys_set. unfold map_has. case_bool_decide as Hk; [assumption|].
  apply NoDup_app. repeat split; [assumption | | apply NoDup_singleton].
  intros x Hx Hx'. apply list_elem_of_singleton in Hx'. subst x. apply Hk.
  destruct (map_get k m) eqn:E; [eauto|]. now apply map_get_None in E.
Qed.

Lemma map_set_length k v m :
  length (map_set k v m) = if map_has k m then length m else S (length m).
Proof.
  pose proof (f_equal length (map_keys_set k v m)) as H0. unfold map_keys in H0.
  rewrite !length_fmap in H0. rewrite H0.
  destruct (map_has k m); rewrite ?length_fmap, ?length_app, ?length_fmap; simpl; lia.
Qed.

Lemma map_set_set k v v' m : map_set k v' (map_set k v m) = map_set k v' m.
Proof.
  induction m as [|[k0 v0] m IH]; simpl; repeat case_decide; simpl;
    repeat case_decide; congruence.
Qed.

(** Storing the value a key already has changes nothing. *)
Lemma map_set_get_id k v m : map_get k m = Some v -> map_set k v m = m.
Proof.
  induction m as [|[k0 v0] m IH]; simpl; [discriminate|].
  case_decide; [intros [= ->]; now subst | intros; f_equal; auto].
Qed.

(** A property of all values is kept by [set] and read by [get]. *)
Lemma map_Forall_set (P : V -> Prop) k v m :
  Forall (fun kv => P kv.2) m -> P v -> Forall (fun kv => P kv.2) (map_set k v m).
Proof.
  intros Hm Hv. induction Hm as [|[k0 v0] m H0 Hm IH]; simpl.
  - now constructor.
  - case_decide; constructor; auto.
Qed.

Lemma map_Forall_get (P : V -> Prop) k v m :
  Forall (fun kv => P kv.2) m -> map_get k m = Some v -> P v.
Proof.
  intros Hm Hk. apply map_get_Some_elem in Hk.
  rewrite Forall_forall in Hm. exact (Hm _ Hk).
Qed.

(** Mapping the values of a map commutes with [get]. *)
Lemma map_get_fmap (g : K -> V -> V) k m :
  map_get k (map (fun kv => (kv.1, g kv.1 kv.2)) m) = g k <$> map_get k m.
Proof.
  induction m as [|[k0 v0] m IH]; simpl; [reflexivity|].
  case_decide; [now subst | exact IH].
Qed.

Lemma map_keys_fmap (g : K -> V -> V) m :
  map_keys (map (fun kv => (kv.1, g kv.1 kv.2)) m) = map_keys m.
Proof. unfold map_keys. induction m as [|[k0 v0] m IH]; csimpl; congruence. Qed.

(** An entry behind entries with other keys is the one [get] and [set] reach. *)
Lemma map_get_app_fresh k v (done l : list (K * V)) :
  k ∉ map_keys done -> map_get k (done ++ (k, v) :: l) = Some v.
Proof.
  unfold map_keys. induction done as [|[k0 v0] done IH]; simpl; intros Hk.
  - now rewrite decide_True.
  - apply not_elem_of_cons in Hk as [Hne Hk]. rewrite decide_False by congruence. auto.
Qed.

Lemma map_set_app_fresh k v v' (done l : list (K * V)) :
  k ∉ map_keys done ->
  map_set k v' (done ++ (k, v) :: l) = done ++ (k, v') :: l.
Proof.
  unfold map_keys. induction done as [|[k0 v0] done IH]; simpl; intros Hk.
  - now rewrite decide_True.
  - apply not_elem_of_cons in Hk as [Hne Hk]. rewrite decide_False by congruence.
    f_equal. auto.
Qed.

Lemma map_keys_app_fresh k v (done l : list (K * V)) :
  NoDup (map_keys (done ++ (k, v) :: l)) -> k ∉ map_keys done.
Proof.
  unfold map_keys. rewrite fmap_app. intros (_ & Hdis & _)%NoDup_app Hk.
  apply (Hdis _ Hk). left.
Qed.

(** Updating every key of a map in turn, each from the value the map held
    at first, is a [map] over its entries. *)
Lemma map_set_all_aux (h : V -> V) (l done : list (K * V)) :
  NoDup (map_keys (done ++ l)) ->
  fold_left (fun m kv => map_set kv.1 (h kv.2) m) l (done ++ l) =
  done ++ map (fun kv => (kv.1, h kv.2)) l.
Proof.
  revert done. induction l as [|[k v] l IH]; intros done Hnd; simpl; [reflexivity|].
  rewrite map_set_app_fresh by (eapply map_keys_app_fresh; eauto).
  rewrite (cons_middle (k, h v)), app_assoc, IH.
  - now rewrite <- app_assoc.
  - unfold map_keys in *. rewrite <- app_assoc. simpl.
    rewrite fmap_app in *. exact Hnd.
Qed.

Lemma map_set_all (h : V -> V) (m : list (K * V)) :
  NoDup (map_keys m) ->
  fold_left (fun m kv => map_set kv.1 (h kv.2) m) m m =
  map (fun kv => (kv.1, h kv.2)) m.
Proof. intros Hnd. exact (map_set_all_aux h m [] Hnd). Qed.

End JsMap.

#[export] Hint Rewrite @map_get_set_eq : cov.
#[export] Hint Resolve map_set_NoDup : cov.

(** ** Quotients of counts

    [ratio n d] is the quotient the sources compute for a count, with their
    policy for an empty denominator: [d === 0 ? 1 : n / d]. *)

Definition ratio (n d : Z) : Q :=
  if d =? 0 then 1%Q else (inject_Z n / inject_Z d)%Q.

Lemma ratio_zero_den n : ratio n 0 = 1%Q.
Proof. reflexivity. Qed.

Lemma ratio_nonzero n d : d <> 0 -> ratio n d = (inject_Z n / inject_Z d)%Q.
Proof. unfold ratio. intros Hd. now rewrite (proj2 (Z.eqb_neq d 0) Hd). Qed.

Lemma inject_Z_pos d : 0 < d -> (0 < inject_Z d)%Q.
Proof. intros Hd. change 0%Q with (inject_Z 0). now rewrite <- Zlt_Qlt. Qed.

Lemma Qdiv_mult_cancel (a b : Q) : (0 < b)%Q -> (a / b * b == a)%Q.
Proof. intros Hb. field. intros E. rewrite E in Hb. now apply Qlt_irrefl in Hb. Qed.

(** For a positive denominator, comparing the quotient with a rational is
    comparing the numerator with a product. *)
Lemma ratio_le_iff n d (q : Q) :
  0 < d -> (ratio n d <= q)%Q <-> (inject_Z n <= q * inject_Z d)%Q.
Proof.
  intros Hd. rewrite ratio_nonzero by lia. pose proof (inject_Z_pos d Hd) as Hq.
  rewrite <- (Qmult_le_r _ _ _ Hq), Qdiv_mult_cancel by assumption. reflexivity.
Qed.

Lemma ratio_ge_iff n d (q : Q) :
  0 < d -> (q <= ratio n d)%Q <-> (q * inject_Z d <= inject_Z n)%Q.
Proof.
  intros Hd. rewrite ratio_nonzero by lia. pose proof (inject_Z_pos d Hd) as Hq.
  rewrite <- (Qmult_le_r _ _ _ Hq), Qdiv_mult_cancel by assumption. reflexivity.
Qed.

Lemma ratio_lt_iff n d (q : Q) :
  0 < d -> (ratio n d < q)%Q <-> (inject_Z n < q * inject_Z d)%Q.
Proof.
  intros Hd. rewrite ratio_nonzero by lia. pose proof (inject_Z_pos d Hd) as Hq.
  rewrite <- (Qmult_lt_r _ _ _ Hq), Qdiv_mult_cancel by assumption. reflexivity.
Qed.

(** A quotient of a well-formed count lies between 0 and 1. *)
Lemma ratio_range n d : 0 <= n <= d -> (0 <= ratio n d <= 1)%Q.
Proof.
  intros [Hn Hd]. destruct (Z.eq_dec d 0) as [->|Hd0]; [rewrite ratio_zero_den; lra|].
  rewrite ratio_ge_iff, ratio_le_iff by lia.
  rewrite Qmult_0_l, Qmult_1_l. change 0%Q with (inject_Z 0).
  now rewrite <- !Zle_Qle.
Qed.

(** It is 1 exactly when the count is full or empty. *)
Lemma ratio_eq_1_iff n d : 0 <= d -> (ratio n d == 1)%Q <-> n = d \/ d = 0.
Proof.
  intros Hd. destruct (Z.eq_dec d 0) as [->|Hd0]; [rewrite ratio_zero_den; intuition reflexivity|].
  rewrite ratio_nonzero by lia. split.
  - intros H0. left. apply inject_Z_injective.
    rewrite <- (Qdiv_mult_cancel (inject_Z n) (inject_Z d)) by (apply inject_Z_pos; lia).
    rewrite H0. apply Qmult_1_l.
  - intros [->|?]; [|contradiction]. field.
    intros E. apply (proj1 (inject_Z_injective d 0)) in E. lia.
Qed.

Lemma ratio_lt_1 n d : 0 <= n < d -> (ratio n d < 1)%Q.
Proof.
  intros [Hn Hd]. rewrite ratio_lt_iff by lia. rewrite Qmult_1_l. now rewrite <- Zlt_Qlt.
Qed.

(** [by_compute]: prove a decidable proposition by evaluating its decision
    procedure. *)
Ltac by_compute := apply (bool_decide_unpack _); vm_compute; exact I.
