(* ===== verification/Counts.v ===== *)
(** * Covered counts

    [ICoveredCount], [emptyCounts] and [sumCounts] are imported by the
    coverage model from testTypes, which is not among the sources; they are
    modelled from the specification (section 3: a pair [{covered, total}],
    summed componentwise).  [sumCounts] updates its first argument in place:
    here it returns the updated record.

    The file also holds the algebra the aggregation proofs use: counts form a
    commutative monoid, optional counts (a category that may be absent) form
    one too, and well-formedness [0 <= covered <= total] is closed under
    sums. *)

From S2P Require Import Prelude.
From Stdlib Require Import Permutation.

Record ICoveredCount : Type := mkCount { covered : Z; total : Z }.

#[export] Instance ICoveredCount_eq_dec : EqDecision ICoveredCount.
Proof. solve_decision. Defined.

Definition emptyCounts : ICoveredCount := mkCount 0 0.

Definition sumCounts (target src : ICoveredCount) : ICoveredCount :=
  mkCount (covered target + covered src) (total target + total src).

(** The data-model invariant of a count. *)
Definition wf (c : ICoveredCount) : Prop := 0 <= covered c <= total c.

#[export] Instance wf_dec c : Decision (wf c).
Proof. unfold wf. apply _. Defined.

(** The sum of a list of counts, accumulated from [emptyCounts] in list order
    as a loop over the list would. *)
Definition sumAll (l : list ICoveredCount) : ICoveredCount :=
  fold_left sumCounts l emptyCounts.

(** Optional counts: [None] is an absent category.  [sumOpt acc v] is the
    update [if (v) { sumCounts(acc ??= emptyCounts(), v) }]. *)
Definition sumOpt (acc v : option ICoveredCount) : option ICoveredCount :=
  match v with
  | Some c => Some (sumCounts (nullish_assign acc emptyCounts) c)
  | None => acc
  end.

Definition sumAllOpt (l : list (option ICoveredCount)) : option ICoveredCount :=
  fold_left sumOpt l None.

Definition wfOpt (o : option ICoveredCount) : Prop :=
  match o with Some c => wf c | None => True end.

#[export] Instance wfOpt_dec o : Decision (wfOpt o).
Proof. destruct o; simpl; apply _. Defined.

(** ** Counts are a commutative monoid *)

Lemma count_eq c d : covered c = covered d -> total c = total d -> c = d.
Proof. destruct c, d; simpl; congruence. Qed.

Ltac count_solve :=
  intros; repeat match goal with c : ICoveredCount |- _ => destruct c end;
  unfold sumCounts, emptyCounts, wf in *; simpl in *;
  first [lia | f_equal; lia].

Lemma sumCounts_comm a b : sumCounts a b = sumCounts b a.
Proof. count_solve. Qed.

Lemma sumCounts_assoc a b c : sumCounts a (sumCounts b c) = sumCounts (sumCounts a b) c.
Proof. count_solve. Qed.

Lemma sumCounts_empty_l a : sumCounts emptyCounts a = a.
Proof. count_solve. Qed.

Lemma sumCounts_empty_r a : sumCounts a emptyCounts = a.
Proof. count_solve. Qed.

#[export] Instance sumCounts_Comm : Comm (=) sumCounts := sumCounts_comm.
#[export] Instance sumCounts_Assoc : Assoc (=) sumCounts := sumCounts_assoc.
#[export] Instance sumCounts_LeftId : LeftId (=) emptyCounts sumCounts := sumCounts_empty_l.
#[export] Instance sumCounts_RightId : RightId (=) emptyCounts sumCounts := sumCounts_empty_r.

#[export] Hint Rewrite sumCounts_empty_l sumCounts_empty_r : cov.

(** ** Well-formedness is closed under sums *)

Lemma wf_emptyCounts : wf emptyCounts.
Proof. count_solve. Qed.

Lemma wf_sumCounts a b : wf a -> wf b -> wf (sumCounts a b).
Proof. count_solve. Qed.

#[export] Hint Resolve wf_emptyCounts wf_sumCounts : cov.

(** ** Sums of lists *)

Lemma fold_sumCounts_acc l a :
  fold_left sumCounts l a = sumCounts a (sumAll l).
Proof.
  unfold sumAll. revert a. induction l as [|c l IH]; intros a; simpl.
  - now rewrite sumCounts_empty_r.
  - rewrite IH, (IH (sumCounts emptyCounts c)), sumCounts_empty_l.
    apply eq_sym, sumCounts_assoc.
Qed.

Lemma sumAll_nil : sumAll [] = emptyCounts.
Proof. reflexivity. Qed.

Lemma sumAll_cons c l : sumAll (c :: l) = sumCounts c (sumAll l).
Proof. unfold sumAll at 1. simpl. now rewrite fold_sumCounts_acc, sumCounts_empty_l. Qed.

Lemma sumAll_app l1 l2 : sumAll (l1 ++ l2) = sumCounts (sumAll l1) (sumAll l2).
Proof.
  induction l1 as [|c l1 IH]; simpl.
  - now rewrite sumAll_nil, sumCounts_empty_l.
  - now rewrite !sumAll_cons, IH, sumCounts_assoc.
Qed.

Lemma sumAll_singleton c : sumAll [c] = c.
Proof. now rewrite sumAll_cons, sumAll_nil, sumCounts_empty_r. Qed.

(** The sum does not depend on the order of the list. *)
#[export] Instance sumAll_Permutation : Proper (Permutation ==> eq) sumAll.
Proof.
  intros l1 l2 HP. induction HP as [|x l l' _ IH|x y l|l l' l'' _ IH1 _ IH2].
  - reflexivity.
  - now rewrite !sumAll_cons, IH.
  - rewrite !sumAll_cons, !sumCounts_assoc. f_equal. apply sumCounts_comm.
  - congruence.
Qed.

Lemma sumAll_covered l : covered (sumAll l) = foldr Z.add 0 (covered <$> l).
Proof.
  induction l as [|c l IH]; [reflexivity|].
  rewrite sumAll_cons. simpl. now rewrite IH.
Qed.

Lemma sumAll_total l : total (sumAll l) = foldr Z.add 0 (total <$> l).
Proof.
  induction l as [|c l IH]; [reflexivity|].
  rewrite sumAll_cons. simpl. now rewrite IH.
Qed.

Lemma wf_sumAll l : Forall wf l -> wf (sumAll l).
Proof.
  induction 1 as [|c l Hc _ IH]; [apply wf_emptyCounts|].
  rewrite sumAll_cons. now apply wf_sumCounts.
Qed.

(** If every total of the list is at most [B], the total of the sum is at most
    [length l * B]. *)
Lemma sumAll_total_bound B l :
  Forall (fun c => total c <= B) l -> total (sumAll l) <= Z.of_nat (length l) * B.
Proof.
  induction 1 as [|c l Hc _ IH]; [simpl; lia|].
  rewrite sumAll_cons. simpl length. simpl total. lia.
Qed.

#[export] Hint Rewrite sumAll_nil sumAll_cons sumAll_app sumAll_singleton : cov.
#[export] Hint Resolve wf_sumAll : cov.

(** ** Optional counts *)

Lemma sumOpt_None_r acc : sumOpt acc None = acc.
Proof. reflexivity. Qed.

Lemma sumOpt_None_l v : sumOpt None v = v.
Proof. destruct v; simpl; [now rewrite sumCounts_empty_l | reflexivity]. Qed.

Lemma sumOpt_Some a b : sumOpt (Some a) (Some b) = Some (sumCounts a b).
Proof. reflexivity. Qed.

Lemma sumOpt_comm a b : sumOpt a b = sumOpt b a.
Proof.
  destruct a, b; simpl; rewrite ?sumCounts_empty_l; try reflexivity.
  f_equal. apply sumCounts_comm.
Qed.

Lemma sumOpt_assoc a b c : sumOpt a (sumOpt b c) = sumOpt (sumOpt a b) c.
Proof.
  destruct a, b, c; simpl; rewrite ?sumCounts_empty_l; try reflexivity.
  f_equal. apply sumCounts_assoc.
Qed.

#[export] Instance sumOpt_Comm : Comm (=) sumOpt := sumOpt_comm.
#[export] Instance sumOpt_Assoc : Assoc (=) sumOpt := sumOpt_assoc.
#[export] Instance sumOpt_LeftId : LeftId (=) None sumOpt := sumOpt_None_l.
#[export] Instance sumOpt_RightId : RightId (=) None sumOpt := sumOpt_None_r.

Lemma wfOpt_sumOpt a b : wfOpt a -> wfOpt b -> wfOpt (sumOpt a b).
Proof.
  destruct a, b; simpl; auto with cov.
Qed.

Lemma fold_sumOpt_acc l a : fold_left sumOpt l a = sumOpt a (sumAllOpt l).
Proof.
  unfold sumAllOpt. revert a. induction l as [|c l IH]; intros a; simpl.
  - reflexivity.
  - rewrite IH, (IH (sumOpt None c)), sumOpt_None_l. apply eq_sym, sumOpt_assoc.
Qed.

Lemma sumAllOpt_nil : sumAllOpt [] = None.
Proof. reflexivity. Qed.

Lemma sumAllOpt_cons c l : sumAllOpt (c :: l) = sumOpt c (sumAllOpt l).
Proof. unfold sumAllOpt at 1. simpl. now rewrite fold_sumOpt_acc, sumOpt_None_l. Qed.

Lemma sumAllOpt_app l1 l2 : sumAllOpt (l1 ++ l2) = sumOpt (sumAllOpt l1) (sumAllOpt l2).
Proof.
  induction l1 as [|c l1 IH]; simpl.
  - now rewrite sumAllOpt_nil, sumOpt_None_l.
  - now rewrite !sumAllOpt_cons, IH, sumOpt_assoc.
Qed.

#[export] Instance sumAllOpt_Permutation : Proper (Permutation ==> eq) sumAllOpt.
Proof.
  intros l1 l2 HP. induction HP as [|x l l' _ IH|x y l|l l' l'' _ IH1 _ IH2].
  - reflexivity.
  - now rewrite !sumAllOpt_cons, IH.
  - rewrite !sumAllOpt_cons, !sumOpt_assoc. f_equal. apply sumOpt_comm.
  - congruence.
Qed.

Lemma wfOpt_sumAllOpt l : Forall wfOpt l -> wfOpt (sumAllOpt l).
Proof.
  induction 1 as [|c l Hc _ IH]; [exact I|].
  rewrite sumAllOpt_cons. now apply wfOpt_sumOpt.
Qed.

(** A category is present in a sum exactly when one of the summands has it. *)
Lemma sumAllOpt_is_Some l : is_Some (sumAllOpt l) <-> Exists is_Some l.
Proof.
  induction l as [|c l IH].
  - rewrite sumAllOpt_nil, Exists_nil. split; [intros [? [=]] | tauto].
  - rewrite sumAllOpt_cons, Exists_cons, <- IH.
    destruct c, (sumAllOpt l); simpl; split; eauto; intros [[? [=]]|[? [=]]].
Qed.

(** A sum without the category has no summand with it. *)
Lemma sumAllOpt_None l : sumAllOpt l = None -> omap id l = [].
Proof.
  induction l as [|[x|] l IH]; [reflexivity| |]; rewrite sumAllOpt_cons.
  - now destruct (sumAllOpt l).
  - rewrite sumOpt_None_l. exact IH.
Qed.

(** The sum of optional counts is the sum of the present ones. *)
Lemma sumAllOpt_Some l c :
  sumAllOpt l = Some c -> c = sumAll (omap id l).
Proof.
  revert c. induction l as [|[d|] l IH]; intros c; [discriminate| |];
    rewrite sumAllOpt_cons; csimpl; [|rewrite sumOpt_None_l; apply IH].
  rewrite sumAll_cons. destruct (sumAllOpt l) as [c'|] eqn:E; simpl; intros [= <-].
  - f_equal. now apply IH.
  - now rewrite (sumAllOpt_None _ E), sumAll_nil, sumCounts_empty_r.
Qed.

#[export] Hint Rewrite sumOpt_None_l sumOpt_None_r sumAllOpt_nil sumAllOpt_cons
  sumAllOpt_app : cov.
#[export] Hint Resolve wfOpt_sumOpt wfOpt_sumAllOpt : cov.
