(* ===== verification/PrefixTree.v ===== *)
(** * The prefix tree

    [WellDefinedPrefixTree] is imported by the coverage model from prefixTree,
    which is not among the sources; it is modelled from the specification
    (sections 3 and 4.1): every position of the tree is addressed by a
    sequence of segments, holds at most one value and has a [Map] of children;
    [insert] creates the positions on the way to its key; [find] returns the
    value at exactly its key; [nodes] enumerates every position below the
    root in pre-order.  The root is the tree, which [insert] and [find] are
    called on, and no position that a key of the coverage model reaches;
    [Coverage] says what the loop over [nodes] computes when the
    enumeration is another one.

    A node object that the program updates in place is addressed here by its
    path: [alterAt p f] applies the update [f] to the node at [p].  The
    traversal [forNodes] is the loop [for (const node of tree.nodes) f(node)]
    for updates that keep the shape of the tree. *)

From S2P Require Import Prelude.

#[local] Set Warnings "-register-all".
#[local] Unset Elimination Schemes.

Inductive Node (V : Type) : Type :=
| mkNode (value : option V) (children : list (string * Node V)).

#[local] Set Elimination Schemes.

Arguments mkNode {V} value children.

Section PrefixTree.
Context {V : Type}.

Definition value (n : Node V) : option V :=
  match n with mkNode v _ => v end.

Definition children (n : Node V) : list (string * Node V) :=
  match n with mkNode _ cs => cs end.

(** A fresh position: no value, no children. *)
Definition emptyNode : Node V := mkNode None [].

(** The tree is its root position. *)
Definition WellDefinedPrefixTree : Type := Node V.

Definition emptyTree : WellDefinedPrefixTree := emptyNode.

(** [opNode key fn n]: walk down from [n] along [key], creating the positions
    that are missing, and apply [fn] to the position reached. *)
Fixpoint opNode (key : list string) (fn : Node V -> Node V) (n : Node V) : Node V :=
  match key with
  | [] => fn n
  | part :: rest =>
      let next := default emptyNode (map_get part (children n)) in
      mkNode (value n) (map_set part (opNode rest fn next) (children n))
  end.

(** [insert key v]: store [v] at [key], replacing what the position held. *)
Definition insert (key : list string) (v : V) (t : WellDefinedPrefixTree)
  : WellDefinedPrefixTree :=
  opNode key (fun n => mkNode (Some v) (children n)) t.

(** [findNode key n]: the position at [key], if the tree has it. *)
Fixpoint findNode (key : list string) (n : Node V) : option (Node V) :=
  match key with
  | [] => Some n
  | segment :: rest =>
      match map_get segment (children n) with
      | None => None
      | Some next => findNode rest next
      end
  end.

(** [find key t]: the value at exactly [key]. *)
Definition find (key : list string) (t : WellDefinedPrefixTree) : option V :=
  match findNode key t with
  | Some n => value n
  | None => None
  end.

(** [paths n]: the positions below [n] in pre-order, each with its path from
    [n]. *)
Fixpoint paths (n : Node V) : list (list string) :=
  match n with
  | mkNode _ cs =>
      flat_map (fun kc => [kc.1] :: map (cons kc.1) (paths kc.2)) cs
  end.

(** [nodes t]: every position of the tree below the root, in pre-order, paired
    with its path. *)
Definition nodes (t : WellDefinedPrefixTree) : list (list string * Node V) :=
  omap (fun p => pair p <$> findNode p t) (paths t).

(** [alterAt p f n]: the update [f] applied to the node object at [p]; a path
    that leads nowhere changes nothing. *)
Fixpoint alterAt (p : list string) (f : Node V -> Node V) (n : Node V) : Node V :=
  match p with
  | [] => f n
  | k :: p' =>
      match map_get k (children n) with
      | Some c => mkNode (value n) (map_set k (alterAt p' f c) (children n))
      | None => n
      end
  end.

(** [forNodes f t]: visit the positions of [nodes t] in order and update each
    node object with [f]. *)
Definition forNodes (f : Node V -> Node V) (t : WellDefinedPrefixTree)
  : WellDefinedPrefixTree :=
  fold_left (fun t p => alterAt p f t) (paths t) t.

(** [insertAll items t]: the items inserted one after the other. *)
Definition insertAll (items : list (list string * V)) (t : WellDefinedPrefixTree)
  : WellDefinedPrefixTree :=
  fold_left (fun t kv => insert kv.1 kv.2 t) items t.

(** No key of the list is a prefix of another one. *)
Definition prefixFree (keys : list (list string)) : Prop :=
  Forall (fun k1 => Forall (fun k2 => k1 `prefix_of` k2 -> k1 = k2) keys) keys.

(** The number of positions of a tree, its root included. *)
Fixpoint size (n : Node V) : nat :=
  match n with
  | mkNode _ cs => S (list_sum (map (fun kc => size kc.2) cs))
  end.

(** The values held in a tree, in pre-order. *)
Fixpoint values (n : Node V) : list V :=
  match n with
  | mkNode v cs => option_list v ++ flat_map (fun kc => values kc.2) cs
  end.

(** The invariant of the children maps: at every position the keys are
    distinct. *)
Inductive wfNode : Node V -> Prop :=
| wfNode_intro v cs :
    NoDup (map_keys cs) ->
    Forall (fun kc => wfNode kc.2) cs ->
    wfNode (mkNode v cs).

(** The invariant as a test. *)
Fixpoint wfNodeb (n : Node V) : bool :=
  match n with
  | mkNode _ cs =>
      bool_decide (NoDup (map_keys cs)) && forallb (fun kc => wfNodeb kc.2) cs
  end.

(** Two trees have the same shape when they have the same positions in the
    same order. *)
Inductive sameShape : Node V -> Node V -> Prop :=
| sameShape_intro v v' cs cs' :
    Forall2 (fun kc kc' => kc.1 = kc'.1 /\ sameShape kc.2 kc'.2) cs cs' ->
    sameShape (mkNode v cs) (mkNode v' cs').

(** ** Induction on trees *)

Section Node_ind.
Variable P : Node V -> Prop.
Hypothesis Hnode : forall v cs, Forall (fun kc => P kc.2) cs -> P (mkNode v cs).

Fixpoint Node_ind (n : Node V) : P n :=
  match n with
  | mkNode v cs =>
      Hnode v cs
        ((fix go (l : list (string * Node V)) : Forall (fun kc => P kc.2) l :=
            match l with
            | [] => @List.Forall_nil _ _
            | kc :: l' => @List.Forall_cons _ _ kc l' (Node_ind kc.2) (go l')
            end) cs)
  end.
End Node_ind.

(** ** Lookup *)

Lemma node_eta (n : Node V) : mkNode (value n) (children n) = n.
Proof. now destruct n. Qed.

Lemma find_nil t : find [] t = value t.
Proof. reflexivity. Qed.

Lemma find_cons s r t :
  find (s :: r) t =
  match map_get s (children t) with Some c => find r c | None => None end.
Proof. unfold find. simpl. now destruct (map_get s (children t)). Qed.

Lemma findNode_app k1 k2 n :
  findNode (k1 ++ k2) n = findNode k1 n ≫= findNode k2.
Proof.
  revert n. induction k1 as [|s k1 IH]; intros n; simpl; [reflexivity|].
  destruct (map_get s (children n)); [apply IH | reflexivity].
Qed.

Lemma find_app k1 k2 t :
  find (k1 ++ k2) t = findNode k1 t ≫= find k2.
Proof. unfold find. rewrite findNode_app. now destruct (findNode k1 t). Qed.

Lemma findNode_emptyNode key :
  default emptyNode (findNode key emptyNode) = emptyNode.
Proof. now destruct key. Qed.

Lemma find_emptyNode key : find key emptyNode = None.
Proof. now destruct key. Qed.

(** ** [opNode] and [insert] *)

(** [opNode] reaches its key: the position exists afterwards and holds what
    [fn] made of the position (a fresh one if it did not exist). *)
Lemma findNode_opNode key fn n :
  findNode key (opNode key fn n) = Some (fn (default emptyNode (findNode key n))).
Proof.
  revert n. induction key as [|part rest IH]; intros n; simpl; [reflexivity|].
  rewrite map_get_set_eq, IH.
  destruct (map_get part (children n)); simpl; [reflexivity|].
  now rewrite findNode_emptyNode.
Qed.

(** Lookup after insert, at the inserted key. *)
Lemma find_insert_eq key v t : find key (insert key v t) = Some v.
Proof. unfold find, insert. now rewrite findNode_opNode. Qed.

(** Lookup after insert, at any other key. *)
Lemma find_insert_ne key key' v t :
  key <> key' -> find key' (insert key v t) = find key' t.
Proof.
  unfold insert. revert key' t.
  induction key as [|part rest IH]; intros [|s r] t Hne; try congruence.
  - simpl. now rewrite !find_cons.
  - reflexivity.
  - simpl. rewrite !find_cons. simpl. rewrite map_get_set.
    case_decide as Hs; [subst s|reflexivity].
    rewrite IH by congruence.
    destruct (map_get part (children t)); [reflexivity | apply find_emptyNode].
Qed.

Lemma find_insert key key' v t :
  find key' (insert key v t) = if decide (key = key') then Some v else find key' t.
Proof.
  case_decide; [subst; apply find_insert_eq | now apply find_insert_ne].
Qed.

(** [insert] keeps the values at the positions it creates or walks through. *)
Lemma value_opNode_cons part rest fn n :
  value (opNode (part :: rest) fn n) = value n.
Proof. reflexivity. Qed.

(** ** The invariant of the children maps *)

Lemma wfNodeb_spec n : wfNodeb n = true <-> wfNode n.
Proof.
  induction n as [v cs IH] using Node_ind. simpl.
  rewrite andb_true_iff, bool_decide_eq_true, forallb_forall, <- List.Forall_forall.
  split.
  - intros [Hnd Hcs]. constructor; [assumption|].
    apply (Forall_impl_2 _ _ _ _ IH Hcs). intros kc Hkc Hb. now apply Hkc.
  - intros Hw. invert Hw. split; [assumption|].
    apply (Forall_impl_2 _ _ _ _ IH H2). intros kc Hkc Hb. now apply Hkc.
Qed.

#[export] Instance wfNode_dec n : Decision (wfNode n).
Proof.
  refine (cast_if (decide (wfNodeb n = true))); abstract (now rewrite <- wfNodeb_spec).
Defined.

Lemma wfNode_emptyNode : wfNode emptyNode.
Proof. constructor; [apply NoDup_nil_2 | constructor]. Qed.

Lemma wfNode_children v cs c k :
  wfNode (mkNode v cs) -> map_get k cs = Some c -> wfNode c.
Proof.
  intros Hw Hk. invert Hw.
  eapply (map_Forall_get wfNode); eauto.
Qed.

Lemma wfNode_keys n : wfNode n -> NoDup (map_keys (children n)).
Proof. now destruct 1. Qed.

Lemma wfNode_set v cs k c :
  wfNode (mkNode v cs) -> wfNode c -> wfNode (mkNode v (map_set k c cs)).
Proof.
  intros Hw Hc. invert Hw. constructor.
  - now apply map_set_NoDup.
  - now apply (map_Forall_set wfNode).
Qed.

Lemma wfNode_value v v' cs : wfNode (mkNode v cs) -> wfNode (mkNode v' cs).
Proof. intros Hw. invert Hw. now constructor. Qed.

Lemma wfNode_findNode key n m : wfNode n -> findNode key n = Some m -> wfNode m.
Proof.
  revert n. induction key as [|s r IH]; intros n Hw; simpl.
  - now intros [= <-].
  - destruct (map_get s (children n)) as [c|] eqn:E; [|discriminate].
    apply IH. destruct n. eapply wfNode_children; eauto.
Qed.

Lemma wfNode_opNode key fn n :
  (forall m, wfNode m -> wfNode (fn m)) ->
  wfNode n -> wfNode (opNode key fn n).
Proof.
  intros Hfn. revert n. induction key as [|part rest IH]; intros n Hw; simpl; [auto|].
  destruct n as [v cs]. apply wfNode_set; [assumption|]. apply IH. simpl.
  destruct (map_get part cs) eqn:E; simpl.
  - eapply wfNode_children; eauto.
  - apply wfNode_emptyNode.
Qed.

Lemma wfNode_insert key v t : wfNode t -> wfNode (insert key v t).
Proof.
  apply wfNode_opNode. intros [v0 cs] Hw. simpl. eapply wfNode_value; eauto.
Qed.

Lemma wfNode_alterAt p f n :
  (forall m, wfNode m -> wfNode (f m)) ->
  wfNode n -> wfNode (alterAt p f n).
Proof.
  intros Hf. revert n. induction p as [|k p IH]; intros n Hw; simpl; [auto|].
  destruct (map_get k (children n)) as [c|] eqn:E; [|assumption].
  destruct n as [v cs]. apply wfNode_set; [assumption|].
  apply IH. eapply wfNode_children; eauto.
Qed.

(** ** Shape *)

Lemma sameShape_inv v v' cs cs' :
  sameShape (mkNode v cs) (mkNode v' cs') ->
  Forall2 (fun kc kc' => kc.1 = kc'.1 /\ sameShape kc.2 kc'.2) cs cs'.
Proof. now inversion 1. Qed.

Lemma sameShape_refl n : sameShape n n.
Proof.
  induction n as [v cs IH] using Node_ind. constructor.
  induction IH; constructor; auto.
Qed.

Lemma sameShape_trans n1 n2 n3 : sameShape n1 n2 -> sameShape n2 n3 -> sameShape n1 n3.
Proof.
  revert n2 n3. induction n1 as [v cs IH] using Node_ind.
  intros [v2 cs2] [v3 cs3] H12%sameShape_inv H23%sameShape_inv. constructor.
  revert cs3 H23. induction H12 as [|kc kc2 cs cs2 [Hk Hs] _ IH2]; intros cs3 H23.
  - invert H23. constructor.
  - invert H23. invert IH. destruct H1 as [Hk3 Hs3].
    constructor; [split; [congruence | eauto] | eauto].
Qed.

Lemma sameShape_value v v' cs : sameShape (mkNode v cs) (mkNode v' cs).
Proof. pose proof (sameShape_refl (mkNode v cs)) as H0. invert H0. now constructor. Qed.

Lemma sameShape_keys n m : sameShape n m -> map_keys (children n) = map_keys (children m).
Proof.
  destruct 1 as [v v' cs cs' HF]. simpl. unfold map_keys.
  induction HF as [|kc kc' cs cs' [Hk _] _ IH]; csimpl; congruence.
Qed.

Lemma sameShape_paths n m : sameShape n m -> paths n = paths m.
Proof.
  revert m. induction n as [v cs IH] using Node_ind.
  intros [v' cs'] HF%sameShape_inv. simpl.
  induction HF as [|kc kc' cs cs' [Hk Hs] _ IH2]; [reflexivity|].
  invert IH. simpl. rewrite Hk, (H1 _ Hs), IH2 by assumption. reflexivity.
Qed.

Lemma sameShape_map_get n m k c :
  sameShape n m -> map_get k (children n) = Some c ->
  exists c', map_get k (children m) = Some c' /\ sameShape c c'.
Proof.
  destruct 1 as [v v' cs cs' HF]. simpl.
  induction HF as [|[k1 c1] [k2 c2] cs cs' [Hk Hs] _ IH]; simpl in *; [discriminate|].
  subst k2. case_decide; [intros [= <-]; eauto | auto].
Qed.

Lemma sameShape_set v v' cs k c c' :
  map_get k cs = Some c -> sameShape c c' ->
  sameShape (mkNode v cs) (mkNode v' (map_set k c' cs)).
Proof.
  intros Hk Hs. constructor.
  induction cs as [|[k0 c0] cs IH]; simpl in *; [discriminate|].
  case_decide.
  - invert Hk. constructor; [now split|].
    pose proof (sameShape_refl (mkNode v cs)) as H0. now invert H0.
  - constructor; [split; [reflexivity | apply sameShape_refl] | auto].
Qed.

Lemma sameShape_alterAt p f n :
  (forall m, sameShape m (f m)) -> sameShape n (alterAt p f n).
Proof.
  intros Hf. revert n. induction p as [|k p IH]; intros n; simpl; [auto|].
  destruct (map_get k (children n)) as [c|] eqn:E; [|apply sameShape_refl].
  destruct n as [v cs]. eapply sameShape_set; eauto.
Qed.

Lemma sameShape_wfNode n m : sameShape n m -> wfNode n -> wfNode m.
Proof.
  revert m. induction n as [v cs IH] using Node_ind.
  intros [v' cs'] Hs Hw. pose proof (sameShape_keys _ _ Hs) as Hkeys.
  apply sameShape_inv in Hs. invert Hw. simpl in Hkeys. constructor; [congruence|].
  clear Hkeys H1. induction Hs as [|kc kc' cs cs' [Hk Hs'] _ IH2]; constructor.
  - invert IH. invert H2. eauto.
  - invert IH. invert H2. eauto.
Qed.

(** ** The traversal *)

(** Visiting the positions below the child [k] only changes that child. *)
Lemma fold_alterAt_child f k ps v cs c :
  map_get k cs = Some c ->
  fold_left (fun t p => alterAt p f t) (map (cons k) ps) (mkNode v cs) =
  mkNode v (map_set k (fold_left (fun t p => alterAt p f t) ps c) cs).
Proof.
  revert cs c. induction ps as [|p ps IH]; intros cs c Hk; simpl.
  - now rewrite map_set_get_id.
  - rewrite Hk. erewrite IH by apply map_get_set_eq. now rewrite map_set_set.
Qed.

(** [visit f c]: the effect of the traversal on the subtree [c]: the update at
    its root, then the traversal of what is below. *)
Definition visit (f : Node V -> Node V) (c : Node V) : Node V :=
  fold_left (fun t p => alterAt p f t) (paths c) (f c).

Lemma fold_alterAt_visit f k v cs c :
  map_get k cs = Some c ->
  fold_left (fun t p => alterAt p f t) ([k] :: map (cons k) (paths c)) (mkNode v cs) =
  mkNode v (map_set k (visit f c) cs).
Proof.
  intros Hk. simpl. rewrite Hk.
  erewrite fold_alterAt_child by apply map_get_set_eq. now rewrite map_set_set.
Qed.

Lemma forNodes_aux f v (l done : list (string * Node V)) :
  NoDup (map_keys (done ++ l)) ->
  fold_left (fun t p => alterAt p f t)
    (flat_map (fun kc => [kc.1] :: map (cons kc.1) (paths kc.2)) l)
    (mkNode v (done ++ l)) =
  mkNode v (done ++ map (fun kc => (kc.1, visit f kc.2)) l).
Proof.
  revert done. induction l as [|[k c] l IH]; intros done Hnd; [reflexivity|].
  pose proof (map_keys_app_fresh _ _ _ _ Hnd) as Hk.
  cbn [flat_map]. rewrite fold_left_app.
  rewrite (fold_alterAt_visit f k v _ c) by now apply map_get_app_fresh.
  rewrite map_set_app_fresh by assumption.
  rewrite (cons_middle (k, visit f c)), app_assoc, IH.
  - now rewrite <- app_assoc.
  - unfold map_keys in *. rewrite <- app_assoc. simpl. rewrite fmap_app in *. exact Hnd.
Qed.

(** The traversal of a tree whose keys are distinct visits every subtree
    below the root on its own. *)
Lemma forNodes_node f v cs :
  NoDup (map_keys cs) ->
  forNodes f (mkNode v cs) = mkNode v (map (fun kc => (kc.1, visit f kc.2)) cs).
Proof. intros Hnd. exact (forNodes_aux f v cs [] Hnd). Qed.

(** For an update that keeps the shape, visiting a subtree is the update at
    its root followed by the traversal of the result. *)
Lemma visit_forNodes f c :
  (forall m, sameShape m (f m)) -> visit f c = forNodes f (f c).
Proof. intros Hf. unfold visit, forNodes. now rewrite (sameShape_paths _ _ (Hf c)). Qed.

(** ** Positions after an insertion *)

(** The subtree at a position, a fresh position standing for one the tree
    does not have. *)
Lemma find_subtree k p t :
  find p (default emptyNode (findNode k t)) = find (k ++ p) t.
Proof.
  rewrite find_app. destruct (findNode k t); [reflexivity | apply find_emptyNode].
Qed.

(** On the way to its key, [opNode] leaves at each position the subtree with
    the rest of the key worked in. *)
Lemma findNode_opNode_prefix k rest fn n :
  findNode k (opNode (k ++ rest) fn n) =
  Some (opNode rest fn (default emptyNode (findNode k n))).
Proof.
  revert n. induction k as [|s k IH]; intros n; simpl; [reflexivity|].
  rewrite map_get_set_eq, IH.
  destruct (map_get s (children n)); simpl; [reflexivity|].
  now rewrite findNode_emptyNode.
Qed.

(** Away from its key, [insert] changes no subtree. *)
Lemma findNode_insert_other k key v t :
  ~ k `prefix_of` key -> findNode k (insert key v t) = findNode k t.
Proof.
  unfold insert. revert k t. induction key as [|part rest IH]; intros [|s r] t Hk;
    try (exfalso; apply Hk, prefix_nil); simpl; [reflexivity|].
  rewrite map_get_set. case_decide as Hs; [subst s|reflexivity].
  rewrite IH by (intros Hr; apply Hk; now apply prefix_cons).
  destruct (map_get part (children t)); [reflexivity|].
  destruct r; [exfalso; apply Hk, prefix_cons, prefix_nil | reflexivity].
Qed.

(** A position of the tree is a position after an insertion. *)
Lemma findNode_insert_is_Some k key v t :
  is_Some (findNode k t) -> is_Some (findNode k (insert key v t)).
Proof.
  intros Hk. destruct (decide (k `prefix_of` key)) as [[rest ->]|Hn].
  - unfold insert. rewrite findNode_opNode_prefix. eauto.
  - now rewrite findNode_insert_other.
Qed.

(** ** Lists of insertions *)

Lemma insertAll_snoc items key v t :
  insertAll (items ++ [(key, v)]) t = insert key v (insertAll items t).
Proof. unfold insertAll. now rewrite fold_left_app. Qed.

Lemma wfNode_insertAll items t : wfNode t -> wfNode (insertAll items t).
Proof.
  intros Hw. induction items as [|[key v] items IH] using rev_ind; [assumption|].
  rewrite insertAll_snoc. now apply wfNode_insert.
Qed.

(** A value found after the insertions was inserted at this key. *)
Lemma find_insertAll k items v :
  find k (insertAll items emptyTree) = Some v -> (k, v) ∈ items.
Proof.
  induction items as [|[key v'] items IH] using rev_ind.
  - unfold insertAll, emptyTree. simpl. now rewrite find_emptyNode.
  - rewrite insertAll_snoc, find_insert. rewrite elem_of_app, list_elem_of_singleton.
    case_decide; [intros [= <-]; subst; now right | intros ?%IH; now left].
Qed.

(** Every prefix of an inserted key is a position. *)
Lemma findNode_insertAll_prefix k key v items t :
  (key, v) ∈ items -> k `prefix_of` key -> is_Some (findNode k (insertAll items t)).
Proof.
  intros Hin [rest ->]. induction items as [|[key' v'] items IH] using rev_ind.
  - invert Hin.
  - rewrite insertAll_snoc. apply elem_of_app in Hin as [Hin|Hin].
    + apply findNode_insert_is_Some. auto.
    + apply list_elem_of_singleton in Hin as [= <- <-].
      unfold insert. rewrite findNode_opNode_prefix. eauto.
Qed.

Lemma prefixFree_app_l keys keys' : prefixFree (keys ++ keys') -> prefixFree keys.
Proof.
  unfold prefixFree. rewrite Forall_app. intros [H1 _].
  eapply Forall_impl; [exact H1|]. intros k. rewrite Forall_app. tauto.
Qed.

Lemma prefixFree_elem keys k1 k2 :
  prefixFree keys -> k1 ∈ keys -> k2 ∈ keys -> k1 `prefix_of` k2 -> k1 = k2.
Proof.
  unfold prefixFree. rewrite Forall_forall. intros H0 H1 H2.
  specialize (H0 _ H1). rewrite Forall_forall in H0. auto.
Qed.

End PrefixTree.

#[export] Hint Resolve wfNode_emptyNode wfNode_insert : cov.
#[export] Hint Rewrite @find_insert_eq : cov.

Arguments WellDefinedPrefixTree V : clear implicits.

(** * Summaries

    A summary of a tree combines, with a commutative monoid, a measure of the
    values nearest to the root: the value of a position that holds one, or
    else the combination over the children.  Aggregation of coverage counts
    is such a summary; this section relates the summary of a tree built by
    insertions to the inserted items. *)

Section Summary.
Context {V M : Type} (op : M -> M -> M) (e : M) (mu : V -> M).
Context `{!Assoc (=) op, !Comm (=) op, !LeftId (=) e op, !RightId (=) e op}.

Definition combine (l : list M) : M := foldr op e l.

Fixpoint summary (n : Node V) : M :=
  match n with
  | mkNode (Some v) _ => mu v
  | mkNode None cs => combine (map (fun kc => summary kc.2) cs)
  end.

Lemma combine_app l1 l2 : combine (l1 ++ l2) = op (combine l1) (combine l2).
Proof.
  unfold combine. induction l1 as [|x l1 IH]; simpl.
  - now rewrite (left_id e op).
  - now rewrite IH, (assoc op).
Qed.

Lemma combine_snoc l x : combine (l ++ [x]) = op (combine l) x.
Proof. rewrite combine_app. unfold combine at 2. simpl. now rewrite (right_id e op). Qed.

Lemma summary_emptyNode : summary emptyNode = e.
Proof. reflexivity. Qed.

(** Replacing the child at a key by one whose summary has [d] more adds [d]
    to the combination over the children. *)
Lemma combine_map_set (k : string) (c' : Node V) (cs : list (string * Node V)) d :
  summary c' = op (summary (default emptyNode (map_get k cs))) d ->
  combine (map (fun kc => summary kc.2) (map_set k c' cs)) =
  op (combine (map (fun kc => summary kc.2) cs)) d.
Proof.
  intros Hc. induction cs as [|[k0 c0] cs IH]; simpl in *.
  - unfold combine in *. simpl. now rewrite Hc, (right_id e op).
  - unfold combine in *. case_decide; simpl in *.
    + rewrite Hc, <- !(assoc op). f_equal. apply (comm op).
    + now rewrite IH, (assoc op).
Qed.

(** A tree without values has the unit for summary. *)
Lemma summary_no_value n :
  wfNode n -> (forall p, find p n = None) -> summary n = e.
Proof.
  induction n as [v cs IH] using Node_ind. intros Hw Hn.
  pose proof (Hn []) as Hv. rewrite find_nil in Hv. simpl in Hv. subst v. simpl.
  assert (Forall (fun kc => summary kc.2 = e) cs) as Hcs.
  { invert Hw. rewrite Forall_forall in *. intros [k c] Hkc.
    apply IH; [assumption | now apply H2 |]. intros p.
    specialize (Hn (k :: p)). rewrite find_cons in Hn. simpl in Hn.
    now rewrite (map_get_elem _ _ _ H1 Hkc) in Hn. }
  clear -Hcs LeftId0. induction Hcs as [|kc cs Hkc _ IHcs]; [reflexivity|].
  unfold combine in *. simpl. now rewrite Hkc, IHcs, (left_id e op).
Qed.

(** Inserting a value at a key with no value at, above or below it adds the
    measure of the value to the summary. *)
Lemma summary_insert key v n :
  wfNode n ->
  (forall p, p `prefix_of` key -> find p n = None) ->
  (forall ext, find (key ++ ext) n = None) ->
  summary (insert key v n) = op (summary n) (mu v).
Proof.
  unfold insert. revert n. induction key as [|part rest IH]; intros n Hw Habove Hbelow.
  - simpl. rewrite (summary_no_value n Hw Hbelow). now rewrite (left_id e op).
  - pose proof (Habove [] (prefix_nil _)) as Hv. rewrite find_nil in Hv.
    destruct n as [v0 cs]. simpl in Hv. subst v0. simpl.
    apply combine_map_set. apply IH.
    + destruct (map_get part cs) eqn:E; simpl;
        [eapply wfNode_children; eauto | apply wfNode_emptyNode].
    + intros p Hp. specialize (Habove (part :: p) (prefix_cons _ _ _ Hp)).
      rewrite find_cons in Habove. simpl in Habove.
      destruct (map_get part cs); [exact Habove | apply find_emptyNode].
    + intros ext. specialize (Hbelow ext). simpl in Hbelow.
      rewrite find_cons in Hbelow. simpl in Hbelow.
      destruct (map_get part cs); [exact Hbelow | apply find_emptyNode].
Qed.

(** The summary of the subtree at a position that is not at or below an
    inserted key combines the measures of the items inserted at or below the
    position, when the keys are distinct and none is a prefix of another. *)
Lemma summary_insertAll (items : list (list string * V)) k :
  NoDup items.*1 ->
  prefixFree items.*1 ->
  (forall key, key ∈ items.*1 -> ~ key `prefix_of` k) ->
  summary (default emptyNode (findNode k (insertAll items emptyTree))) =
  combine (map (fun kv => mu kv.2) (filter (fun kv => k `prefix_of` kv.1) items)).
Proof.
  induction items as [|[key v] items IH] using rev_ind; intros Hnd Hpf Hk.
  { unfold insertAll, emptyTree. simpl. now rewrite findNode_emptyNode. }
  rewrite fmap_app in Hnd, Hpf, Hk. simpl in Hnd, Hpf, Hk.
  pose proof Hpf as Hpf0. apply prefixFree_app_l in Hpf0.
  apply NoDup_app in Hnd as (Hnd & Hfresh & _).
  assert (key ∉ items.*1) as Hkey by (intros Hin; apply (Hfresh _ Hin); left).
  rewrite insertAll_snoc, filter_app.
  specialize (IH Hnd Hpf0 (fun key' Hin => Hk key' (proj2 (elem_of_app _ _ _) (or_introl Hin)))).
  assert (forall p w, find p (insertAll items emptyTree) = Some w ->
                      p ∈ items.*1 /\ (p `prefix_of` key \/ key `prefix_of` p -> False)) as Hold.
  { intros p w Hp%find_insertAll. assert (p ∈ items.*1) as Hin.
    { apply list_elem_of_fmap. now exists (p, w). }
    split; [assumption|]. intros Hpre. apply Hkey.
    assert (p = key) as <-; [|assumption].
    destruct Hpre as [Hpre|Hpre].
    - apply (prefixFree_elem _ _ _ Hpf); [apply elem_of_app; now left | | assumption].
      apply elem_of_app; right; left.
    - symmetry. apply (prefixFree_elem _ _ _ Hpf); [| apply elem_of_app; now left | assumption].
      apply elem_of_app; right; left. }
  destruct (decide (k `prefix_of` key)) as [[rest ->]|Hn].
  - unfold insert at 1. rewrite findNode_opNode_prefix. cbn [default].
    rewrite filter_cons_True, filter_nil by (simpl; now exists rest).
    rewrite map_app. cbn [map]. rewrite combine_snoc, <- IH.
    apply (summary_insert rest v).
    + destruct (findNode k (insertAll items emptyTree)) eqn:E; simpl.
      * eapply wfNode_findNode; [|exact E]. apply wfNode_insertAll, wfNode_emptyNode.
      * apply wfNode_emptyNode.
    + intros p Hp. rewrite find_subtree.
      destruct (find (k ++ p) (insertAll items emptyTree)) eqn:E; [|reflexivity].
      apply Hold in E as [_ []]. left. now apply prefix_app.
    + intros ext. rewrite find_subtree, app_assoc.
      destruct (find ((k ++ rest) ++ ext) (insertAll items emptyTree)) eqn:E; [|reflexivity].
      apply Hold in E as [_ []]. right. now exists ext.
  - rewrite findNode_insert_other by assumption.
    rewrite filter_cons_False, filter_nil, app_nil_r by assumption. exact IH.
Qed.

End Summary.
