(* ===== verification/Coverage.v ===== *)
(** * The coverage model

    The data and the synchronous operations of testCoverage.ts
    ([src/unnamed/part_000], lines 189-353):

    - [AbstractFileCoverage_new] is the constructor of [AbstractFileCoverage]
      (lines 318-323), [tpc] its getter (lines 301-316);
    - [FileCoverage_new] is the constructor of [FileCoverage] (lines 335-338);
    - [treePathForUri] and [treePathToUri] are the two private methods of
      [TestCoverage] (lines 237-245);
    - [calculateComputed] is the closure of [createFileCoverage]
      (lines 258-281): it returns the value of the node and, because the
      closure stores the values it computes in the node objects, the updated
      node;
    - [buildTree] is [createFileCoverage] after its [await] (lines 249-287):
      the insertion loop and the loop over [tree.nodes];
    - [getUri_find] is the lookup of [getUri] in the tree (line 234).

    The loop over [tree.nodes] (lines 283-285) depends on what [nodes]
    enumerates, which the sources do not show: [computeNodes] is the loop
    over the positions below the root, [computeTopNodes] over the nodes at
    the top of the tree, [computeAllNodes] over every position with the
    root first.  The last section of the theorems compares them.

    [wfCoverage], [wfFile] and [wfValues] are the invariant of the data:
    every count has [0 <= covered <= total], in a node, in what the provider
    hands over, and in every value of a tree.

    URIs.  A [URI] handed over by the provider has a scheme, an authority and
    a path.  [treePathToUri] calls [URI.from] with components read from an
    array, which are [undefined] when the array is short; [URI.from] and
    [URI.revive] are outside the sources, so a node records the components it
    was built from ([UriComponents]): no normalisation is applied, and
    [URI.from] is taken to accept them, where it can throw in the program
    (it validates the scheme and the path). *)

From S2P Require Import Prelude Counts PrefixTree.

#[local] Set Warnings "-register-all".

Section Coverage.
(** The per-line details of a file are opaque to the model. *)
Context {CoverageDetails : Type}.

Record URI : Type := mkURI {
  scheme : string;
  authority : string;
  path : string
}.

Record UriComponents : Type := mkUriComponents {
  uc_scheme : option string;
  uc_authority : option string;
  uc_path : string
}.

(** [URI.revive] on a URI: the same components. *)
Definition revive (u : URI) : UriComponents :=
  mkUriComponents (Some (scheme u)) (Some (authority u)) (path u).

(** A file coverage record as the provider supplies it. *)
Record IFileCoverage : Type := mkIFileCoverage {
  fc_uri : URI;
  fc_statement : ICoveredCount;
  fc_branch : option ICoveredCount;
  fc_function : option ICoveredCount;
  fc_details : option (list CoverageDetails)
}.

Record AbstractFileCoverage : Type := mkAbstractFileCoverage {
  uri : UriComponents;
  statement : ICoveredCount;
  branch : option ICoveredCount;
  function : option ICoveredCount
}.

(** The constructor reads four fields of its argument; the last assignment
    reads [coverage.branch]. *)
Definition AbstractFileCoverage_new (coverage_uri : UriComponents)
    (coverage_statement : ICoveredCount)
    (coverage_branch coverage_function : option ICoveredCount)
  : AbstractFileCoverage :=
  {| uri := coverage_uri;
     statement := coverage_statement;
     branch := coverage_branch;
     function := coverage_branch |}.

(** The total coverage percent of a node. *)
Definition tpc (this : AbstractFileCoverage) : Q :=
  let numerator := covered (statement this) in
  let denominator := total (statement this) in
  let '(numerator, denominator) :=
    match branch this with
    | Some b => (numerator + covered b, denominator + total b)
    | None => (numerator, denominator)
    end in
  let '(numerator, denominator) :=
    match function this with
    | Some f => (numerator + covered f, denominator + total f)
    | None => (numerator, denominator)
    end in
  if denominator =? 0 then 1%Q else (inject_Z numerator / inject_Z denominator)%Q.

Definition ComputedFileCoverage : Type := AbstractFileCoverage.

Record FileCoverage : Type := mkFileCoverage {
  base : AbstractFileCoverage;
  index : nat;
  _details : option (list CoverageDetails)
}.

Definition FileCoverage_new (coverage : IFileCoverage) (index : nat) : FileCoverage :=
  {| base := AbstractFileCoverage_new (revive (fc_uri coverage))
               (fc_statement coverage) (fc_branch coverage) (fc_function coverage);
     index := index;
     _details := fc_details coverage |}.

(** The values of the tree: [FileCoverage | ComputedFileCoverage]. *)
Inductive CoverageValue : Type :=
| File (f : FileCoverage)
| Computed (c : ComputedFileCoverage).

(** Both variants are [AbstractFileCoverage]s. *)
Definition abstract (v : CoverageValue) : AbstractFileCoverage :=
  match v with
  | File f => base f
  | Computed c => c
  end.

(** The nodes of the tree ([TestCoverageFileNode] in the source). *)
#[local] Abbreviation TestCoverageFileNode := (Node CoverageValue) (only parsing).

Definition treePathForUri (uri : URI) : list string :=
  scheme uri :: authority uri :: split "/" (path uri).

Definition treePathToUri (path : list string) : UriComponents :=
  {| uc_scheme := path !! 0%nat;
     uc_authority := path !! 1%nat;
     uc_path := join "/" (drop 2 path) |}.

(** The counts of the record [fileCoverage] that [calculateComputed] builds
    for a position without a value. *)
Record Sums : Type := mkSums {
  sum_statement : ICoveredCount;
  sum_branch : option ICoveredCount;
  sum_function : option ICoveredCount
}.

Definition emptySums : Sums := mkSums emptyCounts None None.

(** The body of the loop over the children, after the recursive call. *)
Definition addChild (fileCoverage : Sums) (v : AbstractFileCoverage) : Sums :=
  {| sum_statement := sumCounts (sum_statement fileCoverage) (statement v);
     sum_branch := sumOpt (sum_branch fileCoverage) (branch v);
     sum_function := sumOpt (sum_function fileCoverage) (function v) |}.

Fixpoint calculateComputed (path : list string) (node : TestCoverageFileNode)
  : CoverageValue * TestCoverageFileNode :=
  match node with
  | mkNode (Some v) _ => (v, node)
  | mkNode None children =>
      let uri := treePathToUri path in
      let '(fileCoverage, children') :=
        (fix loop (cs : list (string * TestCoverageFileNode)) (fileCoverage : Sums)
           : Sums * list (string * TestCoverageFileNode) :=
           match cs with
           | [] => (fileCoverage, [])
           | (prefix, child) :: rest =>
               let '(v, child') := calculateComputed (path ++ [prefix]) child in
               let '(fileCoverage', rest') :=
                 loop rest (addChild fileCoverage (abstract v)) in
               (fileCoverage', (prefix, child') :: rest')
           end) children emptySums in
      let v := Computed (AbstractFileCoverage_new uri (sum_statement fileCoverage)
                           (sum_branch fileCoverage) (sum_function fileCoverage)) in
      (v, mkNode (Some v) children')
  end.

(** The first loop of [createFileCoverage]: every file becomes a
    [FileCoverage] at the tree path of its URI. *)
Definition insertFiles (files : list IFileCoverage)
  : WellDefinedPrefixTree CoverageValue :=
  fold_left
    (fun tree file => insert (treePathForUri (fc_uri file)) (File (FileCoverage_new file 0)) tree)
    files emptyTree.

(** The second loop: [calculateComputed([], node)] for every node of the
    tree. *)
Definition computeNodes (tree : WellDefinedPrefixTree CoverageValue)
  : WellDefinedPrefixTree CoverageValue :=
  forNodes (fun node => (calculateComputed [] node).2) tree.

(** The same loop for the two other enumerations that [tree.nodes] may
    be (prefixTree is not among the sources): the nodes at the top of the
    tree only, and every position of the tree with the root first.  Each
    element is handed to [calculateComputed] as the loop does, with the
    empty path. *)
Definition computeTopNodes (tree : WellDefinedPrefixTree CoverageValue)
  : WellDefinedPrefixTree CoverageValue :=
  mkNode (value tree)
    (map (fun kc => (kc.1, (calculateComputed [] kc.2).2)) (children tree)).

Definition computeAllNodes (tree : WellDefinedPrefixTree CoverageValue)
  : WellDefinedPrefixTree CoverageValue :=
  computeNodes (calculateComputed [] tree).2.

(** [createFileCoverage] from the files the provider returned. *)
Definition buildTree (files : list IFileCoverage) : WellDefinedPrefixTree CoverageValue :=
  computeNodes (insertFiles files).

(** The lookup of [getUri], once the tree is there: the key is the path of
    the URI split at the slashes. *)
Definition getUri_find (uri : URI) (files : WellDefinedPrefixTree CoverageValue)
  : option CoverageValue :=
  find (split "/" (path uri)) files.

(** ** Specification-level definitions *)

(** The categories a node has: its statement count and the optional counts
    that are present. *)
Definition categories (this : AbstractFileCoverage) : list ICoveredCount :=
  statement this :: omap id [branch this; function this].

(** The data-model invariant of a node: every count it has is well formed. *)
Definition wfCoverage (this : AbstractFileCoverage) : Prop :=
  wf (statement this) /\ wfOpt (branch this) /\ wfOpt (function this).

#[export] Instance wfCoverage_dec this : Decision (wfCoverage this).
Proof. unfold wfCoverage. apply _. Defined.

(** The same of the data a provider hands over. *)
Definition wfFile (file : IFileCoverage) : Prop :=
  wf (fc_statement file) /\ wfOpt (fc_branch file) /\ wfOpt (fc_function file).

#[export] Instance wfFile_dec file : Decision (wfFile file).
Proof. unfold wfFile. apply _. Defined.

(** The invariant of the tree: every value it holds is well formed. *)
Definition wfValues (t : Node CoverageValue) : Prop :=
  forall k v, find k t = Some v -> wfCoverage (abstract v).

(** What aggregation is to compute at a position: the value the position
    holds, or else the sum over its children. *)
Fixpoint aggStatement (n : TestCoverageFileNode) : ICoveredCount :=
  match n with
  | mkNode (Some v) _ => statement (abstract v)
  | mkNode None cs => sumAll (map (fun kc => aggStatement kc.2) cs)
  end.

Fixpoint aggBranch (n : TestCoverageFileNode) : option ICoveredCount :=
  match n with
  | mkNode (Some v) _ => branch (abstract v)
  | mkNode None cs => sumAllOpt (map (fun kc => aggBranch kc.2) cs)
  end.

Fixpoint aggFunction (n : TestCoverageFileNode) : option ICoveredCount :=
  match n with
  | mkNode (Some v) _ => function (abstract v)
  | mkNode None cs => sumAllOpt (map (fun kc => aggFunction kc.2) cs)
  end.

(** The key of a file in the tree. *)
Definition keyOf (file : IFileCoverage) : list string :=
  treePathForUri (fc_uri file).

(** The files at or below a position. *)
Definition filesBelow (k : list string) (files : list IFileCoverage) : list IFileCoverage :=
  filter (fun file => k `prefix_of` keyOf file) files.

(** The insertions of the first loop. *)
Definition fileItems (files : list IFileCoverage) : list (list string * CoverageValue) :=
  map (fun file => (keyOf file, File (FileCoverage_new file 0))) files.

(** The recursive calls of [calculateComputed] at a position without a
    value: the values they return and the nodes they leave behind. *)
Definition childValues (path : list string) (cs : list (string * TestCoverageFileNode))
  : list AbstractFileCoverage :=
  map (fun kc => abstract (calculateComputed (path ++ [kc.1]) kc.2).1) cs.

Definition childNodes (path : list string) (cs : list (string * TestCoverageFileNode))
  : list (string * TestCoverageFileNode) :=
  map (fun kc => (kc.1, (calculateComputed (path ++ [kc.1]) kc.2).2)) cs.

(** The record [fileCoverage] after the loop over the children. *)
Definition sumsOf (vs : list AbstractFileCoverage) : Sums :=
  fold_left addChild vs emptySums.

(** The [ComputedFileCoverage] built from it. *)
Definition computedValue (path : list string) (sums : Sums) : CoverageValue :=
  Computed (AbstractFileCoverage_new (treePathToUri path) (sum_statement sums)
              (sum_branch sums) (sum_function sums)).

(** The values nearest to a position: its own, or else those of its
    children. *)
Fixpoint frontier (n : TestCoverageFileNode) : list CoverageValue :=
  match n with
  | mkNode (Some v) _ => [v]
  | mkNode None cs => flat_map (fun kc => frontier kc.2) cs
  end.

(** The tree that the traversal leaves behind, defined by recursion on the
    tree: a position that holds a value keeps it and its children are
    visited with an empty path; a position without one gets the computed
    value and its children are visited with the path extended. *)
Fixpoint fillFrom (path : list string) (n : TestCoverageFileNode) : TestCoverageFileNode :=
  match n with
  | mkNode (Some v) cs => mkNode (Some v) (map (fun kc => (kc.1, fillFrom [] kc.2)) cs)
  | mkNode None cs =>
      mkNode (Some (calculateComputed path n).1)
        (map (fun kc => (kc.1, fillFrom (path ++ [kc.1]) kc.2)) cs)
  end.

Definition fillTree (t : WellDefinedPrefixTree CoverageValue)
  : WellDefinedPrefixTree CoverageValue :=
  mkNode (value t) (map (fun kc => (kc.1, fillFrom [] kc.2)) (children t)).

(** Every position below the root holds a value. *)
Inductive allValued : TestCoverageFileNode -> Prop :=
| allValued_intro v cs :
    Forall (fun kc => is_Some (value kc.2) /\ allValued kc.2) cs ->
    allValued (mkNode v cs).

End Coverage.

Arguments IFileCoverage CoverageDetails : clear implicits.
Arguments FileCoverage CoverageDetails : clear implicits.
Arguments CoverageValue CoverageDetails : clear implicits.

(** * Theorems *)

Section CoverageFacts.
Context {CoverageDetails : Type}.
Implicit Types (this : AbstractFileCoverage) (path : list string).
Implicit Types (n node : Node (CoverageValue CoverageDetails)).
Implicit Types (v : CoverageValue CoverageDetails).
Implicit Types (cs : list (string * Node (CoverageValue CoverageDetails))).
Implicit Types (coverage : IFileCoverage CoverageDetails).
Implicit Types (t tree : WellDefinedPrefixTree (CoverageValue CoverageDetails)).
Implicit Types (files : list (IFileCoverage CoverageDetails)).

(** ** The constructors *)

Lemma AbstractFileCoverage_new_statement u s b f :
  statement (AbstractFileCoverage_new u s b f) = s.
Proof. reflexivity. Qed.

Lemma AbstractFileCoverage_new_branch u s b f :
  branch (AbstractFileCoverage_new u s b f) = b.
Proof. reflexivity. Qed.

Lemma wfCoverage_new u s b f :
  wf s -> wfOpt b -> wfCoverage (AbstractFileCoverage_new u s b f).
Proof. intros Hs Hb. split; [exact Hs | split; exact Hb]. Qed.

(** ** The total coverage percent *)

(** [tpc] is the quotient of the summed categories. *)
Lemma tpc_ratio this :
  tpc this = ratio (covered (sumAll (categories this))) (total (sumAll (categories this))).
Proof.
  unfold tpc, categories, ratio. destruct this as [u [sc st] [[bc bt]|] [[fc ft]|]];
    cbn; repeat (f_equal; try lia).
Qed.

Lemma wf_categories this : wfCoverage this -> Forall wf (categories this).
Proof.
  destruct this as [u s [b|] [f|]]; intros (Hs & Hb & Hf); unfold categories; cbn in *;
    repeat (apply Forall_cons_2; [assumption|]); apply Forall_nil_2.
Qed.

(** The total coverage percent of a node whose counts are well formed lies
    between 0 and 1. *)
Lemma tpc_range this : wfCoverage this -> (0 <= tpc this <= 1)%Q.
Proof.
  intros Hw. rewrite tpc_ratio. apply ratio_range.
  exact (wf_sumAll _ (wf_categories _ Hw)).
Qed.

(** A node with nothing to measure, every category it has being of total
    zero, is reported as fully covered. *)
Theorem tpc_nothing_measurable this :
  Forall (fun c => total c = 0) (categories this) -> tpc this = 1%Q.
Proof.
  intros Hz. rewrite tpc_ratio.
  assert (total (sumAll (categories this)) = 0) as ->; [|apply ratio_zero_den].
  induction Hz as [|c l Hc _ IH]; [reflexivity|].
  rewrite sumAll_cons. simpl. lia.
Qed.

(** [tpc] is below 1 as soon as a unit of a well-formed node is uncovered. *)
Lemma tpc_lt_1 this :
  wfCoverage this ->
  covered (sumAll (categories this)) < total (sumAll (categories this)) ->
  (tpc this < 1)%Q.
Proof.
  intros Hw Hlt. rewrite tpc_ratio. apply ratio_lt_1.
  pose proof (wf_sumAll _ (wf_categories _ Hw)) as [H0 _]. lia.
Qed.

(** C8: the constructor stores the branch count as the function count: the
    function count of the record it is given is dropped, so that [tpc] counts
    branches twice and functions never. *)
Theorem tpc_counts_branch_twice u s b f :
  function (AbstractFileCoverage_new u s b f) = b /\
  tpc (AbstractFileCoverage_new u s b f) =
  match b with
  | Some c => ratio (covered s + 2 * covered c) (total s + 2 * total c)
  | None => ratio (covered s) (total s)
  end.
Proof.
  split; [reflexivity|]. unfold tpc, ratio.
  destruct s as [sc st], b as [[bc bt]|]; cbn; [|reflexivity].
  replace (sc + bc + bc) with (sc + 2 * bc) by lia.
  now replace (st + bt + bt) with (st + 2 * bt) by lia.
Qed.

(** The function count of a file never reaches its node. *)
Lemma FileCoverage_new_function coverage i :
  function (base (FileCoverage_new coverage i)) = fc_branch coverage.
Proof. reflexivity. Qed.

(** ** Tree paths *)

Lemma treePathForUri_length u : (2 < length (treePathForUri u))%nat.
Proof.
  unfold treePathForUri. destruct (split_cons "/" (path u)) as (h & t & ->).
  simpl. lia.
Qed.

(** C32: the tree path of a URI decodes to the URI: scheme, authority and the
    path cut at its slashes and joined again. *)
Theorem treePath_roundtrip u : treePathToUri (treePathForUri u) = revive u.
Proof.
  unfold revive. now rewrite <- (join_split "/" (path u)).
Qed.

(** Distinct URIs have distinct tree paths. *)
Lemma treePathForUri_inj u u' : treePathForUri u = treePathForUri u' -> u = u'.
Proof.
  destruct u as [s a p], u' as [s' a' p']. unfold treePathForUri. simpl.
  intros [= -> -> E]. f_equal.
  now rewrite <- (join_split "/" p), E, join_split.
Qed.

(** ** [calculateComputed] *)

Lemma calculateComputed_Some path v cs :
  calculateComputed path (mkNode (Some v) cs) = (v, mkNode (Some v) cs).
Proof. reflexivity. Qed.

(** At a position without a value: one recursive call per child in the order
    of the map, the sums of the returned values, the computed value stored. *)
Lemma calculateComputed_None path cs :
  calculateComputed path (mkNode None cs) =
  (computedValue path (sumsOf (childValues path cs)),
   mkNode (Some (computedValue path (sumsOf (childValues path cs)))) (childNodes path cs)).
Proof.
  unfold sumsOf, childValues, childNodes, computedValue. cbn [calculateComputed].
  generalize emptySums.
  induction cs as [|[k c] cs IH]; intros acc; [reflexivity|].
  cbn [map fold_left fst snd]. destruct (calculateComputed (path ++ [k]) c) as [v c'].
  specialize (IH (addChild acc (abstract v))). cbn [fst snd].
  match type of IH with
  | (let '(_, _) := ?e in _) = _ => destruct e as [fc rest]
  end.
  now invert IH.
Qed.

Lemma sumsOf_acc vs acc :
  fold_left addChild vs acc =
  mkSums (sumCounts (sum_statement acc) (sumAll (map statement vs)))
         (sumOpt (sum_branch acc) (sumAllOpt (map branch vs)))
         (sumOpt (sum_function acc) (sumAllOpt (map function vs))).
Proof.
  revert acc. induction vs as [|v vs IH]; intros [s b f]; simpl.
  - unfold sumAll, sumAllOpt. cbn. now rewrite sumCounts_empty_r.
  - rewrite IH. cbn [addChild sum_statement sum_branch sum_function].
    now rewrite sumAll_cons, !sumAllOpt_cons, sumCounts_assoc, !sumOpt_assoc.
Qed.

(** The sums are the sums of the three fields over the children's values. *)
Lemma sumsOf_spec vs :
  sumsOf vs =
  mkSums (sumAll (map statement vs)) (sumAllOpt (map branch vs))
         (sumAllOpt (map function vs)).
Proof.
  unfold sumsOf. rewrite sumsOf_acc. cbn [emptySums sum_statement sum_branch sum_function].
  now rewrite sumCounts_empty_l, !sumOpt_None_l.
Qed.

(** The node left behind holds the value returned. *)
Lemma calculateComputed_value path n :
  value (calculateComputed path n).2 = Some (calculateComputed path n).1.
Proof. destruct n as [[v|] cs]; [reflexivity | now rewrite calculateComputed_None]. Qed.

(** A value that is there is returned as it is: files are never overwritten. *)
Lemma calculateComputed_valued path n v :
  value n = Some v -> calculateComputed path n = (v, n).
Proof. destruct n as [[v'|] cs]; simpl; [now intros [= ->] | discriminate]. Qed.

(** A node that was computed is left alone by a later call. *)
Lemma calculateComputed_again path path' n :
  (calculateComputed path' (calculateComputed path n).2).2 = (calculateComputed path n).2.
Proof.
  now rewrite (calculateComputed_valued path' _ _ (calculateComputed_value path n)).
Qed.

(** Memoisation: a second call on a node that was computed returns the
    stored value and changes nothing, whatever path it is given. *)
Theorem calculateComputed_memo path path' n :
  calculateComputed path' (calculateComputed path n).2 = calculateComputed path n.
Proof.
  rewrite (calculateComputed_valued path' _ _ (calculateComputed_value path n)).
  now destruct (calculateComputed path n).
Qed.

(** ** Aggregation *)

Lemma childValues_statement path cs :
  Forall (fun kc => forall p, statement (abstract (calculateComputed p kc.2).1) = aggStatement kc.2) cs ->
  map statement (childValues path cs) = map (fun kc => aggStatement kc.2) cs.
Proof.
  intros IH. unfold childValues. rewrite map_map. apply map_ext_Forall.
  eapply Forall_impl; [exact IH|]. intros kc Hkc. apply Hkc.
Qed.

Lemma childValues_branch path cs :
  Forall (fun kc => forall p, branch (abstract (calculateComputed p kc.2).1) = aggBranch kc.2) cs ->
  map branch (childValues path cs) = map (fun kc => aggBranch kc.2) cs.
Proof.
  intros IH. unfold childValues. rewrite map_map. apply map_ext_Forall.
  eapply Forall_impl; [exact IH|]. intros kc Hkc. apply Hkc.
Qed.

Lemma calculateComputed_statement path n :
  statement (abstract (calculateComputed path n).1) = aggStatement n.
Proof.
  revert path. induction n as [[v|] cs IH] using Node_ind; intros path; [reflexivity|].
  rewrite calculateComputed_None. unfold computedValue. cbn [fst abstract aggStatement].
  rewrite AbstractFileCoverage_new_statement, sumsOf_spec. cbn [sum_statement].
  now rewrite childValues_statement.
Qed.

Lemma calculateComputed_branch path n :
  branch (abstract (calculateComputed path n).1) = aggBranch n.
Proof.
  revert path. induction n as [[v|] cs IH] using Node_ind; intros path; [reflexivity|].
  rewrite calculateComputed_None. unfold computedValue. cbn [fst abstract aggBranch].
  rewrite AbstractFileCoverage_new_branch, sumsOf_spec. cbn [sum_branch].
  now rewrite childValues_branch.
Qed.

(** The function count of a computed value is its branch count. *)
Lemma calculateComputed_function path n :
  function (abstract (calculateComputed path n).1) =
  match value n with
  | Some v => function (abstract v)
  | None => aggBranch n
  end.
Proof.
  destruct n as [[v|] cs]; [reflexivity|]. rewrite <- calculateComputed_branch with (path := path).
  now rewrite calculateComputed_None.
Qed.

(** C2: one call of [calculateComputed].  At a position that holds a value
    the value is returned and the node is left as it is.  At a position
    without a value the call returns a computed node and stores it in the
    node, whose children are the nodes that the recursive calls left; the
    computed node has the URI decoded from the path, the statement and
    branch counts the specification asks for (the sums over the children,
    computed children first), and its function count is its branch
    count. *)
Theorem calculateComputed_sums path n :
  match value n with
  | Some v => calculateComputed path n = (v, n)
  | None =>
      exists c,
        calculateComputed path n =
          (Computed c, mkNode (Some (Computed c)) (childNodes path (children n))) /\
        uri c = treePathToUri path /\
        statement c = aggStatement n /\
        branch c = aggBranch n /\
        function c = aggBranch n
  end.
Proof.
  destruct n as [[v|] cs]; cbn [value children]; [reflexivity|].
  pose proof (calculateComputed_statement path (mkNode None cs)) as Hs.
  pose proof (calculateComputed_branch path (mkNode None cs)) as Hb.
  pose proof (calculateComputed_function path (mkNode None cs)) as Hf.
  rewrite calculateComputed_None in *. cbn [fst computedValue abstract value] in *.
  eexists. split; [reflexivity|]. split; [reflexivity|]. auto.
Qed.

(** The sums over the children are the sums over the nearest values below. *)
Lemma aggStatement_frontier n :
  aggStatement n = sumAll (map (fun v => statement (abstract v)) (frontier n)).
Proof.
  induction n as [[v|] cs IH] using Node_ind; cbn [aggStatement frontier].
  - cbn [map]. now rewrite sumAll_singleton.
  - induction IH as [|kc cs Hkc _ IHcs]; [reflexivity|].
    cbn [map flat_map]. now rewrite map_app, sumAll_cons, sumAll_app, Hkc, IHcs.
Qed.

Lemma aggBranch_frontier n :
  aggBranch n = sumAllOpt (map (fun v => branch (abstract v)) (frontier n)).
Proof.
  induction n as [[v|] cs IH] using Node_ind; cbn [aggBranch frontier].
  - cbn [map]. now rewrite sumAllOpt_cons, sumAllOpt_nil, sumOpt_None_r.
  - induction IH as [|kc cs Hkc _ IHcs]; [reflexivity|].
    cbn [map flat_map]. now rewrite map_app, sumAllOpt_cons, sumAllOpt_app, Hkc, IHcs.
Qed.

(** ** Shape and invariants *)

Lemma childNodes_keys path cs : map_keys (childNodes path cs) = map_keys cs.
Proof. unfold childNodes, map_keys. induction cs as [|[k c] cs IH]; csimpl; congruence. Qed.

(** [calculateComputed] keeps the positions of the tree. *)
Lemma calculateComputed_sameShape path n : sameShape n (calculateComputed path n).2.
Proof.
  revert path. induction n as [[v|] cs IH] using Node_ind; intros path.
  - apply sameShape_refl.
  - rewrite calculateComputed_None. constructor. unfold childNodes.
    induction IH as [|kc cs Hkc _ IHcs]; constructor; [split; [reflexivity | apply Hkc] | auto].
Qed.

Lemma calculateComputed_wfNode path n : wfNode n -> wfNode (calculateComputed path n).2.
Proof. apply sameShape_wfNode, calculateComputed_sameShape. Qed.

(** ** The loop over the nodes of the tree *)

Lemma wfNode_Forall (o : option (CoverageValue CoverageDetails)) cs :
  wfNode (mkNode o cs) -> Forall (fun kc => wfNode kc.2) cs.
Proof. now inversion 1. Qed.

Lemma fillFrom_value path n :
  value (fillFrom path n) = Some (calculateComputed path n).1.
Proof. now destruct n as [[v|] cs]. Qed.

(** The traversal below a node that [calculateComputed] has just been
    through leaves what the recursive definition says. *)
Lemma forNodes_calculateComputed path n :
  wfNode n ->
  forNodes (fun node => (calculateComputed [] node).2) (calculateComputed path n).2 =
  fillFrom path n.
Proof.
  revert path. induction n as [[v|] cs IH] using Node_ind; intros path Hw;
    pose proof (wfNode_Forall _ _ Hw) as Hcs; apply wfNode_keys in Hw; simpl in Hw.
  - cbn [calculateComputed snd fillFrom]. rewrite forNodes_node by assumption.
    f_equal. apply (map_ext_Forall_2 _ _ _ _ _ IH Hcs).
    intros kc Hkc Hwk. cbn beta. f_equal.
    rewrite visit_forNodes by (intros; apply calculateComputed_sameShape). auto.
  - rewrite calculateComputed_None. cbn [snd fillFrom].
    rewrite forNodes_node by now rewrite childNodes_keys.
    rewrite calculateComputed_None. cbn [fst]. f_equal.
    unfold childNodes. rewrite map_map. apply (map_ext_Forall_2 _ _ _ _ _ IH Hcs).
    intros kc Hkc Hwk. cbn [fst snd]. f_equal.
    rewrite visit_forNodes by (intros; apply calculateComputed_sameShape).
    rewrite calculateComputed_again. auto.
Qed.

Lemma computeNodes_spec t : wfNode t -> computeNodes t = fillTree t.
Proof.
  intros Hw. destruct t as [v cs]. unfold computeNodes, fillTree.
  rewrite forNodes_node by now apply wfNode_keys in Hw.
  cbn [value children]. f_equal. apply map_ext_Forall.
  eapply Forall_impl; [exact (wfNode_Forall _ _ Hw)|].
  intros kc Hkc. cbn beta. f_equal.
  rewrite visit_forNodes by (intros; apply calculateComputed_sameShape).
  now apply forNodes_calculateComputed.
Qed.

(** ** The tree after the loop *)

Lemma fillFrom_allValued path n : allValued (fillFrom path n).
Proof.
  revert path. induction n as [[v|] cs IH] using Node_ind; intros path;
    cbn [fillFrom]; constructor; apply Forall_map;
    (eapply Forall_impl; [exact IH|]); intros kc Hkc; cbn [snd];
    rewrite fillFrom_value; eauto.
Qed.

Lemma fillTree_allValued t : allValued (fillTree t).
Proof.
  unfold fillTree. constructor. apply Forall_map, Forall_forall. intros kc _.
  cbn [snd]. rewrite fillFrom_value. split; [eauto | apply fillFrom_allValued].
Qed.

(** In a tree all of whose positions hold a value, lookup of a position below
    the root finds one. *)
Lemma allValued_find k n m :
  allValued n -> k <> [] -> findNode k n = Some m -> is_Some (value m).
Proof.
  revert n. induction k as [|s r IH]; intros n Hn Hk; [congruence|]. simpl.
  destruct (map_get s (children n)) as [c|] eqn:E; [|discriminate].
  destruct Hn as [v cs Hcs]. simpl in E.
  pose proof (map_Forall_get (fun c => is_Some (value c) /\ allValued c) _ _ _ Hcs E)
    as [Hv Hc].
  destruct r as [|s' r']; [now intros [= <-] | apply IH; [assumption | discriminate]].
Qed.

(** The positions of the filled tree are those of the tree, each filled from
    some path. *)
Lemma findNode_fillFrom k path n :
  exists path', findNode k (fillFrom path n) = fillFrom path' <$> findNode k n.
Proof.
  revert path n. induction k as [|s r IH]; intros path n; [now exists path|].
  destruct n as [[v|] cs]; cbn [fillFrom findNode children].
  - rewrite (map_get_fmap (fun _ c => fillFrom [] c)).
    destruct (map_get s cs) as [c|]; cbn; [apply IH | now exists []].
  - rewrite (map_get_fmap (fun k c => fillFrom (path ++ [k]) c)).
    destruct (map_get s cs) as [c|]; cbn; [apply IH | now exists []].
Qed.

Lemma findNode_fillTree k t :
  k <> [] -> exists path', findNode k (fillTree t) = fillFrom path' <$> findNode k t.
Proof.
  destruct k as [|s r]; [congruence|]. intros _. unfold fillTree. cbn [findNode children].
  rewrite (map_get_fmap (fun _ c => fillFrom [] c)).
  destruct (map_get s (children t)) as [c|]; cbn; [apply findNode_fillFrom | now exists []].
Qed.

(** The value found at a position of the filled tree is the one
    [calculateComputed] returns for the position of the tree. *)
Lemma find_fillTree k t :
  k <> [] ->
  exists path', find k (fillTree t) = (fun m => (calculateComputed path' m).1) <$> findNode k t.
Proof.
  intros Hk. destruct (findNode_fillTree k t Hk) as [path' E]. exists path'.
  unfold find. rewrite E. destruct (findNode k t); cbn; [apply fillFrom_value | reflexivity].
Qed.

(** A value of the tree is kept by the filled tree. *)
Lemma find_fillTree_kept k t v : find k t = Some v -> find k (fillTree t) = Some v.
Proof.
  destruct (decide (k = [])) as [->|Hk]; [now destruct t|].
  destruct (find_fillTree k t Hk) as [path' ->]. unfold find.
  destruct (findNode k t) as [m|]; [|discriminate]. cbn. intros Hv.
  now rewrite (calculateComputed_valued _ _ _ Hv).
Qed.

(** A file found in the filled tree was in the tree. *)
Lemma find_fillTree_File k t f : find k (fillTree t) = Some (File f) -> find k t = Some (File f).
Proof.
  destruct (decide (k = [])) as [->|Hk]; [now destruct t|].
  destruct (find_fillTree k t Hk) as [path' ->]. unfold find.
  destruct (findNode k t) as [[[v|] cs]|]; cbn -[calculateComputed]; [auto | | discriminate].
  rewrite calculateComputed_None. discriminate.
Qed.

(** ** The insertion loop *)

Lemma insertFiles_nil : insertFiles (CoverageDetails := CoverageDetails) [] = emptyTree.
Proof. reflexivity. Qed.

Lemma insertFiles_snoc files file :
  insertFiles (files ++ [file]) =
  insert (treePathForUri (fc_uri file)) (File (FileCoverage_new file 0)) (insertFiles files).
Proof. unfold insertFiles. now rewrite fold_left_app. Qed.

Lemma insertFiles_wfNode files : wfNode (insertFiles files).
Proof.
  induction files as [|file files IH] using rev_ind; [apply wfNode_emptyNode|].
  rewrite insertFiles_snoc. now apply wfNode_insert.
Qed.

(** What the insertion loop stores: at the tree path of a file, the
    [FileCoverage] of the last file with this path, made with index 0. *)
Lemma find_insertFiles k files v :
  find k (insertFiles files) = Some v ->
  exists file, file ∈ files /\ k = treePathForUri (fc_uri file) /\
               v = File (FileCoverage_new file 0).
Proof.
  induction files as [|file files IH] using rev_ind.
  - rewrite insertFiles_nil. unfold emptyTree. now rewrite find_emptyNode.
  - rewrite insertFiles_snoc, find_insert. case_decide as Hk.
    + intros [= <-]. exists file. split; [apply elem_of_app; right; left | auto].
    + intros (f & Hf & ?)%IH. exists f. split; [apply elem_of_app; now left | auto].
Qed.

(** The root never holds a value: every tree path has a scheme and an
    authority. *)
Lemma value_insertFiles files : value (insertFiles files) = None.
Proof.
  destruct (value (insertFiles files)) as [v|] eqn:E; [|reflexivity].
  change (find [] (insertFiles files) = Some v) in E.
  apply find_insertFiles in E as (f & _ & Hk & _). discriminate.
Qed.

Lemma buildTree_fillTree files : buildTree files = fillTree (insertFiles files).
Proof. apply computeNodes_spec, insertFiles_wfNode. Qed.

(** ** Well-formed counts *)

Lemma wfValues_child (o : option (CoverageValue CoverageDetails)) cs k c :
  wfValues (mkNode o cs) -> map_get k cs = Some c -> wfValues c.
Proof. intros Hv Hc r w Hr. apply (Hv (k :: r)). rewrite find_cons. cbn. now rewrite Hc. Qed.

Lemma wfValues_findNode k t m : wfValues t -> findNode k t = Some m -> wfValues m.
Proof. intros Hv Hm r w Hr. apply (Hv (k ++ r)). now rewrite <- find_subtree, Hm. Qed.

(** The value [calculateComputed] returns for a position of a tree with
    well-formed values is well formed: sums of well-formed counts are. *)
Lemma calculateComputed_wf path n :
  wfNode n -> wfValues n -> wfCoverage (abstract (calculateComputed path n).1).
Proof.
  revert path. induction n as [[v|] cs IH] using Node_ind; intros path Hn Hv.
  - apply (Hv [] v). reflexivity.
  - rewrite calculateComputed_None. cbn [fst computedValue abstract].
    assert (Hcs : Forall wfCoverage (childValues path cs)).
    { apply Forall_map, Forall_forall. intros [k c] Hkc.
      pose proof (map_get_elem k c cs (wfNode_keys _ Hn) Hkc) as Hget.
      rewrite Forall_forall in IH. apply (IH _ Hkc).
      - eapply wfNode_children; eauto.
      - eapply wfValues_child; eauto. }
    rewrite sumsOf_spec. apply wfCoverage_new.
    + apply wf_sumAll, Forall_map. eapply Forall_impl; [exact Hcs|]. now intros ? [].
    + apply wfOpt_sumAllOpt, Forall_map. eapply Forall_impl; [exact Hcs|]. now intros ? (_ & ? & _).
Qed.

Lemma wfValues_insertFiles files : Forall wfFile files -> wfValues (insertFiles files).
Proof.
  intros Hfiles k v (file & Hfile & _ & ->)%find_insertFiles.
  rewrite Forall_forall in Hfiles. destruct (Hfiles _ Hfile) as (? & ? & ?). now split.
Qed.

(** Every value of the tree built from files with well-formed counts is well
    formed, the computed ones included. *)
Lemma buildTree_wf files k v :
  Forall wfFile files -> find k (buildTree files) = Some v -> wfCoverage (abstract v).
Proof.
  intros Hfiles%wfValues_insertFiles. rewrite buildTree_fillTree.
  destruct (decide (k = [])) as [->|Hk].
  - intros Hv. apply (Hfiles [] v). revert Hv. now destruct (insertFiles files).
  - destruct (find_fillTree k (insertFiles files) Hk) as [path' ->].
    destruct (findNode k (insertFiles files)) as [m|] eqn:Hm; [|discriminate].
    intros [= <-]. apply calculateComputed_wf.
    + eapply wfNode_findNode; [apply insertFiles_wfNode | exact Hm].
    + eapply wfValues_findNode; eauto.
Qed.

(** ** Aggregates in terms of the files *)

Lemma insertFiles_insertAll files : insertFiles files = insertAll (fileItems files) emptyTree.
Proof.
  unfold insertFiles, insertAll, fileItems. generalize (@emptyTree (CoverageValue CoverageDetails)).
  induction files as [|file files IH]; intros t; simpl; [reflexivity | apply IH].
Qed.

Lemma fileItems_keys files : (fileItems files).*1 = keyOf <$> files.
Proof. unfold fileItems. induction files as [|file files IH]; csimpl; congruence. Qed.

Lemma fileItems_filter (g : CoverageValue CoverageDetails -> ICoveredCount) k files :
  map (fun kv => g kv.2) (filter (fun kv => k `prefix_of` kv.1) (fileItems files)) =
  map (fun file => g (File (FileCoverage_new file 0))) (filesBelow k files).
Proof.
  unfold fileItems, filesBelow. induction files as [|file files IH]; [reflexivity|].
  cbn [map]. rewrite !filter_cons. cbn [fst]. case_decide; cbn [map snd]; congruence.
Qed.

Lemma fileItems_filter_opt (g : CoverageValue CoverageDetails -> option ICoveredCount) k files :
  map (fun kv => g kv.2) (filter (fun kv => k `prefix_of` kv.1) (fileItems files)) =
  map (fun file => g (File (FileCoverage_new file 0))) (filesBelow k files).
Proof.
  unfold fileItems, filesBelow. induction files as [|file files IH]; [reflexivity|].
  cbn [map]. rewrite !filter_cons. cbn [fst]. case_decide; cbn [map snd]; congruence.
Qed.

Lemma sumAll_combine l : sumAll l = combine sumCounts emptyCounts l.
Proof. induction l as [|c l IH]; [reflexivity|]. rewrite sumAll_cons, IH. reflexivity. Qed.

Lemma sumAllOpt_combine l : sumAllOpt l = combine sumOpt None l.
Proof. induction l as [|c l IH]; [reflexivity|]. rewrite sumAllOpt_cons, IH. reflexivity. Qed.

Lemma aggStatement_summary n :
  aggStatement n = summary sumCounts emptyCounts (fun v => statement (abstract v)) n.
Proof.
  induction n as [[v|] cs IH] using Node_ind; [reflexivity|]. cbn [aggStatement summary].
  rewrite sumAll_combine. f_equal. now apply map_ext_Forall.
Qed.

Lemma aggBranch_summary n :
  aggBranch n = summary sumOpt None (fun v => branch (abstract v)) n.
Proof.
  induction n as [[v|] cs IH] using Node_ind; [reflexivity|]. cbn [aggBranch summary].
  rewrite sumAllOpt_combine. f_equal. now apply map_ext_Forall.
Qed.

(** The aggregate at a position that is not at or below a file is the sum
    over the files below it. *)
Lemma aggregate_insertFiles files k :
  NoDup (keyOf <$> files) ->
  prefixFree (keyOf <$> files) ->
  (forall file, file ∈ files -> ~ keyOf file `prefix_of` k) ->
  let m := default emptyNode (findNode k (insertFiles files)) in
  aggStatement m = sumAll (fc_statement <$> filesBelow k files) /\
  aggBranch m = sumAllOpt (fc_branch <$> filesBelow k files).
Proof.
  intros Hnd Hpf Hk. rewrite <- fileItems_keys in Hnd, Hpf.
  assert (forall key, key ∈ (fileItems files).*1 -> ~ key `prefix_of` k) as Hk'.
  { intros key. rewrite fileItems_keys. intros (file & -> & Hin)%list_elem_of_fmap. auto. }
  cbn zeta. rewrite insertFiles_insertAll, aggStatement_summary, aggBranch_summary.
  rewrite !(summary_insertAll _ _ _ _ _ Hnd Hpf Hk').
  rewrite (fileItems_filter (fun v => statement (abstract v))).
  rewrite (fileItems_filter_opt (fun v => branch (abstract v))).
  now rewrite <- sumAll_combine, <- sumAllOpt_combine.
Qed.

(** ** [createFileCoverage] *)

(** C11: the loop [for (const node of tree.nodes) calculateComputed([], node)]
    over a tree whose maps have distinct keys leaves the tree that the
    recursive definition [fillTree] describes: a position with a value keeps
    it, a position without one gets the value computed from its children,
    and the result does not depend on how the enumeration of the positions
    interleaves with the updates. *)
Theorem computeNodes_fillTree t : wfNode t -> computeNodes t = fillTree t.
Proof. apply computeNodes_spec. Qed.

(** After [createFileCoverage] every position of the tree below the root
    holds a value ("value is always defined"). *)
Theorem buildTree_always_valued files k m :
  k <> [] -> findNode k (buildTree files) = Some m -> is_Some (value m).
Proof.
  rewrite buildTree_fillTree. apply allValued_find, fillTree_allValued.
Qed.

(** Files are never overwritten: what the insertion loop stored at a key
    is what the finished tree holds there. *)
Theorem buildTree_keeps_files files k v :
  find k (insertFiles files) = Some v -> find k (buildTree files) = Some v.
Proof. rewrite buildTree_fillTree. apply find_fillTree_kept. Qed.

(** C25: every [FileCoverage] of the finished tree was made from a file of the
    provider's list, at the tree path of its URI, and with index 0, whatever
    the position of the file in the list. *)
Theorem buildTree_index_zero files k f :
  find k (buildTree files) = Some (File f) ->
  index f = 0%nat /\
  exists file, file ∈ files /\ k = treePathForUri (fc_uri file) /\
               f = FileCoverage_new file 0.
Proof.
  rewrite buildTree_fillTree. intros Hf%find_fillTree_File.
  apply find_insertFiles in Hf as (file & Hin & Hk & [= ->]). eauto.
Qed.

(** The URI of a computed node is decoded from the path the recursion has
    accumulated from the node the traversal started at. *)
Lemma uri_fillFrom k path n m :
  findNode k n = Some m ->
  value m = None ->
  (forall p, p `prefix_of` k -> p <> k -> find p n = None) ->
  exists c, find k (fillFrom path n) = Some (Computed c) /\ uri c = treePathToUri (path ++ k).
Proof.
  revert path n. induction k as [|s r IH]; intros path n Hm Hv Hp.
  - simpl in Hm. invert Hm. destruct m as [v cs]. simpl in Hv. subst v.
    rewrite find_nil, fillFrom_value, calculateComputed_None, app_nil_r.
    unfold computedValue. eauto.
  - pose proof (Hp [] (prefix_nil _) ltac:(discriminate)) as Hn. rewrite find_nil in Hn.
    destruct n as [v cs]. simpl in Hn. subst v. simpl in Hm.
    destruct (map_get s cs) as [c|] eqn:E; [|discriminate].
    rewrite find_cons. cbn [fillFrom children].
    rewrite (map_get_fmap (fun k c => fillFrom (path ++ [k]) c)), E. cbn [fmap option_fmap option_map].
    rewrite (cons_middle s path r), app_assoc. apply IH; [assumption..|].
    intros p Hpre Hne. specialize (Hp (s :: p) (prefix_cons _ _ _ Hpre) ltac:(congruence)).
    rewrite find_cons in Hp. simpl in Hp. now rewrite E in Hp.
Qed.

(** C1: aggregation correctness for [createFileCoverage]: when the files have
    distinct tree paths, none a prefix of another, every position that has a
    file below it and is not at or below a file holds a computed node whose
    statement and branch counts are the sums over the files below the
    position; its function count is its branch count. *)
Theorem buildTree_aggregates files k :
  NoDup (keyOf <$> files) ->
  prefixFree (keyOf <$> files) ->
  (forall file, file ∈ files -> ~ keyOf file `prefix_of` k) ->
  k <> [] ->
  filesBelow k files <> [] ->
  exists c,
    find k (buildTree files) = Some (Computed c) /\
    statement c = sumAll (fc_statement <$> filesBelow k files) /\
    branch c = sumAllOpt (fc_branch <$> filesBelow k files) /\
    function c = branch c.
Proof.
  intros Hnd Hpf Hk Hk0 Hbelow.
  destruct (aggregate_insertFiles files k Hnd Hpf Hk) as [Hs Hb].
  assert (is_Some (findNode k (insertFiles files))) as [m Hm].
  { destruct (filesBelow k files) as [|file l] eqn:E; [congruence|].
    assert (file ∈ filesBelow k files) as [Hpre Hin]%list_elem_of_filter by (rewrite E; left).
    rewrite insertFiles_insertAll.
    apply (findNode_insertAll_prefix k (keyOf file) (File (FileCoverage_new file 0)));
      [|assumption]. unfold fileItems. apply list_elem_of_fmap. eauto. }
  assert (value m = None) as Hv.
  { destruct (value m) as [v|] eqn:Hv; [|reflexivity].
    assert (find k (insertFiles files) = Some v) as Hf by (unfold find; now rewrite Hm).
    apply find_insertFiles in Hf as (file & Hin & -> & _). now destruct (Hk file Hin). }
  rewrite Hm in Hs, Hb. cbn [default from_option id] in Hs, Hb.
  rewrite buildTree_fillTree. destruct (find_fillTree k (insertFiles files) Hk0) as [p ->].
  rewrite Hm. destruct m as [v cs]. simpl in Hv. subst v. cbn -[calculateComputed].
  rewrite <- Hs, <- Hb, <- (calculateComputed_statement p), <- (calculateComputed_branch p).
  rewrite calculateComputed_None. unfold computedValue. cbn [fst abstract]. eauto.
Qed.

(** A position that is a prefix of no key is not in the tree. *)
Lemma findNode_insertFiles_None files k :
  k <> [] -> (forall file, file ∈ files -> ~ k `prefix_of` keyOf file) ->
  findNode k (insertFiles files) = None.
Proof.
  intros Hk. induction files as [|file files IH] using rev_ind; intros Hn.
  - rewrite insertFiles_nil. destruct k; [congruence | reflexivity].
  - rewrite insertFiles_snoc, findNode_insert_other by (apply Hn, elem_of_app; right; left).
    apply IH. intros f Hf. apply Hn, elem_of_app. now left.
Qed.

(** C19: the lookup of [getUri] uses the segments of the path alone, where
    the files were inserted under the scheme, the authority and the
    segments of the path: for a URI with an absolute path, whose first
    segment is empty, it finds nothing in a tree of files whose schemes are
    not empty, the file of that very URI included. *)
Theorem getUri_find_absolute files uri rest :
  path uri = String "/" rest ->
  (forall file, file ∈ files -> scheme (fc_uri file) <> "") ->
  getUri_find uri (buildTree files) = None.
Proof.
  intros Hp Hs. unfold getUri_find. rewrite Hp, buildTree_fillTree.
  assert (exists r, split "/" (String "/" rest) = "" :: r) as [r ->].
  { simpl. destruct (split "/" rest); eauto. }
  destruct (find_fillTree ("" :: r) (insertFiles files)) as [path' ->]; [discriminate|].
  rewrite findNode_insertFiles_None; [reflexivity | discriminate|].
  intros file Hin Hpre. apply (Hs file Hin).
  unfold keyOf, treePathForUri in Hpre. now apply prefix_cons_inv_1 in Hpre.
Qed.

(** C24: the URI of a computed node: the traversal starts at the nodes below
    the root with an empty path, so the node at the position [s :: r] is
    given the URI decoded from [r]: the first segment of its key is missing,
    the authority is read as the scheme and the first path segment as the
    authority. *)
Theorem buildTree_computed_uri files s r :
  (forall file, file ∈ files -> ~ keyOf file `prefix_of` (s :: r)) ->
  filesBelow (s :: r) files <> [] ->
  exists c, find (s :: r) (buildTree files) = Some (Computed c) /\ uri c = treePathToUri r.
Proof.
  intros Hk Hbelow.
  assert (is_Some (findNode (s :: r) (insertFiles files))) as [m Hm].
  { destruct (filesBelow (s :: r) files) as [|file l] eqn:E; [congruence|].
    assert (file ∈ filesBelow (s :: r) files) as [Hpre Hin]%list_elem_of_filter
      by (rewrite E; left).
    rewrite insertFiles_insertAll.
    apply (findNode_insertAll_prefix _ (keyOf file) (File (FileCoverage_new file 0)));
      [|assumption]. unfold fileItems. apply list_elem_of_fmap. eauto. }
  assert (forall p, p `prefix_of` (s :: r) -> find p (insertFiles files) = None) as Hnone.
  { intros p Hp. destruct (find p (insertFiles files)) as [v|] eqn:Hf; [|reflexivity].
    apply find_insertFiles in Hf as (file & Hin & -> & _). now destruct (Hk file Hin). }
  rewrite buildTree_fillTree. unfold fillTree. rewrite find_cons. cbn [children].
  rewrite (map_get_fmap (fun _ c => fillFrom [] c)). simpl in Hm.
  destruct (map_get s (children (insertFiles files))) as [c|] eqn:E; [|discriminate].
  cbn [fmap option_fmap option_map]. apply (uri_fillFrom r [] c m Hm).
  - specialize (Hnone (s :: r) ltac:(reflexivity)). rewrite find_cons, E in Hnone.
    unfold find in Hnone. now rewrite Hm in Hnone.
  - intros p Hpre _. specialize (Hnone (s :: p) (prefix_cons _ _ _ Hpre)).
    now rewrite find_cons, E in Hnone.
Qed.

(** ** The enumeration of [tree.nodes]

    What the results above owe to the choice of [PrefixTree.nodes]. *)

(** One call of [calculateComputed] fills the positions that are not below
    a value as the whole traversal does. *)
Lemma find_calculateComputed k path n :
  (forall p, p `prefix_of` k -> p <> k -> find p n = None) ->
  find k (calculateComputed path n).2 = find k (fillFrom path n).
Proof.
  revert path n. induction k as [|s r IH]; intros path n Hp.
  - now rewrite !find_nil, calculateComputed_value, fillFrom_value.
  - pose proof (Hp [] (prefix_nil _) ltac:(discriminate)) as Hn. rewrite find_nil in Hn.
    destruct n as [v cs]. simpl in Hn. subst v.
    rewrite calculateComputed_None. cbn [snd fillFrom]. rewrite !find_cons. cbn [children].
    unfold childNodes.
    rewrite (map_get_fmap (fun k c => (calculateComputed (path ++ [k]) c).2)),
      (map_get_fmap (fun k c => fillFrom (path ++ [k]) c)).
    destruct (map_get s cs) as [c|] eqn:E; [|reflexivity]. cbn. apply IH.
    intros p Hpre Hne. specialize (Hp (s :: p) (prefix_cons _ _ _ Hpre) ltac:(congruence)).
    now rewrite find_cons in Hp; cbn [children] in Hp; rewrite E in Hp.
Qed.

(** When [tree.nodes] is the nodes at the top of the tree, the loop leaves
    the same value at every position that is not below a value: the
    positions below are those that [calculateComputed], which returns at a
    value, never reaches. *)
Theorem computeTopNodes_find t k :
  wfNode t ->
  (forall p, p <> [] -> p `prefix_of` k -> p <> k -> find p t = None) ->
  find k (computeTopNodes t) = find k (computeNodes t).
Proof.
  intros Hw Hp. rewrite computeNodes_spec by assumption. unfold computeTopNodes, fillTree.
  destruct k as [|s r]; [reflexivity|]. rewrite !find_cons. cbn [children].
  rewrite (map_get_fmap (fun _ c => (calculateComputed [] c).2)),
    (map_get_fmap (fun _ c => fillFrom [] c)).
  destruct (map_get s (children t)) as [c|] eqn:E; [|reflexivity]. cbn.
  apply find_calculateComputed. intros p Hpre Hne.
  specialize (Hp (s :: p) ltac:(discriminate) (prefix_cons _ _ _ Hpre) ltac:(congruence)).
  now rewrite find_cons, E in Hp.
Qed.

(** A call of [calculateComputed] changes nothing at or below a value. *)
Lemma find_calculateComputed_kept p k path n v :
  p `prefix_of` k -> find p n = Some v -> find k (calculateComputed path n).2 = find k n.
Proof.
  revert k path n. induction p as [|s p IH]; intros k path n Hpre Hv.
  - rewrite find_nil in Hv. now rewrite (calculateComputed_valued _ _ _ Hv).
  - destruct Hpre as [k' ->]. destruct n as [[w|] cs]; [reflexivity|].
    rewrite calculateComputed_None. cbn [snd app]. rewrite !find_cons in *. cbn [children] in *.
    unfold childNodes.
    rewrite (map_get_fmap (fun k c => (calculateComputed (path ++ [k]) c).2)).
    destruct (map_get s cs) as [c|]; [|discriminate]. cbn.
    apply (IH (p ++ k')); [now exists k' | assumption].
Qed.

(** The positions below a value are as the insertion left them: the loop
    over the nodes at the top never reaches them, where the loop over the
    positions below the root computes them with the empty path. *)
Theorem computeTopNodes_kept t p k v :
  p <> [] -> p `prefix_of` k -> find p t = Some v ->
  find k (computeTopNodes t) = find k t.
Proof.
  intros Hp [k' ->] Hv. destruct p as [|s p]; [congruence|]. unfold computeTopNodes.
  cbn [app]. rewrite !find_cons in *. cbn [children].
  rewrite (map_get_fmap (fun _ c => (calculateComputed [] c).2)).
  destruct (map_get s (children t)) as [c|]; [|discriminate]. cbn.
  apply (find_calculateComputed_kept p _ _ _ v); [now exists k' | assumption].
Qed.

(** So for the tree of [createFileCoverage], at every position that is not
    below a file. *)
Corollary buildTree_top_nodes files k :
  (forall file, file ∈ files -> keyOf file `prefix_of` k -> keyOf file = k) ->
  find k (computeTopNodes (insertFiles files)) = find k (buildTree files).
Proof.
  intros Hk. apply computeTopNodes_find; [apply insertFiles_wfNode|].
  intros p _ Hpre Hne. destruct (find p (insertFiles files)) as [v|] eqn:Hf; [|reflexivity].
  apply find_insertFiles in Hf as (file & Hin & -> & _).
  now destruct (Hne (Hk file Hin Hpre)).
Qed.

(** When [tree.nodes] is every position with the root first, the loop is
    the recursive filling from the root. *)
Lemma computeAllNodes_spec t : wfNode t -> computeAllNodes t = fillFrom [] t.
Proof. apply forNodes_calculateComputed. Qed.

Lemma find_fillFrom k path n :
  exists path', find k (fillFrom path n) = (fun m => (calculateComputed path' m).1) <$> findNode k n.
Proof.
  destruct (findNode_fillFrom k path n) as [path' E]. exists path'.
  unfold find. rewrite E. destruct (findNode k n); cbn; [apply fillFrom_value | reflexivity].
Qed.

(** The counts do not depend on the enumeration: with the root first, every
    position below the root holds a value with the counts of the value that
    the traversal of the positions below the root leaves there. *)
Theorem computeAllNodes_counts t k v :
  wfNode t -> k <> [] -> find k (computeNodes t) = Some v ->
  exists v',
    find k (computeAllNodes t) = Some v' /\
    statement (abstract v') = statement (abstract v) /\
    branch (abstract v') = branch (abstract v) /\
    function (abstract v') = function (abstract v).
Proof.
  intros Hw Hk. rewrite computeNodes_spec, computeAllNodes_spec by assumption.
  destruct (find_fillTree k t Hk) as [p ->], (find_fillFrom k [] t) as [q ->].
  destruct (findNode k t) as [m|]; cbn; [|discriminate]. intros [= <-].
  eexists. split; [reflexivity|].
  now rewrite !calculateComputed_statement, !calculateComputed_branch,
    !calculateComputed_function.
Qed.

(** The URIs do: with the root first, the one call at the root passes every
    position its own path, and a computed node gets the URI of its key;
    with the positions below the root the first segment is missing
    ([buildTree_computed_uri]). *)
Theorem computeAllNodes_uri t k m :
  wfNode t ->
  findNode k t = Some m ->
  value m = None ->
  (forall p, p `prefix_of` k -> p <> k -> find p t = None) ->
  exists c, find k (computeAllNodes t) = Some (Computed c) /\ uri c = treePathToUri k.
Proof.
  intros Hw Hm Hv Hp. rewrite computeAllNodes_spec by assumption.
  exact (uri_fillFrom k [] t m Hm Hv Hp).
Qed.

End CoverageFacts.

(** * Witnesses *)

(** A directory node with eleven of fourteen units covered. *)
Definition example_node : AbstractFileCoverage :=
  mkAbstractFileCoverage (mkUriComponents (Some "file") (Some "") "/a")
    (mkCount 4 6) (Some (mkCount 3 4)) (Some (mkCount 4 4)).

(** A node for an empty file: one category, nothing to measure. *)
Definition example_empty_node : AbstractFileCoverage :=
  mkAbstractFileCoverage (mkUriComponents (Some "file") (Some "") "/e")
    (mkCount 0 0) None None.

Lemma tpc_range_witness : (0 <= tpc example_node <= 1)%Q.
Proof.
  apply (tpc_range example_node).
  unfold wfCoverage, wfOpt, wf; simpl; lia.
Defined.

Lemma tpc_nothing_measurable_witness : tpc example_empty_node = 1%Q.
Proof.
  apply (tpc_nothing_measurable example_empty_node).
  repeat constructor.
Defined.

(** The two files of the example of the specification: [a/b/x] with statement
    count 1 of 2 and [a/b/y] with 3 of 4; the first also has branch and
    function counts. *)
Definition example_files : list (IFileCoverage unit) :=
  [ mkIFileCoverage (mkURI "file" "" "/a/b/x") (mkCount 1 2)
      (Some (mkCount 1 1)) (Some (mkCount 5 7)) None;
    mkIFileCoverage (mkURI "file" "" "/a/b/y") (mkCount 3 4) None None None ].

(** The position of the directory [a/b]. *)
Definition example_dir : list string := ["file"; ""; ""; "a"; "b"].

Lemma computeNodes_fillTree_witness :
  computeNodes (insertFiles example_files) = fillTree (insertFiles example_files).
Proof.
  apply (computeNodes_fillTree (insertFiles example_files)).
  by_compute.
Defined.

Lemma buildTree_always_valued_witness :
  is_Some (value (default emptyNode (findNode example_dir (buildTree example_files)))).
Proof.
  apply (buildTree_always_valued example_files example_dir); [discriminate|].
  vm_compute. reflexivity.
Defined.

Lemma buildTree_keeps_files_witness :
  find (example_dir ++ ["x"]) (buildTree example_files) =
  Some (File (FileCoverage_new (mkIFileCoverage (mkURI "file" "" "/a/b/x") (mkCount 1 2)
                                  (Some (mkCount 1 1)) (Some (mkCount 5 7)) None) 0)).
Proof.
  apply (buildTree_keeps_files example_files). vm_compute. reflexivity.
Defined.

Lemma buildTree_index_zero_witness :
  index (FileCoverage_new (mkIFileCoverage (mkURI "file" "" "/a/b/y") (mkCount 3 4)
                             None None (None : option (list unit))) 0) = 0%nat.
Proof.
  apply (buildTree_index_zero example_files (example_dir ++ ["y"])).
  vm_compute. reflexivity.
Defined.

(** The example of the specification: the aggregate at [a/b] has statement
    count 4 of 6. *)
Lemma buildTree_aggregates_witness :
  exists c,
    find example_dir (buildTree example_files) = Some (Computed c) /\
    statement c = mkCount 4 6 /\
    branch c = Some (mkCount 1 1) /\
    function c = branch c.
Proof.
  apply (buildTree_aggregates example_files example_dir).
  - by_compute.
  - by_compute.
  - apply Forall_forall. by_compute.
  - discriminate.
  - vm_compute. discriminate.
Defined.

(** The directory [a/b] of the example gets the URI with scheme [""],
    authority [""] and path ["a/b"], where its key decodes to scheme
    ["file"], authority [""] and path ["/a/b"]. *)
Lemma buildTree_computed_uri_witness :
  exists c, find example_dir (buildTree example_files) = Some (Computed c) /\
            uri c = mkUriComponents (Some "") (Some "") "a/b".
Proof.
  apply (buildTree_computed_uri example_files "file" [""; ""; "a"; "b"]).
  - apply Forall_forall. by_compute.
  - vm_compute. discriminate.
Defined.

(** The file [file:///a/b/x] of the example is not found under its own URI. *)
Lemma getUri_find_absolute_witness :
  getUri_find (mkURI "file" "" "/a/b/x") (buildTree example_files) = None.
Proof.
  apply (getUri_find_absolute example_files (mkURI "file" "" "/a/b/x") "a/b/x").
  - reflexivity.
  - apply Forall_forall. repeat constructor; discriminate.
Defined.
