(* ===== verification/Async.v ===== *)
(** * Promises and jobs

    What the asynchronous methods of testCoverage.ts rely on from the
    language: promises that are settled once, reactions that wait for a
    promise, and the queue of jobs that runs the reactions of settled
    promises in the order in which they were queued.  The definitions follow
    the operations of the language: [newPromise] creates a pending promise,
    [settle] resolves or rejects it and queues a job for each of its
    reactions, [await] registers a reaction, which is queued at once when
    the promise is already settled, and [pop] takes the next job.

    A reaction is a value of a type [R] chosen by the client: the
    continuation of an asynchronous function after an [await], in
    defunctionalised form.

    [loopInv] is the form of the invariants of the clients: a property of
    the reactions that wait for each promise, of the outcome of each settled
    promise and of the jobs of the queue, with one lemma for each
    operation.  Four theories are built on the operations for the clients:
    settled promises keep their outcome ([extends]); a loop in which every
    pending promise has a reaction or a job that will settle it ([waking])
    has no pending promise left once the environment has settled its own
    and the queue is empty ([quiescent_settled]); the [weight] of a loop
    does not grow when a promise is settled and goes down when a job is
    taken; and in a loop in which no promise is the target of two reactions
    ([linear]) the job that settles a promise finds it pending. *)

From S2P Require Import Prelude.

Inductive Settled (V E : Type) : Type :=
| Fulfilled (v : V)
| Rejected (e : E).
Arguments Fulfilled {V E} v.
Arguments Rejected {V E} e.

Inductive PromiseState (V E R : Type) : Type :=
| Pending (reactions : list R)
| Done (s : Settled V E).
Arguments Pending {V E R} reactions.
Arguments Done {V E R} s.

Record Loop (V E R : Type) : Type := mkLoop {
  promises : list (PromiseState V E R);
  queue : list (R * Settled V E)
}.
Arguments mkLoop {V E R} promises queue.
Arguments promises {V E R} l.
Arguments queue {V E R} l.

Section Loop.
Context {V E R : Type}.
Implicit Types (l : Loop V E R) (p : nat) (r : R) (s : Settled V E).

Definition emptyLoop : Loop V E R := mkLoop [] [].

(** A new pending promise; its name is its position in the store. *)
Definition newPromise l : nat * Loop V E R :=
  (length (promises l), mkLoop (promises l ++ [Pending []]) (queue l)).

(** Queue a job. *)
Definition enqueue r s l : Loop V E R := mkLoop (promises l) (queue l ++ [(r, s)]).

(** Resolve or reject a promise: nothing happens when it is settled
    already; otherwise its reactions are queued in the order of their
    registration. *)
Definition settle p s l : Loop V E R :=
  match promises l !! p with
  | Some (Pending reactions) =>
      mkLoop (<[p := Done s]> (promises l)) (queue l ++ map (fun r => (r, s)) reactions)
  | _ => l
  end.

(** Wait for a promise with a reaction. *)
Definition await p r l : Loop V E R :=
  match promises l !! p with
  | Some (Pending reactions) => mkLoop (<[p := Pending (reactions ++ [r])]> (promises l)) (queue l)
  | Some (Done s) => enqueue r s l
  | None => l
  end.

(** The next job, if there is one. *)
Definition pop l : option ((R * Settled V E) * Loop V E R) :=
  match queue l with
  | [] => None
  | job :: jobs => Some (job, mkLoop (promises l) jobs)
  end.

Definition isPending l p : bool :=
  match promises l !! p with
  | Some (Pending _) => true
  | _ => false
  end.

(** The promises that are pending among those of a list. *)
Definition pendingAmong l (ps : list nat) : list nat := List.filter (isPending l) ps.

(** The outcome of a settled promise. *)
Definition outcome l q : option (Settled V E) :=
  match promises l !! q with
  | Some (Done s) => Some s
  | _ => None
  end.

(** The loop [l'] has the settled promises of [l], with their outcomes. *)
Definition extends l l' : Prop := forall q s, outcome l q = Some s -> outcome l' q = Some s.

(** An invariant of what the loop holds: [PR p r] of a reaction [r]
    registered on the pending promise [p], [Q p s] of the outcome [s] of the
    settled promise [p], and [J r s] of a job of the queue. *)
Record loopInv (PR : nat -> R -> Prop) (Q : nat -> Settled V E -> Prop)
    (J : R -> Settled V E -> Prop) l : Prop := {
  li_pending : forall p rs, promises l !! p = Some (Pending rs) -> Forall (PR p) rs;
  li_done : forall p s, promises l !! p = Some (Done s) -> Q p s;
  li_queue : Forall (fun job => J job.1 job.2) (queue l)
}.

(** The invariant that does not depend on the promise: a property of every
    reaction and of every outcome that the loop holds. *)
Definition loopForall (PR : R -> Prop) (Q : Settled V E -> Prop) l : Prop :=
  loopInv (fun _ => PR) (fun _ => Q) (fun r s => PR r /\ Q s) l.

(** * Theorems *)

Lemma newPromise_fresh l : promises l !! (newPromise l).1 = None.
Proof. apply lookup_ge_None_2. simpl. lia. Qed.

Lemma newPromise_lookup l : promises (newPromise l).2 !! (newPromise l).1 = Some (Pending []).
Proof. simpl. now rewrite lookup_app_r, Nat.sub_diag by lia. Qed.

Lemma newPromise_lookup_old l p ps :
  promises l !! p = Some ps -> promises (newPromise l).2 !! p = Some ps.
Proof. intros H. simpl. now apply lookup_app_l_Some. Qed.

Lemma newPromise_lookup_inv l p ps :
  promises (newPromise l).2 !! p = Some ps ->
  promises l !! p = Some ps \/ (p = (newPromise l).1 /\ ps = Pending []).
Proof.
  simpl. intros [H|[Hp H]]%lookup_app_Some; [now left|right].
  apply list_lookup_singleton_Some in H as [H1 <-]. split; [lia | reflexivity].
Qed.

Lemma newPromise_queue l : queue (newPromise l).2 = queue l.
Proof. reflexivity. Qed.

Lemma newPromise_length l : length (promises (newPromise l).2) = S (length (promises l)).
Proof. simpl. rewrite length_app. simpl. lia. Qed.

Lemma settle_length p s l : length (promises (settle p s l)) = length (promises l).
Proof. unfold settle. repeat case_match; simpl; now rewrite ?length_insert. Qed.

Lemma await_length p r l : length (promises (await p r l)) = length (promises l).
Proof. unfold await. repeat case_match; simpl; now rewrite ?length_insert. Qed.

(** A settled promise keeps its outcome: what [settle] and [await] do later
    does not change it. *)
Lemma settle_done p q s s' l :
  promises l !! q = Some (Done s') -> promises (settle p s l) !! q = Some (Done s').
Proof.
  intros H. unfold settle. destruct (promises l !! p) as [[rs|]|] eqn:Ep; try assumption.
  simpl. destruct (decide (p = q)) as [->|Hne]; [congruence|].
  now rewrite list_lookup_insert_ne.
Qed.

Lemma await_done p q r s' l :
  promises l !! q = Some (Done s') -> promises (await p r l) !! q = Some (Done s').
Proof.
  intros H. unfold await. destruct (promises l !! p) as [[rs|]|] eqn:Ep; try assumption.
  simpl. destruct (decide (p = q)) as [->|Hne]; [congruence|].
  now rewrite list_lookup_insert_ne.
Qed.

Lemma settle_lookup_inv p s l q ps :
  promises (settle p s l) !! q = Some ps ->
  promises l !! q = Some ps \/ (q = p /\ ps = Done s /\ isPending l p = true).
Proof.
  unfold settle, isPending. destruct (promises l !! p) as [[rs|]|] eqn:Ep; auto.
  simpl. destruct (decide (p = q)) as [<-|Hne].
  - rewrite list_lookup_insert_eq by (now apply lookup_lt_Some in Ep). intros [= <-]. auto.
  - rewrite list_lookup_insert_ne by assumption. auto.
Qed.

Lemma await_lookup_inv p r l q ps :
  promises (await p r l) !! q = Some ps ->
  promises l !! q = Some ps \/
  (q = p /\ exists rs, promises l !! p = Some (Pending rs) /\ ps = Pending (rs ++ [r])).
Proof.
  unfold await. destruct (promises l !! p) as [[rs|]|] eqn:Ep; auto.
  simpl. destruct (decide (p = q)) as [<-|Hne].
  - rewrite list_lookup_insert_eq by (now apply lookup_lt_Some in Ep). intros [= <-]. eauto.
  - rewrite list_lookup_insert_ne by assumption. auto.
Qed.

Lemma isPending_newPromise l : isPending (newPromise l).2 (newPromise l).1 = true.
Proof. unfold isPending. now rewrite newPromise_lookup. Qed.

Lemma isPending_newPromise_old l p : isPending l p = true -> isPending (newPromise l).2 p = true.
Proof.
  unfold isPending. destruct (promises l !! p) as [[rs|]|] eqn:Ep; try discriminate.
  now rewrite (newPromise_lookup_old _ _ _ Ep).
Qed.

Lemma isPending_await l p q r : isPending l q = true -> isPending (await p r l) q = true.
Proof.
  unfold isPending, await. destruct (promises l !! q) as [[rs|]|] eqn:Eq; try discriminate.
  intros _. destruct (promises l !! p) as [[rs'|]|] eqn:Ep; cbn; rewrite ?Eq; try reflexivity.
  destruct (decide (p = q)) as [->|Hne].
  - now rewrite list_lookup_insert_eq by (now apply lookup_lt_Some in Ep).
  - now rewrite list_lookup_insert_ne, Eq by assumption.
Qed.

Lemma isPending_enqueue l p r s : isPending (enqueue r s l) p = isPending l p.
Proof. reflexivity. Qed.

Lemma enqueue_promises r s l : promises (enqueue r s l) = promises l.
Proof. reflexivity. Qed.

Lemma isPending_settle_ne l p q s : p <> q -> isPending (settle p s l) q = isPending l q.
Proof.
  intros Hne. unfold isPending, settle.
  destruct (promises l !! p) as [[rs|]|]; cbn; try reflexivity.
  now rewrite list_lookup_insert_ne.
Qed.

Lemma settle_pending_lookup l p s :
  isPending l p = true -> promises (settle p s l) !! p = Some (Done s).
Proof.
  unfold isPending, settle. destruct (promises l !! p) as [[rs|]|] eqn:Ep; try discriminate.
  intros _. cbn. apply list_lookup_insert_eq. now apply lookup_lt_Some in Ep.
Qed.

Lemma settle_not_pending l p s : isPending l p = false -> settle p s l = l.
Proof. unfold isPending, settle. now destruct (promises l !! p) as [[rs|]|]. Qed.

Lemma isPending_lookup l p : isPending l p = true <-> exists rs, promises l !! p = Some (Pending rs).
Proof.
  unfold isPending. destruct (promises l !! p) as [[rs|]|]; split; eauto; try discriminate.
  all: now intros [rs [=]].
Qed.

Lemma pop_promises l job l' : pop l = Some (job, l') -> promises l' = promises l.
Proof. unfold pop. destruct (queue l); [discriminate|]. now intros [= <- <-]. Qed.

(** ** Settled promises stay settled *)

Lemma outcome_Some l q s : outcome l q = Some s <-> promises l !! q = Some (Done s).
Proof. unfold outcome. destruct (promises l !! q) as [[rs|s']|]; split; congruence. Qed.

Lemma outcome_isPending l q s : outcome l q = Some s -> isPending l q = false.
Proof. intros H%outcome_Some. unfold isPending. now rewrite H. Qed.

Lemma outcome_settle l p s : isPending l p = true -> outcome (settle p s l) p = Some s.
Proof. intros H. now apply outcome_Some, settle_pending_lookup. Qed.

Lemma extends_refl l : extends l l.
Proof. now intros q s. Qed.

Lemma extends_trans l1 l2 l3 : extends l1 l2 -> extends l2 l3 -> extends l1 l3.
Proof. intros H1 H2 q s H. auto. Qed.

Lemma extends_newPromise l : extends l (newPromise l).2.
Proof. intros q s H%outcome_Some. now apply outcome_Some, newPromise_lookup_old. Qed.

Lemma extends_await p r l : extends l (await p r l).
Proof. intros q s H%outcome_Some. now apply outcome_Some, await_done. Qed.

Lemma extends_settle p s l : extends l (settle p s l).
Proof. intros q s' H%outcome_Some. now apply outcome_Some, settle_done. Qed.

Lemma extends_enqueue r s l : extends l (enqueue r s l).
Proof. now intros q s'. Qed.

Lemma extends_pop l job l' : pop l = Some (job, l') -> extends l l'.
Proof. intros H q s. unfold outcome. now rewrite (pop_promises _ _ _ H). Qed.

(** ** Pending promises were pending *)

Lemma isPending_lt l g : isPending l g = true -> (g < length (promises l))%nat.
Proof. intros [rs H]%isPending_lookup. now apply lookup_lt_Some in H. Qed.

Lemma isPending_newPromise_inv l g :
  isPending (newPromise l).2 g = true -> g = (newPromise l).1 \/ isPending l g = true.
Proof.
  intros [rs [H|[-> _]]%newPromise_lookup_inv]%isPending_lookup; [right|now left].
  apply isPending_lookup. eauto.
Qed.

Lemma isPending_await_inv p r l g : isPending (await p r l) g = true -> isPending l g = true.
Proof.
  intros [rs [H|(-> & rs' & H & _)]%await_lookup_inv]%isPending_lookup;
    apply isPending_lookup; eauto.
Qed.

Lemma isPending_settle_inv p s l g :
  isPending (settle p s l) g = true -> isPending l g = true /\ g <> p.
Proof.
  intros Hg. destruct (isPending l p) eqn:Hp.
  - destruct (decide (g = p)) as [->|Hne].
    + apply isPending_lookup in Hg as [rs Hg]. rewrite settle_pending_lookup in Hg; congruence.
    + now rewrite isPending_settle_ne in Hg.
  - rewrite settle_not_pending in Hg by done. split; [done|]. congruence.
Qed.

Lemma isPending_pop l job l' g : pop l = Some (job, l') -> isPending l' g = isPending l g.
Proof. intros H. unfold isPending. now rewrite (pop_promises _ _ _ H). Qed.

Lemma pop_None l : pop l = None <-> queue l = [].
Proof. unfold pop. now destruct (queue l). Qed.

Lemma pendingAmong_nil l ps : pendingAmong l ps = [] <-> forall p, p ∈ ps -> isPending l p = false.
Proof.
  unfold pendingAmong. induction ps as [|q ps IH]; cbn.
  - split; [intros _ p Hp; now apply elem_of_nil in Hp | done].
  - destruct (isPending l q) eqn:Hq.
    + split; [done|]. intros H. specialize (H q (list_elem_of_here _ _)). congruence.
    + rewrite IH. split; [intros H p [->|Hp]%elem_of_cons; auto|].
      intros H p Hp. apply H, elem_of_cons. auto.
Qed.

Section Invariant.
Context (PR : nat -> R -> Prop) (Q : nat -> Settled V E -> Prop) (J : R -> Settled V E -> Prop).

Lemma loopInv_empty : loopInv PR Q J emptyLoop.
Proof. split; simpl; [discriminate.. | constructor]. Qed.

Lemma loopInv_newPromise l : loopInv PR Q J l -> loopInv PR Q J (newPromise l).2.
Proof.
  intros [Hp Hd Hq]. split; [| |exact Hq].
  - intros p rs [H|[_ [= H]]]%newPromise_lookup_inv; [eauto | subst; constructor].
  - intros p s [H|[_ [=]]]%newPromise_lookup_inv. eauto.
Qed.

Lemma loopInv_enqueue r s l : J r s -> loopInv PR Q J l -> loopInv PR Q J (enqueue r s l).
Proof.
  intros Hj [Hp Hd Hq]. split; [exact Hp | exact Hd|].
  simpl. apply Forall_app. split; [exact Hq|]. now repeat constructor.
Qed.

(** To settle a pending promise, its outcome has to be right and to suit the
    reactions that wait for it. *)
Lemma loopInv_settle p s l :
  (isPending l p = true -> Q p s /\ forall r, PR p r -> J r s) ->
  loopInv PR Q J l -> loopInv PR Q J (settle p s l).
Proof.
  intros Hs Hl. destruct (isPending l p) eqn:Hpending; [|now rewrite settle_not_pending].
  destruct (Hs eq_refl) as [HQ HJ]. pose proof Hl as [Hp Hd Hq]. split.
  - intros q rs [H|(_ & [=] & _)]%settle_lookup_inv. eauto.
  - intros q s' [H|(-> & [= <-] & _)]%settle_lookup_inv; eauto.
  - apply isPending_lookup in Hpending as [rs Ep]. unfold settle. rewrite Ep.
    simpl. apply Forall_app. split; [exact Hq|].
    apply Forall_map. eapply Forall_impl; [exact (Hp _ _ Ep)|]. simpl. auto.
Qed.

(** To wait for a promise, the reaction has to be right for it while it is
    pending, and to make a right job with its outcome when it is settled. *)
Lemma loopInv_await p r l :
  (isPending l p = true -> PR p r) ->
  (forall s, Q p s -> J r s) ->
  loopInv PR Q J l -> loopInv PR Q J (await p r l).
Proof.
  intros Hr Hj Hl. pose proof Hl as [Hp Hd Hq]. split.
  - intros q rs [H|(-> & rs' & H & [= ->])]%await_lookup_inv; [eauto|].
    apply Forall_app. split; [eauto|]. repeat constructor. apply Hr, isPending_lookup. eauto.
  - intros q s [H|(_ & rs' & _ & [=])]%await_lookup_inv. eauto.
  - unfold await. destruct (promises l !! p) as [[rs|s]|] eqn:Ep; try assumption.
    simpl. apply Forall_app. split; [exact Hq|]. repeat constructor; simpl; eauto.
Qed.

Lemma loopInv_pop l job l' :
  pop l = Some (job, l') -> loopInv PR Q J l -> J job.1 job.2 /\ loopInv PR Q J l'.
Proof.
  unfold pop. destruct (queue l) as [|j q] eqn:Ep; [discriminate|]. intros [= <- <-] [Hp Hd Hq].
  rewrite Ep in Hq. apply Forall_cons in Hq as [Hj Hq]. now repeat split.
Qed.

End Invariant.

(** The invariant is monotone in its three properties. *)
Lemma loopInv_impl (PR PR' : nat -> R -> Prop) (Q Q' : nat -> Settled V E -> Prop)
    (J J' : R -> Settled V E -> Prop) l :
  (forall p r, PR p r -> PR' p r) -> (forall p s, Q p s -> Q' p s) ->
  (forall r s, J r s -> J' r s) ->
  loopInv PR Q J l -> loopInv PR' Q' J' l.
Proof.
  intros HPR HQ HJ [Hp Hd Hq]. split; [| eauto |].
  - intros p rs H. eapply Forall_impl; [exact (Hp _ _ H)|]. auto.
  - eapply Forall_impl; [exact Hq|]. auto.
Qed.

Section Forall.
Context (PR : R -> Prop) (Q : Settled V E -> Prop).

Lemma loopForall_empty : loopForall PR Q emptyLoop.
Proof. apply loopInv_empty. Qed.

Lemma loopForall_newPromise l : loopForall PR Q l -> loopForall PR Q (newPromise l).2.
Proof. apply loopInv_newPromise. Qed.

Lemma loopForall_enqueue r s l : PR r -> Q s -> loopForall PR Q l -> loopForall PR Q (enqueue r s l).
Proof. intros Hr Hs. now apply loopInv_enqueue. Qed.

Lemma loopForall_settle p s l : Q s -> loopForall PR Q l -> loopForall PR Q (settle p s l).
Proof. intros Hs. apply loopInv_settle. auto. Qed.

Lemma loopForall_await p r l : PR r -> loopForall PR Q l -> loopForall PR Q (await p r l).
Proof. intros Hr. apply loopInv_await; auto. Qed.

Lemma loopForall_pop l job l' :
  pop l = Some (job, l') -> loopForall PR Q l -> PR job.1 /\ Q job.2 /\ loopForall PR Q l'.
Proof. intros Hpop Hl. destruct (loopInv_pop _ _ _ _ _ _ Hpop Hl) as [[? ?] ?]. auto. Qed.

Lemma loopForall_done l p s : loopForall PR Q l -> promises l !! p = Some (Done s) -> Q s.
Proof. intros Hl. apply (li_done _ _ _ _ Hl). Qed.

End Forall.

End Loop.

#[export] Instance extends_PreOrder {V E R} : PreOrder (@extends V E R).
Proof. split; [exact extends_refl | exact extends_trans]. Qed.

(** * Who wakes a pending promise

    A reaction settles one promise, its [target], when it runs.  A pending
    promise is [woken] when a reaction with this target waits for an earlier
    pending promise or is a job of the queue.  A loop is [waking] when every
    pending promise is woken or is a root, a promise that the environment
    settles.  When the roots are settled and the queue is empty, a waking
    loop has no pending promise ([quiescent_settled]): nobody waits for
    ever. *)

Section Waking.
Context {V E R : Type} (target : R -> option nat).
Implicit Types (l : Loop V E R) (p g : nat) (r : R) (s : Settled V E).

Definition registered l p r : Prop :=
  exists rs, promises l !! p = Some (Pending rs) /\ r ∈ rs.

Definition queued l r : Prop := exists s, (r, s) ∈ queue l.

Definition woken l g : Prop :=
  (exists p r, (p < g)%nat /\ registered l p r /\ target r = Some g) \/
  (exists r, queued l r /\ target r = Some g).

Definition waking (root : nat -> Prop) l : Prop :=
  forall g, isPending l g = true -> root g \/ woken l g.

Lemma registered_newPromise l p r : registered l p r -> registered (newPromise l).2 p r.
Proof. intros (rs & H & Hr). exists rs. split; [now apply newPromise_lookup_old | done]. Qed.

Lemma registered_await l q r' p r : registered l p r -> registered (await q r' l) p r.
Proof.
  intros (rs & H & Hr). unfold await. destruct (promises l !! q) as [[rs'|s]|] eqn:Hq;
    try (now exists rs).
  destruct (decide (q = p)) as [->|Hne].
  - exists (rs ++ [r']). cbn. rewrite list_lookup_insert_eq by (now apply lookup_lt_Some in Hq).
    split; [congruence | apply elem_of_app; auto].
  - exists rs. cbn. now rewrite list_lookup_insert_ne.
Qed.

Lemma await_pending l p r : isPending l p = true -> registered (await p r l) p r.
Proof.
  intros [rs H]%isPending_lookup. exists (rs ++ [r]). unfold await. rewrite H. cbn.
  rewrite list_lookup_insert_eq by (now apply lookup_lt_Some in H).
  split; [done | apply elem_of_app; right; apply list_elem_of_singleton; done].
Qed.

Lemma await_done_queued l p r s : promises l !! p = Some (Done s) -> queued (await p r l) r.
Proof.
  intros H. exists s. unfold await. rewrite H. cbn. apply elem_of_app. right.
  now apply list_elem_of_singleton.
Qed.

Lemma queued_settle l q s r : queued l r -> queued (settle q s l) r.
Proof.
  intros [s' H]. exists s'. unfold settle. destruct (promises l !! q) as [[rs|]|]; try done.
  cbn. apply elem_of_app. auto.
Qed.

Lemma registered_settle l q s p r :
  registered l p r -> registered (settle q s l) p r \/ queued (settle q s l) r.
Proof.
  intros (rs & H & Hr). unfold settle. destruct (promises l !! q) as [[rs'|s']|] eqn:Hq;
    try (left; now exists rs).
  destruct (decide (q = p)) as [->|Hne].
  - right. exists s. cbn. apply elem_of_app. right. apply list_elem_of_fmap.
    exists r. split; [done | congruence].
  - left. exists rs. cbn. now rewrite list_lookup_insert_ne.
Qed.

Lemma queued_pop l job l' r : pop l = Some (job, l') -> queued l r -> r = job.1 \/ queued l' r.
Proof.
  unfold pop. destruct (queue l) as [|j q] eqn:Hq; [discriminate|]. intros [= <- <-] [s H].
  rewrite Hq in H. apply elem_of_cons in H as [<-|H]; [now left | right; now exists s].
Qed.

Lemma registered_pop l job l' p r : pop l = Some (job, l') -> registered l p r -> registered l' p r.
Proof. intros H (rs & Hp & Hr). exists rs. now rewrite (pop_promises _ _ _ H). Qed.

(** ** What keeps a promise woken *)

Lemma woken_newPromise l g : woken l g -> woken (newPromise l).2 g.
Proof.
  intros [(p & r & Hp & Hr & Ht)|(r & Hq & Ht)]; [left | right; now exists r].
  exists p, r. auto using registered_newPromise.
Qed.

Lemma woken_enqueue r s l g : woken l g -> woken (enqueue r s l) g.
Proof.
  intros [H|(r' & [s' Hq] & Ht)]; [now left | right]. exists r'. split; [|done].
  exists s'. cbn. apply elem_of_app. auto.
Qed.

Lemma woken_await q r' l g : woken l g -> woken (await q r' l) g.
Proof.
  intros [(p & r & Hp & Hr & Ht)|H].
  - left. exists p, r. auto using registered_await.
  - unfold await. destruct (promises l !! q) as [[rs|s]|]; [now right | | now right].
    apply woken_enqueue. now right.
Qed.

Lemma woken_settle q s l g : woken l g -> woken (settle q s l) g.
Proof.
  intros [(p & r & Hp & Hr & Ht)|(r & Hq & Ht)].
  - destruct (registered_settle l q s p r Hr) as [H|H]; [left | right]; eauto.
  - right. exists r. auto using queued_settle.
Qed.

Lemma woken_pop l job l' g :
  pop l = Some (job, l') -> woken l g -> target job.1 <> Some g -> woken l' g.
Proof.
  intros Hpop [(p & r & Hp & Hr & Ht)|(r & Hq & Ht)] Hne.
  - left. exists p, r. eauto using registered_pop.
  - right. exists r. destruct (queued_pop _ _ _ _ Hpop Hq) as [->|H]; [congruence | done].
Qed.

(** The reaction [r] that waits for [p] wakes its target. *)
Lemma woken_await_target p r l g :
  (p < g)%nat -> is_Some (promises l !! p) -> target r = Some g -> woken (await p r l) g.
Proof.
  intros Hlt [[rs|s] Hp] Ht.
  - left. exists p, r. split; [done|]. split; [|done]. apply await_pending, isPending_lookup. eauto.
  - right. exists r. eauto using await_done_queued.
Qed.

Lemma woken_enqueue_target r s l g : target r = Some g -> woken (enqueue r s l) g.
Proof.
  intros Ht. right. exists r. split; [|done]. exists s. cbn. apply elem_of_app. right.
  now apply list_elem_of_singleton.
Qed.

(** ** What keeps a loop waking *)

Section Root.
Context (root : nat -> Prop).

Lemma waking_empty : waking root emptyLoop.
Proof. intros g. unfold isPending. cbn. discriminate. Qed.

Lemma waking_weaken (root' : nat -> Prop) l :
  (forall g, root g -> root' g) -> waking root l -> waking root' l.
Proof. intros Hr Hw g [H|H]%Hw; auto. Qed.

(** A new promise that the environment settles. *)
Lemma waking_newRoot l : waking root l -> root (newPromise l).1 -> waking root (newPromise l).2.
Proof.
  intros Hw Hr g [->|[H|H]%Hw]%isPending_newPromise_inv; auto using woken_newPromise.
Qed.

(** A new promise and the reaction that settles it, waiting for [p]. *)
Lemma waking_spawn l p r :
  waking root l -> is_Some (promises l !! p) -> target r = Some (newPromise l).1 ->
  waking root (await p r (newPromise l).2).
Proof.
  intros Hw [ps Hp] Ht g [->|[H|H]%Hw]%isPending_await_inv%isPending_newPromise_inv; auto.
  - right. apply woken_await_target; [|eauto using newPromise_lookup_old|done].
    apply lookup_lt_Some in Hp. cbn. done.
  - right. now apply woken_await, woken_newPromise.
Qed.

(** A new promise and the job that settles it. *)
Lemma waking_spawn_job l r s :
  waking root l -> target r = Some (newPromise l).1 -> waking root (enqueue r s (newPromise l).2).
Proof.
  intros Hw Ht g Hg. rewrite isPending_enqueue in Hg.
  apply isPending_newPromise_inv in Hg as [->|[H|H]%Hw]; auto.
  - right. now apply woken_enqueue_target.
  - right. now apply woken_enqueue, woken_newPromise.
Qed.

Lemma waking_settle p s l : waking root l -> waking root (settle p s l).
Proof. intros Hw g [[H|H]%Hw _]%isPending_settle_inv; auto using woken_settle. Qed.

Lemma waking_enqueue r s l : waking root l -> waking root (enqueue r s l).
Proof. intros Hw g Hg. rewrite isPending_enqueue in Hg. destruct (Hw g Hg); auto using woken_enqueue. Qed.

(** The job [r] runs and settles its target. *)
Lemma waking_resume l r s l' g s' :
  pop l = Some ((r, s), l') -> target r = Some g -> waking root l -> waking root (settle g s' l').
Proof.
  intros Hpop Ht Hw g' [Hg' Hne]%isPending_settle_inv.
  rewrite (isPending_pop _ _ _ _ Hpop) in Hg'. destruct (Hw g' Hg') as [H|H]; [now left | right].
  apply woken_settle. eapply woken_pop; [done..|]. cbn. congruence.
Qed.

(** A job without a target runs. *)
Lemma waking_pop l r s l' :
  pop l = Some ((r, s), l') -> target r = None -> waking root l -> waking root l'.
Proof.
  intros Hpop Ht Hw g Hg. rewrite (isPending_pop _ _ _ _ Hpop) in Hg.
  destruct (Hw g Hg) as [H|H]; [now left | right]. eapply woken_pop; [done..|]. cbn. congruence.
Qed.

(** When the roots are settled and no job is left, no promise is pending. *)
Lemma quiescent_settled l :
  waking root l -> queue l = [] -> (forall p, root p -> isPending l p = false) ->
  forall g, isPending l g = false.
Proof.
  intros Hw Hq Hroot g. induction (lt_wf g) as [g _ IH].
  destruct (isPending l g) eqn:Hg; [|done].
  destruct (Hw g Hg) as [H|[(p & r & Hlt & (rs & Hp & _) & _)|(r & [s Hr] & _)]].
  - rewrite Hroot in Hg; done.
  - specialize (IH p Hlt). unfold isPending in IH. now rewrite Hp in IH.
  - rewrite Hq in Hr. now apply elem_of_nil in Hr.
Qed.

End Root.
End Waking.

(** * The work a loop holds

    The weight of a loop, for a weight [w] of the reactions: the sum over
    the reactions that wait and over the jobs of the queue.  Settling a
    promise moves reactions to the queue and keeps the weight; a job that is
    taken from the queue takes its weight with it. *)

Section Weight.
Context {V E R : Type} (w : R -> nat).
Implicit Types (l : Loop V E R) (p : nat) (r : R) (s : Settled V E).

Definition pendingWeight (ps : PromiseState V E R) : nat :=
  match ps with
  | Pending rs => sum_list_with w rs
  | Done _ => 0
  end.

Definition weight l : nat :=
  (sum_list_with pendingWeight (promises l) + sum_list_with (fun job => w job.1) (queue l))%nat.

Lemma sum_list_with_insert {A} (f : A -> nat) (xs : list A) i x y :
  xs !! i = Some y -> (sum_list_with f (<[i := x]> xs) + f y = sum_list_with f xs + f x)%nat.
Proof.
  intros H. rewrite <- (take_drop_middle xs i y H) at 2.
  rewrite insert_take_drop by (now apply lookup_lt_Some in H).
  rewrite !sum_list_with_app. cbn. lia.
Qed.

Lemma weight_newPromise l : weight (newPromise l).2 = weight l.
Proof. unfold weight, newPromise. cbn. rewrite sum_list_with_app. cbn. lia. Qed.

Lemma weight_enqueue r s l : weight (enqueue r s l) = (weight l + w r)%nat.
Proof. unfold weight, enqueue. cbn. rewrite sum_list_with_app. cbn. lia. Qed.

Lemma weight_await p r l : (weight (await p r l) <= weight l + w r)%nat.
Proof.
  unfold await. destruct (promises l !! p) as [[rs|s]|] eqn:Hp; [|rewrite weight_enqueue|]; try lia.
  unfold weight. cbn. pose proof (sum_list_with_insert pendingWeight _ _ (Pending (rs ++ [r])) _ Hp) as H.
  cbn in H. rewrite sum_list_with_app in H. cbn in H. lia.
Qed.

Lemma sum_list_with_jobs s (rs : list R) :
  sum_list_with (fun job : R * Settled V E => w job.1) (map (fun r => (r, s)) rs) =
  sum_list_with w rs.
Proof. induction rs as [|r rs IH]; cbn; [done|]. now rewrite IH. Qed.

Lemma weight_settle p s l : weight (settle p s l) = weight l.
Proof.
  unfold settle. destruct (promises l !! p) as [[rs|s']|] eqn:Hp; try done.
  unfold weight. cbn. pose proof (sum_list_with_insert pendingWeight _ _ (Done s) _ Hp) as H.
  cbn in H. rewrite sum_list_with_app, sum_list_with_jobs. lia.
Qed.

Lemma weight_pop l job l' : pop l = Some (job, l') -> weight l = (w job.1 + weight l')%nat.
Proof.
  unfold pop. destruct (queue l) as [|j q] eqn:Hq; [discriminate|]. intros [= <- <-].
  unfold weight. cbn. rewrite Hq. cbn. lia.
Qed.

End Weight.

(** * One reaction for each promise

    The reactions a loop holds are those that wait and those of the jobs of
    the queue.  The operations move them without copying: [settle] moves
    the reactions of a promise to the queue, [pop] takes one away.  Up to
    their order ([≡ₚ]) the reactions held are what [await] and [enqueue]
    have added and [pop] has not taken yet.  A loop is [linear] when no
    promise is the target of two of them and every target is pending: the
    job that settles a promise then finds it pending, and no other job will
    settle it again. *)

Section Linear.
Context {V E R : Type} (target : R -> option nat).
Implicit Types (l : Loop V E R) (p g : nat) (r : R) (s : Settled V E).

Definition reactionsOf (ps : PromiseState V E R) : list R :=
  match ps with
  | Pending rs => rs
  | Done _ => []
  end.

Definition held l : list R := concat (reactionsOf <$> promises l) ++ (queue l).*1.

Definition targets l : list nat := omap target (held l).

Definition linear l : Prop :=
  NoDup (targets l) /\ forall g, g ∈ targets l -> isPending l g = true.

Lemma concat_fmap_insert {A B} (f : A -> list B) (xs : list A) i x y :
  xs !! i = Some y ->
  exists a b, concat (f <$> xs) = a ++ f y ++ b /\ concat (f <$> <[i := x]> xs) = a ++ f x ++ b.
Proof.
  intros H. exists (concat (f <$> take i xs)), (concat (f <$> drop (S i) xs)).
  rewrite <- (take_drop_middle xs i y H) at 1.
  rewrite insert_take_drop by (now apply lookup_lt_Some in H).
  now rewrite !fmap_app, !concat_app.
Qed.

Lemma held_newPromise l : held (newPromise l).2 = held l.
Proof. unfold held, newPromise. cbn. now rewrite fmap_app, concat_app, !app_nil_r. Qed.

Lemma held_enqueue r s l : held (enqueue r s l) = held l ++ [r].
Proof. unfold held, enqueue. cbn. now rewrite fmap_app, app_assoc. Qed.

Lemma held_await p r l : is_Some (promises l !! p) -> held (await p r l) ≡ₚ held l ++ [r].
Proof.
  intros [ps Hp]. unfold await. rewrite Hp. destruct ps as [rs|s]; [|now rewrite held_enqueue].
  unfold held. cbn.
  destruct (concat_fmap_insert reactionsOf _ _ (Pending (rs ++ [r])) _ Hp) as (a & b & -> & ->).
  cbn. solve_Permutation.
Qed.

Lemma jobs_reactions s (rs : list R) : (map (fun r => (r, s)) rs).*1 = rs.
Proof. induction rs as [|r rs IH]; cbn; [done|]. now rewrite IH. Qed.

Lemma held_settle p s l : held (settle p s l) ≡ₚ held l.
Proof.
  unfold settle. destruct (promises l !! p) as [[rs|s']|] eqn:Hp; try done.
  unfold held. cbn.
  destruct (concat_fmap_insert reactionsOf _ _ (Done s) _ Hp) as (a & b & -> & ->).
  cbn. rewrite fmap_app, jobs_reactions. solve_Permutation.
Qed.

Lemma held_pop l r s l' : pop l = Some ((r, s), l') -> held l ≡ₚ r :: held l'.
Proof.
  unfold pop. destruct (queue l) as [|j q] eqn:Hq; [discriminate|]. intros [= -> <-].
  unfold held. cbn. rewrite Hq. cbn. solve_Permutation.
Qed.

(** The targets follow the reactions. *)
Lemma targets_newPromise l : targets (newPromise l).2 = targets l.
Proof. unfold targets. now rewrite held_newPromise. Qed.

Lemma targets_enqueue r s l : targets (enqueue r s l) = targets l ++ option_list (target r).
Proof. unfold targets. rewrite held_enqueue, omap_app. cbn. now destruct (target r). Qed.

Lemma targets_await p r l :
  is_Some (promises l !! p) -> targets (await p r l) ≡ₚ targets l ++ option_list (target r).
Proof.
  intros Hp. unfold targets. rewrite (held_await _ _ _ Hp), omap_app. cbn.
  now destruct (target r).
Qed.

Lemma targets_settle p s l : targets (settle p s l) ≡ₚ targets l.
Proof. unfold targets. now rewrite held_settle. Qed.

Lemma targets_pop l r s l' :
  pop l = Some ((r, s), l') -> targets l ≡ₚ option_list (target r) ++ targets l'.
Proof.
  intros Hpop. unfold targets. rewrite (held_pop _ _ _ _ Hpop). cbn. now destruct (target r).
Qed.

(** ** What keeps a loop linear *)

Lemma linear_empty : linear emptyLoop.
Proof. split; [constructor | intros g Hg; now apply elem_of_nil in Hg]. Qed.

(** A target is a promise of the loop. *)
Lemma linear_lt l g : linear l -> g ∈ targets l -> (g < length (promises l))%nat.
Proof.
  intros [_ Hl] [rs Hg]%Hl%isPending_lookup. now apply lookup_lt_Some in Hg.
Qed.

Lemma linear_fresh l : linear l -> (newPromise l).1 ∉ targets l.
Proof. intros Hl Hg%(linear_lt _ _ Hl). unfold newPromise in Hg. cbn in Hg. lia. Qed.

Lemma linear_newPromise l : linear l -> linear (newPromise l).2.
Proof.
  intros [Hn Hl]. split; rewrite targets_newPromise; [done|].
  intros g Hg. now apply isPending_newPromise_old, Hl.
Qed.

(** A new promise with the reaction that will settle it. *)
Lemma targets_spawn l p r g :
  is_Some (promises l !! p) -> target r = Some g ->
  targets (await p r (newPromise l).2) ≡ₚ targets l ++ [g].
Proof.
  intros [ps Hp] Ht. rewrite targets_await, targets_newPromise, Ht; [done|].
  eexists. eapply newPromise_lookup_old, Hp.
Qed.

Lemma linear_spawn l p r :
  linear l -> is_Some (promises l !! p) -> target r = Some (newPromise l).1 ->
  linear (await p r (newPromise l).2).
Proof.
  intros Hl Hp Ht. pose proof (linear_fresh l Hl) as Hfresh. destruct Hl as [Hn Hl].
  pose proof (targets_spawn l p r _ Hp Ht) as Hperm.
  split; [rewrite Hperm | intros g; rewrite Hperm].
  - apply NoDup_app. split; [done|]. split; [|apply NoDup_singleton].
    intros g Hg ->%list_elem_of_singleton. done.
  - intros [Hg| ->%list_elem_of_singleton]%elem_of_app; apply isPending_await;
      [now apply isPending_newPromise_old, Hl | apply isPending_newPromise].
Qed.

(** A new promise with the job that will settle it. *)
Lemma linear_spawn_job l r s :
  linear l -> target r = Some (newPromise l).1 -> linear (enqueue r s (newPromise l).2).
Proof.
  intros Hl Ht. pose proof (linear_fresh l Hl) as Hfresh. destruct Hl as [Hn Hl].
  split; rewrite targets_enqueue, targets_newPromise, Ht; cbn.
  - apply NoDup_app. split; [done|]. split; [|apply NoDup_singleton].
    intros g Hg ->%list_elem_of_singleton. done.
  - intros g [Hg| ->%list_elem_of_singleton]%elem_of_app; rewrite isPending_enqueue;
      [now apply isPending_newPromise_old, Hl | apply isPending_newPromise].
Qed.

(** A job without a target. *)
Lemma linear_enqueue r s l : target r = None -> linear l -> linear (enqueue r s l).
Proof.
  intros Ht [Hn Hl]. split; rewrite targets_enqueue, Ht, app_nil_r; [done|].
  intros g Hg. rewrite isPending_enqueue. auto.
Qed.

(** A promise that is no target is settled. *)
Lemma linear_settle p s l : p ∉ targets l -> linear l -> linear (settle p s l).
Proof.
  intros Hp [Hn Hl]. split; [now rewrite targets_settle|].
  intros g Hg. rewrite targets_settle in Hg. rewrite isPending_settle_ne; [auto | now intros ->].
Qed.

(** The job [r] runs: its target is pending, and no other reaction has
    it. *)
Lemma linear_popped l r s l' g :
  pop l = Some ((r, s), l') -> target r = Some g -> linear l ->
  isPending l' g = true /\ (g ∉ targets l') /\ linear l'.
Proof.
  intros Hpop Ht [Hn Hl]. pose proof (targets_pop _ _ _ _ Hpop) as Hperm.
  rewrite Ht in Hperm. cbn in Hperm. rewrite Hperm in Hn. apply NoDup_cons in Hn as [Hg Hn].
  assert (Hpending : forall g', g' ∈ g :: targets l' -> isPending l' g' = true).
  { intros g' Hg'. unfold isPending. rewrite (pop_promises _ _ _ Hpop).
    apply Hl. now rewrite Hperm. }
  split; [apply Hpending; now left|]. split; [done|]. split; [done|].
  intros g' Hg'. apply Hpending. now right.
Qed.

Lemma linear_resume l r s l' g s' :
  pop l = Some ((r, s), l') -> target r = Some g -> linear l -> linear (settle g s' l').
Proof.
  intros Hpop Ht Hl. destruct (linear_popped _ _ _ _ _ Hpop Ht Hl) as (_ & Hg & Hl').
  now apply linear_settle.
Qed.

(** A job without a target runs. *)
Lemma linear_pop l r s l' : pop l = Some ((r, s), l') -> target r = None -> linear l -> linear l'.
Proof.
  intros Hpop Ht [Hn Hl]. pose proof (targets_pop _ _ _ _ Hpop) as Hperm.
  rewrite Ht in Hperm. cbn in Hperm. split; [now rewrite <- Hperm|].
  intros g Hg. unfold isPending. rewrite (pop_promises _ _ _ Hpop). apply Hl. now rewrite Hperm.
Qed.

End Linear.

(** The clients reason with the lemmas above: the operations are not
    unfolded by [simpl] and [cbn]. *)
Arguments newPromise : simpl never.
Arguments settle : simpl never.
Arguments await : simpl never.
Arguments enqueue : simpl never.
Arguments pop : simpl never.
