(* ===== verification/Machine.v ===== *)
(** * Machines over a loop

    The asynchronous objects of testCoverage.ts, a coverage session
    ([Session]) and the details of a file ([Details]), have the same shape:
    a state that holds a loop ([Async.Loop]), methods that the code around
    the object calls, and continuations that run as jobs.  The class
    [Machine] is this shape: what the environment can do in one action
    ([machine_perform]) and what a job does ([machine_run]).

    The executions are defined once for all machines.  A trace is a sequence
    of tasks of the environment, each a list of actions run to completion,
    and of ticks, each of which runs the next job of the queue; it is
    [disciplined] when a task starts only while the queue is empty, as the
    tasks of the event loop do.  [drain] runs the jobs until none is left.

    The lemmas are the proof principles that the two machines share: an
    invariant of the actions and of the jobs holds after every execution
    ([exec_invariant]), and [drain] empties the queue when every job lowers a
    measure ([drain_spec]). *)

From S2P Require Import Prelude Async.

Inductive Label (A : Type) : Type :=
| Task (job : list A)   (* a task of the environment, run to completion *)
| Tick.                 (* the next job runs *)
Arguments Task {A} job.
Arguments Tick {A}.

Class Machine (St A R V E : Type) : Type := {
  machine_loop : St -> Loop V E R;
  machine_set_loop : Loop V E R -> St -> St;
  machine_perform : St -> A -> St;
  machine_run : R -> Settled V E -> St -> St
}.
#[export] Hint Mode Machine ! - - - - : typeclass_instances.

Section Machine.
Context {St A R V E : Type} `{!Machine St A R V E}.
Implicit Types (st : St) (a : A) (label : Label A) (trace : list (Label A)).

Definition step st label : option St :=
  match label with
  | Task job => Some (fold_left machine_perform job st)
  | Tick =>
      '(job, l) ← pop (machine_loop st);
      Some (machine_run job.1 job.2 (machine_set_loop l st))
  end.

Fixpoint exec trace st : option St :=
  match trace with
  | [] => Some st
  | label :: trace => st ← step st label; exec trace st
  end.

(** A task of the environment starts only when no job is waiting. *)
Fixpoint disciplined trace st : bool :=
  match trace with
  | [] => true
  | label :: trace =>
      match label with
      | Task _ => if queue (machine_loop st) is [] then true else false
      | Tick => true
      end &&
      match step st label with
      | Some st => disciplined trace st
      | None => false
      end
  end.

(** The jobs run until the queue is empty, [fuel] of them at most. *)
Fixpoint drain (fuel : nat) st : St :=
  match fuel with
  | O => st
  | S fuel =>
      match step st Tick with
      | Some st' => drain fuel st'
      | None => st
      end
  end.

(** The labels whose actions satisfy [ok]. *)
Definition allowed (ok : A -> Prop) label : Prop :=
  match label with
  | Task job => Forall ok job
  | Tick => True
  end.

(** * Theorems *)

Lemma exec_app trace1 trace2 st :
  exec (trace1 ++ trace2) st = exec trace1 st ≫= exec trace2.
Proof.
  revert st. induction trace1 as [|label trace1 IH]; intros st; cbn; [done|].
  destruct (step st label); cbn; auto.
Qed.

Lemma allowed_True label : allowed (fun _ => True) label.
Proof. destruct label as [job|]; cbn; [|done]. now apply Forall_forall. Qed.

Section Invariant.
Context (Inv : St -> Prop) (ok : A -> Prop).
Context (Hperform : forall st a, ok a -> Inv st -> Inv (machine_perform st a)).
Context (Hrun : forall st job l, Inv st -> pop (machine_loop st) = Some (job, l) ->
                  Inv (machine_run job.1 job.2 (machine_set_loop l st))).

Lemma job_invariant job st : Forall ok job -> Inv st -> Inv (fold_left machine_perform job st).
Proof.
  intros Hjob. revert st. induction Hjob as [|a job Ha _ IH]; intros st Hst; cbn; auto.
Qed.

Lemma step_invariant st label st' : allowed ok label -> Inv st -> step st label = Some st' -> Inv st'.
Proof.
  intros Hlabel Hst. destruct label as [job|]; cbn.
  - intros [= <-]. now apply job_invariant.
  - destruct (pop (machine_loop st)) as [[job l]|] eqn:Hpop; [|discriminate]. cbn.
    intros [= <-]. now apply Hrun.
Qed.

(** An invariant of the actions and of the jobs holds after every
    execution. *)
Lemma exec_invariant trace st st' :
  Forall (allowed ok) trace -> Inv st -> exec trace st = Some st' -> Inv st'.
Proof.
  intros Htrace. revert st. induction Htrace as [|label trace Hlabel _ IH]; intros st Hst; cbn.
  - now intros [= <-].
  - destruct (step st label) as [st1|] eqn:Hstep; [|discriminate]. cbn.
    apply IH. eapply step_invariant; eassumption.
Qed.

Lemma drain_invariant fuel st : Inv st -> Inv (drain fuel st).
Proof.
  revert st. induction fuel as [|fuel IH]; intros st Hst; cbn [drain]; [done|].
  destruct (step st Tick) as [st'|] eqn:Hstep; [|done].
  apply IH. exact (step_invariant st Tick st' I Hst Hstep).
Qed.

End Invariant.

(** [drain] is an execution: a sequence of ticks. *)
Lemma drain_exec fuel st :
  exists n, (n <= fuel)%nat /\ exec (repeat Tick n) st = Some (drain fuel st).
Proof.
  revert st. induction fuel as [|fuel IH]; intros st; [exists 0%nat; split; [lia | done]|].
  cbn [drain]. destruct (step st Tick) as [st'|] eqn:Hstep; [|exists 0%nat; split; [lia | done]].
  destruct (IH st') as (n & Hn & Hexec). exists (S n). split; [lia|].
  cbn [repeat exec]. rewrite Hstep. exact Hexec.
Qed.

(** When every job lowers the measure [mu], [drain] with the measure of the
    state as its fuel ends with an empty queue. *)
Lemma drain_spec (mu : St -> nat) :
  (forall st job l, pop (machine_loop st) = Some (job, l) ->
     (mu (machine_run job.1 job.2 (machine_set_loop l st)) < mu st)%nat) ->
  forall fuel st, (mu st <= fuel)%nat -> pop (machine_loop (drain fuel st)) = None.
Proof.
  intros Hmu fuel. induction fuel as [|fuel IH]; intros st Hst; cbn [drain step].
  - destruct (pop (machine_loop st)) as [[job l]|] eqn:Hpop; [|done].
    specialize (Hmu _ _ _ Hpop). lia.
  - destruct (pop (machine_loop st)) as [[job l]|] eqn:Hpop; cbn; [|done].
    apply IH. specialize (Hmu _ _ _ Hpop). lia.
Qed.

End Machine.
