(* ===== verification/Session.v ===== *)
(** * The coverage session

    The asynchronous methods of the class [TestCoverage] of testCoverage.ts
    ([src/unnamed/part_000]): [getAllFiles] (lines 218-227), [getUri]
    (lines 232-235) and [createFileCoverage] up to its [await] (lines
    247-248; the rest is [Coverage.buildTree]).

    A call of an asynchronous method runs up to its first [await] and
    returns a promise; the rest of the method is a reaction that runs as a
    job once the awaited promise is settled.  The state of a session is the
    field [fileCoverage], the promises and the job queue ([Async.Loop]); the
    reactions are the continuations of the three methods ([KCreate],
    [KGetAll], [KGetUri]) and the jobs of the environment ([KEnv]).

    The environment is the code around the session: it calls the methods,
    settles the promises that the provider returned, and schedules jobs of
    its own.  [perform] is one action of the environment, [run] one job;
    with them a session is a [Machine], whose executions are those of
    [Machine.exec].

    Three invariants describe the executions.

    - [attached] holds of every execution.  Every promise has a kind: a
      promise of the provider, a tree for one call of the provider (the
      construction and the promises that [getAllFiles] returns), or a node
      for one call of the provider and one URI (the promises that [getUri]
      returns).  A settled promise holds what the outcome of its call of the
      provider makes of it ([built], [found]), and a reaction waits for a
      promise of the kind it expects.
    - [live] holds of every execution: every pending promise that is not one
      of the provider is the target of a reaction that waits or of a job.
    - [quiet] holds of the executions in which the provider does not fail:
      nothing is rejected, and the provider has been called exactly when a
      construction is cached.

    [work] is the measure of the jobs that are left: every job lowers it. *)

From S2P Require Import Prelude Counts PrefixTree Coverage Async Machine.

#[local] Set Warnings "-register-all".

Section Session.
Context {CoverageDetails Failure : Type}.

(** What the promises of a session carry. *)
Inductive Value : Type :=
| VUndefined
| VFiles (files : list (IFileCoverage CoverageDetails))
| VTree (tree : WellDefinedPrefixTree (CoverageValue CoverageDetails))
| VFound (v : option (CoverageValue CoverageDetails)).

Inductive EnvAction : Type :=
| CallGetAllFiles
| CallGetUri (uri : URI)
| Settle (p : nat) (s : Settled (list (IFileCoverage CoverageDetails)) Failure)
| Schedule (job : list EnvAction).

Inductive Reaction : Type :=
| KCreate (p : nat)              (* createFileCoverage after its await *)
| KGetAll (g : nat)              (* getAllFiles after its await *)
| KGetUri (g : nat) (uri : URI)  (* getUri after its await *)
| KEnv (job : list EnvAction).   (* a job of the environment *)

Record TestCoverage : Type := mkTestCoverage {
  fileCoverage : option nat;
  loop : Loop Value Failure Reaction;
  providerCalls : list nat;   (* the promises that provideFileCoverage returned *)
  returned : list nat         (* the promises that getAllFiles returned *)
}.

(** [new TestCoverage(accessor)] *)
Definition TestCoverage_new : TestCoverage := mkTestCoverage None emptyLoop [] [].

Definition set_loop (l : Loop Value Failure Reaction) (this : TestCoverage) : TestCoverage :=
  mkTestCoverage (fileCoverage this) l (providerCalls this) (returned this).

Definition set_fileCoverage (p : option nat) (this : TestCoverage) : TestCoverage :=
  mkTestCoverage p (loop this) (providerCalls this) (returned this).

(** The call [this.createFileCoverage(token)]: the provider is called and
    returns a promise, the method awaits it and returns its own promise. *)
Definition createFileCoverage (this : TestCoverage) : nat * TestCoverage :=
  let files := newPromise (loop this) in
  let p := newPromise files.2 in
  let l := await files.1 (KCreate p.1) p.2 in
  (p.1, mkTestCoverage (fileCoverage this) l (providerCalls this ++ [files.1]) (returned this)).

(** The call [this.getAllFiles(token)], up to its [await]. *)
Definition getAllFiles (this : TestCoverage) : nat * TestCoverage :=
  let this :=
    match fileCoverage this with
    | Some _ => this
    | None => set_fileCoverage (Some (createFileCoverage this).1) (createFileCoverage this).2
    end in
  let g := newPromise (loop this) in
  let l := match fileCoverage this with
           | Some p => await p (KGetAll g.1) g.2
           | None => g.2
           end in
  (g.1, mkTestCoverage (fileCoverage this) l (providerCalls this) (returned this ++ [g.1])).

(** The call [this.getUri(uri, token)], up to its [await]. *)
Definition getUri (uri : URI) (this : TestCoverage) : nat * TestCoverage :=
  let files := getAllFiles this in
  let g := newPromise (loop files.2) in
  (g.1, set_loop (await files.1 (KGetUri g.1 uri) g.2) files.2).

(** The outcome of [accessor.provideFileCoverage]: the files, or the
    failure of the provider. *)
Definition provided (s : Settled (list (IFileCoverage CoverageDetails)) Failure)
  : Settled Value Failure :=
  match s with
  | Fulfilled files => Fulfilled (VFiles files)
  | Rejected e => Rejected e
  end.

(** An action of the environment.  It settles promises of the provider
    only. *)
Definition perform (this : TestCoverage) (a : EnvAction) : TestCoverage :=
  match a with
  | CallGetAllFiles => (getAllFiles this).2
  | CallGetUri uri => (getUri uri this).2
  | Settle p s =>
      if bool_decide (p ∈ providerCalls this)
      then set_loop (settle p (provided s) (loop this)) this
      else this
  | Schedule job => set_loop (enqueue (KEnv job) (Fulfilled VUndefined) (loop this)) this
  end.

(** A job: the rest of a method after its [await], with the outcome of the
    promise it awaited. *)
Definition run (r : Reaction) (s : Settled Value Failure) (this : TestCoverage) : TestCoverage :=
  match r, s with
  | KCreate p, Fulfilled (VFiles files) =>
      set_loop (settle p (Fulfilled (VTree (buildTree files))) (loop this)) this
  | KCreate p, Rejected e => set_loop (settle p (Rejected e) (loop this)) this
  | KGetAll g, Fulfilled v => set_loop (settle g (Fulfilled v) (loop this)) this
  | KGetAll g, Rejected e =>
      let this := set_fileCoverage None this in
      set_loop (settle g (Rejected e) (loop this)) this
  | KGetUri g uri, Fulfilled (VTree files) =>
      set_loop (settle g (Fulfilled (VFound (getUri_find uri files))) (loop this)) this
  | KGetUri g uri, Rejected e => set_loop (settle g (Rejected e) (loop this)) this
  | KEnv job, _ => fold_left perform job this
  | _, _ => this   (* a promise of a method never carries another kind of value *)
  end.

#[global] Instance TestCoverage_machine
  : Machine TestCoverage EnvAction Reaction Value Failure :=
  {| machine_loop := loop;
     machine_set_loop := set_loop;
     machine_perform := perform;
     machine_run := run |}.

(** The constructions in flight: the calls of the provider whose promise is
    pending. *)
Definition inFlight (this : TestCoverage) : list nat :=
  pendingAmong (loop this) (providerCalls this).

(** ** The outcome of a call of the provider, for its callers *)

(** What [createFileCoverage] makes of the outcome of the provider. *)
Definition built (a : Settled (list (IFileCoverage CoverageDetails)) Failure)
  : Settled Value Failure :=
  match a with
  | Fulfilled files => Fulfilled (VTree (buildTree files))
  | Rejected e => Rejected e
  end.

(** What [getUri] makes of it. *)
Definition found (uri : URI) (a : Settled (list (IFileCoverage CoverageDetails)) Failure)
  : Settled Value Failure :=
  match a with
  | Fulfilled files => Fulfilled (VFound (getUri_find uri (buildTree files)))
  | Rejected e => Rejected e
  end.

(** The promises of a session by what they are for: [q] is the call of the
    provider that the promise depends on. *)
Inductive Kind : Type :=
| KindFiles                          (* returned by the provider *)
| KindTree (q : nat)                 (* a construction, or returned by getAllFiles *)
| KindFound (q : nat) (uri : URI).   (* returned by getUri *)

Definition callOf (k : Kind) : option nat :=
  match k with
  | KindFiles => None
  | KindTree q | KindFound q _ => Some q
  end.

(** The outcome [s] suits the promise [p] of kind [k], where [o] gives the
    outcomes of the settled promises. *)
Definition suits (o : nat -> option (Settled Value Failure)) (p : nat) (k : Kind)
    (s : Settled Value Failure) : Prop :=
  match k with
  | KindFiles => o p = Some s /\ exists a, s = provided a
  | KindTree q => exists a, o q = Some (provided a) /\ s = built a
  | KindFound q uri => exists a, o q = Some (provided a) /\ s = found uri a
  end.

(** The reaction [r] may wait for the promise [p]. *)
Definition okReaction (kinds : list Kind) (p : nat) (r : Reaction) : Prop :=
  match r with
  | KCreate c => kinds !! p = Some KindFiles /\ kinds !! c = Some (KindTree p)
  | KGetAll g => exists q, kinds !! p = Some (KindTree q) /\ kinds !! g = Some (KindTree q)
  | KGetUri g uri =>
      exists q, kinds !! p = Some (KindTree q) /\ kinds !! g = Some (KindFound q uri)
  | KEnv _ => True
  end.

Definition okDone (kinds : list Kind) (o : nat -> option (Settled Value Failure))
    (p : nat) (s : Settled Value Failure) : Prop :=
  exists k, kinds !! p = Some k /\ suits o p k s.

(** The reaction [r] may run with the outcome [s]. *)
Definition okJob (kinds : list Kind) (o : nat -> option (Settled Value Failure))
    (r : Reaction) (s : Settled Value Failure) : Prop :=
  match r with
  | KCreate c =>
      exists q a, kinds !! c = Some (KindTree q) /\ o q = Some (provided a) /\ s = provided a
  | KGetAll g =>
      exists q a, kinds !! g = Some (KindTree q) /\ o q = Some (provided a) /\ s = built a
  | KGetUri g uri =>
      exists q a, kinds !! g = Some (KindFound q uri) /\ o q = Some (provided a) /\ s = built a
  | KEnv _ => True
  end.

Definition okLoopWith (kinds : list Kind) (o : nat -> option (Settled Value Failure))
  : Loop Value Failure Reaction -> Prop :=
  loopInv (okReaction kinds) (okDone kinds o) (okJob kinds o).

Definition okLoop (kinds : list Kind) (l : Loop Value Failure Reaction) : Prop :=
  okLoopWith kinds (outcome l) l.

(** The invariant of all executions, for the kinds [kinds] of the
    promises. *)
Record attached (kinds : list Kind) (this : TestCoverage) : Prop := {
  at_length : length kinds = length (promises (loop this));
  at_loop : okLoop kinds (loop this);
  at_provider : forall p, p ∈ providerCalls this <-> kinds !! p = Some KindFiles;
  at_cache : forall p, fileCoverage this = Some p -> exists q, kinds !! p = Some (KindTree q);
  at_returned : forall g, g ∈ returned this -> exists q, kinds !! g = Some (KindTree q);
  at_attempt : forall g k q,
    kinds !! g = Some k -> callOf k = Some q -> kinds !! q = Some KindFiles
}.

(** The outcome [s] has the type of what the reaction [r] awaited: the
    files of the provider for [createFileCoverage], a tree for [getAllFiles]
    and [getUri]. *)
Definition wellTyped (r : Reaction) (s : Settled Value Failure) : bool :=
  match r, s with
  | KCreate _, Fulfilled (VFiles _) => true
  | (KGetAll _ | KGetUri _ _), Fulfilled (VTree _) => true
  | KEnv _, _ => true
  | _, Rejected _ => true
  | _, _ => false
  end.

(** ** Who wakes a caller *)

(** The promise that a reaction settles. *)
Definition target (r : Reaction) : option nat :=
  match r with
  | KCreate p | KGetAll p | KGetUri p _ => Some p
  | KEnv _ => None
  end.

Definition live (this : TestCoverage) : Prop :=
  waking target (fun p => p ∈ providerCalls this) (loop this).

(** The invariant of all executions. *)
Definition sound (kinds : list Kind) (this : TestCoverage) : Prop :=
  attached kinds this /\ live this.

(** ** The jobs that are left *)

(** The reactions that an action of the environment can add. *)
Fixpoint actionSize (a : EnvAction) : nat :=
  match a with
  | CallGetAllFiles => 2
  | CallGetUri _ => 3
  | Settle _ _ => 0
  | Schedule job => S (sum_list_with actionSize job)
  end.

Definition jobWeight (r : Reaction) : nat :=
  match r with
  | KEnv job => S (sum_list_with actionSize job)
  | _ => 1
  end.

Definition work (this : TestCoverage) : nat := weight jobWeight (loop this).

(** ** Executions without failure *)

(** The environment rejects no promise, in its actions and in the jobs it
    schedules. *)
Inductive noReject : EnvAction -> Prop :=
| noReject_getAllFiles : noReject CallGetAllFiles
| noReject_getUri uri : noReject (CallGetUri uri)
| noReject_settle p files : noReject (Settle p (Fulfilled files))
| noReject_schedule job : Forall noReject job -> noReject (Schedule job).

Definition noRejectLabel : Label EnvAction -> Prop := allowed noReject.

Definition quietReaction (r : Reaction) : Prop :=
  match r with
  | KEnv job => Forall noReject job
  | _ => True
  end.

Definition fulfilled (s : Settled Value Failure) : Prop :=
  match s with
  | Fulfilled _ => True
  | Rejected _ => False
  end.

(** The invariant of the executions without failure: nothing the loop holds
    is rejected or will reject, and the provider has been called exactly
    when a construction is cached. *)
Record quiet (this : TestCoverage) : Prop := {
  quiet_loop : loopForall quietReaction fulfilled (loop this);
  quiet_calls :
    length (providerCalls this) = if fileCoverage this is Some _ then 1%nat else 0%nat
}.

End Session.

Arguments Value : clear implicits.
Arguments EnvAction : clear implicits.
Arguments Reaction : clear implicits.
Arguments TestCoverage : clear implicits.

(** * Theorems *)

Section SessionFacts.
Context {CoverageDetails Failure : Type}.
#[local] Abbreviation TestCoverage := (TestCoverage CoverageDetails Failure).
#[local] Abbreviation EnvAction := (EnvAction CoverageDetails Failure).
#[local] Abbreviation Reaction := (Reaction CoverageDetails Failure).
#[local] Abbreviation Outcome := (Settled (Value CoverageDetails) Failure).
Implicit Types (this : TestCoverage) (a : EnvAction) (r : Reaction) (s : Outcome).
Implicit Types (l : Loop (Value CoverageDetails) Failure Reaction).
Implicit Types (kinds : list Kind) (k : Kind) (o : nat -> option Outcome).
Implicit Types (c : option nat) (calls ret : list nat).

(** ** What the methods do to the fields *)

Lemma getAllFiles_cached this p :
  fileCoverage this = Some p ->
  getAllFiles this =
    ((newPromise (loop this)).1,
     mkTestCoverage (Some p) (await p (KGetAll (newPromise (loop this)).1)
                                (newPromise (loop this)).2)
       (providerCalls this) (returned this ++ [(newPromise (loop this)).1])).
Proof. intros H. unfold getAllFiles. rewrite H. cbn. now rewrite H. Qed.

Lemma getAllFiles_fresh_eq this :
  fileCoverage this = None ->
  getAllFiles this =
    ((newPromise (loop (createFileCoverage this).2)).1,
     mkTestCoverage (Some (createFileCoverage this).1)
       (await (createFileCoverage this).1
          (KGetAll (newPromise (loop (createFileCoverage this).2)).1)
          (newPromise (loop (createFileCoverage this).2)).2)
       (providerCalls this ++ [(newPromise (loop this)).1])
       (returned this ++ [(newPromise (loop (createFileCoverage this).2)).1])).
Proof. intros H. unfold getAllFiles. rewrite H. reflexivity. Qed.

Lemma getAllFiles_fresh this :
  fileCoverage this = None ->
  fileCoverage (getAllFiles this).2 = Some (createFileCoverage this).1 /\
  providerCalls (getAllFiles this).2 = providerCalls this ++ [(newPromise (loop this)).1] /\
  loop (getAllFiles this).2 =
    await (createFileCoverage this).1
      (KGetAll (newPromise (loop (createFileCoverage this).2)).1)
      (newPromise (loop (createFileCoverage this).2)).2.
Proof. intros H. now rewrite (getAllFiles_fresh_eq _ H). Qed.

Lemma getAllFiles_returned this :
  returned (getAllFiles this).2 = returned this ++ [(getAllFiles this).1].
Proof.
  destruct (fileCoverage this) as [c|] eqn:Hc;
    [now rewrite (getAllFiles_cached _ _ Hc) | now rewrite (getAllFiles_fresh_eq _ Hc)].
Qed.

Lemma getAllFiles_providerCalls this p :
  p ∈ providerCalls this -> p ∈ providerCalls (getAllFiles this).2.
Proof.
  intros Hp. destruct (fileCoverage this) as [c|] eqn:Hc.
  - now rewrite (getAllFiles_cached _ _ Hc).
  - rewrite (getAllFiles_fresh_eq _ Hc). cbn. apply elem_of_app. auto.
Qed.

Lemma createFileCoverage_pending this :
  isPending (loop (createFileCoverage this).2) (newPromise (loop this)).1 = true.
Proof.
  unfold createFileCoverage. cbn.
  apply isPending_await, isPending_newPromise_old, isPending_newPromise.
Qed.

(** ** The invariant of all executions *)

Lemma suits_mono o o' p k s :
  (forall q s, o q = Some s -> o' q = Some s) -> suits o p k s -> suits o' p k s.
Proof. intros Ho. destruct k; cbn; [intros [H ?] | intros (a & H & ?)..]; eauto. Qed.

Lemma okLoopWith_mono kinds kinds' o o' l :
  kinds `prefix_of` kinds' -> (forall q s, o q = Some s -> o' q = Some s) ->
  okLoopWith kinds o l -> okLoopWith kinds' o' l.
Proof.
  intros Hk Ho. apply loopInv_impl.
  - intros p [c|g|g uri|job]; cbn; [intros [? ?] | intros (q & ? & ?)..| done];
      eauto 6 using prefix_lookup_Some.
  - intros p s (k & Hp & Hs). exists k. eauto using prefix_lookup_Some, suits_mono.
  - intros [c|g|g uri|job] s; cbn; [intros (q & a & ? & ? & ?)..| done];
      eauto 8 using prefix_lookup_Some.
Qed.

(** A reaction that waits for a promise can run with its outcome. *)
Lemma okReaction_okJob kinds o p r s : okReaction kinds p r -> okDone kinds o p s -> okJob kinds o r s.
Proof.
  destruct r as [c|g|g uri|job]; cbn; [| | |done].
  - intros [Hp Hc] (k & Hk & Hs). rewrite Hp in Hk. injection Hk as <-.
    destruct Hs as [Ho [a ->]]. eauto.
  - intros (q & Hp & Hg) (k & Hk & Hs). rewrite Hp in Hk. injection Hk as <-.
    destruct Hs as (a & Ho & ->). eauto.
  - intros (q & Hp & Hg) (k & Hk & Hs). rewrite Hp in Hk. injection Hk as <-.
    destruct Hs as (a & Ho & ->). eauto.
Qed.

Lemma okLoopWith_await kinds o p r l :
  okReaction kinds p r -> okLoopWith kinds o l -> okLoopWith kinds o (await p r l).
Proof. intros Hr. apply loopInv_await; eauto using okReaction_okJob. Qed.

Lemma okLoopWith_settle kinds o p s l :
  (isPending l p = true -> okDone kinds o p s) ->
  okLoopWith kinds o l -> okLoopWith kinds o (settle p s l).
Proof. intros Hs. apply loopInv_settle. eauto using okReaction_okJob. Qed.

(** From a loop to a later one. *)
Lemma okLoop_step kinds kinds' l l' :
  kinds `prefix_of` kinds' -> extends l l' ->
  (okLoopWith kinds' (outcome l') l -> okLoopWith kinds' (outcome l') l') ->
  okLoop kinds l -> okLoop kinds' l'.
Proof. intros Hk Hl Hstep H. apply Hstep. eapply okLoopWith_mono; eauto. Qed.

Lemma attached_new : attached [] (@TestCoverage_new CoverageDetails Failure).
Proof.
  split; cbn; try done; try exact (loopInv_empty _ _ _);
    intros p; rewrite elem_of_nil; (split || idtac); (done || discriminate).
Qed.

(** The kinds with one promise more. *)
Lemma provider_snoc kinds k calls q :
  callOf k = Some q ->
  (forall p, p ∈ calls <-> kinds !! p = Some KindFiles) ->
  forall p, p ∈ calls <-> (kinds ++ [k]) !! p = Some KindFiles.
Proof.
  intros Hk H p. rewrite lookup_snoc_Some, H. split; [|intros [[_ ?]|[_ ->]]; [done | discriminate]].
  intros Hp. left. eauto using lookup_lt_Some.
Qed.

Lemma provider_snoc_root kinds calls :
  (forall p, p ∈ calls <-> kinds !! p = Some KindFiles) ->
  forall p, p ∈ calls ++ [length kinds] <-> (kinds ++ [KindFiles]) !! p = Some KindFiles.
Proof.
  intros H p. rewrite lookup_snoc_Some, elem_of_app, list_elem_of_singleton, H.
  split; [intros [Hp| ->]; eauto using lookup_lt_Some | intros [[_ ?]|[? _]]; auto].
Qed.

Lemma callOf_snoc kinds k :
  (forall q, callOf k = Some q -> kinds !! q = Some KindFiles) ->
  (forall g k' q, kinds !! g = Some k' -> callOf k' = Some q -> kinds !! q = Some KindFiles) ->
  forall g k' q, (kinds ++ [k]) !! g = Some k' -> callOf k' = Some q ->
                 (kinds ++ [k]) !! q = Some KindFiles.
Proof.
  intros Hk H g k' q [[_ Hg]|[_ <-]]%lookup_snoc_Some Hq; apply lookup_app_l_Some; eauto.
Qed.

(** The provider is called: a new promise of the provider. *)
Lemma attached_call kinds c l calls ret :
  attached kinds (mkTestCoverage c l calls ret) ->
  attached (kinds ++ [KindFiles])
    (mkTestCoverage c (newPromise l).2 (calls ++ [(newPromise l).1]) ret).
Proof.
  intros [Hlen Hl Hp Hc Hr Ha]. cbn in *. split; cbn.
  - rewrite newPromise_length, length_app. cbn. lia.
  - eapply okLoop_step; [apply prefix_app_r; done | apply extends_newPromise | | exact Hl].
    apply loopInv_newPromise.
  - unfold newPromise. cbn. rewrite <- Hlen. now apply provider_snoc_root.
  - intros p [q Hq]%Hc. eauto using lookup_app_l_Some.
  - intros g [q Hq]%Hr. eauto using lookup_app_l_Some.
  - apply callOf_snoc; [discriminate | done].
Qed.

(** A method returns a new promise of the kind [k], and the reaction [r]
    that will settle it waits for [p]. *)
Lemma attached_spawn kinds c l calls ret k q p r :
  attached kinds (mkTestCoverage c l calls ret) ->
  callOf k = Some q -> kinds !! q = Some KindFiles ->
  okReaction (kinds ++ [k]) p r ->
  attached (kinds ++ [k]) (mkTestCoverage c (await p r (newPromise l).2) calls ret).
Proof.
  intros [Hlen Hl Hp Hc Hr Ha] Hk Hq Hreaction. cbn in *. split; cbn.
  - rewrite await_length, newPromise_length, length_app. cbn. lia.
  - eapply okLoop_step; [apply prefix_app_r; done | | | exact Hl].
    + etrans; [apply extends_newPromise | apply extends_await].
    + intros H. now apply okLoopWith_await, loopInv_newPromise.
  - eapply provider_snoc; eauto.
  - intros p' [q' Hq']%Hc. eauto using lookup_app_l_Some.
  - intros g [q' Hq']%Hr. eauto using lookup_app_l_Some.
  - apply callOf_snoc; [congruence | done].
Qed.

Lemma attached_cache kinds c l calls ret p q :
  attached kinds (mkTestCoverage c l calls ret) -> kinds !! p = Some (KindTree q) ->
  attached kinds (mkTestCoverage (Some p) l calls ret).
Proof. intros [Hlen Hl Hp Hc Hr Ha] Hk. split; try done. cbn. intros ? [= <-]. eauto. Qed.

Lemma attached_clear kinds this : attached kinds this -> attached kinds (set_fileCoverage None this).
Proof. intros [Hlen Hl Hp Hc Hr Ha]. now split. Qed.

Lemma attached_return kinds c l calls ret g q :
  attached kinds (mkTestCoverage c l calls ret) -> kinds !! g = Some (KindTree q) ->
  attached kinds (mkTestCoverage c l calls (ret ++ [g])).
Proof.
  intros [Hlen Hl Hp Hc Hr Ha] Hk. split; try done. cbn in *.
  intros g' [Hg'| ->%list_elem_of_singleton]%elem_of_app; eauto.
Qed.

(** The loop of a session is replaced by a later one with the same
    promises. *)
Lemma attached_set_loop kinds l this :
  attached kinds this -> length (promises l) = length (promises (loop this)) ->
  okLoop kinds l -> attached kinds (set_loop l this).
Proof. intros [Hlen Hl Hp Hc Hr Ha] Hlen' Hl'. split; try done. cbn. congruence. Qed.

Lemma attached_settle kinds this p s :
  attached kinds this ->
  (isPending (loop this) p = true -> okDone kinds (outcome (settle p s (loop this))) p s) ->
  attached kinds (set_loop (settle p s (loop this)) this).
Proof.
  intros Hat Hs. apply attached_set_loop; [done | apply settle_length|].
  eapply okLoop_step; [done | apply extends_settle | | apply Hat].
  now apply okLoopWith_settle.
Qed.

Lemma attached_enqueue kinds this job s :
  attached kinds this -> attached kinds (set_loop (enqueue (KEnv job) s (loop this)) this).
Proof.
  intros Hat. apply attached_set_loop; [done | done|].
  eapply okLoop_step; [done | apply extends_enqueue | | apply Hat].
  now apply loopInv_enqueue.
Qed.

Lemma lookup_length_kinds kinds this p k :
  attached kinds this -> kinds !! p = Some k -> is_Some (promises (loop this) !! p).
Proof.
  intros Hat Hp%lookup_lt_Some. apply lookup_lt_is_Some. now rewrite <- (at_length _ _ Hat).
Qed.

(** The next promise has the kind that is appended for it. *)
Lemma lookup_newPromise_kinds kinds this k :
  attached kinds this -> (kinds ++ [k]) !! (newPromise (loop this)).1 = Some k.
Proof.
  intros Hat. unfold newPromise. cbn. rewrite <- (at_length _ _ Hat). now apply list_lookup_middle.
Qed.

(** [getAllFiles] awaits the construction of the cache and returns a
    promise of its kind. *)
Lemma attached_await_cache kinds p l calls ret q :
  attached kinds (mkTestCoverage (Some p) l calls ret) -> kinds !! p = Some (KindTree q) ->
  attached (kinds ++ [KindTree q])
    (mkTestCoverage (Some p) (await p (KGetAll (newPromise l).1) (newPromise l).2) calls
       (ret ++ [(newPromise l).1])).
Proof.
  intros Hat Hq. pose proof (lookup_newPromise_kinds _ _ (KindTree q) Hat) as Hg.
  eapply attached_return; [|exact Hg].
  eapply attached_spawn; [done | done | exact (at_attempt _ _ Hat _ _ _ Hq eq_refl)|].
  exists q. split; [now apply lookup_app_l_Some | exact Hg].
Qed.

(** [createFileCoverage] calls the provider and returns a construction
    attached to this call, which [getAllFiles] caches. *)
Lemma attached_createFileCoverage kinds l calls ret :
  attached kinds (mkTestCoverage None l calls ret) ->
  let this := mkTestCoverage None l calls ret in
  let kinds' := (kinds ++ [KindFiles]) ++ [KindTree (length kinds)] in
  attached kinds' (set_fileCoverage (Some (createFileCoverage this).1) (createFileCoverage this).2) /\
  kinds' !! (createFileCoverage this).1 = Some (KindTree (length kinds)).
Proof.
  intros Hat this kinds'. pose proof (attached_call _ _ _ _ _ Hat) as H1.
  pose proof (lookup_newPromise_kinds _ _ KindFiles Hat) as H0.
  pose proof (lookup_newPromise_kinds _ _ (KindTree (length kinds)) H1) as Hc.
  assert (Hn : (newPromise l).1 = length kinds) by exact (eq_sym (at_length _ _ Hat)).
  cbn [loop] in H0, Hc. rewrite Hn in H0. split; [|exact Hc].
  apply (attached_cache _ None _ _ _ _ (length kinds)); [|exact Hc].
  unfold this, kinds', createFileCoverage.
  cbn [fst snd fileCoverage loop providerCalls returned].
  eapply attached_spawn; [exact H1 | done | exact H0|].
  rewrite Hn. split; [now apply lookup_app_l_Some | exact Hc].
Qed.

Lemma attached_getAllFiles kinds this :
  attached kinds this ->
  exists kinds' q, kinds `prefix_of` kinds' /\ attached kinds' (getAllFiles this).2 /\
                   kinds' !! (getAllFiles this).1 = Some (KindTree q).
Proof.
  intros Hat. destruct this as [[p|] l calls ret].
  - destruct (at_cache _ _ Hat p eq_refl) as [q Hq]. exists (kinds ++ [KindTree q]), q.
    rewrite (getAllFiles_cached (mkTestCoverage (Some p) l calls ret) p eq_refl).
    split; [now apply prefix_app_r|].
    split; [now apply attached_await_cache | exact (lookup_newPromise_kinds _ _ _ Hat)].
  - destruct (attached_createFileCoverage _ _ _ _ Hat) as [H2 Hc].
    set (kinds2 := (kinds ++ [KindFiles]) ++ [KindTree (length kinds)]) in *.
    exists (kinds2 ++ [KindTree (length kinds)]), (length kinds).
    rewrite (getAllFiles_fresh_eq (mkTestCoverage None l calls ret) eq_refl).
    split; [unfold kinds2; rewrite <- !app_assoc; now apply prefix_app_r|].
    split; [exact (attached_await_cache _ _ _ _ _ _ H2 Hc)|].
    exact (lookup_newPromise_kinds _ _ _ H2).
Qed.

Lemma attached_getUri kinds uri this :
  attached kinds this ->
  exists kinds' q, kinds `prefix_of` kinds' /\ attached kinds' (getUri uri this).2 /\
                   kinds' !! (getUri uri this).1 = Some (KindFound q uri).
Proof.
  intros Hat. destruct (attached_getAllFiles _ _ Hat) as (kinds1 & q & Hpre & Hat1 & Hg).
  unfold getUri. cbn [fst snd]. destruct (getAllFiles this) as [g this1]. cbn [fst snd] in *.
  pose proof (at_length _ _ Hat1) as Hlen. destruct this1 as [c l calls ret]. cbn in *.
  assert (Hu : (kinds1 ++ [KindFound q uri]) !! (newPromise l).1 = Some (KindFound q uri)).
  { unfold newPromise. cbn. rewrite <- Hlen. now apply list_lookup_middle. }
  exists (kinds1 ++ [KindFound q uri]), q.
  split; [etrans; [done | now apply prefix_app_r]|]. split; [|done].
  eapply attached_spawn; [done | done | exact (at_attempt _ _ Hat1 _ _ _ Hg eq_refl)|].
  exists q. eauto using lookup_app_l_Some.
Qed.

Lemma attached_perform kinds this a :
  attached kinds this -> exists kinds', kinds `prefix_of` kinds' /\ attached kinds' (perform this a).
Proof.
  intros Hat. destruct a as [|uri|p a|job]; cbn.
  - destruct (attached_getAllFiles _ _ Hat) as (kinds' & q & ? & ? & _). eauto.
  - destruct (attached_getUri _ uri _ Hat) as (kinds' & q & ? & ? & _). eauto.
  - exists kinds. split; [done|]. case_bool_decide as Hp; [|done].
    apply attached_settle; [done|]. intros Hpending. exists KindFiles.
    split; [now apply (at_provider _ _ Hat)|]. cbn. split; [now apply outcome_settle | eauto].
  - exists kinds. split; [done|]. now apply attached_enqueue.
Qed.

Lemma attached_job kinds job this :
  attached kinds this ->
  exists kinds', kinds `prefix_of` kinds' /\ attached kinds' (fold_left perform job this).
Proof.
  revert kinds this. induction job as [|a job IH]; intros kinds this Hat; cbn; [eauto|].
  destruct (attached_perform _ _ a Hat) as (kinds1 & Hpre & Hat1).
  destruct (IH _ _ Hat1) as (kinds2 & Hpre2 & Hat2). exists kinds2. split; [etrans|]; done.
Qed.

(** The job that is taken from the queue can run, and the rest of the loop
    is as before. *)
Lemma attached_pop kinds this r s l :
  attached kinds this -> pop (loop this) = Some ((r, s), l) ->
  okJob kinds (outcome l) r s /\ attached kinds (set_loop l this).
Proof.
  intros Hat Hpop.
  destruct (loopInv_pop _ _ _ _ _ _ Hpop (at_loop _ _ Hat)) as [Hj Hl].
  assert (Ho : forall q s', outcome (loop this) q = Some s' -> outcome l q = Some s').
  { apply (extends_pop _ _ _ Hpop). }
  split.
  - cbn in Hj. destruct r; cbn in *; [destruct Hj as (q & a & ? & ? & ?); eauto 8..| done].
  - apply attached_set_loop; [done | now rewrite (pop_promises _ _ _ Hpop)|].
    eapply okLoopWith_mono; [done | exact Ho | exact Hl].
Qed.

(** A continuation settles its promise with what the outcome of the call
    of the provider makes of it. *)
Lemma attached_resume kinds this g k q ans s :
  attached kinds this -> kinds !! g = Some k -> callOf k = Some q ->
  outcome (loop this) q = Some (provided ans) ->
  suits (fun _ => Some (provided ans)) g k s ->
  attached kinds (set_loop (settle g s (loop this)) this).
Proof.
  intros Hat Hg Hk Ho Hs. apply attached_settle; [done|]. intros _. exists k. split; [done|].
  assert (Ho' : outcome (settle g s (loop this)) q = Some (provided ans))
    by now apply extends_settle.
  destruct k as [|q'|q' uri]; [done|..]; injection Hk as ->; destruct Hs as (a' & [= Ha] & ->);
    exists a'; split; congruence.
Qed.

Lemma attached_run kinds this r s l :
  attached kinds this -> pop (loop this) = Some ((r, s), l) ->
  exists kinds', kinds `prefix_of` kinds' /\ attached kinds' (run r s (set_loop l this)).
Proof.
  intros Hat Hpop. destruct (attached_pop _ _ _ _ _ Hat Hpop) as [Hj Hat'].
  destruct r as [c|g|g uri|job]; cbn in Hj; [| | |now apply attached_job];
    destruct Hj as (q & a & Hk & Ho & ->); exists kinds; (split; [done|]).
  - assert (Hs : suits (fun _ => Some (provided a)) c (KindTree q) (built a)) by now exists a.
    destruct a as [files|e]; cbn [run provided built];
      (eapply (attached_resume _ _ c _ q); [done | exact Hk | done | exact Ho | exact Hs]).
  - assert (Hs : suits (fun _ => Some (provided a)) g (KindTree q) (built a)) by now exists a.
    destruct a as [files|e]; cbn [run provided built].
    + eapply (attached_resume _ _ g _ q); [done | exact Hk | done | exact Ho | exact Hs].
    + eapply (attached_resume _ (set_fileCoverage None _) g _ q);
        [now apply attached_clear | exact Hk | done | exact Ho | exact Hs].
  - assert (Hs : suits (fun _ => Some (provided a)) g (KindFound q uri) (found uri a))
      by now exists a.
    destruct a as [files|e]; cbn [run provided built];
      (eapply (attached_resume _ _ g _ q); [done | exact Hk | done | exact Ho | exact Hs]).
Qed.

(** ** Who wakes a caller *)

Lemma live_new : live (@TestCoverage_new CoverageDetails Failure).
Proof. apply waking_empty. Qed.

Lemma createFileCoverage_lookup this :
  is_Some (promises (loop (createFileCoverage this).2) !! (createFileCoverage this).1).
Proof.
  apply lookup_lt_is_Some. unfold createFileCoverage. cbn [fst snd loop].
  rewrite await_length, !newPromise_length. unfold newPromise. cbn.
  rewrite length_app. cbn. lia.
Qed.

Lemma live_createFileCoverage this : live this -> live (createFileCoverage this).2.
Proof.
  intros Hl. unfold live, createFileCoverage. cbn [snd fst loop providerCalls].
  apply waking_spawn; [|rewrite newPromise_lookup; eauto | done].
  apply waking_newRoot; [|apply elem_of_app; right; now apply list_elem_of_singleton].
  eapply waking_weaken; [|exact Hl]. intros g Hg. apply elem_of_app. auto.
Qed.

Lemma live_getAllFiles kinds this : sound kinds this -> live (getAllFiles this).2.
Proof.
  intros [Hat Hl]. destruct (fileCoverage this) as [p|] eqn:Hc.
  - rewrite (getAllFiles_cached _ _ Hc). destruct (at_cache _ _ Hat p Hc) as [q Hq].
    apply waking_spawn; [exact Hl | exact (lookup_length_kinds _ _ _ _ Hat Hq) | done].
  - rewrite (getAllFiles_fresh_eq _ Hc).
    apply waking_spawn;
      [exact (live_createFileCoverage _ Hl) | apply createFileCoverage_lookup | done].
Qed.

Lemma sound_getAllFiles kinds this :
  sound kinds this ->
  exists kinds' q, kinds `prefix_of` kinds' /\ sound kinds' (getAllFiles this).2 /\
                   kinds' !! (getAllFiles this).1 = Some (KindTree q).
Proof.
  intros Hs. destruct (attached_getAllFiles _ _ (proj1 Hs)) as (kinds' & q & ? & ? & ?).
  exists kinds', q. split; [done|]. split; [|done]. split; [done|]. now apply (live_getAllFiles kinds).
Qed.

Lemma sound_getUri kinds uri this :
  sound kinds this ->
  exists kinds' q, kinds `prefix_of` kinds' /\ sound kinds' (getUri uri this).2 /\
                   kinds' !! (getUri uri this).1 = Some (KindFound q uri).
Proof.
  intros Hs. destruct (attached_getUri _ uri _ (proj1 Hs)) as (kinds' & q & ? & ? & ?).
  exists kinds', q. split; [done|]. split; [|done]. split; [done|].
  destruct (sound_getAllFiles _ _ Hs) as (kinds1 & q1 & _ & [Hat1 Hl1] & Hg).
  unfold getUri. cbn [snd].
  apply waking_spawn; [exact Hl1 | exact (lookup_length_kinds _ _ _ _ Hat1 Hg) | done].
Qed.

Lemma sound_perform kinds this a :
  sound kinds this -> exists kinds', kinds `prefix_of` kinds' /\ sound kinds' (perform this a).
Proof.
  intros Hs. destruct a as [|uri|p a|job].
  - destruct (sound_getAllFiles _ _ Hs) as (kinds' & q & ? & ? & _). eauto.
  - destruct (sound_getUri _ uri _ Hs) as (kinds' & q & ? & ? & _). eauto.
  - destruct (attached_perform _ _ (Settle p a) (proj1 Hs)) as (kinds' & ? & ?).
    exists kinds'. split; [done|]. split; [done|]. cbn. case_bool_decide; [|apply Hs].
    apply waking_settle, Hs.
  - destruct (attached_perform _ _ (Schedule job) (proj1 Hs)) as (kinds' & ? & ?).
    exists kinds'. split; [done|]. split; [done|]. apply waking_enqueue, Hs.
Qed.

Lemma sound_job kinds job this :
  sound kinds this ->
  exists kinds', kinds `prefix_of` kinds' /\ sound kinds' (fold_left perform job this).
Proof.
  revert kinds this. induction job as [|a job IH]; intros kinds this Hs; cbn; [eauto|].
  destruct (sound_perform _ _ a Hs) as (kinds1 & Hpre & Hs1).
  destruct (IH _ _ Hs1) as (kinds2 & Hpre2 & Hs2). exists kinds2. split; [etrans|]; done.
Qed.

(** A continuation that runs settles its target. *)
Lemma live_run kinds this r s l g :
  sound kinds this -> pop (loop this) = Some ((r, s), l) -> target r = Some g ->
  live (run r s (set_loop l this)).
Proof.
  intros [Hat Hl] Hpop Ht. destruct (attached_pop _ _ _ _ _ Hat Hpop) as [Hj _].
  destruct r as [c|g'|g' uri|job]; [..|discriminate]; injection Ht as ->;
    destruct Hj as (q & [files|e] & _ & _ & ->); cbn [run provided built];
    exact (waking_resume target _ _ _ _ _ _ _ Hpop eq_refl Hl).
Qed.

Lemma sound_run kinds this r s l :
  sound kinds this -> pop (loop this) = Some ((r, s), l) ->
  exists kinds', kinds `prefix_of` kinds' /\ sound kinds' (run r s (set_loop l this)).
Proof.
  intros Hs Hpop. destruct (target r) as [g|] eqn:Ht.
  - destruct (attached_run _ _ _ _ _ (proj1 Hs) Hpop) as (kinds' & ? & ?).
    exists kinds'. split; [done|]. split; [done|]. now apply (live_run kinds _ _ _ _ g).
  - destruct r as [| | |job]; try discriminate. apply sound_job. split.
    + apply (attached_pop _ _ _ _ _ (proj1 Hs) Hpop).
    + exact (waking_pop target _ _ _ _ _ Hpop eq_refl (proj2 Hs)).
Qed.

(** The invariant holds after every execution, and the kinds of the
    promises are kept. *)
Lemma sound_exec kinds (trace : list (Label EnvAction)) this this' :
  sound kinds this -> exec trace this = Some this' ->
  exists kinds', kinds `prefix_of` kinds' /\ sound kinds' this'.
Proof.
  intros Hs. apply (exec_invariant (fun st => exists kinds', kinds `prefix_of` kinds' /\ sound kinds' st)
                      (fun _ => True)); [| |apply Forall_forall; auto using allowed_True|eauto].
  - intros st a _ (kinds1 & Hpre & Hs1). destruct (sound_perform _ _ a Hs1) as (kinds2 & ? & ?).
    exists kinds2. split; [etrans|]; done.
  - intros st [r s] l (kinds1 & Hpre & Hs1) Hpop.
    destruct (sound_run _ _ _ _ _ Hs1 Hpop) as (kinds2 & ? & ?).
    exists kinds2. split; [etrans|]; done.
Qed.

Lemma sound_new : sound [] (@TestCoverage_new CoverageDetails Failure).
Proof. split; [apply attached_new | apply live_new]. Qed.

Lemma sound_reachable (trace : list (Label EnvAction)) this :
  exec trace TestCoverage_new = Some this -> exists kinds, sound kinds this.
Proof. intros H. destruct (sound_exec _ _ _ _ sound_new H) as (kinds & _ & Hs). eauto. Qed.

(** ** The jobs that are left *)

Lemma work_createFileCoverage this : (work (createFileCoverage this).2 <= work this + 1)%nat.
Proof.
  unfold work, createFileCoverage. cbn [snd loop].
  etrans; [apply weight_await|]. now rewrite !weight_newPromise.
Qed.

Lemma work_getAllFiles this : (work (getAllFiles this).2 <= work this + 2)%nat.
Proof.
  destruct (fileCoverage this) as [p|] eqn:Hc.
  - rewrite (getAllFiles_cached _ _ Hc). unfold work. cbn [loop].
    etrans; [apply weight_await|]. rewrite weight_newPromise. cbn. lia.
  - rewrite (getAllFiles_fresh_eq _ Hc). unfold work. cbn [loop].
    etrans; [apply weight_await|]. rewrite weight_newPromise.
    pose proof (work_createFileCoverage this). unfold work in *. cbn [jobWeight]. lia.
Qed.

Lemma work_getUri uri this : (work (getUri uri this).2 <= work this + 3)%nat.
Proof.
  unfold getUri, work. cbn [snd set_loop loop].
  etrans; [apply weight_await|]. rewrite weight_newPromise.
  pose proof (work_getAllFiles this). unfold work in *. cbn [jobWeight]. lia.
Qed.

(** An action adds the reactions of the calls it makes, at most. *)
Lemma work_perform this a : (work (perform this a) <= work this + actionSize a)%nat.
Proof.
  destruct a as [|uri|p a|job]; cbn [perform actionSize].
  - apply work_getAllFiles.
  - apply work_getUri.
  - case_bool_decide; [|lia]. unfold work. cbn. rewrite weight_settle. lia.
  - unfold work. cbn [set_loop loop]. now rewrite weight_enqueue.
Qed.

Lemma work_job job this :
  (work (fold_left perform job this) <= work this + sum_list_with actionSize job)%nat.
Proof.
  revert this. induction job as [|a job IH]; intros this; cbn; [lia|].
  etrans; [apply IH|]. pose proof (work_perform this a). lia.
Qed.

Lemma work_settle p s this : work (set_loop (settle p s (loop this)) this) = work this.
Proof. unfold work. cbn. apply weight_settle. Qed.

(** A job that runs lowers the work that is left. *)
Lemma work_run this r s l :
  pop (loop this) = Some ((r, s), l) -> (work (run r s (set_loop l this)) < work this)%nat.
Proof.
  intros Hpop. unfold work at 2. rewrite (weight_pop _ _ _ _ Hpop). cbn [fst].
  change (weight jobWeight l) with (work (set_loop l this)).
  destruct r as [c|g|g uri|job]; [destruct s as [[]|]; cbn [run]; rewrite ?work_settle; unfold work; cbn;
                                    lia..|].
  cbn [run jobWeight]. pose proof (work_job job (set_loop l this)). lia.
Qed.

(** ** Executions without failure *)

Lemma quiet_new : quiet (@TestCoverage_new CoverageDetails Failure).
Proof. split; [apply loopForall_empty | done]. Qed.

Lemma quiet_getAllFiles this : quiet this -> quiet (getAllFiles this).2.
Proof.
  intros [Hl Hn]. destruct (fileCoverage this) as [p|] eqn:Hc.
  - rewrite (getAllFiles_cached _ _ Hc). split; cbn; [|done].
    now apply loopForall_await, loopForall_newPromise.
  - rewrite (getAllFiles_fresh_eq _ Hc). split; cbn; [|rewrite length_app, Hn; done].
    apply loopForall_await, loopForall_newPromise; [done|]. unfold createFileCoverage. cbn.
    now apply loopForall_await, loopForall_newPromise, loopForall_newPromise.
Qed.

Lemma quiet_getUri uri this : quiet this -> quiet (getUri uri this).2.
Proof.
  intros [Hl Hn]%quiet_getAllFiles. unfold getUri. split; cbn; [|done].
  now apply loopForall_await, loopForall_newPromise.
Qed.

Lemma quiet_perform this a : noReject a -> quiet this -> quiet (perform this a).
Proof.
  intros Ha Hq. destruct Ha as [|uri|p files|job Hjob]; cbn.
  - now apply quiet_getAllFiles.
  - now apply quiet_getUri.
  - case_bool_decide; [|assumption]. destruct Hq as [Hl Hn]. split; cbn; [|done].
    now apply loopForall_settle.
  - destruct Hq as [Hl Hn]. split; cbn; [|done]. now apply loopForall_enqueue.
Qed.

Lemma quiet_run this job l :
  quiet this -> pop (loop this) = Some (job, l) -> quiet (run job.1 job.2 (set_loop l this)).
Proof.
  intros [Hl Hn] Hpop. destruct (loopForall_pop _ _ _ _ _ Hpop Hl) as (Hr & Hs & Hl').
  assert (Hq : quiet (set_loop l this)) by now split.
  destruct job as [[c|g|g uri|job] [v|e]]; try done; cbn [fst snd run];
    [destruct v; try done.. | now apply (@job_invariant _ _ _ _ _ TestCoverage_machine quiet noReject quiet_perform)];
    (split; cbn; [now apply loopForall_settle | done]).
Qed.

Lemma quiet_exec (trace : list (Label EnvAction)) this this' :
  Forall noRejectLabel trace -> quiet this -> exec trace this = Some this' -> quiet this'.
Proof. apply (@exec_invariant _ _ _ _ _ TestCoverage_machine quiet noReject quiet_perform quiet_run). Qed.

Lemma elem_of_short (l : list nat) p : (length l <= 1)%nat -> p ∈ l -> l = [p].
Proof.
  destruct l as [|x [|y l]]; cbn; [now rewrite elem_of_nil | | lia].
  now intros _ ->%list_elem_of_singleton.
Qed.

(** ** What the callers receive *)

Lemma okJob_wellTyped kinds o r s : okJob kinds o r s -> wellTyped r s = true.
Proof. destruct r; cbn; [intros (q & [files|e] & _ & _ & ->); done..|done]. Qed.

(** A settled promise of a method holds what suits its kind, and its call of
    the provider is one of the session. *)
Lemma attached_outcome kinds this g k q s :
  attached kinds this -> kinds !! g = Some k -> callOf k = Some q ->
  promises (loop this) !! g = Some (Done s) ->
  q ∈ providerCalls this /\ suits (outcome (loop this)) g k s.
Proof.
  intros Hat Hk Hq Hd. split; [eapply at_provider, at_attempt; eauto|].
  destruct (li_done _ _ _ _ (at_loop _ _ Hat) g s Hd) as (k' & Hk' & Hs). congruence.
Qed.

Lemma attached_returned kinds this g s :
  attached kinds this -> g ∈ returned this -> promises (loop this) !! g = Some (Done s) ->
  exists q ans, q ∈ providerCalls this /\
                promises (loop this) !! q = Some (Done (provided ans)) /\ s = built ans.
Proof.
  intros Hat Hg Hd. destruct (at_returned _ _ Hat g Hg) as [q Hq].
  destruct (attached_outcome _ _ _ _ q _ Hat Hq eq_refl Hd) as (Hp & a & Ho%outcome_Some & ->).
  eauto.
Qed.

(** When no job is left and the provider has answered every call, every
    promise that [getAllFiles] returned is settled. *)
Lemma quiescent_returned kinds this g :
  sound kinds this -> queue (loop this) = [] -> inFlight this = [] -> g ∈ returned this ->
  exists s, promises (loop this) !! g = Some (Done s).
Proof.
  intros [Hat Hl] Hq Hroot Hg. unfold inFlight in Hroot. rewrite pendingAmong_nil in Hroot.
  destruct (at_returned _ _ Hat g Hg) as [q Hk].
  destruct (lookup_length_kinds _ _ _ _ Hat Hk) as [[rs|s] Hp]; [|eauto].
  pose proof (quiescent_settled target _ _ Hl Hq Hroot g) as Hn.
  unfold isPending in Hn. now rewrite Hp in Hn.
Qed.

(** The jobs run out: [work] is fuel enough for [drain]. *)
Lemma drain_work this : pop (loop (drain (work this) this)) = None.
Proof.
  apply (@drain_spec _ _ _ _ _ TestCoverage_machine work); [|done].
  intros st [r s] l Hpop. now apply work_run.
Qed.

(** C3: as long as no call of the provider fails, the provider is called at
    most once, however the calls of [getAllFiles] and [getUri], the answer
    of the provider and the jobs interleave: every call after the first
    shares the cached construction. *)
Theorem provider_called_once (trace : list (Label EnvAction)) this :
  Forall noRejectLabel trace ->
  exec trace TestCoverage_new = Some this ->
  (length (providerCalls this) <= 1)%nat /\
  (is_Some (fileCoverage this) <-> length (providerCalls this) = 1%nat).
Proof.
  intros Htrace Hexec. destruct (quiet_exec _ _ _ Htrace quiet_new Hexec) as [_ Hn].
  rewrite Hn. destruct (fileCoverage this); split; try lia; split; eauto.
  - now intros [? ?].
  - discriminate.
Qed.

(** As long as no call of the provider fails, every caller of
    [getAllFiles] receives the same tree: a promise that [getAllFiles] has
    returned, once it is settled, holds the tree built from the files with
    which the provider answered its one call, however the calls, the answer
    and the jobs interleave. *)
Theorem getAllFiles_shares_tree (trace : list (Label EnvAction)) this g s :
  Forall noRejectLabel trace ->
  exec trace TestCoverage_new = Some this ->
  g ∈ returned this ->
  promises (loop this) !! g = Some (Done s) ->
  exists p files,
    providerCalls this = [p] /\
    promises (loop this) !! p = Some (Done (Fulfilled (VFiles files))) /\
    s = Fulfilled (VTree (buildTree files)).
Proof.
  intros Htrace Hexec Hg Hd. destruct (sound_reachable _ _ Hexec) as (kinds & Hat & _).
  destruct (quiet_exec _ _ _ Htrace quiet_new Hexec) as [Hl Hn].
  destruct (attached_returned _ _ _ _ Hat Hg Hd) as (q & a & Hq & Ho & ->).
  pose proof (loopForall_done _ _ _ _ _ Hl Ho) as Hf. destruct a as [files|e]; [|done].
  exists q, files. repeat split; [|done]. apply elem_of_short; [|done].
  rewrite Hn. destruct (fileCoverage this); lia.
Qed.

(** C4: in every execution, whatever fails, a promise that [getAllFiles] has
    returned and that is settled holds what [createFileCoverage] makes of
    the outcome of one call of the provider of this session: the tree built
    from its files when it answered, its error when it failed.  A caller never
    receives a tree of other files, and never an error that the provider did
    not raise. *)
Theorem getAllFiles_outcome (trace : list (Label EnvAction)) this g s :
  exec trace TestCoverage_new = Some this ->
  g ∈ returned this ->
  promises (loop this) !! g = Some (Done s) ->
  exists q ans,
    q ∈ providerCalls this /\
    promises (loop this) !! q = Some (Done (provided ans)) /\
    s = built ans.
Proof.
  intros Hexec Hg Hd. destruct (sound_reachable _ _ Hexec) as (kinds & Hat & _).
  exact (attached_returned kinds this g s Hat Hg Hd).
Qed.

(** C13: in every execution, the promise that a call of [getUri] returned,
    once it is settled, holds what [getUri_find] finds for the URI in the tree
    built from the files of one call of the provider, or the error of that
    call: the lookup of [getUri] composes with the construction of the
    tree, whatever runs in between. *)
Theorem getUri_outcome (trace1 trace2 : list (Label EnvAction)) uri this1 this s :
  exec trace1 TestCoverage_new = Some this1 ->
  exec trace2 (getUri uri this1).2 = Some this ->
  promises (loop this) !! (getUri uri this1).1 = Some (Done s) ->
  exists q ans,
    q ∈ providerCalls this /\
    promises (loop this) !! q = Some (Done (provided ans)) /\
    s = found uri ans.
Proof.
  intros Hexec1 Hexec2 Hd. destruct (sound_reachable _ _ Hexec1) as (kinds1 & Hs1).
  destruct (sound_getUri _ uri _ Hs1) as (kinds2 & q & _ & Hs2 & Hk).
  destruct (sound_exec _ _ _ _ Hs2 Hexec2) as (kinds & Hpre & Hat & _).
  apply (prefix_lookup_Some _ _ _ _ Hk) in Hpre.
  destruct (attached_outcome _ _ _ _ q _ Hat Hpre eq_refl Hd) as (Hp & a & Ho%outcome_Some & ->).
  eauto.
Qed.

(** C14: in every execution, every job of the queue carries an outcome of the
    type that its continuation awaited: the continuation of
    [createFileCoverage] runs with the files of the provider or an error,
    those of [getAllFiles] and [getUri] with a tree or an error.  The branch
    of [run] for other outcomes is never taken. *)
Theorem jobs_well_typed (trace : list (Label EnvAction)) this :
  exec trace TestCoverage_new = Some this ->
  Forall (fun job => wellTyped job.1 job.2 = true) (queue (loop this)).
Proof.
  intros Hexec. destruct (sound_reachable _ _ Hexec) as (kinds & Hat & _).
  eapply Forall_impl; [exact (li_queue _ _ _ _ (at_loop _ _ Hat))|].
  intros [r s]. apply okJob_wellTyped.
Qed.

(** C15: from every state of a session, the jobs run out: at most [work this]
    ticks, the number of reactions that wait, of jobs and of the actions
    that the jobs of the environment hold, empty the queue. *)
Theorem drain_terminates this :
  exists n, (n <= work this)%nat /\
    exec (repeat Tick n) this = Some (drain (work this) this) /\
    queue (loop (drain (work this) this)) = [].
Proof.
  destruct (drain_exec (work this) this) as (n & Hn & Hexec).
  exists n. split; [done|]. split; [done|]. apply pop_None, drain_work.
Qed.

(** C7: nobody waits for ever.  In every execution, once the jobs have run
    and the provider has answered every call, every promise that
    [getAllFiles] returned is settled: every caller is resumed, with the tree
    or with the error. *)
Theorem callers_settled (trace : list (Label EnvAction)) this g :
  exec trace TestCoverage_new = Some this ->
  inFlight (drain (work this) this) = [] ->
  g ∈ returned (drain (work this) this) ->
  exists s, promises (loop (drain (work this) this)) !! g = Some (Done s).
Proof.
  intros Hexec Hroot Hg. destruct (sound_reachable _ _ Hexec) as (kinds & Hs).
  destruct (drain_exec (work this) this) as (n & _ & Hdrain).
  destruct (sound_exec _ _ _ _ Hs Hdrain) as (kinds' & _ & Hs').
  apply (quiescent_returned kinds'); [done | apply pop_None, drain_work | done | done].
Qed.

(** ** Failure *)

(** C12: when the construction has failed, the continuation of [getAllFiles]
    clears the cache and rejects the promise of its caller with the error of
    the provider, and the next call of [getAllFiles] calls the provider
    again. *)
Theorem failure_then_retry g e this :
  isPending (loop this) g = true ->
  let this' := run (KGetAll g) (Rejected e) this in
  fileCoverage this' = None /\
  promises (loop this') !! g = Some (Done (Rejected e)) /\
  providerCalls (getAllFiles this').2 = providerCalls this ++ [length (promises (loop this'))] /\
  isPending (loop (getAllFiles this').2) (length (promises (loop this'))) = true.
Proof.
  intros Hg. cbv zeta. cbn [run]. set (this' := set_loop _ _).
  split; [reflexivity|]. split; [now apply settle_pending_lookup|].
  destruct (getAllFiles_fresh this' eq_refl) as (_ & -> & ->).
  split; [reflexivity|].
  apply isPending_await, isPending_newPromise_old. apply createFileCoverage_pending.
Qed.

(** C5: two constructions can be in flight at once.  A caller that awaits a
    construction which has already failed clears the cache when it resumes,
    whatever the cache holds by then: in the trace below a construction
    started in between is dropped from the cache while its call of the
    provider is pending, and the next call starts another. *)
Theorem two_constructions_in_flight (e : Failure) :
  exists trace this,
    disciplined trace (@TestCoverage_new CoverageDetails Failure) = true /\
    exec trace TestCoverage_new = Some this /\
    length (inFlight this) = 2%nat.
Proof.
  exists [ Task [CallGetAllFiles];
           Task [Settle 0 (Rejected e);
                 Schedule [Schedule [CallGetAllFiles]; CallGetAllFiles]];
           Tick; Tick; Tick; Tick; Tick;
           Task [CallGetAllFiles] ].
  eexists. split; [|split]; [vm_compute; reflexivity | vm_compute; reflexivity |].
  vm_compute. reflexivity.
Qed.

End SessionFacts.

(** * Examples *)

(** Two calls before the provider answers, one after: one call of the
    provider, and the three promises hold the same tree. *)
Definition example_trace : list (Label (EnvAction unit string)) :=
  [ Task [CallGetAllFiles; CallGetAllFiles];
    Task [Settle 0 (Fulfilled example_files)];
    Tick; Tick; Tick;
    Task [CallGetAllFiles];
    Tick ].

Definition example_session : TestCoverage unit string :=
  default TestCoverage_new (exec example_trace TestCoverage_new).

Example getAllFiles_shares :
  providerCalls example_session = [0%nat] /\
  returned example_session = [2; 3; 4]%nat /\
  Forall (fun g => promises (loop example_session) !! g =
                     Some (Done (Fulfilled (VTree (buildTree example_files)))))
    (returned example_session).
Proof. vm_compute. repeat split; repeat constructor. Qed.

Lemma provider_called_once_witness :
  (length (providerCalls example_session) <= 1)%nat /\
  (is_Some (fileCoverage example_session) <-> length (providerCalls example_session) = 1%nat).
Proof.
  apply (provider_called_once example_trace).
  - repeat constructor.
  - vm_compute. reflexivity.
Defined.

Lemma getAllFiles_shares_tree_witness :
  exists p files,
    providerCalls example_session = [p] /\
    promises (loop example_session) !! p = Some (Done (Fulfilled (VFiles files))) /\
    Fulfilled (VTree (buildTree example_files)) =
      (Fulfilled (VTree (buildTree files)) : Settled (Value unit) string).
Proof.
  apply (getAllFiles_shares_tree example_trace example_session 2%nat).
  - repeat constructor.
  - vm_compute. reflexivity.
  - vm_compute. constructor.
  - vm_compute. reflexivity.
Defined.

Lemma jobs_well_typed_witness :
  Forall (fun job => wellTyped job.1 job.2 = true)
    (queue (loop (default TestCoverage_new
                    (exec (take 2 example_trace) (@TestCoverage_new unit string))))).
Proof. apply (jobs_well_typed (take 2 example_trace)). vm_compute. reflexivity. Defined.

(** A call of [getUri] while the construction is pending: its promise holds
    what [getUri_find] finds in the tree of the provider's files. *)
Definition example_lookup : TestCoverage unit string :=
  default TestCoverage_new (exec [Task [CallGetAllFiles]] TestCoverage_new).

Definition example_found : TestCoverage unit string :=
  default TestCoverage_new
    (exec [Task [Settle 0 (Fulfilled example_files)]; Tick; Tick; Tick; Tick]
       (getUri (mkURI "file" "" "/a/b/x") example_lookup).2).

Lemma getUri_outcome_witness :
  exists q ans,
    q ∈ providerCalls example_found /\
    promises (loop example_found) !! q = Some (Done (provided ans)) /\
    Fulfilled (VFound (getUri_find (mkURI "file" "" "/a/b/x") (buildTree example_files))) =
      found (mkURI "file" "" "/a/b/x") ans.
Proof.
  apply (getUri_outcome [Task [CallGetAllFiles]]
           [Task [Settle 0 (Fulfilled example_files)]; Tick; Tick; Tick; Tick]
           (mkURI "file" "" "/a/b/x") example_lookup example_found).
  - vm_compute. reflexivity.
  - vm_compute. reflexivity.
  - vm_compute. reflexivity.
Defined.

(** A session whose first call is waiting for a construction that has
    failed. *)
Definition example_failed : TestCoverage unit string :=
  default TestCoverage_new
    (exec [Task [CallGetAllFiles]; Task [Settle 0 (Rejected "cancelled")]; Tick]
       TestCoverage_new).

Lemma failure_then_retry_witness :
  let this' := run (KGetAll 2) (Rejected "cancelled") example_failed in
  fileCoverage this' = None /\
  promises (loop this') !! 2%nat = Some (Done (Rejected "cancelled")) /\
  providerCalls (getAllFiles this').2 = [0; 3]%nat /\
  isPending (loop (getAllFiles this').2) 3 = true.
Proof.
  apply (failure_then_retry 2 "cancelled" example_failed). vm_compute. reflexivity.
Defined.

(** The caller of a failed construction receives the error of the
    provider. *)
Definition example_rejected : TestCoverage unit string :=
  default TestCoverage_new (exec [Tick] example_failed).

Lemma getAllFiles_outcome_witness :
  exists q ans,
    q ∈ providerCalls example_rejected /\
    promises (loop example_rejected) !! q = Some (Done (provided ans)) /\
    Rejected "cancelled" = built ans.
Proof.
  apply (getAllFiles_outcome
           [Task [CallGetAllFiles]; Task [Settle 0 (Rejected "cancelled")]; Tick; Tick]
           example_rejected 2%nat).
  - vm_compute. reflexivity.
  - vm_compute. constructor.
  - vm_compute. reflexivity.
Defined.

(** After the answer of the provider, the jobs settle the callers. *)
Definition example_answered : TestCoverage unit string :=
  default TestCoverage_new (exec (take 2 example_trace) TestCoverage_new).

Lemma callers_settled_witness :
  exists s,
    promises (loop (drain (work example_answered) example_answered)) !! 3%nat = Some (Done s).
Proof.
  apply (callers_settled (take 2 example_trace) example_answered 3%nat).
  - vm_compute. reflexivity.
  - vm_compute. reflexivity.
  - vm_compute. repeat constructor.
Defined.

(** After the failure the provider is called again, and the second
    construction succeeds. *)
Example retry_succeeds :
  let this := default TestCoverage_new
                (exec [Tick; Task [CallGetAllFiles];
                       Task [Settle 3 (Fulfilled example_files)]; Tick; Tick]
                   example_failed) in
  promises (loop this) !! 2%nat = Some (Done (Rejected "cancelled")) /\
  promises (loop this) !! 5%nat = Some (Done (Fulfilled (VTree (buildTree example_files)))) /\
  inFlight this = [].
Proof. vm_compute. repeat split. Qed.
