(* ===== verification/Retry.v ===== *)
(** * How often the provider is called

    [getAllFiles] of testCoverage.ts ([src/unnamed/part_000], lines
    218-227) calls the provider when the field [fileCoverage] is empty, and
    empties the field when the construction it awaited fails.  Without
    failures the provider is called once ([Session.provider_called_once]).
    This file bounds the calls in every execution of [Session]: the provider
    is called at most once more than there are promises of [getAllFiles]
    that were rejected, that is, callers that saw the failure.

    The bound rests on an invariant of the loop of a session ([exact]): no
    promise is the target of two continuations ([Async.linear]), so that the
    continuation of [getAllFiles] that runs with a failure finds the promise
    of its caller pending and rejects it; the promises of the provider are
    no targets; and the continuations of [getAllFiles] settle promises
    that [getAllFiles] returned. *)

From S2P Require Import Prelude Counts PrefixTree Coverage Async Machine Session.

Section Retry.
Context {CoverageDetails Failure : Type}.

#[local] Abbreviation Value := (Session.Value CoverageDetails).
#[local] Abbreviation EnvAction := (Session.EnvAction CoverageDetails Failure).
#[local] Abbreviation Reaction := (Session.Reaction CoverageDetails Failure).
#[local] Abbreviation TestCoverage := (Session.TestCoverage CoverageDetails Failure).
#[local] Abbreviation Loop := (Async.Loop Value Failure Reaction).

Implicit Types (this : TestCoverage) (l : Loop) (a : EnvAction) (r : Reaction).
Implicit Types (s : Settled Value Failure) (p g c : nat).

(** The promise [g] was rejected. *)
Definition isRejected l g : bool :=
  match outcome l g with
  | Some (Rejected _) => true
  | _ => false
  end.

(** The failures that the callers of [getAllFiles] saw: the promises it
    returned that were rejected. *)
Definition failures this : nat := length (List.filter (isRejected (loop this)) (returned this)).

(** The invariant of the loop of a session. *)
Record exact this : Prop := {
  ex_linear : linear target (loop this);
  ex_calls : forall p, p ∈ providerCalls this ->
    (p < length (promises (loop this)))%nat /\ p ∉ targets target (loop this);
  ex_cache : forall c, fileCoverage this = Some c -> (c < length (promises (loop this)))%nat;
  ex_waits : forall g, KGetAll g ∈ held (loop this) -> g ∈ returned this
}.

(** The bound: a call of the provider for the first construction and one for
    each failure seen; while a construction is cached, the next call is
    still to come. *)
Definition bounded this : Prop :=
  (length (providerCalls this) + (if fileCoverage this is Some _ then 0 else 1)
   <= S (failures this))%nat.

Definition retrying this : Prop := exact this /\ bounded this.

(** * Theorems *)

(** ** The failures seen only grow *)

Lemma isRejected_extends l l' g : extends l l' -> isRejected l g = true -> isRejected l' g = true.
Proof.
  unfold isRejected. intros Hl. destruct (outcome l g) as [[v|e]|] eqn:Hg; try done.
  now rewrite (Hl _ _ Hg).
Qed.

Lemma failures_mono this this' :
  extends (loop this) (loop this') -> returned this `prefix_of` returned this' ->
  (failures this <= failures this')%nat.
Proof.
  intros Hl [k Hk]. unfold failures. rewrite Hk, List.filter_app, length_app.
  pose proof (length_filter_mono (isRejected (loop this)) (isRejected (loop this'))
                (returned this) (fun g _ => isRejected_extends _ _ g Hl)). lia.
Qed.

(** A pending promise that [getAllFiles] returned is rejected: one failure
    more. *)
Lemma failures_reject this g e cache :
  g ∈ returned this -> isPending (loop this) g = true ->
  (failures this <
   failures (mkTestCoverage cache (settle g (Rejected e) (loop this)) (providerCalls this)
               (returned this)))%nat.
Proof.
  intros Hg Hp. unfold failures. cbn [loop returned].
  apply (length_filter_strict _ _ _ g); [|done| |].
  - intros g' _. apply isRejected_extends, extends_settle.
  - unfold isRejected, outcome. apply isPending_lookup in Hp as [rs ->]. done.
  - unfold isRejected. now rewrite outcome_settle.
Qed.

(** ** The invariant of the loop *)

Lemma exact_new : exact (@TestCoverage_new CoverageDetails Failure).
Proof.
  split; cbn; [apply linear_empty | | done |]; intros x Hx; now apply elem_of_nil in Hx.
Qed.

(** The provider is called: its promise is a new one. *)
Lemma exact_call this :
  exact this ->
  exact (mkTestCoverage (fileCoverage this) (newPromise (loop this)).2
           (providerCalls this ++ [(newPromise (loop this)).1]) (returned this)).
Proof.
  intros [Hl Hc Hf Hw]. split; cbn [loop providerCalls fileCoverage returned];
    rewrite ?newPromise_length, ?targets_newPromise, ?held_newPromise; [|  | |done].
  - now apply linear_newPromise.
  - intros p [Hp| ->%list_elem_of_singleton]%elem_of_app.
    + destruct (Hc p Hp). split; [lia | done].
    + split; [unfold newPromise; cbn; lia | now apply linear_fresh].
  - intros c Hc'%Hf. lia.
Qed.

(** A method returns a new promise and waits with the continuation that
    will settle it. *)
Lemma exact_spawn this p r cache returned' :
  exact this -> is_Some (promises (loop this) !! p) ->
  target r = Some (newPromise (loop this)).1 ->
  (forall c, cache = Some c -> (c < S (length (promises (loop this))))%nat) ->
  returned this ⊆ returned' -> (forall g, r = KGetAll g -> g ∈ returned') ->
  exact (mkTestCoverage cache (await p r (newPromise (loop this)).2) (providerCalls this)
           returned').
Proof.
  intros [Hl Hc Hf Hw] Hp Ht Hcache Hsub Hr.
  split; cbn [loop providerCalls fileCoverage returned];
    rewrite ?await_length, ?newPromise_length; [now apply linear_spawn | | done |].
  - intros q Hq. destruct (Hc q Hq) as [Hlt Hn]. split; [lia|].
    rewrite (targets_spawn target _ _ _ _ Hp Ht).
    intros [?| ->%list_elem_of_singleton]%elem_of_app; [done|].
    unfold newPromise in Hlt. cbn in Hlt. lia.
  - intros g. rewrite held_await, held_newPromise
      by (destruct Hp as [ps Hp]; eexists; eapply newPromise_lookup_old, Hp).
    intros [Hg|Hg%list_elem_of_singleton]%elem_of_app; auto.
Qed.

(** A promise that is no target is settled; the field may be emptied. *)
Lemma exact_settle this p s cache :
  exact this -> p ∉ targets target (loop this) -> cache = fileCoverage this \/ cache = None ->
  exact (mkTestCoverage cache (settle p s (loop this)) (providerCalls this) (returned this)).
Proof.
  intros [Hl Hc Hf Hw] Hp Hcache.
  split; cbn [loop providerCalls fileCoverage returned]; rewrite ?settle_length.
  - now apply linear_settle.
  - intros q Hq. rewrite targets_settle. auto.
  - intros c Hc'. destruct Hcache as [->| ->]; [auto | discriminate].
  - intros g. rewrite held_settle. auto.
Qed.

Lemma exact_enqueue this job s :
  exact this -> exact (set_loop (enqueue (KEnv job) s (loop this)) this).
Proof.
  intros [Hl Hc Hf Hw]. split; cbn [loop providerCalls fileCoverage returned set_loop];
    rewrite ?targets_enqueue, ?held_enqueue, ?app_nil_r; [now apply linear_enqueue | done..|].
  intros g [Hg|[=]%list_elem_of_singleton]%elem_of_app. auto.
Qed.

(** A job is taken from the queue: its target is pending and no other
    reaction has it. *)
Lemma exact_pop this r s l :
  exact this -> pop (loop this) = Some ((r, s), l) ->
  exact (set_loop l this) /\
  forall g, target r = Some g -> isPending l g = true /\ g ∉ targets target l.
Proof.
  intros [Hl Hc Hf Hw] Hpop.
  pose proof (targets_pop target _ _ _ _ Hpop) as Ht. pose proof (held_pop _ _ _ _ Hpop) as Hh.
  assert (Hl' : linear target l).
  { destruct (target r) as [g|] eqn:Hr; [|now apply (linear_pop target _ _ _ _ Hpop)].
    now destruct (linear_popped target _ _ _ _ _ Hpop Hr Hl) as (_ & _ & ?). }
  split.
  - split; cbn [loop providerCalls fileCoverage returned set_loop];
      rewrite ?(pop_promises _ _ _ Hpop); [done | | done |].
    + intros p Hp. destruct (Hc p Hp) as [Hlt Hn]. split; [done|].
      intros Hin. apply Hn. rewrite Ht. apply elem_of_app. auto.
    + intros g Hg. apply Hw. rewrite Hh. now right.
  - intros g Hr. now destruct (linear_popped target _ _ _ _ _ Hpop Hr Hl) as (? & ? & _).
Qed.

(** ** The methods *)

Lemma exact_createFileCoverage this : exact this -> exact (createFileCoverage this).2.
Proof.
  intros Hex. unfold createFileCoverage. cbn [snd fst].
  apply (exact_spawn (mkTestCoverage (fileCoverage this) (newPromise (loop this)).2
                        (providerCalls this ++ [(newPromise (loop this)).1]) (returned this)));
    cbn [loop returned]; [now apply exact_call | rewrite newPromise_lookup; eauto | done | | done..].
  intros c Hc%(ex_cache _ Hex). rewrite newPromise_length. lia.
Qed.

Lemma retrying_getAllFiles this : retrying this -> retrying (getAllFiles this).2.
Proof.
  intros [Hex Hb]. destruct (fileCoverage this) as [c|] eqn:Hc.
  - rewrite (getAllFiles_cached _ _ Hc). split.
    + apply exact_spawn; [done | apply lookup_lt_is_Some, (ex_cache _ Hex), Hc | done | | |].
      * intros c' [= <-]. pose proof (ex_cache _ Hex _ Hc). lia.
      * now apply list_subseteq_app_l.
      * intros g [= <-]. apply elem_of_app. right. now left.
    + unfold bounded in *. rewrite Hc in Hb. cbn [snd providerCalls fileCoverage].
      etrans; [exact Hb|]. apply le_n_S, failures_mono; cbn; [|now apply prefix_app_r].
      etrans; [apply extends_newPromise | apply extends_await].
  - rewrite (getAllFiles_fresh_eq _ Hc).
    pose proof (exact_createFileCoverage _ Hex) as Hex1. split.
    + apply (exact_spawn (createFileCoverage this).2);
        [done | apply createFileCoverage_lookup | done | | |].
      * intros c' [= <-].
        exact (Nat.lt_lt_succ_r _ _ (proj1 (lookup_lt_is_Some _ _) (createFileCoverage_lookup this))).
      * now apply list_subseteq_app_l.
      * intros g [= <-]. apply elem_of_app. right. now left.
    + unfold bounded in *. rewrite Hc in Hb. cbn [snd providerCalls fileCoverage].
      rewrite length_app. cbn [length].
      match goal with |- (_ <= S (failures ?t))%nat =>
        assert (failures this <= failures t)%nat as Hf; [|lia] end.
      apply failures_mono; cbn; [|now apply prefix_app_r].
      unfold createFileCoverage. cbn.
      repeat first [apply extends_refl | etrans; [|apply extends_await]
                   | etrans; [|apply extends_newPromise]].
Qed.

Lemma getAllFiles_lookup this :
  is_Some (promises (loop (getAllFiles this).2) !! (getAllFiles this).1).
Proof.
  apply lookup_lt_is_Some. destruct (fileCoverage this) as [c|] eqn:Hc;
    [rewrite (getAllFiles_cached _ _ Hc) | rewrite (getAllFiles_fresh_eq _ Hc)];
    cbn [fst snd loop]; rewrite await_length, newPromise_length; unfold newPromise; cbn; lia.
Qed.

Lemma retrying_getUri uri this : retrying this -> retrying (getUri uri this).2.
Proof.
  intros [Hex Hb]%retrying_getAllFiles. unfold getUri. cbn [snd fst]. split.
  - apply exact_spawn; [done | apply getAllFiles_lookup | done | | done | done].
    intros c Hc%(ex_cache _ Hex). lia.
  - unfold bounded in *. cbn [set_loop providerCalls fileCoverage].
    etrans; [exact Hb|]. apply le_n_S, failures_mono; cbn; [|done].
    etrans; [apply extends_newPromise | apply extends_await].
Qed.

(** A state with another loop that keeps the outcomes is bounded. *)
Lemma bounded_set_loop this l :
  extends (loop this) l -> bounded this -> bounded (set_loop l this).
Proof.
  intros Hl Hb. unfold bounded in *. cbn [set_loop providerCalls fileCoverage].
  etrans; [exact Hb|]. now apply le_n_S, failures_mono.
Qed.

Lemma retrying_perform this a : retrying this -> retrying (perform this a).
Proof.
  intros Hr. destruct a as [|uri|p s|job]; cbn [perform].
  - now apply retrying_getAllFiles.
  - now apply retrying_getUri.
  - case_bool_decide as Hp; [|done]. destruct Hr as [Hex Hb]. split.
    + apply exact_settle; [done | apply (ex_calls _ Hex), Hp | auto].
    + apply bounded_set_loop; [apply extends_settle | done].
  - destruct Hr as [Hex Hb]. split; [now apply exact_enqueue|].
    apply bounded_set_loop; [apply extends_enqueue | done].
Qed.

(** A continuation settles its target. *)
Lemma retrying_settle this g s :
  retrying this -> g ∉ targets target (loop this) ->
  retrying (set_loop (settle g s (loop this)) this).
Proof.
  intros [Hex Hb] Hg. split; [apply exact_settle; auto|].
  apply bounded_set_loop; [apply extends_settle | done].
Qed.

(** The continuation of [getAllFiles] runs with a failure: the field is
    emptied, and a caller sees the failure. *)
Lemma retrying_reject this g e :
  retrying this -> g ∈ returned this -> isPending (loop this) g = true ->
  g ∉ targets target (loop this) ->
  retrying (mkTestCoverage None (settle g (Rejected e) (loop this)) (providerCalls this)
              (returned this)).
Proof.
  intros [Hex Hb] Hg Hp Ht. split; [apply exact_settle; auto|].
  pose proof (failures_reject this g e None Hg Hp) as Hf.
  unfold bounded in *. cbn [providerCalls fileCoverage]. destruct (fileCoverage this); lia.
Qed.

Lemma retrying_run this job l :
  retrying this -> pop (loop this) = Some (job, l) ->
  retrying (run job.1 job.2 (set_loop l this)).
Proof.
  intros [Hex Hb] Hpop. destruct job as [r s]. cbn [fst snd].
  destruct (exact_pop _ _ _ _ Hex Hpop) as [Hex0 Ht].
  assert (Hr0 : retrying (set_loop l this)).
  { split; [done|]. apply bounded_set_loop; [exact (extends_pop _ _ _ Hpop) | done]. }
  destruct r as [c|g|g uri|job].
  - destruct (Ht c eq_refl) as [_ Hc].
    destruct s as [[]|]; cbn [run]; try done; now apply retrying_settle.
  - destruct (Ht g eq_refl) as [Hp Hg]. destruct s as [v|e]; cbn [run].
    + now apply retrying_settle.
    + apply (retrying_reject (set_loop l this)); [done | | done | done].
      apply (ex_waits _ Hex). rewrite (held_pop _ _ _ _ Hpop). now left.
  - destruct (Ht g eq_refl) as [_ Hg].
    destruct s as [[]|]; cbn [run]; try done; now apply retrying_settle.
  - cbn [run]. apply (@job_invariant _ _ _ _ _ TestCoverage_machine retrying (fun _ => True)
                        (fun st a _ => retrying_perform st a)); [now apply Forall_forall | done].
Qed.

Lemma retrying_new : retrying (@TestCoverage_new CoverageDetails Failure).
Proof. split; [apply exact_new|]. unfold bounded. cbn. lia. Qed.

Lemma retrying_exec (trace : list (Label EnvAction)) this this' :
  retrying this -> exec trace this = Some this' -> retrying this'.
Proof.
  apply (@exec_invariant _ _ _ _ _ TestCoverage_machine retrying (fun _ => True)
           (fun st a _ => retrying_perform st a) retrying_run).
  apply Forall_forall. intros label _. apply allowed_True.
Qed.

(** C6: in every execution the provider is called at most once more than
    there are promises of [getAllFiles] that were rejected: the first call
    and one call for each failure that a caller saw.  While the field
    [fileCoverage] is empty, the call for the last failure is still to
    come. *)
Theorem provider_calls_bounded (trace : list (Label EnvAction)) this :
  exec trace TestCoverage_new = Some this ->
  (length (providerCalls this) <= S (failures this))%nat /\
  (fileCoverage this = None -> (length (providerCalls this) <= failures this)%nat).
Proof.
  intros Hexec. destruct (retrying_exec _ _ _ retrying_new Hexec) as [_ Hb].
  unfold bounded in Hb. split; [lia|]. intros Hc. rewrite Hc in Hb. lia.
Qed.

(** Every promise of a method is settled by one continuation, once: in
    every execution, the job of a continuation finds the promise that it
    settles pending, and no other continuation, waiting or queued, settles
    the same promise. *)
Theorem continuation_settles_once (trace : list (Label EnvAction)) this r s l g :
  exec trace TestCoverage_new = Some this ->
  pop (loop this) = Some ((r, s), l) -> target r = Some g ->
  isPending l g = true /\ g ∉ targets target l.
Proof.
  intros Hexec Hpop Hr. destruct (retrying_exec _ _ _ retrying_new Hexec) as [Hex _].
  now apply (exact_pop _ _ _ _ Hex Hpop).
Qed.

End Retry.

(** * Examples *)

(** The provider fails, the caller sees the failure, and the next call asks
    the provider again: two calls, one failure. *)
Definition example_retry_trace : list (Label (EnvAction unit string)) :=
  [ Task [CallGetAllFiles];
    Task [Settle 0 (Rejected "cancelled")];
    Tick; Tick;
    Task [CallGetAllFiles] ].

Definition example_retry : TestCoverage unit string :=
  default TestCoverage_new (exec example_retry_trace TestCoverage_new).

Example retry_calls :
  providerCalls example_retry = [0; 3]%nat /\ failures example_retry = 1%nat /\
  returned example_retry = [2; 5]%nat.
Proof. vm_compute. done. Qed.

Lemma provider_calls_bounded_witness :
  (length (providerCalls example_retry) <= S (failures example_retry))%nat /\
  (fileCoverage example_retry = None ->
   (length (providerCalls example_retry) <= failures example_retry)%nat).
Proof. apply (provider_calls_bounded example_retry_trace). vm_compute. reflexivity. Defined.

(** The job that runs after the answer of the provider in
    [Session.example_trace]: the continuation of [createFileCoverage], with
    its promise 1. *)
Definition example_job
  : Reaction unit string * Settled (Value unit) string * Loop (Value unit) string (Reaction unit string) :=
  default (KEnv [], Fulfilled VUndefined, emptyLoop) (pop (loop example_answered)).

Lemma continuation_settles_once_witness :
  example_job.1.1 = KCreate 1 /\
  isPending example_job.2 1 = true /\ 1%nat ∉ targets target example_job.2.
Proof.
  split; [reflexivity|].
  apply (continuation_settles_once (take 2 example_trace) example_answered
           example_job.1.1 example_job.1.2 example_job.2 1%nat); vm_compute; reflexivity.
Defined.
