(* ===== verification/Details.v ===== *)
(** * The details of a file

    The asynchronous method [details] of the class [FileCoverage] of
    testCoverage.ts ([src/unnamed/part_000], lines 332-353) and the
    constructor of the class.

    The field [_details] holds the details the file was created with, a
    promise of them that [accessor.resolveFileCoverage] returned, or
    nothing.  A call of [details] fills the field when it is empty, awaits
    what it holds and returns a promise; the rest of the method is the
    reaction [KDetails], which clears the field when the promise it awaited
    was rejected.  With [performDetails] and [runDetails] the object is a
    [Machine], as the coverage session is ([Session]).

    - [quietDetails] is the invariant of the executions in which the
      resolver does not fail: the resolver is called at most once, and every
      settled promise holds the details of the file.
    - [soundDetails] is the invariant of all executions: every pending
      promise that is not one of the resolver is the target of a reaction
      that waits or of a job.
    - [tracedDetails] is the invariant of all executions, failures
      included, of what the promises hold: the details the file was created
      with, or the outcome of a call of the resolver ([sourced]).
    - [workDetails] is the measure of the jobs that are left. *)

From S2P Require Import Prelude Counts PrefixTree Coverage Async Machine.

#[local] Set Warnings "-register-all".

Section Details.
Context {CoverageDetails Failure : Type}.

(** The field [_details] when it is defined: the details, or a promise of
    them. *)
Inductive DetailsCell : Type :=
| Resolved (details : list CoverageDetails)
| Resolving (p : nat).

Inductive DetailsAction : Type :=
| CallDetails
| SettleDetails (p : nat) (s : Settled (list CoverageDetails) Failure)
| ScheduleDetails (job : list DetailsAction).

Inductive DetailsReaction : Type :=
| KDetails (g : nat)                     (* details after its await *)
| KDetailsEnv (job : list DetailsAction).

(** A [FileCoverage] object: its index, its field [_details], the loop, the
    calls of [accessor.resolveFileCoverage] (file index and promise
    returned) and the promises that [details] has returned. *)
Record FileCoverageObject : Type := mkFileCoverageObject {
  d_index : nat;
  d_details : option DetailsCell;
  d_loop : Loop (list CoverageDetails) Failure DetailsReaction;
  resolverCalls : list (nat * nat);
  d_returned : list nat
}.

(** The object that [new FileCoverage(coverage, index, accessor)] creates. *)
Definition FileCoverageObject_new (f : FileCoverage CoverageDetails) : FileCoverageObject :=
  mkFileCoverageObject (index f) (Resolved <$> _details f) emptyLoop [] [].

Definition set_d_loop (l : Loop (list CoverageDetails) Failure DetailsReaction)
    (this : FileCoverageObject) : FileCoverageObject :=
  mkFileCoverageObject (d_index this) (d_details this) l (resolverCalls this) (d_returned this).

(** The call [this.details(token)], up to its [await]. *)
Definition details (this : FileCoverageObject) : nat * FileCoverageObject :=
  let this :=
    match d_details this with
    | Some _ => this
    | None =>
        let p := newPromise (d_loop this) in   (* accessor.resolveFileCoverage(this.index, token) *)
        mkFileCoverageObject (d_index this) (Some (Resolving p.1)) p.2
          (resolverCalls this ++ [(d_index this, p.1)]) (d_returned this)
    end in
  let g := newPromise (d_loop this) in
  let l := match d_details this with
           | Some (Resolving p) => await p (KDetails g.1) g.2
           | Some (Resolved d) => enqueue (KDetails g.1) (Fulfilled d) g.2
           | None => g.2
           end in
  (g.1, mkFileCoverageObject (d_index this) (d_details this) l (resolverCalls this)
          (d_returned this ++ [g.1])).

Definition performDetails (this : FileCoverageObject) (a : DetailsAction) : FileCoverageObject :=
  match a with
  | CallDetails => (details this).2
  | SettleDetails p s =>
      if bool_decide (p ∈ (resolverCalls this).*2) then set_d_loop (settle p s (d_loop this)) this
      else this
  | ScheduleDetails job =>
      set_d_loop (enqueue (KDetailsEnv job) (Fulfilled []) (d_loop this)) this
  end.

Definition runDetails (r : DetailsReaction) (s : Settled (list CoverageDetails) Failure)
    (this : FileCoverageObject) : FileCoverageObject :=
  match r, s with
  | KDetails g, Fulfilled d => set_d_loop (settle g (Fulfilled d) (d_loop this)) this
  | KDetails g, Rejected e =>
      mkFileCoverageObject (d_index this) None (settle g (Rejected e) (d_loop this))
        (resolverCalls this) (d_returned this)
  | KDetailsEnv job, _ => fold_left performDetails job this
  end.


#[global] Instance FileCoverage_machine
  : Machine FileCoverageObject DetailsAction DetailsReaction (list CoverageDetails) Failure :=
  {| machine_loop := d_loop;
     machine_set_loop := set_d_loop;
     machine_perform := performDetails;
     machine_run := runDetails |}.

(** The resolutions in flight: the calls of the resolver whose promise is
    pending. *)
Definition detailsInFlight (this : FileCoverageObject) : list nat :=
  pendingAmong (d_loop this) (resolverCalls this).*2.

Inductive noRejectDetails : DetailsAction -> Prop :=
| noRejectDetails_call : noRejectDetails CallDetails
| noRejectDetails_settle p d : noRejectDetails (SettleDetails p (Fulfilled d))
| noRejectDetails_schedule job :
    Forall noRejectDetails job -> noRejectDetails (ScheduleDetails job).

Definition quietDetailsReaction (r : DetailsReaction) : Prop :=
  match r with
  | KDetailsEnv job => Forall noRejectDetails job
  | KDetails _ => True
  end.

(** The outcome [s] is the details [o] of the file. *)
Definition answers (o : option (list CoverageDetails))
    (s : Settled (list CoverageDetails) Failure) : Prop :=
  exists d, s = Fulfilled d /\ o = Some d.

Definition okDetailsJob (o : option (list CoverageDetails)) (r : DetailsReaction)
    (s : Settled (list CoverageDetails) Failure) : Prop :=
  match r with
  | KDetails _ => answers o s
  | KDetailsEnv job => Forall noRejectDetails job
  end.

Definition okDetailsLoop (o : option (list CoverageDetails))
  : Loop (list CoverageDetails) Failure DetailsReaction -> Prop :=
  loopInv (fun _ => quietDetailsReaction) (fun _ => answers o) (okDetailsJob o).

(** The invariant of the executions without failure, for the details [o]
    of the file: every settled promise holds them; the resolver has been
    called at most once, with the index of the object, and not at all while
    the details are those the object was created with; the details are
    those the object was created with or the outcome of that call. *)
Record quietDetails (f : FileCoverage CoverageDetails) (o : option (list CoverageDetails))
    (this : FileCoverageObject) : Prop := {
  qd_loop : okDetailsLoop o (d_loop this);
  qd_index : d_index this = index f;
  qd_given : is_Some (_details f) -> exists d, d_details this = Some (Resolved d);
  qd_calls :
    match d_details this with
    | Some (Resolving p) => resolverCalls this = [(d_index this, p)]
    | _ => resolverCalls this = []
    end;
  qd_cell : forall d, d_details this = Some (Resolved d) -> o = Some d;
  qd_answer : forall d, o = Some d ->
    _details f = Some d \/
    exists p, p ∈ (resolverCalls this).*2 /\
              promises (d_loop this) !! p = Some (Done (Fulfilled d))
}.


(** ** Who wakes a caller, and the jobs that are left *)

(** The promise that a reaction settles. *)
Definition targetDetails (r : DetailsReaction) : option nat :=
  match r with
  | KDetails g => Some g
  | KDetailsEnv _ => None
  end.

(** The invariant of all executions: the promise of the field and the
    promises that [details] returned are promises of the loop, and every
    pending promise that is not one of the resolver is woken. *)
Record soundDetails (this : FileCoverageObject) : Prop := {
  sd_cell : forall p, d_details this = Some (Resolving p) ->
            (p < length (promises (d_loop this)))%nat;
  sd_returned : forall g, g ∈ d_returned this -> (g < length (promises (d_loop this)))%nat;
  sd_live : waking targetDetails (fun p => p ∈ (resolverCalls this).*2) (d_loop this)
}.

(** The reactions that an action of the environment can add. *)
Fixpoint sizeDetails (a : DetailsAction) : nat :=
  match a with
  | CallDetails => 1
  | SettleDetails _ _ => 0
  | ScheduleDetails job => S (sum_list_with sizeDetails job)
  end.

Definition detailsWeight (r : DetailsReaction) : nat :=
  match r with
  | KDetails _ => 1
  | KDetailsEnv job => S (sum_list_with sizeDetails job)
  end.

Definition workDetails (this : FileCoverageObject) : nat := weight detailsWeight (d_loop this).

(** ** Where an outcome comes from *)

(** The outcome [s] is the details that the file was created with, or the
    outcome of one of the calls [calls] of the resolver; [o] gives the
    outcomes of the settled promises. *)
Definition sourced (f : FileCoverage CoverageDetails) (calls : list nat)
    (o : nat -> option (Settled (list CoverageDetails) Failure))
    (s : Settled (list CoverageDetails) Failure) : Prop :=
  (exists d, _details f = Some d /\ s = Fulfilled d) \/
  (exists p, p ∈ calls /\ o p = Some s).

Definition sourcedJob (f : FileCoverage CoverageDetails) (calls : list nat)
    (o : nat -> option (Settled (list CoverageDetails) Failure))
    (r : DetailsReaction) (s : Settled (list CoverageDetails) Failure) : Prop :=
  match r with
  | KDetails _ => sourced f calls o s
  | KDetailsEnv _ => True
  end.

Definition sourcedLoop (f : FileCoverage CoverageDetails) (calls : list nat)
    (o : nat -> option (Settled (list CoverageDetails) Failure))
  : Loop (list CoverageDetails) Failure DetailsReaction -> Prop :=
  loopInv (fun _ _ => True) (fun _ => sourced f calls o) (sourcedJob f calls o).

(** The invariant of all executions, failures included: every outcome that
    the loop holds is sourced, the field holds the details of the file or a
    call of the resolver, and the promises that [details] returned are
    promises of the loop other than the calls of the resolver. *)
Record tracedDetails (f : FileCoverage CoverageDetails) (this : FileCoverageObject) : Prop := {
  td_loop : sourcedLoop f (resolverCalls this).*2 (outcome (d_loop this)) (d_loop this);
  td_cell :
    match d_details this with
    | Some (Resolved d) => _details f = Some d
    | Some (Resolving p) => p ∈ (resolverCalls this).*2
    | None => True
    end;
  td_calls : forall p, p ∈ (resolverCalls this).*2 -> (p < length (promises (d_loop this)))%nat;
  td_returned : forall g, g ∈ d_returned this ->
    (g < length (promises (d_loop this)))%nat /\ g ∉ (resolverCalls this).*2
}.

End Details.

Arguments DetailsCell : clear implicits.
Arguments DetailsAction : clear implicits.
Arguments DetailsReaction : clear implicits.
Arguments FileCoverageObject : clear implicits.

(** * Theorems *)

Section DetailsFacts.
Context {CoverageDetails Failure : Type}.
#[local] Abbreviation FileCoverageObject := (FileCoverageObject CoverageDetails Failure).
Implicit Types (this : FileCoverageObject).
Implicit Types (l : Loop (list CoverageDetails) Failure (DetailsReaction CoverageDetails Failure)).
Implicit Types (cell : option (DetailsCell CoverageDetails)).

Lemma answers_mono o o' (s : Settled (list CoverageDetails) Failure) :
  o = None \/ o' = o -> answers o s -> answers o' s.
Proof. intros [->| ->]; [|done]. now intros (d & _ & [=]). Qed.

Lemma okDetailsLoop_mono o o' (l : Loop (list CoverageDetails) Failure (DetailsReaction _ _)) :
  o = None \/ o' = o -> okDetailsLoop o l -> okDetailsLoop o' l.
Proof.
  intros Ho. apply loopInv_impl; [done | intros _ s; now apply answers_mono|].
  intros [g|job] s; cbn; [now apply answers_mono | done].
Qed.

Lemma okDetailsLoop_await o p g (l : Loop (list CoverageDetails) Failure (DetailsReaction _ _)) :
  okDetailsLoop o l -> okDetailsLoop o (await p (KDetails g) l).
Proof. now apply loopInv_await. Qed.

Lemma okDetailsLoop_settle o p d (l : Loop (list CoverageDetails) Failure (DetailsReaction _ _)) :
  o = Some d -> okDetailsLoop o l -> okDetailsLoop o (settle p (Fulfilled d) l).
Proof.
  intros Ho. apply loopInv_settle. intros _. split; [now exists d|].
  intros [g|job] Hr; cbn; [now exists d | done].
Qed.

Lemma quietDetails_new f :
  quietDetails f (_details f) (@FileCoverageObject_new CoverageDetails Failure f).
Proof.
  split; [exact (loopInv_empty _ _ _) | reflexivity | ..]; unfold FileCoverageObject_new; cbn.
  - intros [d ->]. cbn. eauto.
  - now destruct (_details f).
  - destruct (_details f); cbn; congruence.
  - auto.
Qed.

(** The loop of an object is replaced by one that keeps the settled
    promises. *)
Lemma quietDetails_set_d_loop f o l this :
  okDetailsLoop o l ->
  (forall p s, promises (d_loop this) !! p = Some (Done s) -> promises l !! p = Some (Done s)) ->
  quietDetails f o this -> quietDetails f o (set_d_loop l this).
Proof.
  intros Hl Hd [_ Hi Hg Hc Hr Ha]. split; try done. cbn.
  intros d [Hf|(p & Hp & Hd')]%Ha; eauto.
Qed.

Lemma quietDetails_details f o this : quietDetails f o this -> quietDetails f o (details this).2.
Proof.
  intros [Hl Hi Hg Hc Hr Ha]. unfold details.
  destruct (d_details this) as [[d|p]|] eqn:Hd; cbn; rewrite ?Hd; split; cbn; rewrite ?Hd;
    try assumption; try discriminate.
  - apply loopInv_enqueue; [exists d; auto | now apply loopInv_newPromise].
  - intros d' [Hf|(q & Hq & Hd')]%Ha; [auto|right]. exists q. split; [done|].
    now apply newPromise_lookup_old.
  - now apply okDetailsLoop_await, loopInv_newPromise.
  - intros d' [Hf|(q & Hq & Hd')]%Ha; [auto|right]. exists q. split; [done|].
    now apply await_done, newPromise_lookup_old.
  - now apply okDetailsLoop_await, loopInv_newPromise, loopInv_newPromise.
  - intros [d Hd']%Hg. discriminate.
  - now rewrite Hc.
  - intros d' [Hf|(q & Hq & Hd')]%Ha; [auto|right]. exists q.
    split; [rewrite fmap_app; apply elem_of_app; auto|].
    now apply await_done, newPromise_lookup_old, newPromise_lookup_old.
Qed.

(** The calls of the resolver that the invariant allows: none, or the one
    whose promise the field holds. *)
Lemma quietDetails_call f o this p :
  quietDetails f o this -> p ∈ (resolverCalls this).*2 ->
  d_details this = Some (Resolving p) /\ resolverCalls this = [(d_index this, p)].
Proof.
  intros Hq Hp. pose proof (qd_calls _ _ _ Hq) as Hc.
  destruct (d_details this) as [[d|q]|]; rewrite Hc in Hp |- *; cbn in Hp;
    try (now apply elem_of_nil in Hp).
  now apply list_elem_of_singleton in Hp as ->.
Qed.

(** The resolver answers: its promise, when it is pending, is settled with
    the details, which are the answer from then on. *)
Lemma quietDetails_settle f o p d this :
  p ∈ (resolverCalls this).*2 -> quietDetails f o this ->
  exists o', quietDetails f o' (set_d_loop (settle p (Fulfilled d) (d_loop this)) this).
Proof.
  intros Hp Hq. destruct (isPending (d_loop this) p) eqn:Hpending.
  - destruct (quietDetails_call _ _ _ _ Hq Hp) as [Hcell Hcalls].
    assert (o = None) as ->.
    { destruct o as [d'|]; [|done]. apply isPending_lookup in Hpending as [rs Hrs].
      destruct (qd_answer _ _ _ Hq d' eq_refl) as [Hf|(q & Hq' & Hd)].
      - destruct (qd_given _ _ _ Hq) as [d0 Hd0]; [now rewrite Hf | congruence].
      - rewrite Hcalls in Hq'. apply list_elem_of_singleton in Hq'. cbn in Hq'. congruence. }
    exists (Some d). destruct Hq as [Hl Hi Hg Hc Hr Ha]. split; cbn; try done.
    + apply okDetailsLoop_settle; [done|]. eapply okDetailsLoop_mono; [|exact Hl]. auto.
    + congruence.
    + intros ? [= <-]. right. exists p. split; [done|]. now apply settle_pending_lookup.
  - exists o. rewrite settle_not_pending by done.
    apply quietDetails_set_d_loop; [apply Hq | done | done].
Qed.

Lemma quietDetails_perform f o this a :
  noRejectDetails a -> quietDetails f o this -> exists o', quietDetails f o' (performDetails this a).
Proof.
  intros Ha Hq. destruct Ha as [|p d|job Hjob]; cbn.
  - exists o. now apply quietDetails_details.
  - case_bool_decide; [now apply (quietDetails_settle f o) | now exists o].
  - exists o. apply quietDetails_set_d_loop; [|done..].
    apply loopInv_enqueue; [assumption | apply Hq].
Qed.

Lemma quietDetails_job f job o this :
  Forall noRejectDetails job -> quietDetails f o this ->
  exists o', quietDetails f o' (fold_left performDetails job this).
Proof.
  intros Hjob. revert o this. induction Hjob as [|a job Ha _ IH]; intros o this Hq; cbn;
    [now exists o|]. destruct (quietDetails_perform f o this a Ha Hq) as [o' Hq']. eauto.
Qed.

Lemma quietDetails_run f o this job l :
  quietDetails f o this -> pop (d_loop this) = Some (job, l) ->
  exists o', quietDetails f o' (runDetails job.1 job.2 (set_d_loop l this)).
Proof.
  intros Hq Hpop. destruct job as [r s].
  destruct (loopInv_pop _ _ _ _ _ _ Hpop (qd_loop _ _ _ Hq)) as [Hj Hl].
  assert (Hq' : quietDetails f o (set_d_loop l this)).
  { apply quietDetails_set_d_loop; [done | now rewrite (pop_promises _ _ _ Hpop) | done]. }
  destruct r as [g|job]; cbn in Hj |- *; [|now apply (quietDetails_job f job o)].
  destruct Hj as (d & -> & Ho). exists o. cbn.
  apply (quietDetails_set_d_loop f o _ (set_d_loop l this)); [|intros q s; apply settle_done|done].
  now apply okDetailsLoop_settle.
Qed.

Lemma quietDetails_exec f (trace : list (Label (DetailsAction _ _))) o this this' :
  Forall (allowed noRejectDetails) trace -> quietDetails f o this ->
  exec trace this = Some this' -> exists o', quietDetails f o' this'.
Proof.
  intros Htrace Hq.
  apply (@exec_invariant _ _ _ _ _ FileCoverage_machine (fun st => exists o, quietDetails f o st)
           noRejectDetails); [| |done|eauto].
  - intros st a Ha [o1 H1]. now apply (quietDetails_perform f o1).
  - intros st job l [o1 H1]. now apply (quietDetails_run f o1).
Qed.

(** C16: as long as no call of the resolver fails, the details of a file are
    resolved at most once, however the calls of [details], the answer of the
    resolver and the jobs interleave; the resolver is asked for the file
    with the index of the object, which is 0 for every file of a tree
    ([Coverage.buildTree_index_zero]), and it is not asked at all for an
    object that was created with its details. *)
Theorem details_resolved_once f (trace : list (Label (DetailsAction _ _))) this :
  Forall (allowed noRejectDetails) trace ->
  exec trace (FileCoverageObject_new f) = Some this ->
  (resolverCalls this = [] \/ exists p, resolverCalls this = [(index f, p)]) /\
  (is_Some (_details f) -> resolverCalls this = []).
Proof.
  intros Htrace Hexec.
  destruct (quietDetails_exec f _ _ _ _ Htrace (quietDetails_new f) Hexec)
    as [o [_ Hi Hg Hc _ _]].
  split.
  - destruct (d_details this) as [[d|p]|]; rewrite <- Hi; eauto.
  - intros [d Hd]%Hg. now rewrite Hd in Hc.
Qed.

(** As long as no call of the resolver fails, all callers of [details]
    receive the same details: a settled promise of the object, one that
    [details] returned in particular, holds the details that the object was
    created with or, when it was created without, the details with which
    the resolver answered its one call. *)
Theorem details_shares_result f (trace : list (Label (DetailsAction _ _))) this g s :
  Forall (allowed noRejectDetails) trace ->
  exec trace (FileCoverageObject_new f) = Some this ->
  promises (d_loop this) !! g = Some (Done s) ->
  exists d, s = Fulfilled d /\
    (_details f = Some d \/
     exists p, resolverCalls this = [(index f, p)] /\
               promises (d_loop this) !! p = Some (Done (Fulfilled d))).
Proof.
  intros Htrace Hexec Hd.
  destruct (quietDetails_exec f _ _ _ _ Htrace (quietDetails_new f) Hexec) as [o Hq].
  destruct (li_done _ _ _ _ (qd_loop _ _ _ Hq) g s Hd) as (d & -> & Ho).
  exists d. split; [done|].
  destruct (qd_answer _ _ _ Hq d Ho) as [Hf|(p & Hp & Hd')]; [auto|right].
  destruct (quietDetails_call _ _ _ _ Hq Hp) as [_ Hcalls].
  exists p. now rewrite Hcalls, (qd_index _ _ _ Hq).
Qed.

(** C18: two resolutions of the details of one file can be in flight at once.
    A caller that awaits a resolution which has already failed clears the
    field when it resumes, whatever the field holds by then: in the trace
    below a resolution started in between is dropped from the field while
    its call of the resolver is pending, and the next call starts another. *)
Theorem two_resolutions_in_flight (f : FileCoverage CoverageDetails) (e : Failure) :
  _details f = None ->
  exists trace this,
    disciplined trace (FileCoverageObject_new f) = true /\
    exec trace (FileCoverageObject_new f) = Some this /\
    resolverCalls this = [(index f, 0); (index f, 3); (index f, 5)]%nat /\
    detailsInFlight this = [3; 5]%nat.
Proof.
  intros Hf.
  exists [ Task [CallDetails];
           Task [SettleDetails 0 (Rejected e); ScheduleDetails [CallDetails]; CallDetails];
           Tick; Tick; Tick;
           Task [CallDetails] ].
  unfold FileCoverageObject_new. rewrite Hf. cbn [fmap option_fmap option_map].
  eexists. split; [|split]; [vm_compute; reflexivity | vm_compute; reflexivity |].
  vm_compute. split; reflexivity.
Qed.

(** When the resolution has failed, the continuation of [details]
    clears the field and rejects the promise of its caller, and the next
    call of [details] calls the resolver again, with the same index. *)
Theorem details_failure_then_retry g e this :
  isPending (d_loop this) g = true ->
  let this' := runDetails (KDetails g) (Rejected e) this in
  d_details this' = None /\
  promises (d_loop this') !! g = Some (Done (Rejected e)) /\
  resolverCalls (details this').2 =
    resolverCalls this ++ [(d_index this, length (promises (d_loop this')))].
Proof.
  intros Hg. cbv zeta. cbn [runDetails]. split; [reflexivity|].
  split; [cbn; now apply settle_pending_lookup | reflexivity].
Qed.

(** ** Who wakes a caller *)

Lemma soundDetails_new f : soundDetails (@FileCoverageObject_new CoverageDetails Failure f).
Proof.
  split; unfold FileCoverageObject_new; cbn.
  - intros p. destruct (_details f); discriminate.
  - intros g Hg. now apply elem_of_nil in Hg.
  - apply waking_empty.
Qed.

(** The loop and the field of an object are replaced, the field by itself
    or by nothing. *)
Lemma soundDetails_loop this l cell :
  soundDetails this -> cell = d_details this \/ cell = None ->
  length (promises l) = length (promises (d_loop this)) ->
  waking targetDetails (fun p => p ∈ (resolverCalls this).*2) l ->
  soundDetails (mkFileCoverageObject (d_index this) cell l (resolverCalls this) (d_returned this)).
Proof.
  intros [Hc Hr Hl] Hcell Hlen Hw. split; cbn; rewrite ?Hlen; [|done..].
  intros p Hp. destruct Hcell as [->| ->]; [auto | discriminate].
Qed.

(** A call of the resolver: the field holds its promise. *)
Lemma soundDetails_resolve this :
  soundDetails this ->
  soundDetails (mkFileCoverageObject (d_index this) (Some (Resolving (newPromise (d_loop this)).1))
                  (newPromise (d_loop this)).2
                  (resolverCalls this ++ [(d_index this, (newPromise (d_loop this)).1)])
                  (d_returned this)).
Proof.
  intros [Hc Hr Hl]. split; cbn [d_details d_loop d_returned resolverCalls];
    rewrite ?newPromise_length.
  - intros p [= <-]. unfold newPromise. cbn. lia.
  - intros g Hg%Hr. lia.
  - rewrite fmap_app. apply waking_newRoot; [|apply elem_of_app; right; now left].
    eapply waking_weaken; [|exact Hl]. intros g Hg. apply elem_of_app. auto.
Qed.

(** The promise that [details] returns, with the reaction or the job that
    settles it. *)
Lemma soundDetails_return this l :
  soundDetails this ->
  length (promises l) = S (length (promises (d_loop this))) ->
  waking targetDetails (fun p => p ∈ (resolverCalls this).*2) l ->
  soundDetails (mkFileCoverageObject (d_index this) (d_details this) l (resolverCalls this)
                  (d_returned this ++ [(newPromise (d_loop this)).1])).
Proof.
  intros [Hc Hr Hl] Hlen Hw. split; cbn; rewrite ?Hlen; [| |done].
  - intros p Hp%Hc. lia.
  - intros g [Hg%Hr| ->%list_elem_of_singleton]%elem_of_app; [lia|]. unfold newPromise. cbn. lia.
Qed.

Lemma soundDetails_await this p :
  soundDetails this -> d_details this = Some (Resolving p) ->
  soundDetails (mkFileCoverageObject (d_index this) (d_details this)
                  (await p (KDetails (newPromise (d_loop this)).1) (newPromise (d_loop this)).2)
                  (resolverCalls this) (d_returned this ++ [(newPromise (d_loop this)).1])).
Proof.
  intros Hs Hd. apply soundDetails_return; [done | now rewrite await_length, newPromise_length|].
  apply waking_spawn; [apply Hs | apply lookup_lt_is_Some, (sd_cell _ Hs _ Hd) | done].
Qed.

Lemma soundDetails_details this : soundDetails this -> soundDetails (details this).2.
Proof.
  intros Hs. unfold details. destruct (d_details this) as [[d|p]|] eqn:Hd;
    cbn [snd d_details d_loop d_index resolverCalls d_returned]; rewrite ?Hd.
  - rewrite <- Hd. apply soundDetails_return;
      [done | now rewrite enqueue_promises, newPromise_length|].
    apply waking_spawn_job; [apply Hs | done].
  - rewrite <- Hd. now apply soundDetails_await.
  - exact (soundDetails_await _ _ (soundDetails_resolve _ Hs) eq_refl).
Qed.

Lemma soundDetails_perform this a : soundDetails this -> soundDetails (performDetails this a).
Proof.
  intros Hs. destruct a as [|p s|job]; cbn.
  - now apply soundDetails_details.
  - case_bool_decide; [|done]. apply soundDetails_loop; [done | auto | apply settle_length|].
    apply waking_settle, Hs.
  - apply soundDetails_loop; [done | auto | done|]. apply waking_enqueue, Hs.
Qed.

Lemma soundDetails_run this job l :
  soundDetails this -> pop (d_loop this) = Some (job, l) ->
  soundDetails (runDetails job.1 job.2 (set_d_loop l this)).
Proof.
  intros Hs Hpop. pose proof (f_equal length (pop_promises _ _ _ Hpop)) as Hlen.
  destruct job as [[g|job] s]; cbn [fst snd runDetails].
  - destruct s as [d|e]; (apply (soundDetails_loop this); [done | auto | now rewrite settle_length|]);
      exact (waking_resume targetDetails _ _ _ _ _ _ _ Hpop eq_refl (sd_live _ Hs)).
  - apply (@job_invariant _ _ _ _ _ FileCoverage_machine soundDetails (fun _ => True)
             (fun st a _ => soundDetails_perform st a)); [now apply Forall_forall|].
    apply (soundDetails_loop this l (d_details this)); [done | auto | done|].
    exact (waking_pop targetDetails _ _ _ _ _ Hpop eq_refl (sd_live _ Hs)).
Qed.

Lemma soundDetails_exec (trace : list (Label (DetailsAction _ _))) this this' :
  soundDetails this -> exec trace this = Some this' -> soundDetails this'.
Proof.
  apply (@exec_invariant _ _ _ _ _ FileCoverage_machine soundDetails (fun _ => True)
           (fun st a _ => soundDetails_perform st a) soundDetails_run).
  apply Forall_forall. auto using allowed_True.
Qed.

(** ** The jobs that are left *)

Lemma workDetails_details this : (workDetails (details this).2 <= workDetails this + 1)%nat.
Proof.
  unfold details, workDetails. destruct (d_details this) as [[d|p]|] eqn:Hd; cbn; rewrite ?Hd.
  - now rewrite weight_enqueue, weight_newPromise.
  - etrans; [apply weight_await|]. now rewrite weight_newPromise.
  - etrans; [apply weight_await|]. now rewrite !weight_newPromise.
Qed.

Lemma workDetails_perform this a :
  (workDetails (performDetails this a) <= workDetails this + sizeDetails a)%nat.
Proof.
  destruct a as [|p s|job]; cbn [performDetails sizeDetails].
  - apply workDetails_details.
  - case_bool_decide; [|lia]. unfold workDetails. cbn. rewrite weight_settle. lia.
  - unfold workDetails. cbn [set_d_loop d_loop]. now rewrite weight_enqueue.
Qed.

Lemma workDetails_job job this :
  (workDetails (fold_left performDetails job this)
   <= workDetails this + sum_list_with sizeDetails job)%nat.
Proof.
  revert this. induction job as [|a job IH]; intros this; cbn; [lia|].
  etrans; [apply IH|]. pose proof (workDetails_perform this a). lia.
Qed.

(** A job that runs lowers the work that is left. *)
Lemma workDetails_run this r s l :
  pop (d_loop this) = Some ((r, s), l) ->
  (workDetails (runDetails r s (set_d_loop l this)) < workDetails this)%nat.
Proof.
  intros Hpop. unfold workDetails at 2. rewrite (weight_pop _ _ _ _ Hpop). cbn [fst].
  change (weight detailsWeight l) with (workDetails (set_d_loop l this)).
  destruct r as [g|job]; cbn [runDetails detailsWeight].
  - destruct s; unfold workDetails; cbn; rewrite weight_settle; lia.
  - pose proof (workDetails_job job (set_d_loop l this)). lia.
Qed.

Lemma drain_workDetails this : pop (d_loop (drain (workDetails this) this)) = None.
Proof.
  apply (@drain_spec _ _ _ _ _ FileCoverage_machine workDetails); [|done].
  intros st [r s] l Hpop. now apply workDetails_run.
Qed.

(** Nobody waits for the details for ever.  In every execution, once
    the jobs have run and the resolver has answered every call, every promise
    that [details] returned is settled: every caller is resumed, with the
    details or with the error. *)
Theorem details_callers_settled f (trace : list (Label (DetailsAction _ _))) this g :
  exec trace (FileCoverageObject_new f) = Some this ->
  detailsInFlight (drain (workDetails this) this) = [] ->
  g ∈ d_returned (drain (workDetails this) this) ->
  exists s, promises (d_loop (drain (workDetails this) this)) !! g = Some (Done s).
Proof.
  intros Hexec Hroot Hg. destruct (drain_exec (workDetails this) this) as (n & _ & Hdrain).
  pose proof (soundDetails_exec _ _ _ (soundDetails_exec _ _ _ (soundDetails_new f) Hexec) Hdrain)
    as [_ Hr Hl].
  unfold detailsInFlight in Hroot. rewrite pendingAmong_nil in Hroot.
  destruct (lookup_lt_is_Some_2 _ _ (Hr g Hg)) as [[rs|s] Hp]; [|eauto].
  pose proof (quiescent_settled targetDetails _ _ Hl (proj1 (pop_None _) (drain_workDetails this))
                Hroot g) as Hn.
  unfold isPending in Hn. now rewrite Hp in Hn.
Qed.

(** From every state of the object, the jobs run out: at most
    [workDetails this] ticks empty the queue. *)
Theorem details_drain_terminates this :
  exists n, (n <= workDetails this)%nat /\
    exec (repeat Tick n) this = Some (drain (workDetails this) this) /\
    queue (d_loop (drain (workDetails this) this)) = [].
Proof.
  destruct (drain_exec (workDetails this) this) as (n & Hn & Hexec).
  exists n. split; [done|]. split; [done|]. apply pop_None, drain_workDetails.
Qed.

(** ** Where the details come from *)

Lemma sourced_mono f calls calls' o o' (s : Settled (list CoverageDetails) Failure) :
  calls ⊆ calls' -> (forall q s', o q = Some s' -> o' q = Some s') ->
  sourced f calls o s -> sourced f calls' o' s.
Proof. intros Hc Ho [?|(p & Hp & Hs)]; [now left | right; exists p; auto]. Qed.

(** From a loop to a later one, with more calls of the resolver. *)
Lemma sourcedLoop_step f calls calls' l l' :
  calls ⊆ calls' -> extends l l' ->
  (sourcedLoop f calls' (outcome l') l -> sourcedLoop f calls' (outcome l') l') ->
  sourcedLoop f calls (outcome l) l -> sourcedLoop f calls' (outcome l') l'.
Proof.
  intros Hc Hl Hstep H. apply Hstep. revert H.
  apply loopInv_impl; [done | intros _ s; now apply sourced_mono|].
  intros [g|job] s; cbn; [now apply sourced_mono | done].
Qed.

Lemma sourcedLoop_settle f calls o p s l :
  (isPending l p = true -> sourced f calls o s) ->
  sourcedLoop f calls o l -> sourcedLoop f calls o (settle p s l).
Proof. intros Hs. apply loopInv_settle. intros Hp%Hs. split; [done|]. now intros [g|job] _. Qed.

Lemma sourcedLoop_await f calls o p g l :
  sourcedLoop f calls o l -> sourcedLoop f calls o (await p (KDetails g) l).
Proof. now apply loopInv_await. Qed.

Lemma tracedDetails_new f : tracedDetails f (@FileCoverageObject_new CoverageDetails Failure f).
Proof.
  split; unfold FileCoverageObject_new; cbn.
  - apply loopInv_empty.
  - now destruct (_details f).
  - intros p Hp. now apply elem_of_nil in Hp.
  - intros g Hg. now apply elem_of_nil in Hg.
Qed.

(** The loop and the field of an object are replaced, the field by itself
    or by nothing. *)
Lemma tracedDetails_loop f this l cell :
  tracedDetails f this -> cell = d_details this \/ cell = None ->
  length (promises l) = length (promises (d_loop this)) ->
  sourcedLoop f (resolverCalls this).*2 (outcome l) l ->
  tracedDetails f (mkFileCoverageObject (d_index this) cell l (resolverCalls this)
                     (d_returned this)).
Proof.
  intros [Hl Hc Hp Hr] Hcell Hlen Hl'. split; cbn; rewrite ?Hlen; [done| |done..].
  now destruct Hcell as [->| ->].
Qed.

(** A call of the resolver: the field holds its promise. *)
Lemma tracedDetails_resolve f this :
  tracedDetails f this ->
  tracedDetails f (mkFileCoverageObject (d_index this)
                     (Some (Resolving (newPromise (d_loop this)).1))
                     (newPromise (d_loop this)).2
                     (resolverCalls this ++ [(d_index this, (newPromise (d_loop this)).1)])
                     (d_returned this)).
Proof.
  intros [Hl Hc Hp Hr]. split; cbn [d_details d_loop d_returned resolverCalls];
    rewrite ?fmap_app, ?newPromise_length; cbn [fmap list_fmap snd].
  - eapply sourcedLoop_step; [|apply extends_newPromise|apply loopInv_newPromise|exact Hl].
    now apply list_subseteq_app_l.
  - apply elem_of_app. right. now left.
  - intros p [Hp'%Hp| ->%list_elem_of_singleton]%elem_of_app; unfold newPromise; cbn; lia.
  - intros g Hg. destruct (Hr g Hg) as [Hlt Hg']. split; [lia|].
    intros [?| ->%list_elem_of_singleton]%elem_of_app; [done|].
    unfold newPromise in Hlt. cbn in Hlt. lia.
Qed.

(** The promise that [details] returns, with the reaction or the job that
    settles it. *)
Lemma tracedDetails_return f this l :
  tracedDetails f this ->
  length (promises l) = S (length (promises (d_loop this))) ->
  sourcedLoop f (resolverCalls this).*2 (outcome l) l ->
  tracedDetails f (mkFileCoverageObject (d_index this) (d_details this) l (resolverCalls this)
                     (d_returned this ++ [(newPromise (d_loop this)).1])).
Proof.
  intros [Hl Hc Hp Hr] Hlen Hl'. split; cbn; rewrite ?Hlen; [done..| |].
  - intros p Hp'%Hp. lia.
  - intros g [Hg| ->%list_elem_of_singleton]%elem_of_app.
    + destruct (Hr g Hg). split; [lia | done].
    + unfold newPromise. cbn. split; [lia|]. intros Hg%Hp. lia.
Qed.

Lemma tracedDetails_details f this : tracedDetails f this -> tracedDetails f (details this).2.
Proof.
  assert (Hawait : forall this p, tracedDetails f this -> d_details this = Some (Resolving p) ->
    tracedDetails f (mkFileCoverageObject (d_index this) (d_details this)
      (await p (KDetails (newPromise (d_loop this)).1) (newPromise (d_loop this)).2)
      (resolverCalls this) (d_returned this ++ [(newPromise (d_loop this)).1]))).
  { intros this' p Ht Hd. apply tracedDetails_return;
      [done | now rewrite await_length, newPromise_length|].
    eapply sourcedLoop_step; [done | | | apply Ht].
    - etrans; [apply extends_newPromise | apply extends_await].
    - intros H. now apply sourcedLoop_await, loopInv_newPromise. }
  intros Ht. unfold details. destruct (d_details this) as [[d|p]|] eqn:Hd;
    cbn [snd d_details d_loop d_index resolverCalls d_returned]; rewrite ?Hd.
  - rewrite <- Hd. apply tracedDetails_return;
      [done | now rewrite enqueue_promises, newPromise_length|].
    eapply sourcedLoop_step; [done | | | apply Ht].
    + etrans; [apply extends_newPromise | apply extends_enqueue].
    + intros H. apply loopInv_enqueue, loopInv_newPromise; [|done]. left. exists d.
      pose proof (td_cell _ _ Ht) as Hc. now rewrite Hd in Hc.
  - rewrite <- Hd. now apply Hawait.
  - exact (Hawait _ _ (tracedDetails_resolve _ _ Ht) eq_refl).
Qed.

Lemma tracedDetails_perform f this a :
  tracedDetails f this -> tracedDetails f (performDetails this a).
Proof.
  intros Ht. destruct a as [|p s|job]; cbn.
  - now apply tracedDetails_details.
  - case_bool_decide as Hp; [|done].
    apply tracedDetails_loop; [done | auto | apply settle_length|].
    eapply sourcedLoop_step; [done | apply extends_settle | | apply Ht].
    apply sourcedLoop_settle. intros Hpending. right. exists p. split; [done|].
    now apply outcome_settle.
  - apply tracedDetails_loop; [done | auto | done|].
    eapply sourcedLoop_step; [done | apply extends_enqueue | | apply Ht].
    now apply loopInv_enqueue.
Qed.

Lemma tracedDetails_run f this job l :
  tracedDetails f this -> pop (d_loop this) = Some (job, l) ->
  tracedDetails f (runDetails job.1 job.2 (set_d_loop l this)).
Proof.
  intros Ht Hpop. pose proof (f_equal length (pop_promises _ _ _ Hpop)) as Hlen.
  destruct job as [[g|job] s]; cbn [fst snd runDetails].
  - destruct s as [d|e];
      (apply (tracedDetails_loop f this); [done | auto | now rewrite settle_length|]);
      (eapply sourcedLoop_step;
         [done | etrans; [exact (extends_pop _ _ _ Hpop) | apply extends_settle] | | apply Ht]);
      intros [Hj H]%(loopInv_pop _ _ _ _ _ _ Hpop); now apply sourcedLoop_settle.
  - apply (@job_invariant _ _ _ _ _ FileCoverage_machine (tracedDetails f) (fun _ => True)
             (fun st a _ => tracedDetails_perform f st a)); [now apply Forall_forall|].
    apply (tracedDetails_loop f this l (d_details this)); [done | auto | done|].
    eapply sourcedLoop_step; [done | exact (extends_pop _ _ _ Hpop) | | apply Ht].
    now intros [_ H]%(loopInv_pop _ _ _ _ _ _ Hpop).
Qed.

Lemma tracedDetails_exec f (trace : list (Label (DetailsAction _ _))) this this' :
  tracedDetails f this -> exec trace this = Some this' -> tracedDetails f this'.
Proof.
  apply (@exec_invariant _ _ _ _ _ FileCoverage_machine (tracedDetails f) (fun _ => True)
           (fun st a _ => tracedDetails_perform f st a) (tracedDetails_run f)).
  apply Forall_forall. intros label _. apply allowed_True.
Qed.

(** C17: in every execution, whatever fails, a settled promise that [details]
    has returned holds the details that the file was created with or the
    outcome of a call of the resolver of this object, the details it
    answered with or the error with which it failed: no caller receives
    other details, or an error that the resolver did not raise. *)
Theorem details_outcome f (trace : list (Label (DetailsAction _ _))) this g s :
  exec trace (FileCoverageObject_new f) = Some this ->
  g ∈ d_returned this ->
  promises (d_loop this) !! g = Some (Done s) ->
  (exists d, _details f = Some d /\ s = Fulfilled d) \/
  (exists p, p ∈ (resolverCalls this).*2 /\ p <> g /\
             promises (d_loop this) !! p = Some (Done s)).
Proof.
  intros Hexec Hg Hd.
  pose proof (tracedDetails_exec f _ _ _ (tracedDetails_new f) Hexec) as Ht.
  destruct (li_done _ _ _ _ (td_loop _ _ Ht) g s Hd) as [?|(p & Hp & Hs)]; [now left|].
  right. exists p. split; [done|]. split; [|now apply outcome_Some].
  intros ->. now destruct (td_returned _ _ Ht g Hg).
Qed.

End DetailsFacts.

(** * Examples *)

(** The leaf of [file:///a/b/y] in the tree of the example: the second file
    of the provider, created with index 0 and without details. *)
Definition example_leaf : FileCoverage unit :=
  FileCoverage_new (mkIFileCoverage (mkURI "file" "" "/a/b/y") (mkCount 3 4) None None None) 0.

(** Three calls of [details] before the resolver answers. *)
Definition example_details_trace : list (Label (DetailsAction unit string)) :=
  [ Task [CallDetails; CallDetails; CallDetails];
    Task [SettleDetails 0 (Fulfilled [tt])];
    Tick; Tick; Tick ].

Definition example_object : FileCoverageObject unit string :=
  default (FileCoverageObject_new example_leaf)
    (exec example_details_trace (FileCoverageObject_new example_leaf)).

(** One call of the resolver, for file 0, and the three promises hold the
    details. *)
Example details_shares :
  resolverCalls example_object = [(0, 0)]%nat /\
  Forall (fun g => promises (d_loop example_object) !! g = Some (Done (Fulfilled [tt])))
    (d_returned example_object).
Proof. vm_compute. repeat split; repeat constructor. Qed.

Lemma details_shares_result_witness :
  exists d, Fulfilled [tt] = (Fulfilled d : Settled (list unit) string) /\
    (_details example_leaf = Some d \/
     exists p, resolverCalls example_object = [(index example_leaf, p)] /\
               promises (d_loop example_object) !! p = Some (Done (Fulfilled d))).
Proof.
  apply (details_shares_result example_leaf example_details_trace example_object 1%nat).
  - repeat constructor.
  - vm_compute. reflexivity.
  - vm_compute. reflexivity.
Defined.

Lemma details_resolved_once_witness :
  (resolverCalls example_object = [] \/
   exists p, resolverCalls example_object = [(index example_leaf, p)]) /\
  (is_Some (_details example_leaf) -> resolverCalls example_object = []).
Proof.
  apply (details_resolved_once example_leaf example_details_trace).
  - repeat constructor.
  - vm_compute. reflexivity.
Defined.

Lemma two_resolutions_in_flight_witness :
  exists trace (this : FileCoverageObject unit string),
    disciplined trace (FileCoverageObject_new example_leaf) = true /\
    exec trace (FileCoverageObject_new example_leaf) = Some this /\
    resolverCalls this = [(index example_leaf, 0); (index example_leaf, 3);
                          (index example_leaf, 5)]%nat /\
    detailsInFlight this = [3; 5]%nat.
Proof. apply (two_resolutions_in_flight example_leaf "cancelled"). reflexivity. Defined.

Definition example_details_failed : FileCoverageObject unit string :=
  default (FileCoverageObject_new example_leaf)
    (exec [Task [CallDetails]; Task [SettleDetails 0 (Rejected "cancelled")]]
       (FileCoverageObject_new example_leaf)).

Lemma details_failure_then_retry_witness :
  let this' := runDetails (KDetails 1) (Rejected "cancelled") example_details_failed in
  d_details this' = None /\
  promises (d_loop this') !! 1%nat = Some (Done (Rejected "cancelled")) /\
  resolverCalls (details this').2 = [(0, 0); (0, 2)]%nat.
Proof.
  apply (details_failure_then_retry 1 "cancelled" example_details_failed).
  vm_compute. reflexivity.
Defined.

(** After the answer of the resolver, the jobs settle the callers. *)
Definition example_details_answered : FileCoverageObject unit string :=
  default (FileCoverageObject_new example_leaf)
    (exec (take 2 example_details_trace) (FileCoverageObject_new example_leaf)).

Lemma details_callers_settled_witness :
  exists s,
    promises (d_loop (drain (workDetails example_details_answered) example_details_answered))
      !! 2%nat = Some (Done s).
Proof.
  apply (details_callers_settled example_leaf (take 2 example_details_trace)
           example_details_answered 2%nat).
  - vm_compute. reflexivity.
  - vm_compute. reflexivity.
  - vm_compute. repeat constructor.
Defined.

(** The resolver fails: the caller receives its error. *)
Definition example_details_rejected : FileCoverageObject unit string :=
  default (FileCoverageObject_new example_leaf)
    (exec [Task [CallDetails]; Task [SettleDetails 0 (Rejected "cancelled")]; Tick]
       (FileCoverageObject_new example_leaf)).

Lemma details_outcome_witness :
  (exists d, _details example_leaf = Some d /\ Rejected "cancelled" = Fulfilled d) \/
  (exists p, p ∈ (resolverCalls example_details_rejected).*2 /\ p <> 1%nat /\
             promises (d_loop example_details_rejected) !! p =
               Some (Done (Rejected "cancelled"))).
Proof.
  apply (details_outcome example_leaf
           [Task [CallDetails]; Task [SettleDetails 0 (Rejected "cancelled")]; Tick]
           example_details_rejected 1%nat (Rejected "cancelled")).
  - vm_compute. reflexivity.
  - vm_compute. repeat constructor.
  - vm_compute. reflexivity.
Defined.
