(* ===== verification/Bars.v ===== *)
(** * The coverage bars

    The presentation widget of testCoverageBars.ts ([src/unnamed/part_000],
    lines 1-188), which consumes the nodes of the coverage model.

    - [percent], [precision], [epsilon], [colorThresholds], [renderBar],
      [calculateDisplayedStat], [displayPercent] and the four hover texts are
      the module-level constants and functions of the file (lines 26-30 and
      137-188).
    - [AbstractTestCoverageBars] is the class (lines 32-135): its fields are
      the fields of the record, [el_value] is the lazy [el], [render] the
      closure of [setCoverageInfo], [setCoverageInfo] the method,
      [onDidChangeConfiguration] what the listeners it registers do when the
      configuration changes, [onmouseenter] the handler [attachHover]
      installs.

    DOM elements are reduced to what the code writes: the text of the
    [overall] element and, for a bar, its [display], its [--width] (the
    number before the percent sign) and its colour.  [toFixed] is the
    built-in of the language, modelled from its definition on exact
    rationals.  A hover text is the call of [localize] that produces it,
    with its key, its message and its arguments; [localizedText] is the
    text that the call returns, by the formatting of vs/nls, which is not
    part of the sources.

    The quotients are exact rationals, where the program divides doubles:
    the theorems on [percent], [calculateDisplayedStat] and
    [displayPercent] are theorems of the exact arithmetic.  The display
    method is one of the three values of its enumeration, so that the
    default case of [calculateDisplayedStat] ([assertNever]) has no
    counterpart. *)

From S2P Require Import Prelude Counts Coverage.
From Stdlib Require Import Qround Qminmax DecimalString.

(** * Numbers and their display *)

(** [a < b] on rationals, as a boolean. *)
Definition Qltb (a b : Q) : bool := negb (Qle_bool b a).

Definition percent (cc : ICoveredCount) : Q :=
  if total cc =? 0 then 1%Q else (inject_Z (covered cc) / inject_Z (total cc))%Q.

Definition precision : nat := 2.

(** [10e-8], that is [10^-7]. *)
Definition epsilon : Q := 1 # 10000000.

(** ** [Number.prototype.toFixed] *)

(** Whether a character occurs in a string. *)
Fixpoint mem_char (c : ascii) (s : string) : bool :=
  match s with
  | EmptyString => false
  | String a s => Ascii.eqb a c || mem_char c s
  end.

(** The decimal digits of a natural number. *)
Definition digits (n : Z) : string := NilZero.string_of_uint (N.to_uint (Z.to_N n)).

Definition zeros (k : nat) : string := String.concat "" (repeat "0" k).

(** The integer [n] for which [n / 10^f - x] is closest to zero, the larger
    one when there are two. *)
Definition roundScaled (f : nat) (x : Q) : Z :=
  Qfloor (x * inject_Z (10 ^ Z.of_nat f) + (1 # 2)).

(** The digits of [n] with a decimal point before the last [f] of them,
    padded with zeros on the left to [f + 1] digits. *)
Definition formatFixed (f : nat) (n : Z) : string :=
  let m := digits n in
  if (f =? 0)%nat then m
  else
    let k := String.length m in
    let '(m, k) := if (k <=? f)%nat then (zeros (f + 1 - k) +:+ m, (f + 1)%nat) else (m, k) in
    substring 0 (k - f) m +:+ "." +:+ substring (k - f) f m.

(** [x.toFixed(f)] for a finite [x] below [10^21]. *)
Definition toFixed (f : nat) (x : Q) : string :=
  if Qltb x 0 then "-" +:+ formatFixed f (roundScaled f (- x))
  else formatFixed f (roundScaled f x).

Definition displayPercent (value : Q) : string :=
  let display := toFixed precision (value * 100) in
  if Qltb value (1 - epsilon) && String.eqb display "100" then "99.99%"
  else display +:+ "%".

(** * Bars *)

Inductive Color : Type := chartsGreen | chartsYellow | chartsRed.

#[export] Instance Color_eq_dec : EqDecision Color.
Proof. solve_decision. Defined.

(** A threshold is a number or [-Infinity] ([None]). *)
Record ColorThreshold : Type := mkThreshold { color : Color; threshold : option Q }.

Definition colorThresholds : list ColorThreshold :=
  [ mkThreshold chartsGreen (Some (9 # 10));
    mkThreshold chartsYellow (Some (8 # 10));
    mkThreshold chartsRed None ].

(** [pct >= t.threshold] *)
Definition meets (pct : Q) (t : ColorThreshold) : bool :=
  match threshold t with
  | Some q => Qle_bool q pct
  | None => true
  end.

(** What the code writes of the style of a bar. *)
Record Style : Type := mkStyle {
  display : string;
  width : option Q;
  style_color : option Color
}.

Definition noStyle : Style := mkStyle "" None None.

Inductive JsError : Type := TypeError.

#[export] Instance JsError_eq_dec : EqDecision JsError.
Proof. solve_decision. Defined.

(** [colorThresholds.find(...)!.color] throws when nothing is found. *)
Definition renderBar (bar : Style) (pct : option Q) : result JsError Style :=
  match pct with
  | None => Ok (mkStyle "none" (width bar) (style_color bar))
  | Some pct =>
      match List.find (meets pct) colorThresholds with
      | Some t => Ok (mkStyle "block" (Some (pct * 100)%Q) (Some (color t)))
      | None => Err TypeError
      end
  end.

(** * The displayed statistic *)

Inductive TestingDisplayedCoveragePercent : Type := TotalCoverage | Statement | Minimum.

Definition calculateDisplayedStat (coverage : AbstractFileCoverage)
    (method : TestingDisplayedCoveragePercent) : Q :=
  match method with
  | Statement => percent (statement coverage)
  | Minimum =>
      let value := percent (statement coverage) in
      let value := match branch coverage with
                   | Some b => Qmin value (percent b)
                   | None => value
                   end in
      let value := match function coverage with
                   | Some f => Qmin value (percent f)
                   | None => value
                   end in
      value
  | TotalCoverage => tpc coverage
  end.

(** * Hover texts *)

(** A call of [localize]. *)
Record Localized : Type := localize {
  loc_key : string;
  loc_message : string;
  loc_args : list string
}.

Definition stmtCoverageText (coverage : AbstractFileCoverage) : Localized :=
  localize "statementCoverage" "{} statement coverage"
    [displayPercent (percent (statement coverage))].

Definition fnCoverageText (coverage : AbstractFileCoverage) : option Localized :=
  f ← function coverage;
  Some (localize "functionCoverage" "{} function coverage" [displayPercent (percent f)]).

Definition branchCoverageText (coverage : AbstractFileCoverage) : option Localized :=
  b ← branch coverage;
  Some (localize "branchCoverage" "{} branch coverage" [displayPercent (percent b)]).

(** The lines of the markdown string, before they are joined. *)
Definition getOverallHoverText (coverage : AbstractFileCoverage) : list Localized :=
  omap id [Some (stmtCoverageText coverage); fnCoverageText coverage; branchCoverageText coverage].

(** ** The text that [localize] returns

    [localize] of vs/nls returns its message with the placeholders replaced
    by its arguments, and the message itself when it has no arguments.  A
    placeholder is an opening brace, one digit or more and a closing brace,
    and stands for the argument whose index is its first digit; an argument
    that is missing is printed as [undefined]. *)

Definition isDigit (c : ascii) : bool :=
  ((48 <=? nat_of_ascii c) && (nat_of_ascii c <=? 57))%nat.

(** The argument that the digits of a placeholder stand for. *)
Definition argument (args : list string) (digits : string) : string :=
  match digits with
  | String d _ => default "undefined" (args !! (nat_of_ascii d - 48)%nat)
  | EmptyString => ""
  end.

(** The replacement of the placeholders from left to right; [pending] holds
    the digits read after an opening brace that may start a placeholder. *)
Fixpoint format_from (args : list string) (pending : option string) (message : string)
  : string :=
  let outside c rest :=
    if Ascii.eqb c "{" then format_from args (Some "") rest
    else String c (format_from args None rest) in
  match message with
  | EmptyString =>
      match pending with
      | Some digits => "{" +:+ digits
      | None => ""
      end
  | String c rest =>
      match pending with
      | Some digits =>
          if isDigit c then format_from args (Some (digits +:+ String c "")) rest
          else if Ascii.eqb c "}" && negb (String.eqb digits "")
          then argument args digits +:+ format_from args None rest
          else "{" +:+ digits +:+ outside c rest
      | None => outside c rest
      end
  end.

Definition format (message : string) (args : list string) : string :=
  match args with
  | [] => message
  | _ => format_from args None message
  end.

Definition localizedText (text : Localized) : string :=
  format (loc_message text) (loc_args text).

(** * The widget *)

(** The elements that [h] creates: the compact layout has one bar, the
    other one three. *)
Inductive Elements : Type :=
| CompactEl (overall : string) (tpcBar : Style)
| FullEl (overall : string) (statementBar methodBar branchBar : Style).

Inductive HoverContent : Type :=
| Text (text : Localized)
| Markdown (lines : list Localized).

(** What [visibleStore] holds: a configuration listener (the closure
    [render] of the call that registered it, which has captured the
    [coverage] of that call), the removal of the root element from the
    container, a hover. *)
Inductive Disposable : Type :=
| ConfigListener (coverage : option AbstractFileCoverage)
| RemoveRoot
| Hover (content : HoverContent).

Record AbstractTestCoverageBars : Type := mkBars {
  compact : bool;                      (* options.compact *)
  _coverage : option AbstractFileCoverage;
  el : option Elements;                (* the lazy value, once forced *)
  visibleStore : list Disposable;
  attached : bool;                     (* the root is a child of options.container *)
  fired : nat                          (* how often changeEmitter has fired *)
}.

(** The constructor. *)
Definition AbstractTestCoverageBars_new (compact : bool) : AbstractTestCoverageBars :=
  mkBars compact None None [] false 0.

Definition set_el (e : Elements) (this : AbstractTestCoverageBars) : AbstractTestCoverageBars :=
  mkBars (compact this) (_coverage this) (Some e) (visibleStore this) (attached this) (fired this).

Definition ds_add (d : Disposable) (this : AbstractTestCoverageBars) : AbstractTestCoverageBars :=
  mkBars (compact this) (_coverage this) (el this) (visibleStore this ++ [d]) (attached this)
    (fired this).

Definition fire (this : AbstractTestCoverageBars) : AbstractTestCoverageBars :=
  mkBars (compact this) (_coverage this) (el this) (visibleStore this) (attached this)
    (S (fired this)).

(** [this.el.value]: the elements are created at the first use. *)
Definition el_value (this : AbstractTestCoverageBars) : Elements :=
  match el this with
  | Some e => e
  | None => if compact this then CompactEl "" noStyle else FullEl "" noStyle noStyle noStyle
  end.

(** The steps of an operation that may throw after it has changed the
    widget: the widget as the operation leaves it, and the exception if there
    is one. *)
Definition outcome : Type := AbstractTestCoverageBars * option JsError.

(** The closure [render] of a call [setCoverageInfo(coverage)].  With
    [coverage] undefined, [c] is undefined and reading [c.statement] or
    [c.tpc] throws; the elements have been forced by then. *)
Definition render (coverage : option AbstractFileCoverage)
    (method : TestingDisplayedCoveragePercent) (this : AbstractTestCoverageBars) : outcome :=
  let el := el_value this in
  let this := set_el el this in
  match coverage with
  | None => (this, Some TypeError)
  | Some c =>
      let overallStat := calculateDisplayedStat c method in
      let overall := displayPercent overallStat in
      let r :=
        match el with
        | CompactEl _ tpcBar =>
            tpcBar <-? renderBar tpcBar (Some overallStat);
            Ok (CompactEl overall tpcBar)
        | FullEl _ statementBar methodBar branchBar =>
            statementBar <-? renderBar statementBar (Some (percent (statement c)));
            statementBar <-? renderBar statementBar (percent <$> function c);
            statementBar <-? renderBar statementBar (percent <$> branch c);
            Ok (FullEl overall statementBar methodBar branchBar)
        end%js in
      match r with
      | Ok el' => (set_el el' this, None)
      | Err e =>
          (* the text of [overall] has been written *)
          (set_el match el with
                  | CompactEl _ b => CompactEl overall b
                  | FullEl _ s m b => FullEl overall s m b
                  end this, Some e)
      end
  end.

Definition setCoverageInfo (coverage : option AbstractFileCoverage)
    (method : TestingDisplayedCoveragePercent) (this : AbstractTestCoverageBars) : outcome :=
  match coverage, _coverage this with
  | None, None =>
      (* the inner test of [this._coverage] cannot succeed *)
      (this, None)
  | _, _ =>
      match render coverage method this with
      | (this, Some e) => (this, Some e)
      | (this, None) =>
          let this := ds_add (ConfigListener coverage) this in
          let this :=
            match _coverage this with
            | None =>
                ds_add RemoveRoot
                  (mkBars (compact this) coverage (el this) (visibleStore this) true (fired this))
            | Some _ => this
            end in
          (fire this, None)
      end
  end.

(** A listener registered by [setCoverageInfo], called by the configuration
    service: an exception of [render] leaves the listener before it fires
    the change event. *)
Definition listener (affectsConfiguration : bool) (method : TestingDisplayedCoveragePercent)
    (this : AbstractTestCoverageBars) (d : Disposable) : AbstractTestCoverageBars :=
  match d with
  | ConfigListener coverage =>
      if affectsConfiguration then
        match render coverage method this with
        | (this, None) => fire this
        | (this, Some _) => this
        end
      else this
  | _ => this
  end.

(** A change of the configuration: the listeners of the store are called in
    the order of their registration; [method] is the value of the setting
    after the change. *)
Definition onDidChangeConfiguration (affectsConfiguration : bool)
    (method : TestingDisplayedCoveragePercent) (this : AbstractTestCoverageBars)
  : AbstractTestCoverageBars :=
  fold_left (listener affectsConfiguration method) (visibleStore this) this.

(** The bars that [attachHover] has been called for. *)
Inductive Target : Type := tpcBarTarget | statementTarget | methodTarget | branchTarget.

Definition hasTarget (e : Elements) (target : Target) : bool :=
  match e, target with
  | CompactEl _ _, tpcBarTarget => true
  | FullEl _ _ _ _, (statementTarget | methodTarget | branchTarget) => true
  | _, _ => false
  end.

(** The factory [attachHover] was given for a bar. *)
Definition factory (target : Target) (coverage : AbstractFileCoverage) : option HoverContent :=
  match target with
  | tpcBarTarget => Some (Markdown (getOverallHoverText coverage))
  | statementTarget => Some (Text (stmtCoverageText coverage))
  | methodTarget => Text <$> fnCoverageText coverage
  | branchTarget => Text <$> branchCoverageText coverage
  end.

(** The handler [onmouseenter] of a bar; [shown] says whether the hover
    service returned a hover.  The handler exists once the elements do. *)
Definition onmouseenter (target : Target) (shown : bool) (this : AbstractTestCoverageBars)
  : AbstractTestCoverageBars :=
  match el this with
  | Some e =>
      if hasTarget e target then
        match _coverage this with
        | None => this
        | Some coverage =>
            match factory target coverage with
            | None => this
            | Some content => if shown then ds_add (Hover content) this else this
            end
        end
      else this
  | None => this
  end.

(** ** The widget as a transition system *)

Inductive step : AbstractTestCoverageBars -> AbstractTestCoverageBars -> Prop :=
| step_setCoverageInfo coverage method this :
    step this (setCoverageInfo coverage method this).1
| step_configuration affects method this :
    step this (onDidChangeConfiguration affects method this)
| step_mouseenter target shown this :
    step this (onmouseenter target shown this).

Inductive reachable (compact : bool) : AbstractTestCoverageBars -> Prop :=
| reachable_new : reachable compact (AbstractTestCoverageBars_new compact)
| reachable_step this this' :
    reachable compact this -> step this this' -> reachable compact this'.

Definition isListener (d : Disposable) : bool :=
  match d with ConfigListener _ => true | _ => false end.

Definition listeners (this : AbstractTestCoverageBars) : list Disposable :=
  List.filter isListener (visibleStore this).

Definition layoutOk (compact : bool) (e : Elements) : Prop :=
  match e with
  | CompactEl _ _ => compact = true
  | FullEl _ _ _ _ => compact = false
  end.

(** What holds of every widget the operations can produce: a coverage is
    recorded exactly when the root is attached, and then the elements
    exist; the elements have the layout of the options; every listener has
    captured a coverage. *)
Record wfBars (this : AbstractTestCoverageBars) : Prop := {
  wf_attached : attached this = true <-> is_Some (_coverage this);
  wf_el : is_Some (_coverage this) -> is_Some (el this);
  wf_layout : forall e, el this = Some e -> layoutOk (compact this) e;
  wf_listeners : Forall (fun d => d <> ConfigListener None) (visibleStore this)
}.

(** ** What [render] leaves behind *)

(** The colour of a number. *)
Definition colorOf (pct : Q) : Color :=
  if Qle_bool (9 # 10) pct then chartsGreen
  else if Qle_bool (8 # 10) pct then chartsYellow
  else chartsRed.

Definition shown (pct : Q) : Style := mkStyle "block" (Some (pct * 100)%Q) (Some (colorOf pct)).

(** The element [el.statement] after the three calls of [renderBar]: the
    last call decides whether it is displayed, the last call with a number
    its width and colour. *)
Definition statementBarOf (c : AbstractFileCoverage) : Style :=
  match branch c, function c with
  | Some b, _ => shown (percent b)
  | None, Some f => mkStyle "none" (Some (percent f * 100)%Q) (Some (colorOf (percent f)))
  | None, None =>
      mkStyle "none" (Some (percent (statement c) * 100)%Q) (Some (colorOf (percent (statement c))))
  end.

Definition rendered (c : AbstractFileCoverage) (method : TestingDisplayedCoveragePercent)
    (e : Elements) : Elements :=
  let overallStat := calculateDisplayedStat c method in
  match e with
  | CompactEl _ _ => CompactEl (displayPercent overallStat) (shown overallStat)
  | FullEl _ _ methodBar branchBar =>
      FullEl (displayPercent overallStat) (statementBarOf c) methodBar branchBar
  end.

(** * Theorems *)

(** ** Numbers *)

Lemma Qltb_lt a b : Qltb a b = true <-> (a < b)%Q.
Proof.
  unfold Qltb. rewrite negb_true_iff, <- not_true_iff_false, Qle_bool_iff.
  split; [apply Qnot_le_lt | apply Qlt_not_le].
Qed.

Lemma Qltb_ge a b : Qltb a b = false <-> (b <= a)%Q.
Proof. unfold Qltb. now rewrite negb_false_iff, Qle_bool_iff. Qed.

Lemma Qle_bool_false a b : Qle_bool a b = false <-> (b < a)%Q.
Proof. rewrite <- Qltb_lt. unfold Qltb. now rewrite negb_true_iff. Qed.

Lemma percent_ratio cc : percent cc = ratio (covered cc) (total cc).
Proof. reflexivity. Qed.

Lemma percent_range cc : wf cc -> (0 <= percent cc <= 1)%Q.
Proof. intros H. rewrite percent_ratio. now apply ratio_range. Qed.

(** The floor of [x] is the integer [n] with [n <= x < n + 1]. *)
Lemma Qfloor_unique n x : (inject_Z n <= x)%Q -> (x < inject_Z (n + 1))%Q -> Qfloor x = n.
Proof.
  intros Hl Hu.
  pose proof (Qle_lt_trans _ _ _ (Qfloor_le x) Hu) as H1.
  pose proof (Qle_lt_trans _ _ _ Hl (Qlt_floor x)) as H2.
  rewrite <- Zlt_Qlt in H1, H2. lia.
Qed.

(** [roundScaled] is within half a unit of the scaled number, the upper end
    excluded: the nearest integer, the larger one of two. *)
Lemma roundScaled_nearest f x :
  let n := inject_Z (roundScaled f x) in
  let y := (x * inject_Z (10 ^ Z.of_nat f))%Q in
  (n - (1 # 2) <= y)%Q /\ (y < n + (1 # 2))%Q.
Proof.
  unfold roundScaled. cbv zeta.
  set (y := (x * inject_Z (10 ^ Z.of_nat f))%Q).
  pose proof (Qfloor_le (y + (1 # 2))) as Hl.
  pose proof (Qlt_floor (y + (1 # 2))) as Hu.
  rewrite inject_Z_plus in Hu. change (inject_Z 1) with 1%Q in Hu.
  split; lra.
Qed.

(** ** Strings with a decimal point *)

Lemma mem_char_app c s t : mem_char c (s +:+ t) = mem_char c s || mem_char c t.
Proof. induction s as [|a s IH]; simpl; [reflexivity|]. now rewrite IH, orb_assoc. Qed.

Lemma formatFixed_point f n : f <> 0%nat -> mem_char "." (formatFixed f n) = true.
Proof.
  intros Hf. unfold formatFixed. apply Nat.eqb_neq in Hf. rewrite Hf.
  destruct (_ <=? f)%nat; rewrite !mem_char_app; simpl; apply orb_true_r.
Qed.

Lemma toFixed_point f x : f <> 0%nat -> mem_char "." (toFixed f x) = true.
Proof.
  intros Hf. unfold toFixed. destruct (Qltb x 0); [rewrite mem_char_app|];
    rewrite formatFixed_point by assumption; auto using orb_true_r.
Qed.

Lemma toFixed_precision_ne_100 x : String.eqb (toFixed precision x) "100" = false.
Proof.
  apply not_true_iff_false. intros H%String.eqb_eq%(f_equal (mem_char ".")).
  now rewrite toFixed_point in H.
Qed.

(** [displayPercent] never returns the text 99.99% in place of a rounded
    one: the text of [toFixed] with two digits has a decimal point and is
    never equal to [100], so the result is always the rounded number
    followed by the percent sign. *)
Theorem displayPercent_never_clamps value :
  displayPercent value = toFixed precision (value * 100) +:+ "%".
Proof.
  unfold displayPercent. cbv zeta. now rewrite toFixed_precision_ne_100, andb_false_r.
Qed.

Lemma toFixed_2_rounds_to_100 x : (99995 # 1000 <= x)%Q -> (x < 100)%Q -> toFixed 2 x = "100.00".
Proof.
  intros Hl Hu. unfold toFixed.
  replace (Qltb x 0) with false by (symmetry; apply Qltb_ge; lra).
  replace (roundScaled 2 x) with 10000; [reflexivity|].
  symmetry. unfold roundScaled. change (inject_Z (10 ^ Z.of_nat 2)) with 100%Q.
  apply Qfloor_unique.
  - change (inject_Z 10000) with (10000 # 1). lra.
  - change (inject_Z (10000 + 1)) with (10001 # 1). lra.
Qed.

(** C20: a value from 0.99995 up to, but not including, 1 is displayed as
    100.00%: the display claims full coverage where coverage is incomplete. *)
Theorem displayPercent_overstates value :
  (99995 # 100000 <= value)%Q -> (value < 1)%Q -> displayPercent value = "100.00%".
Proof.
  intros Hl Hu. unfold displayPercent, precision. cbv zeta.
  rewrite toFixed_2_rounds_to_100 by lra. simpl. now rewrite andb_false_r.
Qed.

(** ** Bars *)

Lemma find_colorThresholds pct :
  List.find (meets pct) colorThresholds =
  Some (if Qle_bool (9 # 10) pct then mkThreshold chartsGreen (Some (9 # 10))
        else if Qle_bool (8 # 10) pct then mkThreshold chartsYellow (Some (8 # 10))
        else mkThreshold chartsRed None).
Proof. unfold colorThresholds, meets. simpl. now repeat case_match. Qed.

(** [renderBar] with a number never throws; it shows the bar, sets its
    width to the number scaled by 100 and gives it the colour of the first
    threshold the number reaches: green from 0.9, yellow from 0.8 to 0.9,
    red below 0.8. *)
Theorem renderBar_classification bar pct :
  exists c, renderBar bar (Some pct) = Ok (mkStyle "block" (Some (pct * 100)%Q) (Some c)) /\
    (c = chartsGreen <-> (9 # 10 <= pct)%Q) /\
    (c = chartsYellow <-> (8 # 10 <= pct)%Q /\ (pct < 9 # 10)%Q) /\
    (c = chartsRed <-> (pct < 8 # 10)%Q).
Proof.
  unfold renderBar. rewrite find_colorThresholds.
  destruct (Qle_bool (9 # 10) pct) eqn:E9; [|destruct (Qle_bool (8 # 10) pct) eqn:E8];
    (eexists; split; [reflexivity|]);
    rewrite ?Qle_bool_iff, ?Qle_bool_false in *;
    (repeat split; try discriminate; try lra; intros; exfalso; lra).
Qed.

Lemma renderBar_Some bar pct : renderBar bar (Some pct) = Ok (shown pct).
Proof.
  unfold renderBar, shown, colorOf. rewrite find_colorThresholds. now repeat case_match.
Qed.

Lemma renderBar_None bar : renderBar bar None = Ok (mkStyle "none" (width bar) (style_color bar)).
Proof. reflexivity. Qed.

(** [renderBar] always returns, and the bar is shown exactly when a number
    was given. *)
Lemma renderBar_display bar pct : exists bar',
  renderBar bar pct = Ok bar' /\ display bar' = if pct is Some _ then "block" else "none".
Proof.
  destruct pct as [pct|]; [rewrite renderBar_Some|]; eauto.
Qed.

(** ** The displayed statistic *)

Lemma Qmin_range a b : (0 <= a <= 1)%Q -> (0 <= b <= 1)%Q -> (0 <= Qmin a b <= 1)%Q.
Proof.
  intros Ha Hb. split; [apply Q.min_glb; tauto|].
  eapply Qle_trans; [apply Q.le_min_l | tauto].
Qed.

Lemma Qmin_either a b : Qmin a b == a \/ Qmin a b == b.
Proof. destruct (Q.min_spec a b) as [[_ H]|[_ H]]; auto. Qed.

(** Case analysis on every minimum of the goal. *)
Ltac Qmin_cases :=
  repeat match goal with
  | |- context [Qmin ?a ?b] =>
      lazymatch goal with
      | _ : (Qmin a b <= a)%Q |- _ => fail
      | _ => pose proof (Q.le_min_l a b); pose proof (Q.le_min_r a b);
             destruct (Qmin_either a b)
      end
  end.

(** The displayed statistic of a node with well-formed counts lies
    between 0 and 1, whichever method is configured. *)
Lemma calculateDisplayedStat_range coverage method :
  wfCoverage coverage -> (0 <= calculateDisplayedStat coverage method <= 1)%Q.
Proof.
  intros Hw. pose proof Hw as (Hs & Hb & Hf). destruct method; simpl.
  - now apply tpc_range.
  - now apply percent_range.
  - pose proof (percent_range _ Hs).
    destruct (branch coverage), (function coverage); simpl in *;
      repeat apply Qmin_range; auto using percent_range.
Qed.

(** C9: the data model and the widget composed: at every position of the
    tree that [createFileCoverage] builds from files with well-formed counts,
    a file or a directory with its computed sums, the statistic the widget
    displays lies between 0 and 1, whichever method is configured. *)
Theorem buildTree_displayed_range {CoverageDetails : Type}
    (files : list (IFileCoverage CoverageDetails)) k v method :
  Forall wfFile files -> PrefixTree.find k (buildTree files) = Some v ->
  (0 <= calculateDisplayedStat (abstract v) method <= 1)%Q.
Proof. intros Hfiles Hv. eapply calculateDisplayedStat_range, buildTree_wf; eauto. Qed.

(** With the method [Minimum] the displayed statistic is the least of
    the percentages of the categories the node has: it is below each of
    them and it is one of them. *)
Theorem calculateDisplayedStat_Minimum coverage :
  let value := calculateDisplayedStat coverage Minimum in
  let pcts := percent <$> categories coverage in
  Forall (fun p => (value <= p)%Q) pcts /\ Exists (fun p => value == p) pcts.
Proof.
  unfold categories. cbv zeta. simpl.
  destruct (branch coverage) as [b|], (function coverage) as [f|]; csimpl; Qmin_cases;
    (split; [repeat (apply Forall_cons_2; [lra|]); apply Forall_nil_2|]);
    first [ apply Exists_cons_hd; lra
          | apply Exists_cons_tl, Exists_cons_hd; lra
          | apply Exists_cons_tl, Exists_cons_tl, Exists_cons_hd; lra ].
Qed.

(** ** The widget *)

(** ** Hover texts *)

(** Placeholders with digits are replaced, the first digit choosing the
    argument; braces without digits are kept. *)
Example format_numbered :
  format "{0} statement coverage" ["50.00%"] = "50.00% statement coverage" /\
  format "{1} of {0}, {10}, {2}, {x}, {}" ["a"; "b"] = "b of a, b, undefined, {x}, {}".
Proof. split; reflexivity. Qed.

(** C36: the hover texts never show a percentage: the messages of the three
    texts are written with the placeholder [{}], which has no digit and is
    no placeholder of [localize], so that the text is the message itself,
    whatever the coverage is. *)
Theorem hover_texts_lack_percent coverage :
  localizedText (stmtCoverageText coverage) = "{} statement coverage" /\
  localizedText <$> fnCoverageText coverage =
    (fun _ => "{} function coverage") <$> function coverage /\
  localizedText <$> branchCoverageText coverage =
    (fun _ => "{} branch coverage") <$> branch coverage.
Proof.
  split; [reflexivity|]. unfold fnCoverageText, branchCoverageText.
  split; [now destruct (function coverage) | now destruct (branch coverage)].
Qed.

Section Widget.
Implicit Types (this : AbstractTestCoverageBars) (c : AbstractFileCoverage).
Implicit Types (coverage : option AbstractFileCoverage) (e : Elements).
Implicit Types (method : TestingDisplayedCoveragePercent).

Lemma set_el_set_el e e' this : set_el e' (set_el e this) = set_el e' this.
Proof. reflexivity. Qed.

Lemma render_None method this :
  render None method this = (set_el (el_value this) this, Some TypeError).
Proof. reflexivity. Qed.

(** [render] with a coverage does not throw. *)
Lemma render_Some c method this :
  render (Some c) method this = (set_el (rendered c method (el_value this)) this, None).
Proof.
  unfold render, rendered. cbv zeta. destruct (el_value this) as [o t|o s m b].
  - now rewrite renderBar_Some.
  - unfold statementBarOf.
    destruct (function c) as [f|], (branch c) as [b'|]; cbn [fmap option_fmap option_map];
      repeat (rewrite ?renderBar_Some, ?renderBar_None; cbn [result_bind]); reflexivity.
Qed.

(** C35: in the layout with three bars, [render] writes to the statement bar
    three times and to no other: the bars of the functions and of the
    branches keep the style they had, and the statement bar ends with the
    branch percentage, or hidden when the node has no branch count. *)
Theorem render_full_layout c method this o s m b :
  el_value this = FullEl o s m b ->
  render (Some c) method this =
    (set_el (FullEl (displayPercent (calculateDisplayedStat c method)) (statementBarOf c) m b)
       this, None) /\
  (display (statementBarOf c) = "none" <-> branch c = None).
Proof.
  intros He. rewrite render_Some, He. split; [reflexivity|].
  unfold statementBarOf. destruct (branch c), (function c); simpl; split; congruence.
Qed.

(** [render] changes the elements only. *)
Lemma render_frame coverage method this :
  let this' := (render coverage method this).1 in
  compact this' = compact this /\ _coverage this' = _coverage this /\
  visibleStore this' = visibleStore this /\ attached this' = attached this /\
  fired this' = fired this /\ is_Some (el this').
Proof.
  destruct coverage as [c|]; [rewrite render_Some | rewrite render_None]; simpl; eauto 10.
Qed.

Lemma rendered_layout c method e k : layoutOk k e -> layoutOk k (rendered c method e).
Proof. now destruct e. Qed.

Lemma el_value_layout this :
  (forall e, el this = Some e -> layoutOk (compact this) e) ->
  layoutOk (compact this) (el_value this).
Proof.
  unfold el_value. intros H. destruct (el this) as [e|]; [now apply H|].
  now destruct (compact this).
Qed.

(** ** [setCoverageInfo], case by case *)

Lemma setCoverageInfo_nothing method this :
  _coverage this = None -> setCoverageInfo None method this = (this, None).
Proof. unfold setCoverageInfo. now intros ->. Qed.

Lemma setCoverageInfo_first c method this :
  _coverage this = None ->
  setCoverageInfo (Some c) method this =
    (mkBars (compact this) (Some c) (Some (rendered c method (el_value this)))
       (visibleStore this ++ [ConfigListener (Some c); RemoveRoot]) true (S (fired this)), None).
Proof.
  intros H. unfold setCoverageInfo. rewrite render_Some. unfold fire, ds_add. simpl.
  now rewrite H, <- app_assoc.
Qed.

Lemma setCoverageInfo_again c c0 method this :
  _coverage this = Some c0 ->
  setCoverageInfo (Some c) method this =
    (mkBars (compact this) (Some c0) (Some (rendered c method (el_value this)))
       (visibleStore this ++ [ConfigListener (Some c)]) (attached this) (S (fired this)), None).
Proof.
  intros H. unfold setCoverageInfo. rewrite render_Some. unfold fire, ds_add. simpl.
  now rewrite H.
Qed.

(** C34: [setCoverageInfo(undefined)] on a widget that shows a coverage
    throws a [TypeError] from [render]; the coverage stays recorded, the
    store is not cleared, the root stays attached and no change event is
    fired. *)
Theorem setCoverageInfo_clear_throws c0 method this :
  _coverage this = Some c0 ->
  setCoverageInfo None method this = (set_el (el_value this) this, Some TypeError).
Proof. intros H. unfold setCoverageInfo. now rewrite H, render_None. Qed.

(** C33: a widget that has recorded a coverage keeps it whatever
    [setCoverageInfo] is called with: the hovers, which read the recorded
    coverage, show the numbers of the first coverage the widget was given. *)
Theorem setCoverageInfo_keeps_first coverage c0 method this :
  _coverage this = Some c0 ->
  _coverage (setCoverageInfo coverage method this).1 = Some c0.
Proof.
  intros H. destruct coverage as [c|].
  - now rewrite (setCoverageInfo_again c c0).
  - unfold setCoverageInfo. now rewrite H, render_None.
Qed.

(** Every call of [setCoverageInfo] with a coverage registers one more
    configuration listener; none is ever removed. *)
Lemma setCoverageInfo_adds_listener c method this :
  length (listeners (setCoverageInfo (Some c) method this).1) = S (length (listeners this)).
Proof.
  unfold listeners. destruct (_coverage this) as [c0|] eqn:E.
  - rewrite (setCoverageInfo_again c c0) by assumption. simpl.
    rewrite List.filter_app, length_app. simpl. lia.
  - rewrite setCoverageInfo_first by assumption. simpl.
    rewrite List.filter_app, length_app. simpl. lia.
Qed.

(** ** The invariant *)

Lemma wfBars_new k : wfBars (AbstractTestCoverageBars_new k).
Proof.
  split; simpl; [split; [discriminate | intros [? [=]]] | intros [? [=]] | discriminate |
                  apply Forall_nil_2].
Qed.

Lemma wfBars_setCoverageInfo coverage method this :
  wfBars this -> wfBars (setCoverageInfo coverage method this).1.
Proof.
  intros Hw. pose proof Hw as [Ha He Hl Hs].
  destruct coverage as [c|], (_coverage this) as [c0|] eqn:E;
    [ rewrite (setCoverageInfo_again c c0) by assumption
    | rewrite setCoverageInfo_first by assumption
    | unfold setCoverageInfo; rewrite E, render_None
    | now rewrite setCoverageInfo_nothing by assumption ];
    (split; simpl; rewrite ?E;
     [ first [assumption | split; eauto]
     | eauto
     | intros e [= <-]; try apply rendered_layout; now apply el_value_layout
     | first [assumption | apply Forall_app; split; [assumption | now repeat constructor]] ]).
Qed.

Lemma wfBars_listener affects method this d :
  d <> ConfigListener None -> wfBars this -> wfBars (listener affects method this d).
Proof.
  intros Hd [Ha He Hl Hs]. destruct d as [[c|]| |]; try easy; cbn [listener].
  destruct affects; [|now split]. rewrite render_Some.
  split; simpl; [assumption | eauto | | assumption].
  intros e [= <-]. now apply rendered_layout, el_value_layout.
Qed.

Lemma listener_frame affects method this d :
  d <> ConfigListener None ->
  let this' := listener affects method this d in
  visibleStore this' = visibleStore this /\
  fired this' = (fired this + if affects && isListener d then 1 else 0)%nat.
Proof.
  intros Hd. destruct d as [[c|]| |]; try easy; cbn [listener isListener];
    rewrite ?andb_false_r, ?Nat.add_0_r; auto.
  destruct affects; [rewrite render_Some|]; simpl; auto with lia.
Qed.

Lemma fold_listener affects method l this :
  Forall (fun d => d <> ConfigListener None) l -> wfBars this ->
  let this' := fold_left (listener affects method) l this in
  wfBars this' /\ visibleStore this' = visibleStore this /\
  fired this' = (fired this + if affects then length (List.filter isListener l) else 0)%nat.
Proof.
  intros Hl. revert this. induction Hl as [|d l Hd _ IH]; intros this Hw; simpl.
  - split; [assumption | split; [reflexivity | destruct affects; lia]].
  - destruct (IH _ (wfBars_listener affects method this d Hd Hw)) as (Hw' & -> & ->).
    destruct (listener_frame affects method this d Hd) as [-> ->].
    split; [assumption | split; [reflexivity|]].
    destruct affects, (isListener d); simpl; lia.
Qed.

Lemma wfBars_onDidChangeConfiguration affects method this :
  wfBars this -> wfBars (onDidChangeConfiguration affects method this).
Proof. intros Hw. now apply fold_listener; [apply Hw|]. Qed.

Lemma wfBars_onmouseenter target shown this :
  wfBars this -> wfBars (onmouseenter target shown this).
Proof.
  intros Hw. unfold onmouseenter. repeat case_match; try assumption.
  destruct Hw as [Ha He Hl Hs]. split; simpl; auto.
  apply Forall_app; split; [assumption|]. now repeat constructor.
Qed.

Lemma wfBars_step this this' : step this this' -> wfBars this -> wfBars this'.
Proof.
  destruct 1; auto using wfBars_setCoverageInfo, wfBars_onDidChangeConfiguration,
    wfBars_onmouseenter.
Qed.

(** C39: the invariant of the widget holds after any sequence of calls of
    [setCoverageInfo], configuration changes and mouse events: the root is
    attached exactly when a coverage is recorded, the elements exist by then
    and have the layout of the options, and every listener of the store has
    captured a coverage, so that no listener can throw. *)
Theorem reachable_wfBars k this : reachable k this -> wfBars this.
Proof. induction 1; eauto using wfBars_new, wfBars_step. Qed.

(** C40: a change of the displayed-percentage setting fires the change event
    once for every listener of the store, that is once for every earlier
    call of [setCoverageInfo] with a coverage, and re-renders as often. *)
Theorem onDidChangeConfiguration_fires method this :
  wfBars this ->
  fired (onDidChangeConfiguration true method this) =
    (fired this + length (listeners this))%nat.
Proof.
  intros Hr. unfold onDidChangeConfiguration, listeners.
  now destruct (fold_listener true method (visibleStore this) this (wf_listeners _ Hr) Hr)
    as (_ & _ & ->).
Qed.

End Widget.

(** * Examples *)

(** A node with 95 of 100 statements and 70 of 100 branches covered. *)
Definition example_coverage : AbstractFileCoverage :=
  mkAbstractFileCoverage (mkUriComponents (Some "file") (Some "") "/a/b/x")
    (mkCount 95 100) (Some (mkCount 70 100)) None.

(** A node with statement counts only. *)
Definition example_statements_only : AbstractFileCoverage :=
  mkAbstractFileCoverage (mkUriComponents (Some "file") (Some "") "/a/b/y")
    (mkCount 3 4) None None.

(** The widget with three bars after [example_coverage] has been set. *)
Definition example_bars : AbstractTestCoverageBars :=
  (setCoverageInfo (Some example_coverage) Statement (AbstractTestCoverageBars_new false)).1.

Lemma displayPercent_overstates_witness : displayPercent (99999 # 100000) = "100.00%".
Proof. apply displayPercent_overstates; [vm_compute; discriminate | vm_compute; reflexivity]. Defined.

(** The directory [a/b] of the example tree, with the sums of its two files. *)
Definition example_dir_coverage : AbstractFileCoverage :=
  mkAbstractFileCoverage (mkUriComponents (Some "") (Some "") "a/b")
    (mkCount 4 6) (Some (mkCount 1 1)) (Some (mkCount 1 1)).

Lemma buildTree_displayed_range_witness :
  (0 <= calculateDisplayedStat example_dir_coverage TotalCoverage <= 1)%Q.
Proof.
  apply (buildTree_displayed_range example_files example_dir
           (Computed example_dir_coverage) TotalCoverage).
  - by_compute.
  - vm_compute. reflexivity.
Defined.

Lemma render_full_layout_witness :
  render (Some example_statements_only) Statement (AbstractTestCoverageBars_new false) =
    (set_el (FullEl "75.00%" (mkStyle "none" (Some (inject_Z 3 / inject_Z 4 * 100)%Q)
                                (Some chartsRed)) noStyle noStyle)
       (AbstractTestCoverageBars_new false), None) /\
  (display (statementBarOf example_statements_only) = "none" <->
   branch example_statements_only = None).
Proof.
  apply (render_full_layout example_statements_only Statement _ "" noStyle noStyle noStyle).
  reflexivity.
Defined.

Lemma setCoverageInfo_clear_throws_witness :
  setCoverageInfo None Statement example_bars =
    (set_el (el_value example_bars) example_bars, Some TypeError).
Proof. apply (setCoverageInfo_clear_throws example_coverage). reflexivity. Defined.

Lemma setCoverageInfo_keeps_first_witness :
  _coverage (setCoverageInfo (Some example_statements_only) Minimum example_bars).1 =
    Some example_coverage.
Proof. apply setCoverageInfo_keeps_first. reflexivity. Defined.

Lemma reachable_wfBars_witness : wfBars example_bars.
Proof.
  apply (reachable_wfBars false). eapply reachable_step; [apply reachable_new|].
  apply step_setCoverageInfo.
Defined.

Lemma onDidChangeConfiguration_fires_witness :
  fired (onDidChangeConfiguration true Minimum
           (setCoverageInfo (Some example_statements_only) Statement example_bars).1) = 4%nat.
Proof.
  apply (onDidChangeConfiguration_fires Minimum
           (setCoverageInfo (Some example_statements_only) Statement example_bars).1).
  apply wfBars_setCoverageInfo, wfBars_setCoverageInfo, wfBars_new.
Defined.

(** The example of the minimum selector: statement percentage 0.95, branch
    percentage 0.70, displayed 0.70. *)
Example calculateDisplayedStat_Minimum_example :
  calculateDisplayedStat example_coverage Minimum == 7 # 10.
Proof. vm_compute. reflexivity. Qed.

(** Full coverage and rounded values. *)
Example displayPercent_examples :
  displayPercent 1 = "100.00%" /\ displayPercent (1 # 3) = "33.33%" /\
  displayPercent (5 # 1000) = "0.50%" /\ displayPercent 0 = "0.00%".
Proof. now vm_compute. Qed.
