(* ===== verification/Display.v ===== *)
(** * From the provider to the bars

    The three modules of [src/unnamed/part_000] composed.  The provider
    answers a session with a list of files; [createFileCoverage] builds the
    tree ([Coverage.buildTree], run by the job [KCreate] of [Session.run]);
    [getAllFiles] and [getUri] hand the tree and its nodes to their callers,
    and the widget displays a node with [Bars.calculateDisplayedStat].

    The invariant of the composition is that of the data: every count has
    [0 <= covered <= total].  [wfAction] says so of what the environment
    does (the files of an answer of the provider), [wfOutcome] of what a
    promise or a job carries (files, a tree, a node), [wfSession] of a
    session.  Every action and every job preserves it, so it holds of every
    execution of [Machine.exec], and whatever node a caller receives is
    displayed with a statistic in [0, 1]. *)

From S2P Require Import Prelude Counts PrefixTree Coverage Async Machine Session Bars.

#[local] Set Warnings "-register-all".

Section Display.
Context {CoverageDetails Failure : Type}.

#[local] Abbreviation Value := (Session.Value CoverageDetails).
#[local] Abbreviation EnvAction := (Session.EnvAction CoverageDetails Failure).
#[local] Abbreviation Reaction := (Session.Reaction CoverageDetails Failure).
#[local] Abbreviation TestCoverage := (Session.TestCoverage CoverageDetails Failure).

(** The environment hands over files with well-formed counts. *)
Inductive wfAction : EnvAction -> Prop :=
| wfAction_getAllFiles : wfAction CallGetAllFiles
| wfAction_getUri uri : wfAction (CallGetUri uri)
| wfAction_files p files : Forall wfFile files -> wfAction (Settle p (Fulfilled files))
| wfAction_error p e : wfAction (Settle p (Rejected e))
| wfAction_schedule job : Forall wfAction job -> wfAction (Schedule job).

Definition wfReaction (r : Reaction) : Prop :=
  match r with
  | KEnv job => Forall wfAction job
  | _ => True
  end.

(** What a promise or a job carries is well formed. *)
Definition wfOutcome (s : Settled Value Failure) : Prop :=
  match s with
  | Fulfilled (VFiles files) => Forall wfFile files
  | Fulfilled (VTree tree) => wfValues tree
  | Fulfilled (VFound (Some v)) => wfCoverage (abstract v)
  | _ => True
  end.

(** The invariant of a session. *)
Definition wfSession (this : TestCoverage) : Prop :=
  loopForall wfReaction wfOutcome (loop this).

(** A node is displayable when its statistic is a fraction. *)
Definition displayable (method : TestingDisplayedCoveragePercent)
    (c : AbstractFileCoverage) : Prop :=
  (0 <= calculateDisplayedStat c method <= 1)%Q.

(** * Theorems *)

Implicit Types (this : TestCoverage) (a : EnvAction) (s : Settled Value Failure).

Lemma wfSession_new : wfSession TestCoverage_new.
Proof. apply loopForall_empty. Qed.

Lemma wfSession_getAllFiles this : wfSession this -> wfSession (getAllFiles this).2.
Proof.
  unfold wfSession. intros Hl. destruct (fileCoverage this) as [p|] eqn:Hc.
  - rewrite (getAllFiles_cached _ _ Hc). cbn. now apply loopForall_await, loopForall_newPromise.
  - rewrite (getAllFiles_fresh_eq _ Hc). cbn.
    apply loopForall_await, loopForall_newPromise; [done|]. unfold createFileCoverage. cbn.
    now apply loopForall_await, loopForall_newPromise, loopForall_newPromise.
Qed.

Lemma wfSession_getUri uri this : wfSession this -> wfSession (getUri uri this).2.
Proof.
  intros Hl%wfSession_getAllFiles. unfold wfSession, getUri in *. cbn.
  now apply loopForall_await, loopForall_newPromise.
Qed.

Lemma wfSession_perform this a : wfAction a -> wfSession this -> wfSession (perform this a).
Proof.
  intros Ha Hl. destruct Ha as [|uri|p files Hfiles|p e|job Hjob]; cbn.
  - now apply wfSession_getAllFiles.
  - now apply wfSession_getUri.
  - case_bool_decide; [|assumption]. now apply loopForall_settle.
  - case_bool_decide; [|assumption]. now apply loopForall_settle.
  - now apply loopForall_enqueue.
Qed.

(** The jobs of the methods: [createFileCoverage] builds a well-formed tree
    from well-formed files, [getAllFiles] passes it on, [getUri] reads one
    of its values. *)
Lemma wfOutcome_built files : Forall wfFile files -> wfOutcome (Fulfilled (VTree (buildTree files))).
Proof. intros Hfiles k v. now apply buildTree_wf. Qed.

Lemma wfOutcome_found uri tree :
  wfValues tree -> wfOutcome (Fulfilled (VFound (getUri_find uri tree))).
Proof.
  intros Htree. cbn. destruct (getUri_find uri tree) as [v|] eqn:Hv; [|done].
  exact (Htree _ _ Hv).
Qed.

Lemma wfSession_run this job l :
  wfSession this -> pop (loop this) = Some (job, l) ->
  wfSession (run job.1 job.2 (set_loop l this)).
Proof.
  intros Hl Hpop. destruct (loopForall_pop _ _ _ _ _ Hpop Hl) as (Hr & Hs & Hl').
  destruct job as [[c|g|g uri|job] [v|e]]; cbn [fst snd run] in *;
    try (now apply (@job_invariant _ _ _ _ _ TestCoverage_machine wfSession wfAction
                      wfSession_perform));
    try destruct v; try exact Hl'; apply loopForall_settle; try done.
  - now apply wfOutcome_built.
  - now apply wfOutcome_found.
Qed.

(** The invariant holds of every execution in which the provider hands over
    well-formed files, and stays when the jobs run to the end. *)
Lemma wfSession_exec (trace : list (Label EnvAction)) this this' :
  Forall (allowed wfAction) trace -> wfSession this -> exec trace this = Some this' ->
  wfSession this'.
Proof.
  apply (@exec_invariant _ _ _ _ _ TestCoverage_machine wfSession wfAction
           wfSession_perform wfSession_run).
Qed.

Lemma wfSession_drain fuel this : wfSession this -> wfSession (drain fuel this).
Proof.
  apply (@drain_invariant _ _ _ _ _ TestCoverage_machine wfSession wfAction
           wfSession_perform wfSession_run).
Qed.

(** What a settled promise holds after an execution, the jobs run to the end
    or not, is well formed. *)
Lemma wfOutcome_exec (trace : list (Label EnvAction)) this fuel p s :
  Forall (allowed wfAction) trace -> exec trace TestCoverage_new = Some this ->
  promises (loop (drain fuel this)) !! p = Some (Done s) -> wfOutcome s.
Proof.
  intros Htrace Hexec. apply loopForall_done with (PR := wfReaction).
  eapply wfSession_drain, wfSession_exec; eauto using wfSession_new.
Qed.

(** C10: the session, the tree and the widget composed: in every execution in
    which the provider hands over files with well-formed counts, also after
    the jobs have run to the end, every node of a tree that a promise of the
    session holds is displayed with a statistic between 0 and 1, whichever
    method is configured. *)
Theorem session_displayed_range (trace : list (Label EnvAction)) this fuel p tree k v method :
  Forall (allowed wfAction) trace ->
  exec trace TestCoverage_new = Some this ->
  promises (loop (drain fuel this)) !! p = Some (Done (Fulfilled (VTree tree))) ->
  PrefixTree.find k tree = Some v ->
  displayable method (abstract v).
Proof.
  intros Htrace Hexec Hp Hv. apply calculateDisplayedStat_range.
  exact (wfOutcome_exec _ _ _ _ _ Htrace Hexec Hp k v Hv).
Qed.

(** The same of a node that [getUri] found. *)
Theorem session_found_displayed (trace : list (Label EnvAction)) this fuel p v method :
  Forall (allowed wfAction) trace ->
  exec trace TestCoverage_new = Some this ->
  promises (loop (drain fuel this)) !! p = Some (Done (Fulfilled (VFound (Some v)))) ->
  displayable method (abstract v).
Proof.
  intros Htrace Hexec Hp. apply calculateDisplayedStat_range.
  exact (wfOutcome_exec _ _ _ _ _ Htrace Hexec Hp).
Qed.

End Display.

(** * Examples *)

(** The session of [Session.example_trace]: the promise 2, which the first
    call of [getAllFiles] returned, holds the tree of the two files, whose
    directory [a/b] is displayed with 6/8. *)
Lemma session_displayed_range_witness :
  displayable TotalCoverage example_dir_coverage.
Proof.
  apply (session_displayed_range example_trace example_session 0 2 (buildTree example_files)
           example_dir (Computed example_dir_coverage) TotalCoverage).
  - repeat constructor; by_compute.
  - vm_compute. reflexivity.
  - vm_compute. reflexivity.
  - vm_compute. reflexivity.
Defined.

Example session_displays : calculateDisplayedStat example_dir_coverage TotalCoverage == 3 # 4.
Proof. vm_compute. reflexivity. Qed.
