(* ===== verification/Fetch.v ===== *)
(** * Fetching with retries

    The functions of build/lib/fetch.js ([src/build/lib/fetch.js], lines
    1-137): [fetchUrls], [fetchUrl] and [fetchGithub].

    The network, the hash function and the helpers of other modules are
    parameters of the model:

    - [net url n] is the outcome of the [n]-th request for [url] (counted
      from 0): a response, or the rejection of [fetch] (a network error, or
      the abort that the 30 second timer triggers);
    - [sha256], [dirname], [base64] and [parseAssets] stand for
      [crypto.createHash('sha256')], [path.dirname], the base64 encoding of
      a buffer and [JSON.parse] followed by the read of [.assets].

    The effects are threaded through a [World]: the requests sent so far,
    the lines logged and the delays waited.  The clock is not modelled: the
    two log lines that show the time taken carry no number.

    [fetchUrl] calls itself after a failure while [retries > 0]; the
    recursion is written with fuel, and [fetchUrl] supplies
    [S (Z.to_nat retries)], which is enough (lemma [fetchUrl_fuel_spec]). *)

From S2P Require Import Prelude.
From Stdlib Require Import Strings.Byte.

(** * Data *)

(** A value that is a string, [null] or [undefined]. *)
Inductive JsString : Type := Str (s : string) | Null | Undefined.

Record Response : Type := mkResponse {
  ok : bool;
  status : Z;
  arrayBuffer : option (list byte)   (* [None]: reading the body fails *)
}.

Inductive FetchOutcome : Type :=
| Responds (response : Response)
| Rejects (reason : string).

Definition Headers : Type := list (string * string).

Record Options : Type := mkOptions {
  base : JsString;
  verbose : option bool;
  checksumSha256 : option string;
  path : option string;
  nodeFetchOptions : Headers
}.

(** [{}] *)
Definition noOptions : Options := mkOptions Undefined None None None [].

Record VinylFile : Type := mkVinylFile {
  cwd : string;
  file_base : JsString;
  file_path : string;
  contents : list byte
}.

Inductive Error : Type :=
| FetchRejected (reason : string)
| BodyRejected
| ChecksumMismatch (url expected actual : string)
| RequestFailed (url : string) (status : Z)
| AssetNotFound (repo version : string).

Inductive LogEntry : Type :=
| LogStart (url : string) (retry : option Z)
| LogCompleted (status : Z)
| LogVerified (url : string)
| LogSkipping (url : string)
| LogFetched (byteLength : nat)
| LogFailed (url : string) (e : Error).

Record Request : Type := mkRequest { req_url : string; req_headers : Headers }.

Record World : Type := mkWorld {
  sent : list Request;
  logged : list LogEntry;
  slept : list Z
}.

Definition emptyWorld : World := mkWorld [] [] [].

Definition log (verbose : bool) (entry : LogEntry) (w : World) : World :=
  if verbose then mkWorld (sent w) (logged w ++ [entry]) (slept w) else w.

Definition send (r : Request) (w : World) : World :=
  mkWorld (sent w ++ [r]) (logged w) (slept w).

Definition sleep (ms : Z) (w : World) : World :=
  mkWorld (sent w) (logged w) (slept w ++ [ms]).

(** How many requests for [url] have been sent. *)
Definition requestsFor (url : string) (w : World) : nat :=
  length (List.filter (fun r => String.eqb (req_url r) url) (sent w)).

(** Truthiness of an optional string and of an optional boolean. *)
Definition truthy (o : option string) : bool :=
  match o with
  | Some s => negb (String.eqb s "")
  | None => false
  end.

Definition toBoolean (o : option bool) : bool := default false o.

(** [a ?? b] where [a] may be nullish. *)
Definition nullish {A} (a : option A) (b : A) : A := default b a.

(** A member of an array in [join('')]: [null] and [undefined] give the
    empty string. *)
Definition joined (s : JsString) : string :=
  match s with Str s => s | _ => "" end.

(** ** Releases *)

Record Asset : Type := mkAsset { asset_name : string; asset_url : string }.

(** [options.name] is a name or a predicate on names; a caller without
    types can pass what is neither, [undefined] for one, which cannot be
    called. *)
Inductive NameFilter : Type :=
| ByName (name : string)
| ByPredicate (f : string -> bool)
| NotCallable.

Record GithubOptions : Type := mkGithubOptions {
  gh_version : string;
  gh_name : NameFilter;
  gh_verbose : option bool;
  gh_path : option string;
  gh_checksumSha256 : option string
}.

(** What the stream that [fetchGithub] returns is given: a file or an error
    through the callback of the transform; nothing when the release could
    not be fetched, since [pipe] does not forward the error of the stream of
    [fetchUrls]; nothing when the transform throws before its [try], since
    its promise is rejected and the callback is never called. *)
Inductive GithubResult : Type :=
| Emits (file : VinylFile)
| CallbackError (e : Error)
| UpstreamError (e : Error)
| Unhandled.

(** [repo.replace(/^\/|\/$/g, '')]: a slash at the start and a slash at the
    end are removed. *)
Definition stripLeading (s : string) : string :=
  match s with
  | String "/" s' => s'
  | _ => s
  end.

Fixpoint stripTrailing (s : string) : string :=
  match s with
  | EmptyString => EmptyString
  | String "/" EmptyString => EmptyString
  | String c s' => String c (stripTrailing s')
  end.

Definition stripSlashes (s : string) : string := stripTrailing (stripLeading s).

Section Fetch.
Context (net : string -> nat -> FetchOutcome).
Context (sha256 : list byte -> string).
Context (dirname : string -> string).
(** [process.env['CI']] and [process.env['BUILD_ARTIFACTSTAGINGDIRECTORY']] *)
Context (env_CI env_BUILD_ARTIFACTSTAGINGDIRECTORY : option string).

(** The first statement of [fetchUrl]: [!!options.verbose] is a boolean, so
    the operator [??] has a left operand that is never nullish. *)
Definition isVerbose (options : Options) : bool :=
  nullish (Some (toBoolean (verbose options)))
    (truthy env_CI || truthy env_BUILD_ARTIFACTSTAGINGDIRECTORY).

(** The inner [try] block of [fetchUrl] with its [finally]: one request. *)
Definition attempt (url : string) (options : Options) (retries : Z) (w : World)
  : result Error VinylFile * World :=
  let verbose := isVerbose options in
  let w := log verbose (LogStart url (if retries =? 10 then None else Some (10 - retries))) w in
  let n := requestsFor url w in
  let w := send (mkRequest url (nodeFetchOptions options)) w in
  match net url n with
  | Rejects reason => (Err (FetchRejected reason), w)
  | Responds response =>
      let w := log verbose (LogCompleted (status response)) w in
      if ok response && ((200 <=? status response) && (status response <? 300)) then
        match arrayBuffer response with
        | None => (Err BodyRejected, w)
        | Some contents =>
            let checked :=
              if truthy (checksumSha256 options) then
                let expected := default "" (checksumSha256 options) in
                let actualSHA256Checksum := sha256 contents in
                if negb (String.eqb actualSHA256Checksum expected) then
                  Err (ChecksumMismatch url expected actualSHA256Checksum)
                else Ok (log verbose (LogVerified url) w)
              else Ok (log verbose (LogSkipping url) w) in
            match checked with
            | Err e => (Err e, w)
            | Ok w =>
                let w := log verbose (LogFetched (length contents)) w in
                (Ok {| cwd := "/";
                       file_base := if truthy (path options)
                                    then Str (dirname (default "" (path options)))
                                    else base options;
                       file_path := nullish (path options) url;
                       contents := contents |}, w)
            end
        end
      else (Err (RequestFailed url (status response)), w)
  end.

(** [fetchUrl], with fuel for the recursive call of the [catch] block. *)
Fixpoint fetchUrl_fuel (fuel : nat) (url : string) (options : Options)
    (retries retryDelay : Z) (w : World) : option (result Error VinylFile * World) :=
  match fuel with
  | O => None
  | S fuel =>
      match attempt url options retries w with
      | (Ok file, w) => Some (Ok file, w)
      | (Err e, w) =>
          let w := log (isVerbose options) (LogFailed url e) w in
          if retries >? 0 then
            let w := sleep retryDelay w in
            fetchUrl_fuel fuel url options (retries - 1) retryDelay w
          else Some (Err e, w)
      end
  end.

Definition fetchUrl (url : string) (options : Options) (retries retryDelay : Z) (w : World)
  : option (result Error VinylFile * World) :=
  fetchUrl_fuel (S (Z.to_nat retries)) url options retries retryDelay w.

(** The default arguments. *)
Definition defaultRetries : Z := 10.
Definition defaultRetryDelay : Z := 1000.

(** The first two statements of [fetchUrls]: the defaults of the options. *)
Definition withBase (options : option Options) : Options :=
  let options := default noOptions options in
  match base options with
  | Undefined =>
      mkOptions (Str "/") (verbose options) (checksumSha256 options) (path options)
        (nodeFetchOptions options)
  | _ => options
  end.

(** [fetchUrls]: every url of the array is fetched; the stream carries a
    file or an error for each, in the order of the array.  The program
    starts the fetches together; here they run one url after the other,
    which gives the same files and errors, since the outcome of a request
    depends on its url and on the earlier requests for that url, and one
    of the orders in which the requests can be sent. *)
Definition fetchUrls (urls : list string) (options : option Options) (w : World)
  : option (list (result Error VinylFile) * World) :=
  let options := withBase options in
  (fix each (urls : list string) (w : World) : option (list (result Error VinylFile) * World) :=
     match urls with
     | [] => Some ([], w)
     | data :: urls =>
         let url := joined (base options) +:+ data in
         '(r, w) ← fetchUrl url options defaultRetries defaultRetryDelay w;
         '(rs, w) ← each urls w;
         Some (r :: rs, w)
     end) urls w.

(** ** [fetchGithub] *)

(** [process.env.GITHUB_TOKEN]; the base64 text of a string; [JSON.parse]
    of the contents of a file followed by the read of [assets] ([None] when
    either throws). *)
Context (env_GITHUB_TOKEN : option string).
Context (base64 : string -> string).
Context (parseAssets : list byte -> option (list Asset)).

Definition ghApiHeaders : Headers :=
  let headers := [("Accept", "application/vnd.github.v3+json"); ("User-Agent", "VSCode Build")] in
  if truthy env_GITHUB_TOKEN
  then map_set "Authorization" ("Basic " +:+ base64 (default "" env_GITHUB_TOKEN)) headers
  else headers.

Definition ghDownloadHeaders : Headers :=
  map_set "Accept" "application/octet-stream" ghApiHeaders.

(** [assets.find((a) => assetFilter(a.name))]: the filter is called on the
    assets in order, so that a filter which is not a function throws at the
    first asset. *)
Definition findAsset (assetFilter : option (string -> bool)) (assets : list Asset)
  : option (option Asset) :=
  match assetFilter, assets with
  | Some f, _ => Some (List.find (fun a => f (asset_name a)) assets)
  | None, [] => Some None
  | None, _ :: _ => None
  end.

(** The transform that [fetchGithub] pipes the release into. *)
Definition fetchAsset (repo : string) (options : GithubOptions) (file : VinylFile) (w : World)
  : option (GithubResult * World) :=
  let assetFilter :=
    match gh_name options with
    | ByName name => Some (fun n => String.eqb n name)
    | ByPredicate f => Some f
    | NotCallable => None
    end in
  match parseAssets (contents file) with
  | None => Some (Unhandled, w)
  | Some assets =>
      match findAsset assetFilter assets with
      | None => Some (Unhandled, w)
      | Some None => Some (CallbackError (AssetNotFound repo (gh_version options)), w)
      | Some (Some asset) =>
          '(r, w) ← fetchUrl (asset_url asset)
                      {| base := Undefined;
                         nodeFetchOptions := ghDownloadHeaders;
                         verbose := gh_verbose options;
                         path := gh_path options;
                         checksumSha256 := gh_checksumSha256 options |}
                      defaultRetries defaultRetryDelay w;
          match r with
          | Ok file => Some (Emits file, w)
          | Err error => Some (CallbackError error, w)
          end
      end
  end.

Definition fetchGithub (repo : string) (options : GithubOptions) (w : World)
  : option (GithubResult * World) :=
  '(rs, w) ← fetchUrls
      ["/repos/" +:+ stripSlashes repo +:+ "/releases/tags/v" +:+ gh_version options]
      (Some {| base := Str "https://api.github.com";
               verbose := gh_verbose options;
               path := gh_path options;
               checksumSha256 := None;
               nodeFetchOptions := ghApiHeaders |}) w;
  match rs with
  | [Ok file] => fetchAsset repo options file w
  | [Err error] => Some (UpstreamError error, w)
  | _ => None
  end.

(** ** Reference definitions *)

(** What a request returns, as a function of its outcome. *)
Definition classify (url : string) (options : Options) (o : FetchOutcome)
  : result Error VinylFile :=
  match o with
  | Rejects reason => Err (FetchRejected reason)
  | Responds response =>
      if ok response && ((200 <=? status response) && (status response <? 300)) then
        match arrayBuffer response with
        | None => Err BodyRejected
        | Some contents =>
            let expected := default "" (checksumSha256 options) in
            if truthy (checksumSha256 options) && negb (String.eqb (sha256 contents) expected)
            then Err (ChecksumMismatch url expected (sha256 contents))
            else Ok {| cwd := "/";
                       file_base := if truthy (path options)
                                    then Str (dirname (default "" (path options)))
                                    else base options;
                       file_path := nullish (path options) url;
                       contents := contents |}
        end
      else Err (RequestFailed url (status response))
  end.

(** The result of the [i]-th request that a call of [fetchUrl] sends, when
    [n0] requests for the url have been sent before the call. *)
Definition outcome (url : string) (options : Options) (n0 i : nat) : result Error VinylFile :=
  classify url options (net url (n0 + i)).

(** * Theorems *)

Implicit Types (w : World) (url : string) (options : Options) (retries retryDelay : Z).

Lemma requestsFor_log verbose entry url w : requestsFor url (log verbose entry w) = requestsFor url w.
Proof. now destruct verbose. Qed.

Lemma requestsFor_sleep ms url w : requestsFor url (sleep ms w) = requestsFor url w.
Proof. reflexivity. Qed.

Lemma requestsFor_send url headers w :
  requestsFor url (send (mkRequest url headers) w) = S (requestsFor url w).
Proof.
  unfold requestsFor, send. simpl. rewrite List.filter_app, length_app. simpl.
  rewrite String.eqb_refl. simpl. lia.
Qed.

Lemma sent_log verbose entry w : sent (log verbose entry w) = sent w.
Proof. now destruct verbose. Qed.

Lemma slept_log verbose entry w : slept (log verbose entry w) = slept w.
Proof. now destruct verbose. Qed.

(** The environment variables have no influence on the verbosity. *)
Lemma isVerbose_ignores_env options : isVerbose options = toBoolean (verbose options).
Proof. reflexivity. Qed.

(** One request: its result is the classification of the outcome, one
    request is sent and nothing is waited for. *)
Lemma attempt_spec url options retries w :
  let r := attempt url options retries w in
  r.1 = classify url options (net url (requestsFor url w)) /\
  sent r.2 = sent w ++ [mkRequest url (nodeFetchOptions options)] /\
  slept r.2 = slept w.
Proof.
  unfold attempt, classify. cbv zeta. rewrite requestsFor_log.
  repeat case_match; simplify_eq; cbn [fst snd];
    repeat (rewrite ?sent_log, ?slept_log; cbn [send sent slept]); auto.
Qed.

(** The loop of [fetchUrl]: with enough fuel it returns the result of the
    first request that succeeds, or of the last request it may send; it has
    sent the requests up to that one and waited before each but the first. *)
Lemma fetchUrl_fuel_spec fuel url options retries retryDelay w :
  (Z.to_nat retries < fuel)%nat ->
  exists k w',
    fetchUrl_fuel fuel url options retries retryDelay w =
      Some (outcome url options (requestsFor url w) k, w') /\
    (k <= Z.to_nat retries)%nat /\
    (forall i, (i < k)%nat -> is_ok (outcome url options (requestsFor url w) i) = false) /\
    (is_ok (outcome url options (requestsFor url w) k) = true \/ k = Z.to_nat retries) /\
    sent w' = sent w ++ repeat (mkRequest url (nodeFetchOptions options)) (S k) /\
    slept w' = slept w ++ repeat retryDelay k.
Proof.
  revert retries w. induction fuel as [|fuel IH]; intros retries w Hfuel; [lia|].
  destruct (attempt_spec url options retries w) as (Hr & Hs & Hz).
  cbn [fetchUrl_fuel]. destruct (attempt url options retries w) as [[file|e] w1] eqn:Ha;
    cbn [fst snd] in Hr, Hs, Hz.
  - exists 0%nat, w1. unfold outcome. rewrite Nat.add_0_r, <- Hr, Hs, Hz, app_nil_r.
    repeat split; auto with lia.
  - destruct (Z.gtb_spec retries 0) as [Hpos|Hneg].
    + set (w2 := sleep retryDelay (log (isVerbose options) (LogFailed url e) w1)).
      assert (requestsFor url w2 = S (requestsFor url w)) as Hn.
      { unfold w2, requestsFor. cbn [sleep sent]. rewrite sent_log, Hs.
        apply (requestsFor_send url (nodeFetchOptions options) w). }
      destruct (IH (retries - 1) w2 ltac:(lia)) as (k & w' & Hf & Hk & Hbad & Hlast & Hs' & Hz').
      rewrite Hn in Hf, Hbad, Hlast. exists (S k), w'.
      unfold outcome in *. rewrite Nat.add_succ_r. split; [exact Hf|].
      split; [lia|]. split; [|split; [|split]].
      * intros [|i] Hi; [now rewrite Nat.add_0_r, <- Hr | rewrite Nat.add_succ_r; apply Hbad; lia].
      * destruct Hlast as [?| ->]; [now left | right; lia].
      * rewrite Hs'. unfold w2. cbn [sleep sent]. now rewrite sent_log, Hs, <- app_assoc.
      * rewrite Hz'. unfold w2. cbn [sleep slept]. now rewrite slept_log, Hz, <- app_assoc.
    + exists 0%nat, (log (isVerbose options) (LogFailed url e) w1).
      unfold outcome. rewrite Nat.add_0_r, <- Hr, sent_log, slept_log, Hs, Hz, app_nil_r.
      repeat split; auto with lia.
Qed.

(** C21: [fetchUrl] returns the result of the first request that succeeds
    among the [retries + 1] requests it may send, or else the error of the
    last one; it sends exactly the requests up to that one, and waits
    [retryDelay] before every request but the first. *)
Theorem fetchUrl_first_success url options retries retryDelay w :
  exists k w',
    fetchUrl url options retries retryDelay w =
      Some (outcome url options (requestsFor url w) k, w') /\
    (k <= Z.to_nat retries)%nat /\
    (forall i, (i < k)%nat -> is_ok (outcome url options (requestsFor url w) i) = false) /\
    (is_ok (outcome url options (requestsFor url w) k) = true \/ k = Z.to_nat retries) /\
    sent w' = sent w ++ repeat (mkRequest url (nodeFetchOptions options)) (S k) /\
    slept w' = slept w ++ repeat retryDelay k.
Proof. apply fetchUrl_fuel_spec. lia. Qed.

(** [fetchUrl] terminates for every number of retries, negative ones
    included: the fuel [fetchUrl] supplies is never used up. *)
Theorem fetchUrl_terminates url options retries retryDelay w :
  is_Some (fetchUrl url options retries retryDelay w).
Proof.
  destruct (fetchUrl_fuel_spec (S (Z.to_nat retries)) url options retries retryDelay w)
    as (k & w' & Hf & _); [lia|]. unfold fetchUrl. rewrite Hf. eauto.
Qed.

(** A call of [fetchUrl] sends at most [retries + 1] requests, 11 with
    the default arguments, and exactly one when [retries] is not positive. *)
Theorem fetchUrl_requests_bound url options retries retryDelay w r w' :
  fetchUrl url options retries retryDelay w = Some (r, w') ->
  (length (sent w) < length (sent w') <= length (sent w) + S (Z.to_nat retries))%nat.
Proof.
  destruct (fetchUrl_fuel_spec (S (Z.to_nat retries)) url options retries retryDelay w)
    as (k & w1 & Hf & Hk & _ & _ & Hs & _); [lia|].
  unfold fetchUrl. rewrite Hf. intros [= <- <-].
  rewrite Hs, length_app, repeat_length. lia.
Qed.

Lemma classify_checksum url options o file :
  classify url options o = Ok file ->
  truthy (checksumSha256 options) = true ->
  checksumSha256 options = Some (sha256 (contents file)).
Proof.
  unfold classify. intros H Ht. rewrite Ht in H.
  repeat case_match; simplify_eq; cbn [contents];
    match goal with H : true && negb _ = false |- _ =>
      rewrite andb_true_l, negb_false_iff in H; apply String.eqb_eq in H; rewrite H
    end; destruct (checksumSha256 options); now try discriminate.
Qed.

Lemma fetchUrl_Ok url options retries retryDelay w file w' :
  fetchUrl url options retries retryDelay w = Some (Ok file, w') ->
  exists n, classify url options (net url n) = Ok file.
Proof.
  destruct (fetchUrl_fuel_spec (S (Z.to_nat retries)) url options retries retryDelay w)
    as (k & w1 & Hf & _); [lia|].
  unfold fetchUrl. rewrite Hf. intros [= Hr _]. eauto.
Qed.

(** C26: a file that [fetchUrl] returns when a checksum was requested has
    that checksum. *)
Theorem fetchUrl_checksum url options retries retryDelay w file w' :
  fetchUrl url options retries retryDelay w = Some (Ok file, w') ->
  truthy (checksumSha256 options) = true ->
  checksumSha256 options = Some (sha256 (contents file)).
Proof.
  intros [n Hr]%fetchUrl_Ok. exact (classify_checksum _ _ _ _ Hr).
Qed.

(** C38: without [options.verbose], [fetchUrl] logs nothing, whatever the
    environment variables [CI] and [BUILD_ARTIFACTSTAGINGDIRECTORY] hold:
    the right operand of [??] is never used. *)
Theorem fetchUrl_quiet url options retries retryDelay w r w' :
  toBoolean (verbose options) = false ->
  fetchUrl url options retries retryDelay w = Some (r, w') ->
  logged w' = logged w.
Proof.
  intros Hv. unfold fetchUrl. generalize (S (Z.to_nat retries)) as fuel.
  intros fuel. revert retries w. induction fuel as [|fuel IH]; intros retries w; [discriminate|].
  cbn [fetchUrl_fuel].
  assert (logged (attempt url options retries w).2 = logged w) as Ha.
  { unfold attempt. rewrite isVerbose_ignores_env, Hv. cbv zeta. cbn [log].
    repeat case_match; simplify_eq; reflexivity. }
  destruct (attempt url options retries w) as [[file|e] w1]; cbn [snd] in Ha.
  - now intros [= <- <-].
  - rewrite isVerbose_ignores_env, Hv. cbn [log]. destruct (retries >? 0).
    + intros H%IH. now rewrite H.
    + now intros [= <- <-].
Qed.

(** ** [fetchUrls] and [fetchGithub] *)

Lemma fetchUrls_nil opts w : fetchUrls [] opts w = Some ([], w).
Proof. reflexivity. Qed.

Lemma fetchUrls_cons data urls opts w :
  fetchUrls (data :: urls) opts w =
    '(r, w) ← fetchUrl (joined (base (withBase opts)) +:+ data) (withBase opts)
                defaultRetries defaultRetryDelay w;
    '(rs, w) ← fetchUrls urls opts w;
    Some (r :: rs, w).
Proof. reflexivity. Qed.

(** [fetchUrls] terminates and yields one result for every url, in the
    order of the urls. *)
Lemma fetchUrls_terminates urls opts w :
  exists rs w', fetchUrls urls opts w = Some (rs, w') /\ length rs = length urls.
Proof.
  revert w. induction urls as [|data urls IH]; intros w; [now exists [], w|].
  rewrite fetchUrls_cons.
  destruct (fetchUrl_terminates (joined (base (withBase opts)) +:+ data) (withBase opts)
              defaultRetries defaultRetryDelay w) as [[r w1] ->].
  destruct (IH w1) as (rs & w' & Hrs & Hlen). cbn. rewrite Hrs. cbn.
  exists (r :: rs), w'. simpl. auto.
Qed.

Lemma fetchUrls_singleton data opts w :
  exists r w', fetchUrls [data] opts w = Some ([r], w') /\
    fetchUrl (joined (base (withBase opts)) +:+ data) (withBase opts)
      defaultRetries defaultRetryDelay w = Some (r, w').
Proof.
  rewrite fetchUrls_cons.
  destruct (fetchUrl_terminates (joined (base (withBase opts)) +:+ data) (withBase opts)
              defaultRetries defaultRetryDelay w) as [[r w1] ->].
  now exists r, w1.
Qed.

Lemma fetchAsset_terminates repo gh file w : is_Some (fetchAsset repo gh file w).
Proof.
  unfold fetchAsset. destruct (parseAssets _) as [assets|]; [|eauto].
  destruct (findAsset _ assets) as [[asset|]|]; [|eauto..].
  match goal with |- context [fetchUrl ?u ?o ?r ?d ?w] =>
    destruct (fetchUrl_terminates u o r d w) as [[[f|e] w1] ->] end; cbn; eauto.
Qed.

(** [fetchGithub] terminates: the release is requested at most 11 times, and
    the asset at most 11 times. *)
Lemma fetchGithub_terminates repo gh w : is_Some (fetchGithub repo gh w).
Proof.
  unfold fetchGithub.
  match goal with |- context [fetchUrls [?d] ?o ?w] =>
    destruct (fetchUrls_singleton d o w) as (r & w1 & -> & _) end.
  cbn. destruct r; [apply fetchAsset_terminates | eauto].
Qed.

(** An asset that [fetchGithub] delivers when a checksum was requested has
    that checksum. *)
Lemma fetchGithub_checksum repo gh w file w' :
  fetchGithub repo gh w = Some (Emits file, w') ->
  truthy (gh_checksumSha256 gh) = true ->
  gh_checksumSha256 gh = Some (sha256 (contents file)).
Proof.
  unfold fetchGithub.
  match goal with |- context [fetchUrls [?d] ?o ?w] =>
    destruct (fetchUrls_singleton d o w) as (r & w1 & -> & _) end.
  cbn. destruct r as [release|e]; [|discriminate]. unfold fetchAsset.
  destruct (parseAssets _) as [assets|]; [|discriminate].
  destruct (findAsset _ assets) as [[asset|]|]; [|discriminate..].
  match goal with |- context [fetchUrl ?u ?o ?r ?d ?w] =>
    destruct (fetchUrl u o r d w) as [[[f|e] w2]|] eqn:Hf end; cbn; try discriminate.
  intros [= <- <-] Ht. apply fetchUrl_Ok in Hf as [n Hr].
  exact (classify_checksum _ _ _ _ Hr Ht).
Qed.

(** With a name that is not callable [fetchGithub] delivers no asset: the
    release has no assets and none is found, or the filter throws at the
    first one. *)
Lemma fetchGithub_not_callable repo gh w r w' :
  gh_name gh = NotCallable -> fetchGithub repo gh w = Some (r, w') ->
  match r with Emits _ => False | _ => True end.
Proof.
  intros Hname. unfold fetchGithub.
  match goal with |- context [fetchUrls [?d] ?o ?w] =>
    destruct (fetchUrls_singleton d o w) as (r0 & w1 & -> & _) end.
  cbn. destruct r0 as [release|e]; [|now intros [= <- <-]]. unfold fetchAsset. rewrite Hname.
  destruct (parseAssets _) as [[|asset assets]|]; cbn; now intros [= <- <-].
Qed.

End Fetch.

(** * Examples *)

(** A server that refuses the connection, then answers 503, then delivers
    two bytes. *)
Definition example_net (url : string) (n : nat) : FetchOutcome :=
  match n with
  | 0%nat => Rejects "ECONNRESET"
  | 1%nat => Responds (mkResponse false 503 None)
  | _ => Responds (mkResponse true 200 (Some [x01; x02]))
  end.

(** A stand-in for the hash: the length of the contents decides. *)
Definition example_sha256 (c : list byte) : string :=
  if (length c =? 2)%nat then "good" else "bad".

Definition example_options : Options :=
  mkOptions (Str "/") None (Some "good") None [].

Definition example_fetchUrl :=
  fetchUrl example_net example_sha256 (fun s => s) (Some "true") None.

(** The third request succeeds: three requests are sent and two delays
    waited. *)
Example fetchUrl_example :
  exists w', example_fetchUrl "https://host/file" example_options 10 1000 emptyWorld =
    Some (Ok (mkVinylFile "/" (Str "/") "https://host/file" [x01; x02]), w') /\
  length (sent w') = 3%nat /\ slept w' = [1000; 1000].
Proof. eexists. vm_compute. repeat split. Qed.

Lemma fetchUrl_requests_bound_witness :
  let w' := default emptyWorld
              (snd <$> example_fetchUrl "https://host/file" example_options 1 1000 emptyWorld) in
  (length (sent emptyWorld) < length (sent w') <= length (sent emptyWorld) + S (Z.to_nat 1))%nat.
Proof.
  eapply (fetchUrl_requests_bound example_net example_sha256 (fun s => s) (Some "true") None
            "https://host/file" example_options 1 1000 emptyWorld).
  vm_compute. reflexivity.
Defined.

Lemma fetchUrl_checksum_witness :
  checksumSha256 example_options = Some (example_sha256 [x01; x02]).
Proof.
  eapply (fetchUrl_checksum example_net example_sha256 (fun s => s) (Some "true") None
            "https://host/file" example_options 10 1000 emptyWorld
            (mkVinylFile "/" (Str "/") "https://host/file" [x01; x02])).
  - vm_compute. reflexivity.
  - reflexivity.
Defined.

(** With [CI] set and no [verbose] option nothing is logged. *)
Lemma fetchUrl_quiet_witness :
  logged (default emptyWorld
            (snd <$> example_fetchUrl "https://host/file" example_options 10 1000 emptyWorld)) = [].
Proof.
  eapply (fetchUrl_quiet example_net example_sha256 (fun s => s) (Some "true") None
            "https://host/file" example_options 10 1000 emptyWorld).
  - reflexivity.
  - vm_compute. reflexivity.
Defined.

Definition example_gh : GithubOptions :=
  mkGithubOptions "20231120-245067" (ByName "x86_64-vscode-linux-gnu.tar.gz") None None
    (Some "good").

Definition example_parseAssets (c : list byte) : option (list Asset) :=
  Some [mkAsset "aarch64-vscode-linux-gnu.tar.gz" "https://host/asset/1";
        mkAsset "x86_64-vscode-linux-gnu.tar.gz" "https://host/asset/2"].

Definition example_fetchGithub :=
  fetchGithub example_net example_sha256 (fun s => s) (Some "true") None None (fun s => s)
    example_parseAssets.

(** The release is fetched in three requests and the asset in three more. *)
Example fetchGithub_example :
  exists w', example_fetchGithub "/Microsoft/vscode-linux-build-agent/" example_gh emptyWorld =
    Some (Emits (mkVinylFile "/" Undefined "https://host/asset/2" [x01; x02]), w') /\
  req_url <$> sent w' =
    repeat "https://api.github.com/repos/Microsoft/vscode-linux-build-agent/releases/tags/v20231120-245067" 3 ++
    repeat "https://host/asset/2" 3.
Proof. eexists. vm_compute. split; reflexivity. Qed.

Example fetchGithub_checksum_example :
  gh_checksumSha256 example_gh = Some (example_sha256 [x01; x02]).
Proof.
  eapply (fetchGithub_checksum example_net example_sha256 (fun s => s) (Some "true") None None
            (fun s => s) example_parseAssets "/Microsoft/vscode-linux-build-agent/" example_gh
            emptyWorld (mkVinylFile "/" Undefined "https://host/asset/2" [x01; x02])).
  - vm_compute. reflexivity.
  - reflexivity.
Qed.
