(* ===== verification/Sysroot.v ===== *)
(** * Installing a sysroot

    The functions of install-sysroot.ts ([src/build/lib/fetch.js], lines
    154-299; lines 300-451 are the compiled copy of the same file, which
    [SysrootJs] models):
    [getSha], [getVSCodeSysrootChecksum], [getVSCodeSysroot] and
    [getChromiumSysroot].

    The file system is a map from paths to entries; [path.join] is the
    concatenation with a slash, which is what it computes on the paths the
    code builds.  The processes and libraries the code calls are parameters:
    the SHA-1 state with its [update] and [digest], the unpacking done by
    [gunzip] and [untar], [curl], [tar], the requests of [https.get].  A
    hash state is updated piecewise with the same result as at once
    (hypothesis [sha1_update_app]).

    [getSha] reads the file in pieces of [buffer.length] bytes; its loop is
    written with fuel, and [getSha] supplies one more than the length of
    the file, which is enough for every buffer that is not empty (lemma
    [getSha_loop_spec]).  [readSync] delivers as many bytes as are asked
    while the file has them; [getSha_short] is the function when a read may
    deliver fewer.

    Errors.  [fs.readFileSync] throws for a path that is no file
    ([readFileSync] is [None]): in [getVSCodeSysrootChecksum], which runs
    inside the executor of the promise of [getVSCodeSysroot], and in the
    test of the stamp, the exception rejects the promise or is thrown by
    [getChromiumSysroot] ([ReadFailed]).  The calls that write succeed:
    the temporary directory is there and can be written, and the tarball
    that [getSha] opens is the file that the download loop has created.
    The status of a child process is
    a number or [null] ([Status]); the code compares the status of [curl]
    with 0 and tests the status of [tar] for truthiness
    ([truthyStatus]). *)

From S2P Require Import Prelude Fetch.
From Stdlib Require Import Strings.Byte.

(** * The file system *)

Inductive Entry : Type :=
| Directory
| RegularFile (data : string).

Definition FS : Type := list (string * Entry).

(** [path.join(a, b)] *)
Definition path_join (a b : string) : string := a +:+ "/" +:+ b.

Definition existsSync (p : string) (fs : FS) : bool := map_has p fs.

(** [fs.readFileSync(p).toString()]; [None] when it throws. *)
Definition readFileSync (p : string) (fs : FS) : option string :=
  match map_get p fs with
  | Some (RegularFile data) => Some data
  | _ => None
  end.

(** [fs.existsSync(stamp) && fs.readFileSync(stamp).toString() === text],
    with [text] a string or [undefined]: [None] when [readFileSync] throws,
    which it does for a directory. *)
Definition stampIs (stamp : string) (text : option string) (fs : FS) : option bool :=
  if existsSync stamp fs then
    match readFileSync stamp fs with
    | Some data => Some (bool_decide (Some data = text))
    | None => None
    end
  else Some false.

Definition writeFileSync (p : string) (data : string) (fs : FS) : FS :=
  map_set p (RegularFile data) fs.

Definition appendFileSync (p : string) (chunk : string) (fs : FS) : FS :=
  map_set p (RegularFile (default "" (readFileSync p fs) +:+ chunk)) fs.

Definition mkdirSync (p : string) (fs : FS) : FS := map_set p Directory fs.

(** Whether [p] is [root] or lies below it. *)
Definition below (root p : string) : bool :=
  String.eqb p root || String.prefix (root +:+ "/") p.

(** [fs.rmSync(root, { recursive: true, force: true })] *)
Definition rmSync_recursive (root : string) (fs : FS) : FS :=
  List.filter (fun e => negb (below root e.1)) fs.

(** [fs.rmSync(p)] of a file. *)
Definition rmSync (p : string) (fs : FS) : FS :=
  List.filter (fun e => negb (String.eqb e.1 p)) fs.

(** * Checksums *)

Definition isSpace (c : ascii) : bool :=
  match c with
  | " " | "009" | "010" | "011" | "012" | "013" => true
  | _ => false
  end%char.

(** [line.split(/\s+/)]: the pieces between the runs of white space.
    [inRun] says that the character before was white space. *)
Fixpoint splitSpaces_aux (inRun : bool) (s : string) : list string :=
  match s with
  | EmptyString => [EmptyString]
  | String c s' =>
      if isSpace c then
        if inRun then splitSpaces_aux true s'
        else EmptyString :: splitSpaces_aux true s'
      else
        match splitSpaces_aux false s' with
        | piece :: pieces => String c piece :: pieces
        | [] => [String c EmptyString]
        end
  end.

Definition splitSpaces (s : string) : list string := splitSpaces_aux false s.

(** The loop of [getVSCodeSysrootChecksum] over the lines of the file. *)
Fixpoint findChecksum (lines : list string) (expectedName : string) : option string :=
  match lines with
  | [] => None
  | line :: lines =>
      let pieces := splitSpaces line in
      let checksum := pieces !! 0%nat in
      let name := pieces !! 1%nat in
      if bool_decide (name = Some expectedName) then checksum
      else findChecksum lines expectedName
  end.

(** A line of the checksum file as [sha256sum] prints it. *)
Definition checksumLine (entry : string * string) : string := entry.1 +:+ "  " +:+ entry.2.

Fixpoint noSpace (s : string) : bool :=
  match s with
  | EmptyString => true
  | String c s' => negb (isSpace c) && noSpace s'
  end.

(** * Architectures *)

Inductive DebianArchString : Type := amd64 | arm64 | armhf.

Definition archName (arch : DebianArchString) : string :=
  match arch with
  | amd64 => "amd64"
  | arm64 => "arm64"
  | armhf => "armhf"
  end.

Definition triple (arch : DebianArchString) : string :=
  match arch with
  | amd64 => "x86_64-vscode-linux-gnu"
  | arm64 => "aarch64-vscode-linux-gnu"
  | armhf => "arm-vscode-linux-gnueabihf"
  end.

Definition expectedName (arch : DebianArchString) : string := triple arch +:+ ".tar.gz".

Definition URL_PREFIX : string := "https://msftelectron.blob.core.windows.net".
Definition URL_PATH : string := "sysroots/toolchain".

Record SysrootDictEntry : Type := mkSysrootDictEntry {
  Sha1Sum : string;
  SysrootDir : string;
  Tarball : string
}.

(** * Outcomes *)

Inductive SysrootError : Type :=
| NoChecksum (name : string)
| FetchError (e : Error)
| UnpackFailed
| CurlFailed
| NoDictEntry
| DownloadFailed (url : string)
| WrongSha (expected actual : string)
| ExtractionFailed (code : Z)
| InvalidData    (* the TypeError of writeFileSync for data that is undefined *)
| ReadFailed (path : string).   (* readFileSync: no such file, or a directory *)

(** The [status] of a child process that [spawnSync] returns,
    [number | null]: [null] when the process was ended by a signal or
    could not be started. *)
Definition Status : Type := option Z.

(** [if (proc.status)]: a number other than 0. *)
Definition truthyStatus (status : Status) : bool :=
  match status with
  | Some code => negb (code =? 0)
  | None => false
  end.

(** How the promise of [getVSCodeSysroot] ends: resolved; rejected; not at
    all, because a stream without a listener for errors has emitted one, or
    because the transform of [fetchGithub] never called back. *)
Inductive Settlement : Type :=
| Resolved (sysroot : string)
| Rejected (e : SysrootError)
| UncaughtStreamError (e : SysrootError)
| NeverSettled.

(** What a request of [https.get] delivers: the chunks of data, and whether
    the response ended or the request failed, with the message of its
    error. *)
Record Download : Type := mkDownload { chunks : list string; ended : bool; message : string }.

(** The state of the machine: the file system, the world of the fetches,
    the lines written to the standard output ([console.log]) and to the
    standard error ([console.error]). *)
Record Sys : Type := mkSys {
  fs : FS;
  world : World;
  console : list string;
  errors : list string
}.

Definition with_fs (f : FS -> FS) (s : Sys) : Sys :=
  mkSys (f (fs s)) (world s) (console s) (errors s).

Definition console_log (line : string) (s : Sys) : Sys :=
  mkSys (fs s) (world s) (console s ++ [line]) (errors s).

Definition console_error (line : string) (s : Sys) : Sys :=
  mkSys (fs s) (world s) (console s) (errors s ++ [line]).

(** [fetchGithub_cases]: the four results of the call of [fetchGithub] in the
    goal; the call returns ([Fetch.fetchGithub_terminates]). *)
Ltac fetchGithub_cases :=
  match goal with
  | |- context [fetchGithub ?x1 ?x2 ?x3 ?x4 ?x5 ?x6 ?x7 ?x8 ?x9 ?x10 ?x11] =>
      let H := fresh "Hfetch" in
      let file := fresh "file" in
      destruct (fetchGithub x1 x2 x3 x4 x5 x6 x7 x8 x9 x10 x11) as [[[file| | |] ?]|] eqn:H;
      [ | | | | exfalso;
                pose proof (fetchGithub_terminates x1 x2 x3 x4 x5 x6 x7 x8 x9 x10 x11) as X;
                rewrite H in X; now destruct X ]
  end.

Section Sysroot.

(** The parameters of the fetches. *)
Context (net : string -> nat -> FetchOutcome).
Context (sha256 : list byte -> string).
Context (dirname : string -> string).
Context (env_CI env_BUILD_ARTIFACTSTAGINGDIRECTORY env_GITHUB_TOKEN : option string).
Context (base64 : string -> string).
Context (parseAssets : list byte -> option (list Asset)).

(** SHA-1: the state of a hash, and that updating it piecewise is updating
    it at once. *)
Context {Hash : Type}.
Context (createHash : Hash).
Context (sha1_update : Hash -> list ascii -> Hash).
Context (sha1_digest : Hash -> string).
Hypothesis sha1_update_app :
  forall h a b, sha1_update (sha1_update h a) b = sha1_update h (a ++ b).

(** The environment: directories, [product.sysrootRepository], the version
    of Electron, the unpacking of a tarball by [gunzip] and [untar] (the
    relative paths and the data of its files), [curl] (its status and the
    text it stores), the entry of a key in the JSON text, the requests of
    [https.get], [tar] (its status and the files it extracts). *)
Context (REPO_ROOT tmpdir sysrootRepository electronVersion : string).
Context (unpack : list byte -> option (list (string * string))).
Context (curl : string -> Status * string).
Context (sysrootInfo : string -> string -> option SysrootDictEntry).
Context (https_get : string -> nat -> Download).
Context (tar : string -> Status * list (string * string)).

(** ** [getSha] *)

(** [fs.readSync(fd, buffer, 0, length, position)]: the bytes read, and the
    buffer with them at its start.  The call delivers as many bytes as are
    asked while the file has them, as the system does for a regular file;
    [readSync_short] below is the call without that assumption. *)
Definition readSync (file buffer : list ascii) (len position : nat) : nat * list ascii :=
  let bytes := take len (drop position file) in
  (length bytes, bytes ++ drop (length bytes) buffer).

Fixpoint getSha_loop (fuel : nat) (file : list ascii) (hash : Hash) (buffer : list ascii)
    (position : nat) : option Hash :=
  match fuel with
  | O => None
  | S fuel =>
      let '(bytesRead, buffer) := readSync file buffer (length buffer) position in
      if (bytesRead =? length buffer)%nat then
        getSha_loop fuel file (sha1_update hash buffer) buffer (position + bytesRead)
      else Some (sha1_update hash (take bytesRead buffer))
  end.

(** [getSha] with a buffer of [bufferLength] bytes, on the contents of the
    file. *)
Definition getSha_with (bufferLength : nat) (file : list ascii) : option string :=
  hash ← getSha_loop (S (length file)) file createHash (repeat "000"%char bufferLength) 0;
  Some (sha1_digest hash).

Definition getSha (file : list ascii) : option string := getSha_with (1024 * 1024) file.

(** The same when a read may be short: at [position] the system delivers
    [deliver position] bytes at most. *)
Definition readSync_short (deliver : nat -> nat) (file buffer : list ascii)
    (len position : nat) : nat * list ascii :=
  let bytes := take (Nat.min len (deliver position)) (drop position file) in
  (length bytes, bytes ++ drop (length bytes) buffer).

Fixpoint getSha_loop_short (deliver : nat -> nat) (fuel : nat) (file : list ascii) (hash : Hash)
    (buffer : list ascii) (position : nat) : option Hash :=
  match fuel with
  | O => None
  | S fuel =>
      let '(bytesRead, buffer) := readSync_short deliver file buffer (length buffer) position in
      if (bytesRead =? length buffer)%nat then
        getSha_loop_short deliver fuel file (sha1_update hash buffer) buffer
          (position + bytesRead)
      else Some (sha1_update hash (take bytesRead buffer))
  end.

Definition getSha_short (deliver : nat -> nat) (bufferLength : nat) (file : list ascii)
  : option string :=
  hash ← getSha_loop_short deliver (S (length file)) file createHash
           (repeat "000"%char bufferLength) 0;
  Some (sha1_digest hash).

(** ** [getVSCodeSysrootChecksum] *)

Definition checksumsPath : string :=
  path_join (path_join (path_join REPO_ROOT "build") "checksums") "vscode-sysroot.txt".

(** [readFileSync] throws when the file of the checksums cannot be read. *)
Definition getVSCodeSysrootChecksum (expectedName : string) (fs : FS)
  : result SysrootError (option string) :=
  match readFileSync checksumsPath fs with
  | Some checksums => Ok (findChecksum (split "010" checksums) expectedName)
  | None => Err (ReadFailed checksumsPath)
  end.

(** ** [getVSCodeSysroot] *)

(** [gulp.dest(sysroot)]: the files of the tarball are written below the
    directory. *)
Definition dest (sysroot : string) (files : list (string * string)) (fs : FS) : FS :=
  fold_left (fun fs f => writeFileSync (path_join sysroot f.1) f.2 fs) files fs.

(** What is thrown in the executor of the promise rejects the promise:
    the errors of [readFileSync]. *)
Definition getVSCodeSysroot (arch : DebianArchString) (s : Sys) : option (Settlement * Sys) :=
  let expectedName := expectedName arch in
  let triple := triple arch in
  match getVSCodeSysrootChecksum expectedName (fs s) with
  | Err e => Some (Rejected e, s)
  | Ok checksumSha256 =>
  if negb (truthy checksumSha256) then Some (Rejected (NoChecksum expectedName), s)
  else
    let sysroot := path_join tmpdir ("vscode-" +:+ archName arch +:+ "-sysroot") in
    let stamp := path_join sysroot ".stamp" in
    match stampIs stamp (Some expectedName) (fs s) with
    | None => Some (Rejected (ReadFailed stamp), s)
    | Some true => Some (Resolved sysroot, s)
    | Some false =>
      let s := console_log ("Installing " +:+ archName arch +:+ " root image: " +:+ sysroot) s in
      let s := with_fs (rmSync_recursive sysroot) s in
      let s := with_fs (mkdirSync sysroot) s in
      '(r, w) ← fetchGithub net sha256 dirname env_CI env_BUILD_ARTIFACTSTAGINGDIRECTORY
                  env_GITHUB_TOKEN base64 parseAssets sysrootRepository
                  {| gh_version := "20231120-245067";
                     gh_name := ByName expectedName;
                     gh_verbose := None;
                     gh_path := Some sysroot;
                     gh_checksumSha256 := checksumSha256 |} (world s);
      let s := mkSys (fs s) w (console s) (errors s) in
      match r with
      | Emits file =>
          match unpack (contents file) with
          | Some files =>
              let s := with_fs (dest sysroot files) s in
              let s := with_fs (writeFileSync stamp expectedName) s in
              Some (Resolved (sysroot +:+ "/" +:+ triple +:+ "/" +:+ triple +:+ "/sysroot"), s)
          | None => Some (UncaughtStreamError UnpackFailed, s)
          end
      | CallbackError e | UpstreamError e => Some (UncaughtStreamError (FetchError e), s)
      | Unhandled => Some (NeverSettled, s)
      end
    end
  end.

(** ** [getChromiumSysroot] *)

(** The loop that downloads the tarball: at most three requests, each into
    the emptied file; [i] counts them. *)
Fixpoint download_loop (fuel : nat) (url tarball : string) (i : nat) (downloadSuccess : bool)
    (s : Sys) : option (bool * Sys) :=
  match fuel with
  | O => None
  | S fuel =>
      if (i <? 3)%nat && negb downloadSuccess then
        let s := with_fs (writeFileSync tarball "") s in
        let d := https_get url i in
        let s := with_fs (fun fs => fold_left (fun fs chunk => appendFileSync tarball chunk fs)
                                      (chunks d) fs) s in
        let '(downloadSuccess, s) :=
          if ended d then (true, s)
          else (downloadSuccess,
                console_error ("Encountered an error during the download attempt: " +:+
                               message d) s) in
        download_loop fuel url tarball (S i) downloadSuccess s
      else Some (downloadSuccess, s)
  end.

Definition getChromiumSysroot (arch : DebianArchString) (s : Sys)
  : option (result SysrootError string * Sys) :=
  let sysrootJSONUrl := "https://raw.githubusercontent.com/electron/electron/v" +:+
                        electronVersion +:+ "/script/sysroots.json" in
  let sysrootDictLocation := tmpdir +:+ "/sysroots.json" in
  let result := curl sysrootJSONUrl in
  let s := if bool_decide (result.1 = Some 0)
           then with_fs (writeFileSync sysrootDictLocation result.2) s else s in
  if negb (bool_decide (result.1 = Some 0)) then Some (Err CurlFailed, s)
  else
    let sysrootArch := match arch with
                       | armhf => "bullseye_arm"
                       | _ => "bullseye_" +:+ archName arch
                       end in
    match sysrootInfo (default "" (readFileSync sysrootDictLocation (fs s))) sysrootArch with
    | None => Some (Err NoDictEntry, s)
    | Some sysrootDict =>
        let tarballFilename := Tarball sysrootDict in
        let tarballSha := Sha1Sum sysrootDict in
        let sysroot := path_join tmpdir (SysrootDir sysrootDict) in
        let url := join "/" [URL_PREFIX; URL_PATH; tarballSha; tarballFilename] in
        let stamp := path_join sysroot ".stamp" in
        match stampIs stamp (Some url) (fs s) with
        | None => Some (Err (ReadFailed stamp), s)
        | Some true => Some (Ok sysroot, s)
        | Some false =>
          let s := console_log ("Installing Debian " +:+ archName arch +:+ " root image: " +:+
                                sysroot) s in
          let s := with_fs (rmSync_recursive sysroot) s in
          let s := with_fs (mkdirSync sysroot) s in
          let tarball := path_join sysroot tarballFilename in
          let s := console_log ("Downloading " +:+ url) s in
          '(downloadSuccess, s) ← download_loop 4 url tarball 0 false s;
          if negb downloadSuccess then
            Some (Err (DownloadFailed url), with_fs (rmSync tarball) s)
          else
            sha ← getSha (list_ascii_of_string (default "" (readFileSync tarball (fs s))));
            if negb (String.eqb sha tarballSha) then Some (Err (WrongSha tarballSha sha), s)
            else
              let proc := tar (default "" (readFileSync tarball (fs s))) in
              if truthyStatus proc.1 then Some (Err (ExtractionFailed (default 0 proc.1)), s)
              else
                let s := with_fs (dest sysroot proc.2) s in
                let s := with_fs (rmSync tarball) s in
                let s := with_fs (writeFileSync stamp url) s in
                Some (Ok sysroot, s)
        end
    end.

(** ** Reference definitions *)

(** The directory of the sysroot of an architecture, its stamp, and the
    path inside it that an installation returns. *)
Definition sysrootDir (arch : DebianArchString) : string :=
  path_join tmpdir ("vscode-" +:+ archName arch +:+ "-sysroot").

Definition stampOf (sysroot : string) : string := path_join sysroot ".stamp".

Definition installedPath (arch : DebianArchString) : string :=
  sysrootDir arch +:+ "/" +:+ triple arch +:+ "/" +:+ triple arch +:+ "/sysroot".

(** The url of the tarball of an entry of sysroots.json. *)
Definition tarballUrl (entry : SysrootDictEntry) : string :=
  join "/" [URL_PREFIX; URL_PATH; Sha1Sum entry; Tarball entry].

(** The url of sysroots.json for the version of Electron. *)
Definition sysrootJSONUrl : string :=
  "https://raw.githubusercontent.com/electron/electron/v" +:+ electronVersion +:+
  "/script/sysroots.json".

(** The first of the three requests that ends. *)
Definition firstEnded (url : string) : option nat :=
  List.find (fun i => ended (https_get url i)) [0; 1; 2]%nat.

(** * Theorems *)

(** ** The file system *)

Lemma readFileSync_write p data fs : readFileSync p (writeFileSync p data fs) = Some data.
Proof. unfold readFileSync, writeFileSync. now rewrite map_get_set_eq. Qed.

Lemma readFileSync_write_ne p q data fs :
  p <> q -> readFileSync p (writeFileSync q data fs) = readFileSync p fs.
Proof. intros H. unfold readFileSync, writeFileSync. now rewrite map_get_set_ne. Qed.

Lemma existsSync_write p data fs : existsSync p (writeFileSync p data fs) = true.
Proof.
  unfold existsSync, map_has, writeFileSync. rewrite map_get_set_eq.
  apply bool_decide_eq_true. eauto.
Qed.

(** A status that is not truthy is 0 or [null]. *)
Lemma truthyStatus_false status : truthyStatus status = false <-> status = Some 0 \/ status = None.
Proof.
  destruct status as [code|]; cbn; [|split; auto]. rewrite negb_false_iff, Z.eqb_eq.
  split; [intros ->; auto | intros [[= ->]|[=]]; reflexivity].
Qed.

(** The stamp is valid exactly when it is a file with the text. *)
Lemma stampIs_true stamp text fs :
  stampIs stamp (Some text) fs = Some true <-> readFileSync stamp fs = Some text.
Proof.
  unfold stampIs, existsSync, map_has, readFileSync.
  destruct (map_get stamp fs) as [[|data]|] eqn:E.
  - rewrite bool_decide_eq_true_2 by eauto. split; discriminate.
  - rewrite bool_decide_eq_true_2 by eauto. split.
    + intros [= H%bool_decide_eq_true]. exact H.
    + intros ->. now rewrite bool_decide_eq_true_2.
  - rewrite bool_decide_eq_false_2 by (intros [? [=]]). split; discriminate.
Qed.

Lemma readFileSync_append p chunk fs data :
  readFileSync p fs = Some data ->
  readFileSync p (appendFileSync p chunk fs) = Some (data +:+ chunk).
Proof.
  intros H. unfold appendFileSync. rewrite H. unfold readFileSync.
  now rewrite map_get_set_eq.
Qed.

Lemma append_String a s t : String a s +:+ t = String a (s +:+ t).
Proof. reflexivity. Qed.

Lemma append_empty_r s : s +:+ "" = s.
Proof. induction s as [|a s IH]; [reflexivity|]. now rewrite append_String, IH. Qed.

Lemma append_append s t u : (s +:+ t) +:+ u = s +:+ (t +:+ u).
Proof. induction s as [|a s IH]; [reflexivity|]. now rewrite !append_String, IH. Qed.

Lemma concat_empty_cons c chunks : String.concat "" (c :: chunks) = c +:+ String.concat "" chunks.
Proof. destruct chunks; [symmetry; apply append_empty_r | reflexivity]. Qed.

Lemma readFileSync_appends p chunks fs data :
  readFileSync p fs = Some data ->
  readFileSync p (fold_left (fun fs chunk => appendFileSync p chunk fs) chunks fs) =
    Some (data +:+ String.concat "" chunks).
Proof.
  revert fs data. induction chunks as [|c chunks IH]; intros fs data H.
  - simpl. now rewrite H, append_empty_r.
  - cbn [fold_left]. rewrite (IH _ _ (readFileSync_append _ c _ _ H)).
    now rewrite concat_empty_cons, append_append.
Qed.

(** ** The checksum file *)

Lemma splitSpaces_aux_noSpace inRun s : noSpace s = true -> splitSpaces_aux inRun s = [s].
Proof.
  revert inRun. induction s as [|c s IH]; intros inRun; simpl; [reflexivity|].
  intros [Hc Hs]%andb_prop. apply negb_true_iff in Hc. now rewrite Hc, (IH false Hs).
Qed.

Lemma splitSpaces_checksumLine entry :
  noSpace entry.1 = true -> noSpace entry.2 = true ->
  splitSpaces (checksumLine entry) = [entry.1; entry.2].
Proof.
  destruct entry as [c n]. unfold splitSpaces, checksumLine. simpl fst. simpl snd.
  intros Hc Hn. induction c as [|a c IH]; simpl.
  - now rewrite splitSpaces_aux_noSpace.
  - simpl in Hc. apply andb_prop in Hc as [Ha Hc]. apply negb_true_iff in Ha.
    now rewrite Ha, (IH Hc).
Qed.

(** In a list of lines of the form that [sha256sum] prints, checksum and
    name without white space, [findChecksum] returns the checksum of the
    first line with the expected name, and nothing if there is none. *)
Lemma findChecksum_checksumLines entries expectedName :
  Forall (fun e => noSpace e.1 = true /\ noSpace e.2 = true) entries ->
  findChecksum (checksumLine <$> entries) expectedName =
    fst <$> List.find (fun e => String.eqb e.2 expectedName) entries.
Proof.
  induction 1 as [|e entries [Hc Hn] _ IH]; [reflexivity|]. csimpl.
  rewrite splitSpaces_checksumLine by assumption. cbn [lookup list_lookup].
  destruct (String.eqb_spec e.2 expectedName) as [->|Hne].
  - now rewrite bool_decide_eq_true_2.
  - rewrite bool_decide_eq_false_2 by congruence. exact IH.
Qed.

(** ** [getSha] *)

Lemma readSync_length file buffer position :
  length (readSync file buffer (length buffer) position).2 = length buffer.
Proof.
  unfold readSync. cbn [snd]. rewrite length_app, length_drop, length_take, length_drop. lia.
Qed.

(** The loop of [getSha] ends when the fuel exceeds the number of bytes
    left: every round but the last reads a full buffer. *)
Lemma getSha_loop_terminates fuel file hash buffer position :
  (0 < length buffer)%nat ->
  (length file - position < fuel)%nat ->
  is_Some (getSha_loop fuel file hash buffer position).
Proof.
  revert hash buffer position. induction fuel as [|fuel IH]; intros hash buffer position HL Hf;
    [lia|].
  cbn [getSha_loop]. pose proof (readSync_length file buffer position) as Hlen.
  unfold readSync in *. cbn [snd] in Hlen.
  set (bytes := take (length buffer) (drop position file)) in *.
  assert (length bytes = Nat.min (length buffer) (length file - position)) as Hb
    by (unfold bytes; now rewrite length_take, length_drop).
  rewrite Hlen. destruct (Nat.eqb_spec (length bytes) (length buffer)) as [E|E]; [|eauto].
  apply IH; rewrite ?Hlen; lia.
Qed.

Lemma getSha_terminates file : is_Some (getSha file).
Proof.
  unfold getSha, getSha_with.
  destruct (getSha_loop_terminates (S (length file)) file createHash
              (repeat "000"%char (1024 * 1024)) 0) as [hash ->]; [rewrite repeat_length| |]; 
    [lia..|]. cbn. eauto.
Qed.

(** The loop of [getSha] hashes the rest of the file, whatever the buffer
    holds, when the fuel exceeds the number of bytes left. *)
Lemma getSha_loop_spec fuel file hash buffer position :
  (0 < length buffer)%nat ->
  (length file - position < fuel)%nat ->
  getSha_loop fuel file hash buffer position = Some (sha1_update hash (drop position file)).
Proof.
  revert hash buffer position. induction fuel as [|fuel IH]; intros hash buffer position HL Hf;
    [lia|].
  cbn [getSha_loop]. pose proof (readSync_length file buffer position) as Hlen.
  unfold readSync in *. cbn [snd] in Hlen.
  set (bytes := take (length buffer) (drop position file)) in *.
  assert (length bytes = Nat.min (length buffer) (length file - position)) as Hb
    by (unfold bytes; now rewrite length_take, length_drop).
  rewrite Hlen. destruct (Nat.eqb_spec (length bytes) (length buffer)) as [E|E].
  - rewrite IH by (rewrite ?Hlen; lia).
    rewrite E, drop_all, app_nil_r, sha1_update_app. unfold bytes.
    now rewrite <- (drop_drop file), take_drop.
  - rewrite take_app_length. f_equal. f_equal. unfold bytes. apply take_ge.
    rewrite length_drop. lia.
Qed.

(** C22: [getSha] terminates and returns the digest of the whole file: the
    hash of the pieces of [buffer.length] bytes, followed by the hash of the
    rest, is the hash of the file.  Every read delivers a full buffer while
    the file has one ([readSync]); [getSha_short_full] and
    [getSha_short_prefix] say what the function returns when a read may be
    short. *)
Theorem getSha_with_correct bufferLength file :
  (0 < bufferLength)%nat ->
  getSha_with bufferLength file = Some (sha1_digest (sha1_update createHash file)).
Proof.
  intros HL. unfold getSha_with.
  rewrite getSha_loop_spec by (rewrite ?repeat_length; lia). reflexivity.
Qed.

(** When no read is short, [getSha_short] is [getSha_with]. *)
Lemma readSync_short_full deliver file buffer position :
  (length buffer <= deliver position)%nat ->
  readSync_short deliver file buffer (length buffer) position =
    readSync file buffer (length buffer) position.
Proof. intros H. unfold readSync_short, readSync. now rewrite Nat.min_l. Qed.

Lemma getSha_loop_short_full deliver fuel file hash buffer position :
  (forall p, length buffer <= deliver p)%nat ->
  getSha_loop_short deliver fuel file hash buffer position =
    getSha_loop fuel file hash buffer position.
Proof.
  intros Hfull. revert hash buffer position Hfull.
  induction fuel as [|fuel IH]; intros hash buffer position Hfull; [reflexivity|].
  cbn [getSha_loop_short getSha_loop]. rewrite readSync_short_full by apply Hfull.
  pose proof (readSync_length file buffer position) as Hlen.
  destruct (readSync file buffer (length buffer) position) as [bytesRead buffer'].
  cbn [snd] in Hlen. destruct (bytesRead =? length buffer')%nat; [|reflexivity].
  apply IH. now rewrite Hlen.
Qed.

Theorem getSha_short_full deliver bufferLength file :
  (forall p, bufferLength <= deliver p)%nat ->
  getSha_short deliver bufferLength file = getSha_with bufferLength file.
Proof.
  intros Hfull. unfold getSha_short, getSha_with.
  now rewrite getSha_loop_short_full by now rewrite repeat_length.
Qed.

(** A read shorter than the buffer is taken for the end of the file: when
    the first read delivers fewer bytes than are asked and than the file
    has, [getSha] returns the digest of what it delivered, a proper prefix
    of the file. *)
Theorem getSha_short_prefix deliver bufferLength file :
  (deliver 0 < bufferLength)%nat ->
  (deliver 0 < length file)%nat ->
  getSha_short deliver bufferLength file =
    Some (sha1_digest (sha1_update createHash (take (deliver 0%nat) file))).
Proof.
  intros Hshort Hfile. unfold getSha_short. cbn [getSha_loop_short].
  unfold readSync_short. rewrite repeat_length, Nat.min_r, drop_0 by lia.
  rewrite length_take, Nat.min_l by lia.
  rewrite length_app, length_take, length_drop, repeat_length, Nat.min_l by lia.
  destruct (Nat.eqb_spec (deliver 0%nat) (deliver 0 + (bufferLength - deliver 0))%nat)
    as [E|_]; [lia|].
  cbn [mbind option_bind]. rewrite take_app_length' by (rewrite length_take; lia).
  reflexivity.
Qed.

Lemma getSha_correct file : getSha file = Some (sha1_digest (sha1_update createHash file)).
Proof.
  unfold getSha, getSha_with.
  rewrite getSha_loop_spec by (rewrite ?repeat_length; lia). reflexivity.
Qed.

(** ** [getVSCodeSysroot] *)

(** [getVSCodeSysroot] returns. *)
Lemma getVSCodeSysroot_terminates arch s : is_Some (getVSCodeSysroot arch s).
Proof.
  unfold getVSCodeSysroot. cbv zeta.
  destruct (getVSCodeSysrootChecksum _ _); [|eauto].
  destruct (negb (truthy _)); [eauto|]. destruct (stampIs _ _ _) as [[|]|]; [eauto| |eauto].
  fetchGithub_cases; cbn; repeat case_match; eauto.
Qed.

(** A call resolves only when the checksum was found. *)
Lemma getVSCodeSysroot_resolved_checksum arch s p s' :
  getVSCodeSysroot arch s = Some (Resolved p, s') ->
  exists checksum,
    getVSCodeSysrootChecksum (expectedName arch) (fs s) = Ok checksum /\
    truthy checksum = true.
Proof.
  unfold getVSCodeSysroot. cbv zeta.
  destruct (getVSCodeSysrootChecksum _ _) as [checksum|]; [|discriminate].
  destruct (truthy checksum) eqn:Ht; [intros _; now exists checksum | discriminate 1].
Qed.

(** When [getVSCodeSysroot] has resolved, the stamp is valid. *)
Lemma getVSCodeSysroot_resolved_stamp arch s p s' :
  getVSCodeSysroot arch s = Some (Resolved p, s') ->
  readFileSync (stampOf (sysrootDir arch)) (fs s') = Some (expectedName arch).
Proof.
  unfold getVSCodeSysroot. cbv zeta. fold (sysrootDir arch). fold (stampOf (sysrootDir arch)).
  destruct (getVSCodeSysrootChecksum _ _); [|discriminate].
  destruct (negb (truthy _)); [discriminate|].
  destruct (stampIs _ _ _) as [[|]|] eqn:Hstamp; [| |discriminate].
  - intros [= <- <-]. now apply stampIs_true.
  - fetchGithub_cases; cbn; try discriminate.
    destruct (unpack (contents file)); [|discriminate].
    intros [= <- <-]. apply readFileSync_write.
Qed.

(** When [getVSCodeSysroot] resolves, either the stamp of the sysroot
    was valid, nothing was changed and the directory of the sysroot is
    returned, or an asset was fetched whose SHA-256 is the checksum of the
    checksum file, was unpacked into the directory, the stamp was written
    and the path of the sysroot inside the directory is returned. *)
Theorem getVSCodeSysroot_resolved arch s p s' :
  getVSCodeSysroot arch s = Some (Resolved p, s') ->
  (p = sysrootDir arch /\ s' = s /\
   readFileSync (stampOf (sysrootDir arch)) (fs s) = Some (expectedName arch)) \/
  (p = installedPath arch /\
   readFileSync (stampOf (sysrootDir arch)) (fs s') = Some (expectedName arch) /\
   exists file files,
     unpack (contents file) = Some files /\
     getVSCodeSysrootChecksum (expectedName arch) (fs s) = Ok (Some (sha256 (contents file)))).
Proof.
  unfold getVSCodeSysroot. cbv zeta. fold (sysrootDir arch). fold (stampOf (sysrootDir arch)).
  destruct (getVSCodeSysrootChecksum _ _) as [checksum|]; [|discriminate].
  destruct (negb (truthy _)) eqn:Ht; [discriminate|]. apply negb_false_iff in Ht.
  destruct (stampIs _ _ _) as [[|]|] eqn:Hstamp; [| |discriminate].
  - intros [= <- <-]. left. apply stampIs_true in Hstamp. auto.
  - fetchGithub_cases; cbn; try discriminate.
    destruct (unpack (contents file)) as [files|] eqn:Hu; [|discriminate].
    intros [= <- <-]. right. split; [reflexivity|]. cbn [fs with_fs].
    split; [apply readFileSync_write|]. exists file, files. split; [assumption|].
    f_equal. exact (fetchGithub_checksum _ _ _ _ _ _ _ _ _ _ _ _ _ Hfetch Ht).
Qed.

(** C27: after a call of [getVSCodeSysroot] that resolved, a second call
    resolves with the directory of the sysroot and changes nothing, provided
    the checksum is still found: a caller that installs gets the path of
    the sysroot inside the directory, every later caller the directory
    itself. *)
Theorem getVSCodeSysroot_second_call arch s p s' :
  getVSCodeSysroot arch s = Some (Resolved p, s') ->
  getVSCodeSysrootChecksum (expectedName arch) (fs s') =
    getVSCodeSysrootChecksum (expectedName arch) (fs s) ->
  getVSCodeSysroot arch s' = Some (Resolved (sysrootDir arch), s').
Proof.
  intros H Hsame.
  destruct (getVSCodeSysroot_resolved_checksum _ _ _ _ H) as (checksum & Hsum & Ht).
  apply getVSCodeSysroot_resolved_stamp, stampIs_true in H.
  unfold getVSCodeSysroot. cbv zeta. fold (sysrootDir arch). fold (stampOf (sysrootDir arch)).
  now rewrite Hsame, Hsum, Ht, H.
Qed.

(** What a call of [getVSCodeSysroot] that resolved has written to the
    standard output: nothing when the stamp was valid, the line that
    announces the installation otherwise. *)
Lemma getVSCodeSysroot_console arch s p s' :
  getVSCodeSysroot arch s = Some (Resolved p, s') ->
  (p = sysrootDir arch /\ console s' = console s) \/
  (p = installedPath arch /\
   console s' = console s ++
     ["Installing " +:+ archName arch +:+ " root image: " +:+ sysrootDir arch]).
Proof.
  unfold getVSCodeSysroot. cbv zeta. fold (sysrootDir arch). fold (stampOf (sysrootDir arch)).
  destruct (getVSCodeSysrootChecksum _ _); [|discriminate].
  destruct (negb (truthy _)); [discriminate|].
  destruct (stampIs _ _ _) as [[|]|]; [intros [= <- <-]; auto | | discriminate].
  fetchGithub_cases; cbn; try discriminate.
  destruct (unpack (contents file)); [|discriminate]. intros [= <- <-]. now right.
Qed.

(** ** [getChromiumSysroot] *)

(** One request of the loop: the file holds the chunks received. *)
Lemma download_chunks tarball chunks s :
  readFileSync tarball
    (fs (with_fs (fun fs => fold_left (fun fs chunk => appendFileSync tarball chunk fs) chunks fs)
           (with_fs (writeFileSync tarball "") s))) = Some (String.concat "" chunks).
Proof. cbn [fs with_fs]. now rewrite (readFileSync_appends _ _ _ "" (readFileSync_write _ _ _)). Qed.

(** The loop sends at most three requests and stops at the first that ends;
    the tarball then holds the data of that request. *)
Lemma download_loop_spec url tarball s :
  exists s',
    download_loop 4 url tarball 0 false s = Some (bool_decide (is_Some (firstEnded url)), s') /\
    world s' = world s /\
    forall k, firstEnded url = Some k ->
      readFileSync tarball (fs s') = Some (String.concat "" (chunks (https_get url k))).
Proof.
  unfold firstEnded. cbn [List.find download_loop Nat.ltb Nat.leb andb negb].
  destruct (ended (https_get url 0)) eqn:E0; cbn [andb negb];
    [|destruct (ended (https_get url 1)) eqn:E1; cbn [andb negb];
      [|destruct (ended (https_get url 2)) eqn:E2; cbn [andb negb]]];
    (eexists; split; [reflexivity|]; split; [reflexivity|]);
    intros k [= <-]; apply download_chunks.
Qed.

(** [getChromiumSysroot] returns: the loop of requests for the tarball ends
    ([download_loop_spec]) and [getSha] returns ([getSha_terminates]). *)
Lemma getChromiumSysroot_terminates arch s : is_Some (getChromiumSysroot arch s).
Proof.
  unfold getChromiumSysroot. cbv zeta.
  destruct (negb (bool_decide _)); [eauto|]. destruct (sysrootInfo _ _) as [entry|]; [|eauto].
  destruct (stampIs _ _ _) as [[|]|]; [eauto| |eauto].
  match goal with |- context [download_loop 4 ?u ?t 0 false ?s] =>
    destruct (download_loop_spec u t s) as (s1 & -> & _) end.
  cbn [mbind option_bind]. destruct (negb (bool_decide _)); [eauto|].
  match goal with |- context [getSha ?f] => destruct (getSha_terminates f) as [sha ->] end.
  cbn [mbind option_bind]. repeat case_match; eauto.
Qed.

(** What [getChromiumSysroot] does once the tarball is there, for the
    status of [tar]. *)
Lemma getChromiumSysroot_install arch s entry k :
  (curl sysrootJSONUrl).1 = Some 0 ->
  let s0 := with_fs (writeFileSync (tmpdir +:+ "/sysroots.json") (curl sysrootJSONUrl).2) s in
  let data := String.concat "" (chunks (https_get (tarballUrl entry) k)) in
  sysrootInfo (default "" (readFileSync (tmpdir +:+ "/sysroots.json") (fs s0)))
    (match arch with armhf => "bullseye_arm" | _ => "bullseye_" +:+ archName arch end) =
    Some entry ->
  stampIs (stampOf (path_join tmpdir (SysrootDir entry))) (Some (tarballUrl entry)) (fs s0) =
    Some false ->
  firstEnded (tarballUrl entry) = Some k ->
  sha1_digest (sha1_update createHash (list_ascii_of_string data)) = Sha1Sum entry ->
  exists s',
    getChromiumSysroot arch s =
      Some (if truthyStatus (tar data).1 then Err (ExtractionFailed (default 0 (tar data).1))
            else Ok (path_join tmpdir (SysrootDir entry)), s') /\
    (truthyStatus (tar data).1 = false ->
     readFileSync (stampOf (path_join tmpdir (SysrootDir entry))) (fs s') =
       Some (tarballUrl entry)).
Proof.
  intros Hcurl s0 data Hentry Hstamp Hk Hsha. subst s0 data. unfold sysrootJSONUrl in *.
  unfold getChromiumSysroot. cbv zeta. rewrite Hcurl.
  rewrite bool_decide_eq_true_2 by reflexivity. cbn [negb]. rewrite Hentry.
  fold (tarballUrl entry). fold (stampOf (path_join tmpdir (SysrootDir entry))).
  rewrite Hstamp.
  match goal with |- context [download_loop 4 ?u ?t 0 false ?s] =>
    destruct (download_loop_spec u t s) as (s1 & -> & _ & Hdata) end.
  cbn [mbind option_bind]. rewrite Hk, bool_decide_eq_true_2 by eauto. cbn [negb].
  rewrite getSha_correct, (Hdata k Hk). cbn [mbind option_bind default from_option id].
  rewrite Hsha, String.eqb_refl. cbn [negb].
  destruct (truthyStatus _); eexists; (split; [reflexivity|]); [discriminate|].
  intros _. cbn [fs with_fs]. apply readFileSync_write.
Qed.

(** A [tar] without an exit status passes for one that succeeded: the
    sysroot is returned and its stamp written, whatever [tar] left in the
    directory. *)
Corollary getChromiumSysroot_tar_null arch s entry k :
  (curl sysrootJSONUrl).1 = Some 0 ->
  let s0 := with_fs (writeFileSync (tmpdir +:+ "/sysroots.json") (curl sysrootJSONUrl).2) s in
  let data := String.concat "" (chunks (https_get (tarballUrl entry) k)) in
  sysrootInfo (default "" (readFileSync (tmpdir +:+ "/sysroots.json") (fs s0)))
    (match arch with armhf => "bullseye_arm" | _ => "bullseye_" +:+ archName arch end) =
    Some entry ->
  stampIs (stampOf (path_join tmpdir (SysrootDir entry))) (Some (tarballUrl entry)) (fs s0) =
    Some false ->
  firstEnded (tarballUrl entry) = Some k ->
  sha1_digest (sha1_update createHash (list_ascii_of_string data)) = Sha1Sum entry ->
  (tar data).1 = None ->
  exists s',
    getChromiumSysroot arch s = Some (Ok (path_join tmpdir (SysrootDir entry)), s') /\
    readFileSync (stampOf (path_join tmpdir (SysrootDir entry))) (fs s') =
      Some (tarballUrl entry).
Proof.
  intros Hcurl s0 data Hentry Hstamp Hk Hsha Htar.
  destruct (getChromiumSysroot_install arch s entry k Hcurl Hentry Hstamp Hk Hsha)
    as (s' & Hs' & Hr).
  fold data in Hs', Hr. rewrite Htar in Hs', Hr. eauto.
Qed.

(** C37: when [getChromiumSysroot] returns a sysroot, [curl] has exited with
    0, the stamp of the sysroot holds the url of the tarball of the entry
    for the architecture, and either the stamp was valid before, or a
    request for the tarball ended, the SHA-1 of the data received is the one
    of the entry, and the status of [tar] on it is not a number other than
    0.  That leaves 0 and [null]: the test [if (proc.status)] lets a [tar]
    that was ended by a signal, or that could not be started, pass for one
    that succeeded, and the stamp is written over what it left. *)
Theorem getChromiumSysroot_ok arch s p s' :
  getChromiumSysroot arch s = Some (Ok p, s') ->
  (curl sysrootJSONUrl).1 = Some 0 /\
  exists entry,
    p = path_join tmpdir (SysrootDir entry) /\
    readFileSync (stampOf p) (fs s') = Some (tarballUrl entry) /\
    (s' = with_fs (writeFileSync (tmpdir +:+ "/sysroots.json") (curl sysrootJSONUrl).2) s \/
     exists k,
       firstEnded (tarballUrl entry) = Some k /\
       let data := String.concat "" (chunks (https_get (tarballUrl entry) k)) in
       sha1_digest (sha1_update createHash (list_ascii_of_string data)) = Sha1Sum entry /\
       ((tar data).1 = Some 0 \/ (tar data).1 = None)).
Proof.
  unfold sysrootJSONUrl, getChromiumSysroot. cbv zeta.
  case_bool_decide as Hcurl; cbn [negb]; [|discriminate].
  intros H. split; [exact Hcurl|]. revert H.
  destruct (sysrootInfo _ _) as [entry|]; [|discriminate].
  fold (tarballUrl entry). fold (stampOf (path_join tmpdir (SysrootDir entry))).
  destruct (stampIs _ _ _) as [[|]|] eqn:Hstamp; [| |discriminate].
  - intros [= <- <-]. exists entry. apply stampIs_true in Hstamp. auto.
  - match goal with |- context [download_loop 4 ?u ?t 0 false ?s] =>
      destruct (download_loop_spec u t s) as (s1 & -> & _ & Hdata) end.
    cbn [mbind option_bind]. destruct (firstEnded (tarballUrl entry)) as [k|] eqn:Hk;
      [rewrite bool_decide_eq_true_2 by eauto | rewrite bool_decide_eq_false_2 by (intros [? [=]])];
      cbn [negb]; [|discriminate].
    rewrite getSha_correct, (Hdata k eq_refl). cbn [mbind option_bind default from_option id].
    match goal with |- context [String.eqb ?a ?b] =>
      destruct (String.eqb_spec a b) as [Hsha|]; [|discriminate] end.
    cbn [negb]. destruct (truthyStatus _) eqn:Htar; [discriminate|].
    intros [= <- <-]. exists entry. split; [reflexivity|]. cbn [fs with_fs].
    split; [apply readFileSync_write|]. right. exists k. split; [exact Hk|].
    split; [exact Hsha|]. apply truthyStatus_false, Htar.
Qed.

End Sysroot.

(** * Examples *)

(** A hash that is the data itself. *)
Definition example_digest (h : list ascii) : string := string_of_list_ascii h.

Lemma example_update_app (h a b : list ascii) : (h ++ a) ++ b = h ++ (a ++ b).
Proof. symmetry. apply app_assoc. Qed.

Lemma getSha_with_correct_witness :
  getSha_with [] app example_digest 4 (list_ascii_of_string "0123456789") = Some "0123456789".
Proof. apply (getSha_with_correct [] app example_digest example_update_app 4). lia. Defined.

(** A buffer length that divides the length of the file. *)
Example getSha_with_example :
  getSha_with [] app example_digest 5 (list_ascii_of_string "0123456789") = Some "0123456789".
Proof. reflexivity. Qed.

Definition example_checksums : string :=
  "bad  aarch64-vscode-linux-gnu.tar.gz" +:+ String "010" "good  x86_64-vscode-linux-gnu.tar.gz".

Definition example_fs : FS :=
  [("/repo/build/checksums/vscode-sysroot.txt", RegularFile example_checksums);
   ("/tmp", Directory)].

Definition example_sys : Sys := mkSys example_fs emptyWorld [] [].

Definition example_unpack (data : list byte) : option (list (string * string)) :=
  Some [("x86_64-vscode-linux-gnu/x86_64-vscode-linux-gnu/sysroot/usr", "usr")].

Definition example_getVSCodeSysroot :=
  getVSCodeSysroot example_net example_sha256 (fun s => s) None None None (fun s => s)
    example_parseAssets "/repo" "/tmp" "Microsoft/vscode-linux-build-agent" example_unpack.

Lemma findChecksum_checksumLines_witness :
  findChecksum (checksumLine <$> [("bad", "aarch64-vscode-linux-gnu.tar.gz");
                                   ("good", "x86_64-vscode-linux-gnu.tar.gz")])
    "x86_64-vscode-linux-gnu.tar.gz" = Some "good".
Proof.
  apply (findChecksum_checksumLines [("bad", "aarch64-vscode-linux-gnu.tar.gz");
                                     ("good", "x86_64-vscode-linux-gnu.tar.gz")]).
  repeat constructor.
Defined.

(** The first call installs and returns the path inside the directory. *)
Example getVSCodeSysroot_example :
  fst <$> example_getVSCodeSysroot amd64 example_sys =
    Some (Resolved "/tmp/vscode-amd64-sysroot/x86_64-vscode-linux-gnu/x86_64-vscode-linux-gnu/sysroot").
Proof. vm_compute. reflexivity. Qed.

Definition example_installed : Sys :=
  default example_sys (snd <$> example_getVSCodeSysroot amd64 example_sys).

Lemma getVSCodeSysroot_resolved_witness :
  readFileSync "/tmp/vscode-amd64-sysroot/.stamp" (fs example_installed) =
    Some "x86_64-vscode-linux-gnu.tar.gz".
Proof.
  destruct (getVSCodeSysroot_resolved example_net example_sha256 (fun s => s) None None None
              (fun s => s) example_parseAssets "/repo" "/tmp"
              "Microsoft/vscode-linux-build-agent" example_unpack amd64 example_sys
              "/tmp/vscode-amd64-sysroot/x86_64-vscode-linux-gnu/x86_64-vscode-linux-gnu/sysroot"
              example_installed) as [(H & _)|(_ & H & _)].
  - vm_compute. reflexivity.
  - discriminate H.
  - exact H.
Defined.

(** The second call returns the directory itself. *)
Lemma getVSCodeSysroot_second_call_witness :
  example_getVSCodeSysroot amd64 example_installed =
    Some (Resolved "/tmp/vscode-amd64-sysroot", example_installed).
Proof.
  apply (getVSCodeSysroot_second_call example_net example_sha256 (fun s => s) None None None
           (fun s => s) example_parseAssets "/repo" "/tmp"
           "Microsoft/vscode-linux-build-agent" example_unpack amd64 example_sys
           "/tmp/vscode-amd64-sysroot/x86_64-vscode-linux-gnu/x86_64-vscode-linux-gnu/sysroot").
  - vm_compute. reflexivity.
  - vm_compute. reflexivity.
Defined.

Definition example_entry : SysrootDictEntry :=
  mkSysrootDictEntry "ab" "debian_bullseye_amd64-sysroot" "sysroot.tar.xz".

(** The first request fails after one chunk, the second one ends. *)
Definition example_https_get (url : string) (i : nat) : Download :=
  match i with
  | 0%nat => mkDownload ["a"] false "socket hang up"
  | _ => mkDownload ["a"; "b"] true ""
  end.

Definition example_getChromiumSysroot :=
  getChromiumSysroot [] app example_digest "/tmp" "27.1.3" (fun _ => (Some 0, "{}"))
    (fun _ _ => Some example_entry) example_https_get (fun _ => (Some 0, [("usr", "usr")])).

(** The same with a [tar] that a signal ended after it had written a part
    of the sysroot: [spawnSync] reports the status [null]. *)
Definition example_tar_killed (data : string) : Status * list (string * string) :=
  (None, [("usr", "partial")]).

Definition example_getChromiumSysroot_killed :=
  getChromiumSysroot [] app example_digest "/tmp" "27.1.3" (fun _ => (Some 0, "{}"))
    (fun _ _ => Some example_entry) example_https_get example_tar_killed.

Definition example_chromium : Sys :=
  default example_sys (snd <$> example_getChromiumSysroot_killed amd64 example_sys).

(** The call with the [tar] that was killed returns the sysroot. *)
Example getChromiumSysroot_killed_example :
  fst <$> example_getChromiumSysroot_killed amd64 example_sys =
    Some (Ok "/tmp/debian_bullseye_amd64-sysroot") /\
  readFileSync "/tmp/debian_bullseye_amd64-sysroot/usr" (fs example_chromium) = Some "partial".
Proof. vm_compute. split; reflexivity. Qed.

(** A [tar] that exits with 2 makes the call throw. *)
Example getChromiumSysroot_failed_example :
  fst <$> getChromiumSysroot [] app example_digest "/tmp" "27.1.3" (fun _ => (Some 0, "{}"))
            (fun _ _ => Some example_entry) example_https_get (fun _ => (Some 2, []))
            amd64 example_sys =
    Some (Err (ExtractionFailed 2)).
Proof. vm_compute. reflexivity. Qed.

Lemma getChromiumSysroot_ok_witness :
  (Some 0, "{}").1 = Some 0 /\
  exists entry,
    "/tmp/debian_bullseye_amd64-sysroot" = path_join "/tmp" (SysrootDir entry) /\
    readFileSync (stampOf "/tmp/debian_bullseye_amd64-sysroot") (fs example_chromium) =
      Some (tarballUrl entry) /\
    (example_chromium = with_fs (writeFileSync "/tmp/sysroots.json" "{}") example_sys \/
     exists k,
       firstEnded example_https_get (tarballUrl entry) = Some k /\
       let data := String.concat "" (chunks (example_https_get (tarballUrl entry) k)) in
       example_digest ([] ++ list_ascii_of_string data) = Sha1Sum entry /\
       ((example_tar_killed data).1 = Some 0 \/ (example_tar_killed data).1 = None)).
Proof.
  apply (getChromiumSysroot_ok [] app example_digest example_update_app "/tmp" "27.1.3"
           (fun _ => (Some 0, "{}")) (fun _ _ => Some example_entry) example_https_get
           example_tar_killed amd64 example_sys).
  vm_compute. reflexivity.
Defined.

Lemma getChromiumSysroot_terminates_witness :
  is_Some (example_getChromiumSysroot arm64 example_sys).
Proof.
  apply (getChromiumSysroot_terminates [] app example_digest "/tmp" "27.1.3"
           (fun _ => (Some 0, "{}")) (fun _ _ => Some example_entry) example_https_get
           (fun _ => (Some 0, [("usr", "usr")])) arm64 example_sys).
Defined.

(** The same from the general fact: the request that ends is the second. *)
Lemma getChromiumSysroot_tar_null_witness :
  exists s',
    example_getChromiumSysroot_killed amd64 example_sys =
      Some (Ok "/tmp/debian_bullseye_amd64-sysroot", s') /\
    readFileSync (stampOf "/tmp/debian_bullseye_amd64-sysroot") (fs s') =
      Some (tarballUrl example_entry).
Proof.
  apply (getChromiumSysroot_tar_null [] app example_digest example_update_app "/tmp" "27.1.3"
           (fun _ => (Some 0, "{}")) (fun _ _ => Some example_entry) example_https_get
           example_tar_killed amd64 example_sys example_entry 1); reflexivity.
Defined.

(** A first read of three bytes from a file of ten, with a buffer of four:
    the digest is that of the three bytes. *)
Lemma getSha_short_prefix_witness :
  getSha_short [] app example_digest (fun _ => 3%nat) 4 (list_ascii_of_string "0123456789") =
    Some "012".
Proof.
  apply (getSha_short_prefix [] app example_digest (fun _ => 3%nat) 4
           (list_ascii_of_string "0123456789")); cbn; lia.
Defined.

Lemma getSha_short_full_witness :
  getSha_short [] app example_digest (fun _ => 4%nat) 4 (list_ascii_of_string "0123456789") =
    getSha_with [] app example_digest 4 (list_ascii_of_string "0123456789").
Proof. apply (getSha_short_full [] app example_digest (fun _ => 4%nat) 4). cbn. lia. Defined.
