(* ===== verification/SysrootJs.v ===== *)
(** * The compiled sysroot installer

    install-sysroot.js ([src/build/lib/fetch.js], lines 300-451): the
    JavaScript module that the compiler emits for install-sysroot.ts, and
    the module that the pipeline script loads ([Install]).

    The compiled functions are those of the source without their types.
    The architecture is any string.  The variables [expectedName] and
    [triple] of [getVSCodeSysroot] are declared without a value and
    assigned in the three cases of the [switch]: for every other string
    they are [undefined], here [None], and the rest of the function runs
    with them: [getVSCodeSysrootChecksum] compares the names of the
    checksum file with [undefined], the template strings print it, the
    stamp never equals it ([stampIs_undefined]), and [fetchGithub] gets a
    name that is neither a string nor a function ([Fetch.NotCallable]).
    The tests of the stamp, of the status of [curl] and of the status of
    [tar] are those of [Sysroot]: the compiler leaves them as they are.

    [getSha] and the download loop of [getChromiumSysroot] are the same
    text in both modules and have no types to erase: the definitions of
    [Sysroot] are used for them.

    The theorems relate the two modules: on the three architectures of
    [DebianArchString] the compiled functions are the functions of the source
    ([js_installer_typed]); for every
    other string [getVSCodeSysroot] never resolves
    ([js_getVSCodeSysroot_unhandled]): with a checksum file as
    [sha256sum] prints it, which ends with a newline, it rejects at once
    ([js_getVSCodeSysroot_rejects]), and without a checksum file it rejects
    with the error of [readFileSync] ([js_getVSCodeSysroot_no_checksums]). *)

From S2P Require Import Prelude Fetch Sysroot.
From Stdlib Require Import Strings.Byte.

Section SysrootJs.

(** The parameters of [Sysroot]. *)
Context (net : string -> nat -> FetchOutcome).
Context (sha256 : list byte -> string).
Context (dirname : string -> string).
Context (env_CI env_BUILD_ARTIFACTSTAGINGDIRECTORY env_GITHUB_TOKEN : option string).
Context (base64 : string -> string).
Context (parseAssets : list byte -> option (list Asset)).
Context {Hash : Type}.
Context (createHash : Hash).
Context (sha1_update : Hash -> list ascii -> Hash).
Context (sha1_digest : Hash -> string).
Context (REPO_ROOT tmpdir sysrootRepository electronVersion : string).
Context (unpack : list byte -> option (list (string * string))).
Context (curl : string -> Status * string).
Context (sysrootInfo : string -> string -> option SysrootDictEntry).
Context (https_get : string -> nat -> Download).
Context (tar : string -> Status * list (string * string)).

(** A value that is a string or [undefined], in a template string. *)
Definition template (x : option string) : string := default "undefined" x.

(** The [switch] of [getVSCodeSysroot]: [expectedName] and [triple], which
    stay [undefined] when no case matches. *)
Definition js_switch (arch : string) : option string * option string :=
  if String.eqb arch "amd64"
  then (Some "x86_64-vscode-linux-gnu.tar.gz", Some "x86_64-vscode-linux-gnu")
  else if String.eqb arch "arm64"
  then (Some "aarch64-vscode-linux-gnu.tar.gz", Some "aarch64-vscode-linux-gnu")
  else if String.eqb arch "armhf"
  then (Some "arm-vscode-linux-gnueabihf.tar.gz", Some "arm-vscode-linux-gnueabihf")
  else (None, None).

(** The loop of [getVSCodeSysrootChecksum]: [name], the second piece of a
    line, is [undefined] when the line has one piece only. *)
Fixpoint js_findChecksum (lines : list string) (expectedName : option string) : option string :=
  match lines with
  | [] => None
  | line :: lines =>
      let pieces := splitSpaces line in
      let checksum := pieces !! 0%nat in
      let name := pieces !! 1%nat in
      if bool_decide (name = expectedName) then checksum
      else js_findChecksum lines expectedName
  end.

Definition js_getVSCodeSysrootChecksum (expectedName : option string) (fs : FS)
  : result SysrootError (option string) :=
  match readFileSync (checksumsPath REPO_ROOT) fs with
  | Some checksums => Ok (js_findChecksum (split "010" checksums) expectedName)
  | None => Err (ReadFailed (checksumsPath REPO_ROOT))
  end.

Definition js_getVSCodeSysroot (arch : string) (s : Sys) : option (Settlement * Sys) :=
  let '(expectedName, triple) := js_switch arch in
  match js_getVSCodeSysrootChecksum expectedName (fs s) with
  | Err e => Some (Rejected e, s)
  | Ok checksumSha256 =>
  if negb (truthy checksumSha256) then Some (Rejected (NoChecksum (template expectedName)), s)
  else
    let sysroot := path_join tmpdir ("vscode-" +:+ arch +:+ "-sysroot") in
    let stamp := path_join sysroot ".stamp" in
    match stampIs stamp expectedName (fs s) with
    | None => Some (Rejected (ReadFailed stamp), s)
    | Some true => Some (Resolved sysroot, s)
    | Some false =>
      let s := console_log ("Installing " +:+ arch +:+ " root image: " +:+ sysroot) s in
      let s := with_fs (rmSync_recursive sysroot) s in
      let s := with_fs (mkdirSync sysroot) s in
      '(r, w) ← fetchGithub net sha256 dirname env_CI env_BUILD_ARTIFACTSTAGINGDIRECTORY
                  env_GITHUB_TOKEN base64 parseAssets sysrootRepository
                  {| gh_version := "20231120-245067";
                     gh_name := match expectedName with
                                | Some name => ByName name
                                | None => NotCallable
                                end;
                     gh_verbose := None;
                     gh_path := Some sysroot;
                     gh_checksumSha256 := checksumSha256 |} (world s);
      let s := mkSys (fs s) w (console s) (errors s) in
      match r with
      | Emits file =>
          match unpack (contents file) with
          | Some files =>
              let s := with_fs (dest sysroot files) s in
              match expectedName with
              | Some name =>
                  let s := with_fs (writeFileSync stamp name) s in
                  Some (Resolved (sysroot +:+ "/" +:+ template triple +:+ "/" +:+
                                  template triple +:+ "/sysroot"), s)
              | None => Some (UncaughtStreamError InvalidData, s)
              end
          | None => Some (UncaughtStreamError UnpackFailed, s)
          end
      | CallbackError e | UpstreamError e => Some (UncaughtStreamError (FetchError e), s)
      | Unhandled => Some (NeverSettled, s)
      end
    end
  end.

Definition js_getChromiumSysroot (arch : string) (s : Sys)
  : option (result SysrootError string * Sys) :=
  let sysrootJSONUrl := "https://raw.githubusercontent.com/electron/electron/v" +:+
                        electronVersion +:+ "/script/sysroots.json" in
  let sysrootDictLocation := tmpdir +:+ "/sysroots.json" in
  let result := curl sysrootJSONUrl in
  let s := if bool_decide (result.1 = Some 0)
           then with_fs (writeFileSync sysrootDictLocation result.2) s else s in
  if negb (bool_decide (result.1 = Some 0)) then Some (Err CurlFailed, s)
  else
    let sysrootArch := if String.eqb arch "armhf" then "bullseye_arm"
                       else "bullseye_" +:+ arch in
    match sysrootInfo (default "" (readFileSync sysrootDictLocation (fs s))) sysrootArch with
    | None => Some (Err NoDictEntry, s)
    | Some sysrootDict =>
        let tarballFilename := Tarball sysrootDict in
        let tarballSha := Sha1Sum sysrootDict in
        let sysroot := path_join tmpdir (SysrootDir sysrootDict) in
        let url := join "/" [URL_PREFIX; URL_PATH; tarballSha; tarballFilename] in
        let stamp := path_join sysroot ".stamp" in
        match stampIs stamp (Some url) (fs s) with
        | None => Some (Err (ReadFailed stamp), s)
        | Some true => Some (Ok sysroot, s)
        | Some false =>
          let s := console_log ("Installing Debian " +:+ arch +:+ " root image: " +:+ sysroot) s in
          let s := with_fs (rmSync_recursive sysroot) s in
          let s := with_fs (mkdirSync sysroot) s in
          let tarball := path_join sysroot tarballFilename in
          let s := console_log ("Downloading " +:+ url) s in
          '(downloadSuccess, s) ← download_loop https_get 4 url tarball 0 false s;
          if negb downloadSuccess then
            Some (Err (DownloadFailed url), with_fs (rmSync tarball) s)
          else
            sha ← getSha createHash sha1_update sha1_digest
                    (list_ascii_of_string (default "" (readFileSync tarball (fs s))));
            if negb (String.eqb sha tarballSha) then Some (Err (WrongSha tarballSha sha), s)
            else
              let proc := tar (default "" (readFileSync tarball (fs s))) in
              if truthyStatus proc.1 then Some (Err (ExtractionFailed (default 0 proc.1)), s)
              else
                let s := with_fs (dest sysroot proc.2) s in
                let s := with_fs (rmSync tarball) s in
                let s := with_fs (writeFileSync stamp url) s in
                Some (Ok sysroot, s)
        end
    end.

(** The strings that the [switch] of [getVSCodeSysroot] handles. *)
Definition handled (arch : string) : bool :=
  String.eqb arch "amd64" || String.eqb arch "arm64" || String.eqb arch "armhf".

(** * Theorems *)

#[local] Abbreviation ts_getVSCodeSysroot :=
  (getVSCodeSysroot net sha256 dirname env_CI env_BUILD_ARTIFACTSTAGINGDIRECTORY
     env_GITHUB_TOKEN base64 parseAssets REPO_ROOT tmpdir sysrootRepository unpack).
#[local] Abbreviation ts_getChromiumSysroot :=
  (getChromiumSysroot createHash sha1_update sha1_digest tmpdir electronVersion curl
     sysrootInfo https_get tar).

Lemma js_findChecksum_typed lines name :
  js_findChecksum lines (Some name) = findChecksum lines name.
Proof. induction lines as [|line lines IH]; cbn; [done|]. now rewrite IH. Qed.

Lemma js_getVSCodeSysrootChecksum_typed name fs :
  js_getVSCodeSysrootChecksum (Some name) fs = getVSCodeSysrootChecksum REPO_ROOT name fs.
Proof.
  unfold js_getVSCodeSysrootChecksum, getVSCodeSysrootChecksum.
  destruct (readFileSync _ _); [|reflexivity]. now rewrite js_findChecksum_typed.
Qed.

(** No stamp equals [undefined]. *)
Lemma stampIs_undefined stamp fs : stampIs stamp None fs <> Some true.
Proof.
  unfold stampIs. destruct (existsSync _ _); [|discriminate].
  destruct (readFileSync _ _); [|discriminate].
  now rewrite bool_decide_eq_false_2 by discriminate.
Qed.

Lemma js_switch_typed arch :
  js_switch (archName arch) = (Some (expectedName arch), Some (triple arch)).
Proof. now destruct arch. Qed.

Lemma js_switch_unhandled arch : handled arch = false -> js_switch arch = (None, None).
Proof.
  unfold handled, js_switch. intros [[H1 H2]%orb_false_elim H3]%orb_false_elim.
  now rewrite H1, H2, H3.
Qed.

(** On the architectures of the source, the compiled [getVSCodeSysroot] is
    the function of the source. *)
Lemma js_getVSCodeSysroot_archName arch s :
  js_getVSCodeSysroot (archName arch) s = ts_getVSCodeSysroot arch s.
Proof.
  unfold js_getVSCodeSysroot, getVSCodeSysroot. rewrite js_switch_typed. cbv zeta.
  rewrite js_getVSCodeSysrootChecksum_typed. reflexivity.
Qed.

Lemma js_getChromiumSysroot_archName arch s :
  js_getChromiumSysroot (archName arch) s = ts_getChromiumSysroot arch s.
Proof. now destruct arch. Qed.

(** The compiled functions return, whatever string they are given. *)
Lemma js_getVSCodeSysroot_terminates arch s : is_Some (js_getVSCodeSysroot arch s).
Proof.
  unfold js_getVSCodeSysroot. destruct (js_switch arch) as [name triple]. cbv zeta.
  destruct (js_getVSCodeSysrootChecksum _ _); [|eauto].
  destruct (negb (truthy _)); [eauto|]. destruct (stampIs _ _ _) as [[|]|]; [eauto| |eauto].
  fetchGithub_cases; cbn; repeat case_match; eauto.
Qed.

Lemma js_getChromiumSysroot_terminates arch s : is_Some (js_getChromiumSysroot arch s).
Proof.
  unfold js_getChromiumSysroot. cbv zeta.
  destruct (negb (bool_decide _)); [eauto|]. destruct (sysrootInfo _ _) as [entry|]; [|eauto].
  destruct (stampIs _ _ _) as [[|]|]; [eauto| |eauto].
  match goal with |- context [download_loop _ 4 ?u ?t 0 false ?s] =>
    destruct (download_loop_spec https_get u t s) as (s1 & -> & _) end.
  cbn [mbind option_bind]. destruct (negb (bool_decide _)); [eauto|].
  match goal with |- context [getSha ?c ?u ?d ?f] =>
    destruct (getSha_terminates c u d f) as [sha ->] end.
  cbn [mbind option_bind]. repeat case_match; eauto.
Qed.

(** C23: the compiled module is the source on the values of its types:
    for the three architectures of [DebianArchString], and for every name
    that is a string, the functions of install-sysroot.js return what the
    functions of install-sysroot.ts return and leave the same state.
    Erasing the types changes nothing for the callers that respect them. *)
Theorem js_installer_typed arch s :
  js_getVSCodeSysroot (archName arch) s = ts_getVSCodeSysroot arch s /\
  js_getChromiumSysroot (archName arch) s = ts_getChromiumSysroot arch s /\
  js_getVSCodeSysrootChecksum (Some (expectedName arch)) (fs s) =
    getVSCodeSysrootChecksum REPO_ROOT (expectedName arch) (fs s).
Proof.
  split; [apply js_getVSCodeSysroot_archName|]. split; [apply js_getChromiumSysroot_archName|].
  apply js_getVSCodeSysrootChecksum_typed.
Qed.

(** C30: for a string that is none of the three architectures, the compiled
    [getVSCodeSysroot] never resolves: it rejects because no checksum is
    found for [undefined], or it removes the directory, asks for the release
    and ends with an error that nobody handles or with a promise that stays
    pending. *)
Theorem js_getVSCodeSysroot_unhandled arch s r s' :
  handled arch = false ->
  js_getVSCodeSysroot arch s = Some (r, s') ->
  match r with Resolved _ => False | _ => True end.
Proof.
  intros Harch. unfold js_getVSCodeSysroot. rewrite (js_switch_unhandled _ Harch). cbv zeta.
  destruct (js_getVSCodeSysrootChecksum _ _); [|now intros [= <- <-]].
  destruct (negb (truthy _)); [now intros [= <- <-]|].
  destruct (stampIs _ None _) as [[|]|] eqn:Hstamp;
    [now apply stampIs_undefined in Hstamp | | now intros [= <- <-]].
  match goal with |- context [fetchGithub ?x1 ?x2 ?x3 ?x4 ?x5 ?x6 ?x7 ?x8 ?x9 ?x10 ?x11] =>
    destruct (fetchGithub x1 x2 x3 x4 x5 x6 x7 x8 x9 x10 x11) as [[r0 w]|] eqn:Hfetch end;
    [|discriminate].
  apply fetchGithub_not_callable in Hfetch; [|reflexivity].
  cbn. destruct r0; [done|now intros [= <- <-]..].
Qed.

(** In the lines of a checksum file as [sha256sum] prints it, which ends
    with a newline, the name [undefined] is found on the empty line after
    the last newline, with the empty checksum. *)
Lemma js_findChecksum_undefined entries :
  Forall (fun e => noSpace e.1 = true /\ noSpace e.2 = true) entries ->
  js_findChecksum ((checksumLine <$> entries) ++ [""]) None = Some "".
Proof.
  induction 1 as [|e entries [Hc Hn] _ IH]; [reflexivity|]. csimpl.
  rewrite splitSpaces_checksumLine by assumption. cbn [lookup list_lookup].
  rewrite bool_decide_eq_false_2 by discriminate. exact IH.
Qed.

(** With a checksum file as [sha256sum] prints it, the compiled
    [getVSCodeSysroot] rejects at once for a string that is none of the three
    architectures, with the message that no checksum was found for
    [undefined], and touches nothing. *)
Lemma js_getVSCodeSysroot_rejects arch s checksums entries :
  handled arch = false ->
  Forall (fun e => noSpace e.1 = true /\ noSpace e.2 = true) entries ->
  readFileSync (checksumsPath REPO_ROOT) (fs s) = Some checksums ->
  split "010" checksums = (checksumLine <$> entries) ++ [""] ->
  js_getVSCodeSysroot arch s = Some (Rejected (NoChecksum "undefined"), s).
Proof.
  intros Harch Hentries Hread Hlines. unfold js_getVSCodeSysroot.
  rewrite (js_switch_unhandled _ Harch). cbv zeta. unfold js_getVSCodeSysrootChecksum.
  now rewrite Hread, Hlines, js_findChecksum_undefined.
Qed.

(** Without a checksum file the compiled [getVSCodeSysroot] rejects with the
    error of [readFileSync], whatever the architecture. *)
Lemma js_getVSCodeSysroot_no_checksums arch s :
  readFileSync (checksumsPath REPO_ROOT) (fs s) = None ->
  js_getVSCodeSysroot arch s = Some (Rejected (ReadFailed (checksumsPath REPO_ROOT)), s).
Proof.
  intros Hread. unfold js_getVSCodeSysroot, js_getVSCodeSysrootChecksum.
  destruct (js_switch arch). now rewrite Hread.
Qed.

End SysrootJs.

(** * Examples *)

Definition example_js_getVSCodeSysroot :=
  js_getVSCodeSysroot example_net example_sha256 (fun s => s) None None None (fun s => s)
    example_parseAssets "/repo" "/tmp" "Microsoft/vscode-linux-build-agent" example_unpack.

(** The checksum file of the example of [Sysroot], ending with a
    newline. *)
Definition example_sys_newline : Sys :=
  mkSys [("/repo/build/checksums/vscode-sysroot.txt",
          RegularFile (example_checksums +:+ String "010" ""));
         ("/tmp", Directory)] emptyWorld [] [].

(** The architecture of the pipeline for Intel, [x64], is none of the
    source. *)
Lemma js_getVSCodeSysroot_rejects_witness :
  example_js_getVSCodeSysroot "x64" example_sys_newline =
    Some (Rejected (NoChecksum "undefined"), example_sys_newline).
Proof.
  apply (js_getVSCodeSysroot_rejects example_net example_sha256 (fun s => s) None None None
           (fun s => s) example_parseAssets "/repo" "/tmp" "Microsoft/vscode-linux-build-agent"
           example_unpack "x64" example_sys_newline (example_checksums +:+ String "010" "")
           [("bad", "aarch64-vscode-linux-gnu.tar.gz"); ("good", "x86_64-vscode-linux-gnu.tar.gz")]).
  - reflexivity.
  - repeat constructor.
  - reflexivity.
  - vm_compute. reflexivity.
Defined.

(** A checksum file with a line of one piece: its piece is the checksum of
    [undefined], the directory is removed, the release is requested, and the
    filter throws at its first asset. *)
Definition example_sys_orphan : Sys :=
  mkSys [("/repo/build/checksums/vscode-sysroot.txt",
          RegularFile ("orphan" +:+ String "010" example_checksums));
         ("/tmp", Directory)] emptyWorld [] [].

Definition example_unhandled : Settlement * Sys :=
  default (NeverSettled, example_sys_orphan) (example_js_getVSCodeSysroot "x64" example_sys_orphan).

Example js_getVSCodeSysroot_orphan :
  example_unhandled.1 = NeverSettled /\
  console example_unhandled.2 = ["Installing x64 root image: /tmp/vscode-x64-sysroot"].
Proof. vm_compute. split; reflexivity. Qed.

Lemma js_getVSCodeSysroot_unhandled_witness :
  match example_unhandled.1 with Resolved _ => False | _ => True end.
Proof.
  apply (js_getVSCodeSysroot_unhandled example_net example_sha256 (fun s => s) None None None
           (fun s => s) example_parseAssets "/repo" "/tmp" "Microsoft/vscode-linux-build-agent"
           example_unpack "x64" example_sys_orphan example_unhandled.1 example_unhandled.2).
  - reflexivity.
  - vm_compute. reflexivity.
Defined.

(** On [amd64] the compiled function installs as the source does. *)
Example js_getVSCodeSysroot_amd64 :
  fst <$> example_js_getVSCodeSysroot "amd64" example_sys =
    Some (Resolved "/tmp/vscode-amd64-sysroot/x86_64-vscode-linux-gnu/x86_64-vscode-linux-gnu/sysroot").
Proof. vm_compute. reflexivity. Qed.
