(* ===== verification/Install.v ===== *)
(** * The pipeline script

    [src/build/azure-pipelines/linux/install.sh]: the script that installs
    the sysroot, exports the variables of the compiler toolchain for the
    architecture of the build, and runs yarn.

    The script runs under [set -e]: a command that fails ends the script
    with its status, except the command on the left of [&&].  The state
    of the script ([Shell]) is the file system and the network of the
    machine, the variables it has exported, the lines it has written, and
    the commands it has run.  The programs it runs are parameters: the exit
    status of [yarn config], of the pipeline that installs clang (the status
    of [python], its last command), of the libcxx fetcher and of each run of
    yarn.

    The script gets [VSCODE_SYSROOT_DIR] from a command substitution around
    [node], which loads the compiled installer and awaits
    [getVSCodeSysroot]: the variable holds what [node] wrote to its standard
    output, which is what [getVSCodeSysroot] logged ([SysrootJs], [Sysroot]),
    and [node] exits with 0 when the promise resolved.  Its status in the
    other cases is not in the sources and is a parameter: [unhandledRejection]
    after a rejection that nobody handled (the version of [node] decides
    whether that is a failure), [streamError] after a stream without a
    listener for errors has emitted one (an exception that nobody caught
    when the stream emits on a later tick, a rejection of the promise of
    the asynchronous transform when it emits inside the transform: the
    version of the stream library decides).  The theorems hold for every
    value of [streamError], and say where they need [unhandledRejection] to
    be a failure.  What [node] writes to its standard error is not
    modelled.

    The theorems: the loop around yarn gives up at the third failure
    ([yarn_loop_gives_up]); [VSCODE_SYSROOT_DIR] is never the path that
    [getVSCodeSysroot] resolved ([sysrootCommand_never_path]); and for an
    architecture of the pipeline that the installer does not know, [x64] and
    [arm], the script stops at the installation of the sysroot
    ([install_unhandled_arch]). *)

From S2P Require Import Prelude Fetch Sysroot SysrootJs.
From stdpp Require Import pretty.
From Stdlib Require Import Strings.Byte.

#[local] Open Scope Z_scope.

(** The commands that the script runs. *)
Inductive Command : Type :=
| YarnConfig (registry : string)         (* yarn config set registry "$NPM_REGISTRY" *)
| NodeSysroot (arch : string)                   (* node -e '... await getVSCodeSysroot(...) ...' *)
| UpdateClang                            (* curl -s .../update.py | python - ... *)
| LibcxxFetcher (env : list (string * string))   (* node build/linux/libcxx-fetcher.js *)
| Yarn.                                  (* yarn --frozen-lockfile --check-files *)

Record Shell : Type := mkShell {
  files : FS;
  network : World;
  exported : list (string * string);
  stdout : list string;
  stderr : list string;
  commands : list Command
}.

Definition runCommand (c : Command) (sh : Shell) : Shell :=
  mkShell (files sh) (network sh) (exported sh) (stdout sh) (stderr sh) (commands sh ++ [c]).

Definition export (sh : Shell) (variable : string * string) : Shell :=
  mkShell (files sh) (network sh) (map_set variable.1 variable.2 (exported sh)) (stdout sh)
    (stderr sh) (commands sh).

Definition echo (line : string) (sh : Shell) : Shell :=
  mkShell (files sh) (network sh) (exported sh) (stdout sh ++ [line]) (stderr sh) (commands sh).

Definition echo_err (line : string) (sh : Shell) : Shell :=
  mkShell (files sh) (network sh) (exported sh) (stdout sh) (stderr sh ++ [line]) (commands sh).

Section Install.

(** The parameters of the installer. *)
Context (net : string -> nat -> FetchOutcome).
Context (sha256 : list byte -> string).
Context (dirname : string -> string).
Context (env_CI env_BUILD_ARTIFACTSTAGINGDIRECTORY env_GITHUB_TOKEN : option string).
Context (base64 : string -> string).
Context (parseAssets : list byte -> option (list Asset)).
Context (REPO_ROOT tmpdir sysrootRepository : string).
Context (unpack : list byte -> option (list (string * string))).

(** The environment of the script and the programs it runs. *)
Context (NPM_REGISTRY npm_config_arch PWD : string).
Context (unhandledRejection streamError : Z).
Context (yarn_config update_py libcxx_fetcher : Z).
Context (yarn : nat -> Z).

#[local] Abbreviation getVSCodeSysroot_js :=
  (js_getVSCodeSysroot net sha256 dirname env_CI env_BUILD_ARTIFACTSTAGINGDIRECTORY
     env_GITHUB_TOKEN base64 parseAssets REPO_ROOT tmpdir sysrootRepository unpack).

(** The exit status of [node] for the ways in which the promise of
    [getVSCodeSysroot] ends.  The function of the script awaits the promise
    and handles nothing: a rejection rejects the promise of the function,
    which nobody handles.  A promise that stays pending does so after the
    transform of [fetchGithub] has thrown, which rejects the promise of the
    transform. *)
Definition nodeStatus (r : Settlement) : Z :=
  match r with
  | Resolved _ => 0
  | Rejected _ | NeverSettled => unhandledRejection
  | UncaughtStreamError _ => streamError
  end.

(** The process that [node] starts in: the machine of the script, with
    nothing written yet. *)
Definition nodeSys (sh : Shell) : Sys := mkSys (files sh) (network sh) [] [].

(** [VSCODE_SYSROOT_DIR=$(node -e '...')]: the status of [node] and its
    standard output without the last newline. *)
Definition sysrootCommand (sh : Shell) : option (Z * string * Shell) :=
  '(r, s) ← getVSCodeSysroot_js npm_config_arch (nodeSys sh);
  Some (nodeStatus r, Prelude.join "010" (console s),
        mkShell (fs s) (world s) (exported sh) (stdout sh) (stderr sh ++ errors s)
          (commands sh ++ [NodeSysroot npm_config_arch])).

(** The variables of a cross toolchain of the sysroot: the compilers of
    the triple and the flags with the library directories. *)
Definition crossFlags (lib VSCODE_SYSROOT_DIR : string) : string :=
  "--sysroot=" +:+ VSCODE_SYSROOT_DIR +:+ " -l" +:+ VSCODE_SYSROOT_DIR +:+ "/usr/lib/" +:+ lib +:+
  " -l" +:+ VSCODE_SYSROOT_DIR +:+ "/lib/" +:+ lib.

Definition remoteToolchain (triple lib VSCODE_SYSROOT_DIR : string) : list (string * string) :=
  [("VSCODE_REMOTE_CC", VSCODE_SYSROOT_DIR +:+ "/../../bin/" +:+ triple +:+ "-gcc");
   ("VSCODE_REMOTE_CXX", VSCODE_SYSROOT_DIR +:+ "/../../bin/" +:+ triple +:+ "-g++");
   ("VSCODE_REMOTE_CXXFLAGS", "--sysroot=" +:+ VSCODE_SYSROOT_DIR);
   ("VSCODE_REMOTE_LDFLAGS", crossFlags lib VSCODE_SYSROOT_DIR)].

Definition crossToolchain (triple lib VSCODE_SYSROOT_DIR : string) : list (string * string) :=
  [("CC", VSCODE_SYSROOT_DIR +:+ "/../../bin/" +:+ triple +:+ "-gcc");
   ("CXX", VSCODE_SYSROOT_DIR +:+ "/../../bin/" +:+ triple +:+ "-g++");
   ("CXXFLAGS", "--sysroot=" +:+ VSCODE_SYSROOT_DIR);
   ("LDFLAGS", crossFlags lib VSCODE_SYSROOT_DIR)] ++
  remoteToolchain triple lib VSCODE_SYSROOT_DIR.

(** The variables of the clang toolchain of the build for [x64]. *)
Definition clangToolchain (VSCODE_SYSROOT_DIR : string) : list (string * string) :=
  [("CC", PWD +:+ "/.build/CR_Clang/bin/clang");
   ("CXX", PWD +:+ "/.build/CR_Clang/bin/clang++");
   ("CXXFLAGS",
    "-nostdinc++ -D__NO_INLINE__ -I" +:+ PWD +:+ "/.build/libcxx_headers -isystem" +:+ PWD +:+
    "/.build/libcxx_headers/include -isystem" +:+ PWD +:+
    "/.build/libcxxabi_headers/include -fPIC -flto=thin -fsplit-lto-unit " +:+
    "-D_LIBCPP_ABI_NAMESPACE=Cr --sysroot=" +:+ VSCODE_SYSROOT_DIR);
   ("LDFLAGS",
    "-stdlib=libc++ --sysroot=" +:+ VSCODE_SYSROOT_DIR +:+ " -fuse-ld=lld -flto=thin -L" +:+
    PWD +:+ "/.build/libcxx-objects -lc++abi -l" +:+ VSCODE_SYSROOT_DIR +:+
    "/usr/lib/x86_64-linux-gnu -l" +:+ VSCODE_SYSROOT_DIR +:+
    "/lib/x86_64-linux-gnu -Wl,--lto-O0")] ++
  remoteToolchain "x86_64-vscode-linux-gnu" "x86_64-linux-gnu" VSCODE_SYSROOT_DIR.

(** The variables that the libcxx fetcher is run with. *)
Definition libcxxEnv : list (string * string) :=
  [("DEBUG", "libcxx-fetcher");
   ("VSCODE_LIBCXX_OBJECTS_DIR", PWD +:+ "/.build/libcxx-objects");
   ("VSCODE_LIBCXX_HEADERS_DIR", PWD +:+ "/.build/libcxx_headers");
   ("VSCODE_LIBCXXABI_HEADERS_DIR", PWD +:+ "/.build/libcxxabi_headers");
   ("VSCODE_ARCH", npm_config_arch)].

(** The conditional on the architecture: the status of a command that
    failed, or 0 and the variables exported. *)
Definition toolchain (VSCODE_SYSROOT_DIR : string) (sh : Shell) : Z * Shell :=
  if String.eqb npm_config_arch "x64" then
    let sh := runCommand UpdateClang sh in
    if negb (update_py =? 0) then (update_py, sh)
    else
      let sh := runCommand (LibcxxFetcher libcxxEnv) sh in
      if negb (libcxx_fetcher =? 0) then (libcxx_fetcher, sh)
      else (0, fold_left export (clangToolchain VSCODE_SYSROOT_DIR) sh)
  else if String.eqb npm_config_arch "arm64" then
    (0, fold_left export
          (crossToolchain "aarch64-vscode-linux-gnu" "aarch64-linux-gnu" VSCODE_SYSROOT_DIR) sh)
  else if String.eqb npm_config_arch "arm" then
    (0, fold_left export
          (crossToolchain "arm-vscode-linux-gnueabihf" "arm-linux-gnueabihf" VSCODE_SYSROOT_DIR)
          sh)
  else (0, sh).

(** The loop around yarn, over the values of [i] that are left. *)
Fixpoint yarn_loop (values : list nat) (sh : Shell) : Z * Shell :=
  match values with
  | [] => (0, sh)
  | i :: values =>
      let sh := runCommand Yarn sh in
      if yarn i =? 0 then (0, sh)
      else if (i =? 3)%nat then (1, echo_err "Yarn failed too many times" sh)
      else yarn_loop values (echo ("Yarn failed " +:+ pretty i +:+ ", trying again...") sh)
  end.

(** The script: its exit status and its state at the end. *)
Definition install (sh : Shell) : option (Z * Shell) :=
  let sh := runCommand (YarnConfig NPM_REGISTRY) sh in
  if negb (yarn_config =? 0) then Some (yarn_config, sh)
  else
    '(status, VSCODE_SYSROOT_DIR, sh) ← sysrootCommand sh;
    if negb (status =? 0) then Some (status, sh)
    else
      let '(status, sh) := toolchain VSCODE_SYSROOT_DIR sh in
      if negb (status =? 0) then Some (status, sh)
      else Some (yarn_loop (seq 1 5) sh).

(** ** Reference definitions *)

(** The state after [n] failures of yarn that the loop reports and goes on
    from. *)
Fixpoint retried (n : nat) (i : nat) (sh : Shell) : Shell :=
  match n with
  | O => sh
  | S n => retried n (S i) (echo ("Yarn failed " +:+ pretty i +:+ ", trying again...")
                              (runCommand Yarn sh))
  end.

(** The first of the first three runs of yarn that succeeds. *)
Definition firstSuccess : option nat := List.find (fun i => yarn i =? 0) [1; 2; 3]%nat.

(** * Theorems *)

#[local] Abbreviation getVSCodeSysroot_ts :=
  (getVSCodeSysroot net sha256 dirname env_CI env_BUILD_ARTIFACTSTAGINGDIRECTORY
     env_GITHUB_TOKEN base64 parseAssets REPO_ROOT tmpdir sysrootRepository unpack).

(** The script ends: [node] returns, and the loop around yarn is bounded. *)
Lemma sysrootCommand_terminates sh : is_Some (sysrootCommand sh).
Proof.
  unfold sysrootCommand.
  destruct (js_getVSCodeSysroot_terminates net sha256 dirname env_CI
              env_BUILD_ARTIFACTSTAGINGDIRECTORY env_GITHUB_TOKEN base64 parseAssets REPO_ROOT
              tmpdir sysrootRepository unpack npm_config_arch (nodeSys sh)) as [[r s] ->].
  cbn. eauto.
Qed.

Lemma install_terminates sh : is_Some (install sh).
Proof.
  unfold install. destruct (negb (yarn_config =? 0)); [eauto|].
  destruct (sysrootCommand_terminates (runCommand (YarnConfig NPM_REGISTRY) sh))
    as [[[status dir] sh'] ->].
  cbn. destruct (negb (status =? 0)); [eauto|]. destruct (toolchain dir sh') as [status' sh''].
  destruct (negb (status' =? 0)); eauto.
Qed.

(** C31: the loop around yarn gives up at the third failure: yarn runs until
    it succeeds, three times at most, and the script fails when the third
    run fails.  The fourth and the fifth value of the loop are never
    reached. *)
Theorem yarn_loop_gives_up sh :
  yarn_loop (seq 1 5) sh =
    match firstSuccess with
    | Some i => (0, runCommand Yarn (retried (i - 1) 1 sh))
    | None => (1, echo_err "Yarn failed too many times" (runCommand Yarn (retried 2 1 sh)))
    end.
Proof.
  unfold firstSuccess. cbn.
  destruct (yarn 1 =? 0); [reflexivity|]. destruct (yarn 2 =? 0); [reflexivity|].
  destruct (yarn 3 =? 0); reflexivity.
Qed.

(** Yarn runs three times at most. *)
Lemma yarn_loop_runs sh :
  exists n, (1 <= n <= 3)%nat /\
            commands (yarn_loop (seq 1 5) sh).2 = commands sh ++ repeat Yarn n.
Proof.
  cbn. destruct (yarn 1 =? 0); [exists 1%nat; split; [lia | reflexivity]|].
  destruct (yarn 2 =? 0); [exists 2%nat; split; [lia | cbn; now rewrite <- app_assoc]|].
  exists 3%nat. split; [lia|]. destruct (yarn 3 =? 0); cbn; now rewrite <- !app_assoc.
Qed.

(** The path of the sysroot is longer than what the installer logs. *)
Lemma installedPath_log arch :
  "Installing " +:+ archName arch +:+ " root image: " +:+ sysrootDir tmpdir arch
  <> installedPath tmpdir arch.
Proof.
  intros Heq%(f_equal String.length). revert Heq. unfold installedPath.
  rewrite !length_append. destruct arch; cbn; lia.
Qed.

Lemma sysrootDir_not_empty arch : "" <> sysrootDir tmpdir arch.
Proof.
  intros Heq%(f_equal String.length). revert Heq. unfold sysrootDir, path_join.
  rewrite !length_append. cbn. lia.
Qed.

(** C28: [VSCODE_SYSROOT_DIR] is never the path of the sysroot.  When
    [getVSCodeSysroot] resolves, for an architecture that it knows, the
    variable holds what the function logged: nothing when the sysroot was
    installed already, the line that announces the installation otherwise;
    the path that the function resolved with is not printed. *)
Theorem sysrootCommand_never_path arch sh p s' status VSCODE_SYSROOT_DIR sh' :
  npm_config_arch = archName arch ->
  getVSCodeSysroot_ts arch (nodeSys sh) = Some (Resolved p, s') ->
  sysrootCommand sh = Some (status, VSCODE_SYSROOT_DIR, sh') ->
  status = 0 /\
  (VSCODE_SYSROOT_DIR = "" \/
   VSCODE_SYSROOT_DIR =
     "Installing " +:+ archName arch +:+ " root image: " +:+ sysrootDir tmpdir arch) /\
  VSCODE_SYSROOT_DIR <> p.
Proof.
  intros Harch Hts. unfold sysrootCommand. rewrite Harch, js_getVSCodeSysroot_archName, Hts. cbn.
  intros [= <- <- <-]. split; [reflexivity|].
  destruct (getVSCodeSysroot_console _ _ _ _ _ _ _ _ _ _ _ _ _ _ _ _ Hts) as [[-> ->]|[-> ->]]; cbn.
  - split; [now left | apply sysrootDir_not_empty].
  - split; [now right | apply installedPath_log].
Qed.

(** For an architecture that the installer does not know, [node] ends with
    a rejection and has written nothing: that no checksum was found for
    [undefined], or the error of [readFileSync] when there is no checksum
    file. *)
Lemma sysrootCommand_rejected sh entries :
  handled npm_config_arch = false ->
  Forall (fun e => noSpace e.1 = true /\ noSpace e.2 = true) entries ->
  Prelude.split "010" (default "" (readFileSync (checksumsPath REPO_ROOT) (files sh))) =
    (checksumLine <$> entries) ++ [""] ->
  exists e,
    sysrootCommand sh =
      Some (nodeStatus (Rejected e), "", runCommand (NodeSysroot npm_config_arch) sh).
Proof.
  intros Harch Hentries Hlines. unfold sysrootCommand, runCommand.
  destruct (readFileSync (checksumsPath REPO_ROOT) (files sh)) as [checksums|] eqn:Hread.
  - rewrite (js_getVSCodeSysroot_rejects net sha256 dirname env_CI
               env_BUILD_ARTIFACTSTAGINGDIRECTORY env_GITHUB_TOKEN base64 parseAssets REPO_ROOT
               tmpdir sysrootRepository unpack npm_config_arch (nodeSys sh) checksums entries
               Harch Hentries Hread Hlines).
    exists (NoChecksum "undefined"). cbn. now rewrite app_nil_r.
  - rewrite (js_getVSCodeSysroot_no_checksums net sha256 dirname env_CI
               env_BUILD_ARTIFACTSTAGINGDIRECTORY env_GITHUB_TOKEN base64 parseAssets REPO_ROOT
               tmpdir sysrootRepository unpack npm_config_arch (nodeSys sh) Hread).
    exists (ReadFailed (checksumsPath REPO_ROOT)). cbn. now rewrite app_nil_r.
Qed.

(** C29: for an architecture that the installer does not know, [x64] and
    [arm] among those of the pipeline, the script stops at the installation
    of the sysroot: with a checksum file as [sha256sum] prints it and a
    [node] that fails on a rejection that nobody handles, the script ends
    with the status of [node] after two commands, before it exports a
    variable or runs yarn. *)
Theorem install_unhandled_arch sh entries :
  handled npm_config_arch = false ->
  yarn_config = 0 ->
  unhandledRejection <> 0 ->
  Forall (fun e => noSpace e.1 = true /\ noSpace e.2 = true) entries ->
  Prelude.split "010" (default "" (readFileSync (checksumsPath REPO_ROOT) (files sh))) =
    (checksumLine <$> entries) ++ [""] ->
  install sh =
    Some (unhandledRejection,
          runCommand (NodeSysroot npm_config_arch) (runCommand (YarnConfig NPM_REGISTRY) sh)).
Proof.
  intros Harch Hconfig Hstatus Hentries Hlines.
  destruct (sysrootCommand_rejected (runCommand (YarnConfig NPM_REGISTRY) sh) entries
              Harch Hentries Hlines) as [e He].
  unfold install. rewrite Hconfig, He. cbn. apply Z.eqb_neq in Hstatus. now rewrite Hstatus.
Qed.

End Install.

(** * Examples *)

Definition example_shell (files : FS) : Shell := mkShell files emptyWorld [] [] [] [].

(** The script on the machine of the examples of [Sysroot], with a [node]
    that exits with 1 after a rejection and after an error of a stream,
    and programs that succeed. *)
Definition example_install (npm_config_arch : string) (yarn : nat -> Z) :=
  install example_net example_sha256 (fun s => s) None None None (fun s => s)
    example_parseAssets "/repo" "/tmp" "Microsoft/vscode-linux-build-agent" example_unpack
    "https://registry.example" npm_config_arch "/src" 1 1 0 0 0 yarn.

Definition example_sysrootCommand (npm_config_arch : string) :=
  sysrootCommand example_net example_sha256 (fun s => s) None None None (fun s => s)
    example_parseAssets "/repo" "/tmp" "Microsoft/vscode-linux-build-agent" example_unpack
    npm_config_arch 1 1.

(** Of the three architectures that the script distinguishes, the installer
    knows one. *)
Example handled_pipeline :
  handled "x64" = false /\ handled "arm64" = true /\ handled "arm" = false.
Proof. repeat split. Qed.

(** The build for [x64] stops at the second command. *)
Lemma install_unhandled_arch_witness :
  example_install "x64" (fun _ => 0) (example_shell (fs example_sys_newline)) =
    Some (1, runCommand (NodeSysroot "x64")
               (runCommand (YarnConfig "https://registry.example")
                  (example_shell (fs example_sys_newline)))).
Proof.
  apply (install_unhandled_arch example_net example_sha256 (fun s => s) None None None
           (fun s => s) example_parseAssets "/repo" "/tmp" "Microsoft/vscode-linux-build-agent"
           example_unpack "https://registry.example" "x64" "/src" 1 1 0 0 0 (fun _ => 0)
           (example_shell (fs example_sys_newline))
           [("bad", "aarch64-vscode-linux-gnu.tar.gz"); ("good", "x86_64-vscode-linux-gnu.tar.gz")]).
  - reflexivity.
  - reflexivity.
  - discriminate.
  - repeat constructor.
  - vm_compute. reflexivity.
Defined.

(** An installation for [amd64]: the variable holds the line of the log. *)
Lemma sysrootCommand_never_path_witness :
  0 = 0 /\
  ("Installing amd64 root image: /tmp/vscode-amd64-sysroot" = "" \/
   "Installing amd64 root image: /tmp/vscode-amd64-sysroot" =
     "Installing " +:+ archName amd64 +:+ " root image: " +:+ sysrootDir "/tmp" amd64) /\
  "Installing amd64 root image: /tmp/vscode-amd64-sysroot" <>
    "/tmp/vscode-amd64-sysroot/x86_64-vscode-linux-gnu/x86_64-vscode-linux-gnu/sysroot".
Proof.
  apply (sysrootCommand_never_path example_net example_sha256 (fun s => s) None None None
           (fun s => s) example_parseAssets "/repo" "/tmp" "Microsoft/vscode-linux-build-agent"
           example_unpack "amd64" 1 1 amd64 (example_shell (fs example_sys))
           "/tmp/vscode-amd64-sysroot/x86_64-vscode-linux-gnu/x86_64-vscode-linux-gnu/sysroot"
           example_installed 0 "Installing amd64 root image: /tmp/vscode-amd64-sysroot"
           (default (example_shell []) (snd <$> example_sysrootCommand "amd64"
                                                  (example_shell (fs example_sys))))).
  - reflexivity.
  - vm_compute. reflexivity.
  - vm_compute. reflexivity.
Defined.

(** A build for [arm64] on a machine where the sysroot is installed: the
    function resolves and logs nothing, and the flags name no sysroot. *)
Definition example_arm64_files : FS :=
  fs example_sys ++
  [("/tmp/vscode-arm64-sysroot/.stamp", RegularFile "aarch64-vscode-linux-gnu.tar.gz")].

Example install_arm64_cached :
  let result := example_install "arm64" (fun _ => 0) (example_shell example_arm64_files) in
  fst <$> result = Some 0 /\
  (map_get "CXXFLAGS" ∘ exported ∘ snd) <$> result = Some (Some "--sysroot=") /\
  (map_get "CC" ∘ exported ∘ snd) <$> result =
    Some (Some "/../../bin/aarch64-vscode-linux-gnu-gcc").
Proof. vm_compute. repeat split. Qed.

(** Yarn fails twice and succeeds: two messages, three runs. *)
Example yarn_loop_example :
  yarn_loop (fun i => if (i <? 3)%nat then 1 else 0) (seq 1 5) (example_shell []) =
    (0, mkShell [] emptyWorld []
          ["Yarn failed 1, trying again..."; "Yarn failed 2, trying again..."] []
          [Yarn; Yarn; Yarn]).
Proof. vm_compute. reflexivity. Qed.

(** Yarn fails three times: the runs that the comment of the loop promises
    are not made. *)
Example yarn_loop_fails :
  yarn_loop (fun i => if (i <? 4)%nat then 1 else 0) (seq 1 5) (example_shell []) =
    (1, mkShell [] emptyWorld []
          ["Yarn failed 1, trying again..."; "Yarn failed 2, trying again..."]
          ["Yarn failed too many times"] [Yarn; Yarn; Yarn]).
Proof. vm_compute. reflexivity. Qed.
